(** * Strawberry collection watcher: a shallow embedding of
      [src/collection/collectionwatcher.cpp] and the properties of its
      scan transaction, reconciliation walk, artwork selection, watch
      queue and periodic scheduler.

    Conventions of the embedding.
    - [QString] is [string]; a [QUrl] of a local file is the string of
      its local path, the empty string being the empty URL.
    - [qint64], [quint64] and [int] values are [Z]; where the source does
      arithmetic on them the wrap-around is written out ([u64], [int32]).
    - [QMap]/[QHash] are [gmap], [QSet] is [gset], [QList]/[QStringList]
      are [list] (order and duplicates matter for them).
    - Every collaborator the watcher calls (file system, tag reader,
      fingerprinter, cue parser, image decoder, collection backend) is a
      field of the record [Env]: a total function giving the answer the
      collaborator returns.  The answers do not change while one scan
      pass runs.
    - [stop_requested_] is a field of the watcher; it is read at every
      place the source reads it and keeps one value during a call.
    - Signals and calls to the task manager and the file-system watcher
      are appended to the ghost list [emitted]; the blocking probes of a
      walk (directory enumerations, image decodes, best-image selections,
      progress reports) are appended to the ghost list [trace] of the
      transaction. *)

From Stdlib Require Import ZArith Lia List Bool Ascii String.
From stdpp Require Import base gmap strings list fin_maps sorting.

Local Open Scope Z_scope.

(** ** Qt string operations used by the watcher *)

Module QString.

Definition isEmpty (s : string) : bool :=
  match s with EmptyString => true | String _ _ => false end.

(** [s.startsWith(p)] *)
Definition startsWith (s p : string) : bool := String.prefix p s.

Definition lower_ascii (c : ascii) : ascii :=
  let n := nat_of_ascii c in
  if ((65 <=? n)%nat && (n <=? 90)%nat)%bool then ascii_of_nat (n + 32) else c.

(** [s.toLower()] of a string of ASCII characters. *)
Fixpoint toLower (s : string) : string :=
  match s with
  | EmptyString => EmptyString
  | String c r => String (lower_ascii c) (toLower r)
  end.

(** [hay.contains(needle, Qt::CaseSensitive)] *)
Fixpoint contains (hay needle : string) : bool :=
  String.prefix needle hay ||
  match hay with
  | EmptyString => false
  | String _ r => contains r needle
  end.

(** [hay.contains(needle, Qt::CaseInsensitive)] of strings of ASCII
    characters; the worlds below, whose paths are ASCII, use it. *)
Definition contains_ci (hay needle : string) : bool :=
  contains (toLower hay) (toLower needle).

(** The part of [s] before the last [sep]; [None] when [s] has no [sep]
    ([lastIndexOf] returns -1). *)
Fixpoint before_last (sep : ascii) (s : string) : option string :=
  match s with
  | EmptyString => None
  | String c r =>
      match before_last sep r with
      | Some p => Some (String c p)
      | None => if Ascii.eqb c sep then Some EmptyString else None
      end
  end.

(** The part of [s] after the last [sep]; [None] when [s] has no [sep]. *)
Fixpoint after_last (sep : ascii) (s : string) : option string :=
  match s with
  | EmptyString => None
  | String c r =>
      match after_last sep r with
      | Some p => Some p
      | None => if Ascii.eqb c sep then Some r else None
      end
  end.

(** [s.section(sep, 0, -2)]: all fields but the last one. *)
Definition section_0_m2 (sep : ascii) (s : string) : string :=
  default EmptyString (before_last sep s).

(** [s.left(s.lastIndexOf(sep))]: [left] of a negative count is the
    whole string. *)
Definition left_lastIndexOf (sep : ascii) (s : string) : string :=
  default s (before_last sep s).

(** [QFileInfo(s).fileName()] *)
Definition fileName (s : string) : string :=
  default s (after_last "/"%char s).

(** [l.removeAll(x)] and [l.contains(x)] on a [QStringList]. *)
Definition removeAll (x : string) (l : list string) : list string :=
  filter (λ y, y ≠ x) l.

Definition list_contains (l : list string) (x : string) : bool :=
  existsb (String.eqb x) l.

End QString.

(** ** Machine integers *)

(** [quint64] arithmetic wraps modulo 2^64. *)
Definition u64 (z : Z) : Z := z mod 2 ^ 64.

(** [int] is 32 bits, two's complement. *)
Definition int32 (z : Z) : Z := (z + 2 ^ 31) mod 2 ^ 32 - 2 ^ 31.

(** [qint64] is 64 bits, two's complement. *)
Definition int64 (z : Z) : Z := (z + 2 ^ 63) mod 2 ^ 64 - 2 ^ 63.

(** ** Data model *)

(** Modelled from the spec: the [Song] class (song.h is not part of the
    sources at hand).  A SongRecord has an id assigned by the persistence
    layer (-1 if unseen), a source path, the owning root, content
    metadata, a modification time, a fingerprint (empty: not computed,
    "NONE": computation failed), an availability flag, an optional cue
    sheet, automatic and manual artwork and user-editable fields.  The
    content metadata and the user-editable fields are kept as one opaque
    value each. *)
Module Song.

Record t := mk {
  id : Z;
  valid : bool;
  source : Z;
  url : string;
  directory_id : Z;
  mtime : Z;
  fingerprint : string;
  unavailable : bool;
  cue_path : string;
  art_automatic : string;
  art_manual : string;
  embedded_cover : bool;
  beginning_nanosec : Z;
  metadata : string;
  user_data : Z
}.

(** [Song song(source_)] *)
Definition init (src : Z) : t :=
  mk (-1) false src EmptyString (-1) (-1) EmptyString false EmptyString
     EmptyString EmptyString false 0 EmptyString 0.

Definition is_valid (s : t) : bool := valid s.
Definition is_unavailable (s : t) : bool := unavailable s.
Definition has_cue (s : t) : bool := negb (QString.isEmpty (cue_path s)).
Definition has_embedded_cover (s : t) : bool := embedded_cover s.

Definition set_id (v : Z) (s : t) : t :=
  mk v (valid s) (source s) (url s) (directory_id s) (mtime s) (fingerprint s)
     (unavailable s) (cue_path s) (art_automatic s) (art_manual s)
     (embedded_cover s) (beginning_nanosec s) (metadata s) (user_data s).

Definition set_source (v : Z) (s : t) : t :=
  mk (id s) (valid s) v (url s) (directory_id s) (mtime s) (fingerprint s)
     (unavailable s) (cue_path s) (art_automatic s) (art_manual s)
     (embedded_cover s) (beginning_nanosec s) (metadata s) (user_data s).

Definition set_url (v : string) (s : t) : t :=
  mk (id s) (valid s) (source s) v (directory_id s) (mtime s) (fingerprint s)
     (unavailable s) (cue_path s) (art_automatic s) (art_manual s)
     (embedded_cover s) (beginning_nanosec s) (metadata s) (user_data s).

Definition set_directory_id (v : Z) (s : t) : t :=
  mk (id s) (valid s) (source s) (url s) v (mtime s) (fingerprint s)
     (unavailable s) (cue_path s) (art_automatic s) (art_manual s)
     (embedded_cover s) (beginning_nanosec s) (metadata s) (user_data s).

Definition set_fingerprint (v : string) (s : t) : t :=
  mk (id s) (valid s) (source s) (url s) (directory_id s) (mtime s) v
     (unavailable s) (cue_path s) (art_automatic s) (art_manual s)
     (embedded_cover s) (beginning_nanosec s) (metadata s) (user_data s).

Definition set_art_automatic (v : string) (s : t) : t :=
  mk (id s) (valid s) (source s) (url s) (directory_id s) (mtime s) (fingerprint s)
     (unavailable s) (cue_path s) v (art_manual s)
     (embedded_cover s) (beginning_nanosec s) (metadata s) (user_data s).

Definition set_user_data (v : Z) (s : t) : t :=
  mk (id s) (valid s) (source s) (url s) (directory_id s) (mtime s) (fingerprint s)
     (unavailable s) (cue_path s) (art_automatic s) (art_manual s)
     (embedded_cover s) (beginning_nanosec s) (metadata s) v.

Definition set_mtime (v : Z) (s : t) : t :=
  mk (id s) (valid s) (source s) (url s) (directory_id s) v (fingerprint s)
     (unavailable s) (cue_path s) (art_automatic s) (art_manual s)
     (embedded_cover s) (beginning_nanosec s) (metadata s) (user_data s).

Definition set_unavailable (v : bool) (s : t) : t :=
  mk (id s) (valid s) (source s) (url s) (directory_id s) (mtime s) (fingerprint s)
     v (cue_path s) (art_automatic s) (art_manual s)
     (embedded_cover s) (beginning_nanosec s) (metadata s) (user_data s).

(** Modelled from the spec: [Song::operator==].  Songs of one root are
    told apart by their path, cue sections of one file by their
    beginning offset. *)
Definition eqb (a b : t) : bool :=
  (source a =? source b) && String.eqb (url a) (url b)
  && (beginning_nanosec a =? beginning_nanosec b).

(** Modelled from the spec: [Song::IsMetadataEqual], full metadata
    equality. *)
Definition IsMetadataEqual (a b : t) : bool :=
  String.eqb (metadata a) (metadata b)
  && (beginning_nanosec a =? beginning_nanosec b)
  && String.eqb (cue_path a) (cue_path b).

(** Modelled from the spec: [Song::IsMetadataAndMoreEqual], the metadata
    and the rest of what a scan reads from the file. *)
Definition IsMetadataAndMoreEqual (a b : t) : bool :=
  IsMetadataEqual a b
  && String.eqb (fingerprint a) (fingerprint b)
  && (mtime a =? mtime b)
  && String.eqb (art_automatic a) (art_automatic b)
  && String.eqb (art_manual a) (art_manual b).

(** Modelled from the spec: [Song::MergeUserSetData], the user-editable
    fields of the stored record survive the re-scan. *)
Definition MergeUserSetData (matching out : t) : t :=
  set_user_data (user_data matching) out.

(** [songs.contains(s)] and [songs.removeAll(s)] on a [SongList]. *)
Definition list_contains (l : list t) (s : t) : bool := existsb (eqb s) l.
Definition removeAll (s : t) (l : list t) : list t :=
  List.filter (λ x, negb (eqb x s)) l.

End Song.

Module Subdirectory.

Record t := mk {
  directory_id : Z;
  path : string;
  mtime : Z
}.

(** [Subdirectory()]: no owning root yet, never seen. *)
Definition init : t := mk (-1) EmptyString 0.

End Subdirectory.

Module Directory.

Record t := mk {
  path : string;
  id : Z
}.

(** Modelled from the spec: [Directory::operator==], a watched root is
    its id and its path. *)
Definition eqb (a b : t) : bool :=
  String.eqb (path a) (path b) && (id a =? id b).

End Directory.

(** A decoded [QImage]: its width and height. A file that does not decode
    gives a null image, [None] below. *)
Record QImage := { img_width : Z; img_height : Z }.

(** The collection backend, as the watcher reads it. *)
Record Backend := {
  FindSongsInDirectory : Z → list Song.t;
  SongsWithMissingFingerprint : Z → list Song.t;
  SubdirsInDirectory : Z → list Subdirectory.t;
  GetSongsByUrl : string → list Song.t;
  GetSongsByFingerprint : string → list Song.t
}.

(** Everything outside the watcher. *)
Record Env := {
  (* QFile, QFileInfo, QDir, QDirIterator *)
  fs_exists : string → bool;
  fs_isSymLink : string → bool;
  fs_symLinkTarget : string → string;
  fs_isDir : string → bool;
  fs_isHidden : string → bool;
  (* lastModified().toSecsSinceEpoch() and lastModified().isValid() *)
  fs_lastModified : string → Z;
  fs_lastModifiedValid : string → bool;
  (* the children QDirIterator(path, Dirs|Files|Hidden|NoDotAndDotDot) yields *)
  fs_entries : string → list string;
  (* QDir(path).exists(name) *)
  fs_dir_exists : string → string → bool;
  (* QFile(path).open(QIODevice::ReadOnly) *)
  fs_open : string → bool;
  (* TagReaderClient *)
  IsMediaFileBlocking : string → bool;
  ReadFileBlocking : string → Song.t → Song.t;
  (* Chromaprinter(file).CreateFingerprint(), compiled in with HAVE_MUSICBRAINZ *)
  HAVE_MUSICBRAINZ : bool;
  CreateFingerprint : string → string;
  (* CueParser::Load(&cue, matching_cue, path) *)
  cue_Load : string → string → list Song.t;
  (* QImage(path) *)
  QImage_load : string → option QImage;
  (* collectionwatcher.h: the inline path helpers and the image suffixes *)
  DirectoryPart : string → string;
  ExtensionPart : string → string;
  NoExtensionPart : string → string;
  sValidImages : list string;
  (* QString::contains(str, Qt::CaseInsensitive) and
     QString::normalized(QString::NormalizationForm_D) *)
  contains_CaseInsensitive : string → string → bool;
  normalized_NFD : string → string;
  (* QDateTime::currentDateTime().toSecsSinceEpoch() *)
  now : Z;
  backend : Backend
}.

(** Signals of the watcher and calls to the task manager and to the
    file-system watcher, in the order they happen. *)
Inductive Signal :=
| ScanStarted (task : Z)
| SongsUnavailable (songs : list Song.t)
| SongsDeleted (songs : list Song.t)
| NewOrUpdatedSongs (songs : list Song.t)
| SongsMTimeUpdated (songs : list Song.t)
| SongsReadded (songs : list Song.t)
| SubdirsDiscovered (subdirs : list Subdirectory.t)
| SubdirsMTimeUpdated (subdirs : list Subdirectory.t)
| UpdateLastSeen (dir : Z) (days : Z)
| CompilationsNeedUpdating
| StartTask (task : Z)
| SetTaskFinished (task : Z)
| WatcherAddPath (path : string)
| WatcherRemovePath (path : string)
| RescanTimerStart.

(** Blocking probes made during a walk. *)
Inductive Probe :=
| Enumerate (path : string)
| PickBest (images : list string)
| Decode (image : string)
| SetTaskProgress (task : Z) (progress progress_max : Z).

(** [CollectionWatcher::ScanTransaction] *)
Record ScanTransaction := {
  deleted_songs : list Song.t;
  readded_songs : list Song.t;
  new_songs : list Song.t;
  touched_songs : list Song.t;
  new_subdirs : list Subdirectory.t;
  touched_subdirs : list Subdirectory.t;
  deleted_subdirs : list Subdirectory.t;
  files_changed_path_ : list string;
  task_id_ : Z;
  progress_ : Z;
  progress_max_ : Z;
  dir_ : Z;
  incremental_ : bool;
  ignores_mtime_ : bool;
  mark_songs_unavailable_ : bool;
  expire_unavailable_songs_days_ : Z;
  cached_songs_ : list Song.t;
  cached_songs_dirty_ : bool;
  cached_songs_missing_fingerprint_ : list Song.t;
  cached_songs_missing_fingerprint_dirty_ : bool;
  known_subdirs_ : list Subdirectory.t;
  known_subdirs_dirty_ : bool;
  trace : list Probe
}.

(** [CollectionWatcher], the members the scan logic reads or writes. *)
Record CollectionWatcher := {
  source_ : Z;
  scan_on_startup_ : bool;
  monitor_ : bool;
  song_tracking_ : bool;
  w_mark_songs_unavailable_ : bool;
  w_expire_unavailable_songs_days_ : Z;
  stop_requested_ : bool;
  rescan_paused_ : bool;
  watched_dirs_ : gmap Z Directory.t;
  subdir_mapping_ : gmap string Directory.t;
  rescan_queue_ : gmap Z (list string);
  best_image_filters_ : list string;
  last_scan_time_ : Z;
  next_task_ : Z;
  emitted : list Signal
}.

(** Field updates, written out: [t.f = v].  The three lazily filled caches of
    the transaction are only ever stored together with their dirty flag
    cleared, so their setters clear it. *)

Definition set_deleted_songs (v : list Song.t) (t : ScanTransaction) : ScanTransaction :=
  {| deleted_songs := v;
     readded_songs := readded_songs t;
     new_songs := new_songs t;
     touched_songs := touched_songs t;
     new_subdirs := new_subdirs t;
     touched_subdirs := touched_subdirs t;
     deleted_subdirs := deleted_subdirs t;
     files_changed_path_ := files_changed_path_ t;
     task_id_ := task_id_ t;
     progress_ := progress_ t;
     progress_max_ := progress_max_ t;
     dir_ := dir_ t;
     incremental_ := incremental_ t;
     ignores_mtime_ := ignores_mtime_ t;
     mark_songs_unavailable_ := mark_songs_unavailable_ t;
     expire_unavailable_songs_days_ := expire_unavailable_songs_days_ t;
     cached_songs_ := cached_songs_ t;
     cached_songs_dirty_ := cached_songs_dirty_ t;
     cached_songs_missing_fingerprint_ := cached_songs_missing_fingerprint_ t;
     cached_songs_missing_fingerprint_dirty_ := cached_songs_missing_fingerprint_dirty_ t;
     known_subdirs_ := known_subdirs_ t;
     known_subdirs_dirty_ := known_subdirs_dirty_ t;
     trace := trace t |}.

Definition set_readded_songs (v : list Song.t) (t : ScanTransaction) : ScanTransaction :=
  {| deleted_songs := deleted_songs t;
     readded_songs := v;
     new_songs := new_songs t;
     touched_songs := touched_songs t;
     new_subdirs := new_subdirs t;
     touched_subdirs := touched_subdirs t;
     deleted_subdirs := deleted_subdirs t;
     files_changed_path_ := files_changed_path_ t;
     task_id_ := task_id_ t;
     progress_ := progress_ t;
     progress_max_ := progress_max_ t;
     dir_ := dir_ t;
     incremental_ := incremental_ t;
     ignores_mtime_ := ignores_mtime_ t;
     mark_songs_unavailable_ := mark_songs_unavailable_ t;
     expire_unavailable_songs_days_ := expire_unavailable_songs_days_ t;
     cached_songs_ := cached_songs_ t;
     cached_songs_dirty_ := cached_songs_dirty_ t;
     cached_songs_missing_fingerprint_ := cached_songs_missing_fingerprint_ t;
     cached_songs_missing_fingerprint_dirty_ := cached_songs_missing_fingerprint_dirty_ t;
     known_subdirs_ := known_subdirs_ t;
     known_subdirs_dirty_ := known_subdirs_dirty_ t;
     trace := trace t |}.

Definition set_new_songs (v : list Song.t) (t : ScanTransaction) : ScanTransaction :=
  {| deleted_songs := deleted_songs t;
     readded_songs := readded_songs t;
     new_songs := v;
     touched_songs := touched_songs t;
     new_subdirs := new_subdirs t;
     touched_subdirs := touched_subdirs t;
     deleted_subdirs := deleted_subdirs t;
     files_changed_path_ := files_changed_path_ t;
     task_id_ := task_id_ t;
     progress_ := progress_ t;
     progress_max_ := progress_max_ t;
     dir_ := dir_ t;
     incremental_ := incremental_ t;
     ignores_mtime_ := ignores_mtime_ t;
     mark_songs_unavailable_ := mark_songs_unavailable_ t;
     expire_unavailable_songs_days_ := expire_unavailable_songs_days_ t;
     cached_songs_ := cached_songs_ t;
     cached_songs_dirty_ := cached_songs_dirty_ t;
     cached_songs_missing_fingerprint_ := cached_songs_missing_fingerprint_ t;
     cached_songs_missing_fingerprint_dirty_ := cached_songs_missing_fingerprint_dirty_ t;
     known_subdirs_ := known_subdirs_ t;
     known_subdirs_dirty_ := known_subdirs_dirty_ t;
     trace := trace t |}.

Definition set_touched_songs (v : list Song.t) (t : ScanTransaction) : ScanTransaction :=
  {| deleted_songs := deleted_songs t;
     readded_songs := readded_songs t;
     new_songs := new_songs t;
     touched_songs := v;
     new_subdirs := new_subdirs t;
     touched_subdirs := touched_subdirs t;
     deleted_subdirs := deleted_subdirs t;
     files_changed_path_ := files_changed_path_ t;
     task_id_ := task_id_ t;
     progress_ := progress_ t;
     progress_max_ := progress_max_ t;
     dir_ := dir_ t;
     incremental_ := incremental_ t;
     ignores_mtime_ := ignores_mtime_ t;
     mark_songs_unavailable_ := mark_songs_unavailable_ t;
     expire_unavailable_songs_days_ := expire_unavailable_songs_days_ t;
     cached_songs_ := cached_songs_ t;
     cached_songs_dirty_ := cached_songs_dirty_ t;
     cached_songs_missing_fingerprint_ := cached_songs_missing_fingerprint_ t;
     cached_songs_missing_fingerprint_dirty_ := cached_songs_missing_fingerprint_dirty_ t;
     known_subdirs_ := known_subdirs_ t;
     known_subdirs_dirty_ := known_subdirs_dirty_ t;
     trace := trace t |}.

Definition set_new_subdirs (v : list Subdirectory.t) (t : ScanTransaction) : ScanTransaction :=
  {| deleted_songs := deleted_songs t;
     readded_songs := readded_songs t;
     new_songs := new_songs t;
     touched_songs := touched_songs t;
     new_subdirs := v;
     touched_subdirs := touched_subdirs t;
     deleted_subdirs := deleted_subdirs t;
     files_changed_path_ := files_changed_path_ t;
     task_id_ := task_id_ t;
     progress_ := progress_ t;
     progress_max_ := progress_max_ t;
     dir_ := dir_ t;
     incremental_ := incremental_ t;
     ignores_mtime_ := ignores_mtime_ t;
     mark_songs_unavailable_ := mark_songs_unavailable_ t;
     expire_unavailable_songs_days_ := expire_unavailable_songs_days_ t;
     cached_songs_ := cached_songs_ t;
     cached_songs_dirty_ := cached_songs_dirty_ t;
     cached_songs_missing_fingerprint_ := cached_songs_missing_fingerprint_ t;
     cached_songs_missing_fingerprint_dirty_ := cached_songs_missing_fingerprint_dirty_ t;
     known_subdirs_ := known_subdirs_ t;
     known_subdirs_dirty_ := known_subdirs_dirty_ t;
     trace := trace t |}.

Definition set_touched_subdirs (v : list Subdirectory.t) (t : ScanTransaction) : ScanTransaction :=
  {| deleted_songs := deleted_songs t;
     readded_songs := readded_songs t;
     new_songs := new_songs t;
     touched_songs := touched_songs t;
     new_subdirs := new_subdirs t;
     touched_subdirs := v;
     deleted_subdirs := deleted_subdirs t;
     files_changed_path_ := files_changed_path_ t;
     task_id_ := task_id_ t;
     progress_ := progress_ t;
     progress_max_ := progress_max_ t;
     dir_ := dir_ t;
     incremental_ := incremental_ t;
     ignores_mtime_ := ignores_mtime_ t;
     mark_songs_unavailable_ := mark_songs_unavailable_ t;
     expire_unavailable_songs_days_ := expire_unavailable_songs_days_ t;
     cached_songs_ := cached_songs_ t;
     cached_songs_dirty_ := cached_songs_dirty_ t;
     cached_songs_missing_fingerprint_ := cached_songs_missing_fingerprint_ t;
     cached_songs_missing_fingerprint_dirty_ := cached_songs_missing_fingerprint_dirty_ t;
     known_subdirs_ := known_subdirs_ t;
     known_subdirs_dirty_ := known_subdirs_dirty_ t;
     trace := trace t |}.

Definition set_deleted_subdirs (v : list Subdirectory.t) (t : ScanTransaction) : ScanTransaction :=
  {| deleted_songs := deleted_songs t;
     readded_songs := readded_songs t;
     new_songs := new_songs t;
     touched_songs := touched_songs t;
     new_subdirs := new_subdirs t;
     touched_subdirs := touched_subdirs t;
     deleted_subdirs := v;
     files_changed_path_ := files_changed_path_ t;
     task_id_ := task_id_ t;
     progress_ := progress_ t;
     progress_max_ := progress_max_ t;
     dir_ := dir_ t;
     incremental_ := incremental_ t;
     ignores_mtime_ := ignores_mtime_ t;
     mark_songs_unavailable_ := mark_songs_unavailable_ t;
     expire_unavailable_songs_days_ := expire_unavailable_songs_days_ t;
     cached_songs_ := cached_songs_ t;
     cached_songs_dirty_ := cached_songs_dirty_ t;
     cached_songs_missing_fingerprint_ := cached_songs_missing_fingerprint_ t;
     cached_songs_missing_fingerprint_dirty_ := cached_songs_missing_fingerprint_dirty_ t;
     known_subdirs_ := known_subdirs_ t;
     known_subdirs_dirty_ := known_subdirs_dirty_ t;
     trace := trace t |}.

Definition set_files_changed_path_ (v : list string) (t : ScanTransaction) : ScanTransaction :=
  {| deleted_songs := deleted_songs t;
     readded_songs := readded_songs t;
     new_songs := new_songs t;
     touched_songs := touched_songs t;
     new_subdirs := new_subdirs t;
     touched_subdirs := touched_subdirs t;
     deleted_subdirs := deleted_subdirs t;
     files_changed_path_ := v;
     task_id_ := task_id_ t;
     progress_ := progress_ t;
     progress_max_ := progress_max_ t;
     dir_ := dir_ t;
     incremental_ := incremental_ t;
     ignores_mtime_ := ignores_mtime_ t;
     mark_songs_unavailable_ := mark_songs_unavailable_ t;
     expire_unavailable_songs_days_ := expire_unavailable_songs_days_ t;
     cached_songs_ := cached_songs_ t;
     cached_songs_dirty_ := cached_songs_dirty_ t;
     cached_songs_missing_fingerprint_ := cached_songs_missing_fingerprint_ t;
     cached_songs_missing_fingerprint_dirty_ := cached_songs_missing_fingerprint_dirty_ t;
     known_subdirs_ := known_subdirs_ t;
     known_subdirs_dirty_ := known_subdirs_dirty_ t;
     trace := trace t |}.

Definition set_progress_ (v : Z) (t : ScanTransaction) : ScanTransaction :=
  {| deleted_songs := deleted_songs t;
     readded_songs := readded_songs t;
     new_songs := new_songs t;
     touched_songs := touched_songs t;
     new_subdirs := new_subdirs t;
     touched_subdirs := touched_subdirs t;
     deleted_subdirs := deleted_subdirs t;
     files_changed_path_ := files_changed_path_ t;
     task_id_ := task_id_ t;
     progress_ := v;
     progress_max_ := progress_max_ t;
     dir_ := dir_ t;
     incremental_ := incremental_ t;
     ignores_mtime_ := ignores_mtime_ t;
     mark_songs_unavailable_ := mark_songs_unavailable_ t;
     expire_unavailable_songs_days_ := expire_unavailable_songs_days_ t;
     cached_songs_ := cached_songs_ t;
     cached_songs_dirty_ := cached_songs_dirty_ t;
     cached_songs_missing_fingerprint_ := cached_songs_missing_fingerprint_ t;
     cached_songs_missing_fingerprint_dirty_ := cached_songs_missing_fingerprint_dirty_ t;
     known_subdirs_ := known_subdirs_ t;
     known_subdirs_dirty_ := known_subdirs_dirty_ t;
     trace := trace t |}.

Definition set_progress_max_ (v : Z) (t : ScanTransaction) : ScanTransaction :=
  {| deleted_songs := deleted_songs t;
     readded_songs := readded_songs t;
     new_songs := new_songs t;
     touched_songs := touched_songs t;
     new_subdirs := new_subdirs t;
     touched_subdirs := touched_subdirs t;
     deleted_subdirs := deleted_subdirs t;
     files_changed_path_ := files_changed_path_ t;
     task_id_ := task_id_ t;
     progress_ := progress_ t;
     progress_max_ := v;
     dir_ := dir_ t;
     incremental_ := incremental_ t;
     ignores_mtime_ := ignores_mtime_ t;
     mark_songs_unavailable_ := mark_songs_unavailable_ t;
     expire_unavailable_songs_days_ := expire_unavailable_songs_days_ t;
     cached_songs_ := cached_songs_ t;
     cached_songs_dirty_ := cached_songs_dirty_ t;
     cached_songs_missing_fingerprint_ := cached_songs_missing_fingerprint_ t;
     cached_songs_missing_fingerprint_dirty_ := cached_songs_missing_fingerprint_dirty_ t;
     known_subdirs_ := known_subdirs_ t;
     known_subdirs_dirty_ := known_subdirs_dirty_ t;
     trace := trace t |}.

Definition set_cached_songs_ (v : list Song.t) (t : ScanTransaction) : ScanTransaction :=
  {| deleted_songs := deleted_songs t;
     readded_songs := readded_songs t;
     new_songs := new_songs t;
     touched_songs := touched_songs t;
     new_subdirs := new_subdirs t;
     touched_subdirs := touched_subdirs t;
     deleted_subdirs := deleted_subdirs t;
     files_changed_path_ := files_changed_path_ t;
     task_id_ := task_id_ t;
     progress_ := progress_ t;
     progress_max_ := progress_max_ t;
     dir_ := dir_ t;
     incremental_ := incremental_ t;
     ignores_mtime_ := ignores_mtime_ t;
     mark_songs_unavailable_ := mark_songs_unavailable_ t;
     expire_unavailable_songs_days_ := expire_unavailable_songs_days_ t;
     cached_songs_ := v;
     cached_songs_dirty_ := false;
     cached_songs_missing_fingerprint_ := cached_songs_missing_fingerprint_ t;
     cached_songs_missing_fingerprint_dirty_ := cached_songs_missing_fingerprint_dirty_ t;
     known_subdirs_ := known_subdirs_ t;
     known_subdirs_dirty_ := known_subdirs_dirty_ t;
     trace := trace t |}.

Definition set_cached_songs_missing_fingerprint_ (v : list Song.t) (t : ScanTransaction) : ScanTransaction :=
  {| deleted_songs := deleted_songs t;
     readded_songs := readded_songs t;
     new_songs := new_songs t;
     touched_songs := touched_songs t;
     new_subdirs := new_subdirs t;
     touched_subdirs := touched_subdirs t;
     deleted_subdirs := deleted_subdirs t;
     files_changed_path_ := files_changed_path_ t;
     task_id_ := task_id_ t;
     progress_ := progress_ t;
     progress_max_ := progress_max_ t;
     dir_ := dir_ t;
     incremental_ := incremental_ t;
     ignores_mtime_ := ignores_mtime_ t;
     mark_songs_unavailable_ := mark_songs_unavailable_ t;
     expire_unavailable_songs_days_ := expire_unavailable_songs_days_ t;
     cached_songs_ := cached_songs_ t;
     cached_songs_dirty_ := cached_songs_dirty_ t;
     cached_songs_missing_fingerprint_ := v;
     cached_songs_missing_fingerprint_dirty_ := false;
     known_subdirs_ := known_subdirs_ t;
     known_subdirs_dirty_ := known_subdirs_dirty_ t;
     trace := trace t |}.

Definition set_known_subdirs_ (v : list Subdirectory.t) (t : ScanTransaction) : ScanTransaction :=
  {| deleted_songs := deleted_songs t;
     readded_songs := readded_songs t;
     new_songs := new_songs t;
     touched_songs := touched_songs t;
     new_subdirs := new_subdirs t;
     touched_subdirs := touched_subdirs t;
     deleted_subdirs := deleted_subdirs t;
     files_changed_path_ := files_changed_path_ t;
     task_id_ := task_id_ t;
     progress_ := progress_ t;
     progress_max_ := progress_max_ t;
     dir_ := dir_ t;
     incremental_ := incremental_ t;
     ignores_mtime_ := ignores_mtime_ t;
     mark_songs_unavailable_ := mark_songs_unavailable_ t;
     expire_unavailable_songs_days_ := expire_unavailable_songs_days_ t;
     cached_songs_ := cached_songs_ t;
     cached_songs_dirty_ := cached_songs_dirty_ t;
     cached_songs_missing_fingerprint_ := cached_songs_missing_fingerprint_ t;
     cached_songs_missing_fingerprint_dirty_ := cached_songs_missing_fingerprint_dirty_ t;
     known_subdirs_ := v;
     known_subdirs_dirty_ := false;
     trace := trace t |}.

Definition set_trace (v : list Probe) (t : ScanTransaction) : ScanTransaction :=
  {| deleted_songs := deleted_songs t;
     readded_songs := readded_songs t;
     new_songs := new_songs t;
     touched_songs := touched_songs t;
     new_subdirs := new_subdirs t;
     touched_subdirs := touched_subdirs t;
     deleted_subdirs := deleted_subdirs t;
     files_changed_path_ := files_changed_path_ t;
     task_id_ := task_id_ t;
     progress_ := progress_ t;
     progress_max_ := progress_max_ t;
     dir_ := dir_ t;
     incremental_ := incremental_ t;
     ignores_mtime_ := ignores_mtime_ t;
     mark_songs_unavailable_ := mark_songs_unavailable_ t;
     expire_unavailable_songs_days_ := expire_unavailable_songs_days_ t;
     cached_songs_ := cached_songs_ t;
     cached_songs_dirty_ := cached_songs_dirty_ t;
     cached_songs_missing_fingerprint_ := cached_songs_missing_fingerprint_ t;
     cached_songs_missing_fingerprint_dirty_ := cached_songs_missing_fingerprint_dirty_ t;
     known_subdirs_ := known_subdirs_ t;
     known_subdirs_dirty_ := known_subdirs_dirty_ t;
     trace := v |}.

Definition set_stop_requested_ (v : bool) (w : CollectionWatcher) : CollectionWatcher :=
  {| source_ := source_ w;
     scan_on_startup_ := scan_on_startup_ w;
     monitor_ := monitor_ w;
     song_tracking_ := song_tracking_ w;
     w_mark_songs_unavailable_ := w_mark_songs_unavailable_ w;
     w_expire_unavailable_songs_days_ := w_expire_unavailable_songs_days_ w;
     stop_requested_ := v;
     rescan_paused_ := rescan_paused_ w;
     watched_dirs_ := watched_dirs_ w;
     subdir_mapping_ := subdir_mapping_ w;
     rescan_queue_ := rescan_queue_ w;
     best_image_filters_ := best_image_filters_ w;
     last_scan_time_ := last_scan_time_ w;
     next_task_ := next_task_ w;
     emitted := emitted w |}.

Definition set_subdir_mapping_ (v : gmap string Directory.t) (w : CollectionWatcher) : CollectionWatcher :=
  {| source_ := source_ w;
     scan_on_startup_ := scan_on_startup_ w;
     monitor_ := monitor_ w;
     song_tracking_ := song_tracking_ w;
     w_mark_songs_unavailable_ := w_mark_songs_unavailable_ w;
     w_expire_unavailable_songs_days_ := w_expire_unavailable_songs_days_ w;
     stop_requested_ := stop_requested_ w;
     rescan_paused_ := rescan_paused_ w;
     watched_dirs_ := watched_dirs_ w;
     subdir_mapping_ := v;
     rescan_queue_ := rescan_queue_ w;
     best_image_filters_ := best_image_filters_ w;
     last_scan_time_ := last_scan_time_ w;
     next_task_ := next_task_ w;
     emitted := emitted w |}.

Definition set_rescan_queue_ (v : gmap Z (list string)) (w : CollectionWatcher) : CollectionWatcher :=
  {| source_ := source_ w;
     scan_on_startup_ := scan_on_startup_ w;
     monitor_ := monitor_ w;
     song_tracking_ := song_tracking_ w;
     w_mark_songs_unavailable_ := w_mark_songs_unavailable_ w;
     w_expire_unavailable_songs_days_ := w_expire_unavailable_songs_days_ w;
     stop_requested_ := stop_requested_ w;
     rescan_paused_ := rescan_paused_ w;
     watched_dirs_ := watched_dirs_ w;
     subdir_mapping_ := subdir_mapping_ w;
     rescan_queue_ := v;
     best_image_filters_ := best_image_filters_ w;
     last_scan_time_ := last_scan_time_ w;
     next_task_ := next_task_ w;
     emitted := emitted w |}.

Definition set_last_scan_time_ (v : Z) (w : CollectionWatcher) : CollectionWatcher :=
  {| source_ := source_ w;
     scan_on_startup_ := scan_on_startup_ w;
     monitor_ := monitor_ w;
     song_tracking_ := song_tracking_ w;
     w_mark_songs_unavailable_ := w_mark_songs_unavailable_ w;
     w_expire_unavailable_songs_days_ := w_expire_unavailable_songs_days_ w;
     stop_requested_ := stop_requested_ w;
     rescan_paused_ := rescan_paused_ w;
     watched_dirs_ := watched_dirs_ w;
     subdir_mapping_ := subdir_mapping_ w;
     rescan_queue_ := rescan_queue_ w;
     best_image_filters_ := best_image_filters_ w;
     last_scan_time_ := v;
     next_task_ := next_task_ w;
     emitted := emitted w |}.

Definition set_next_task_ (v : Z) (w : CollectionWatcher) : CollectionWatcher :=
  {| source_ := source_ w;
     scan_on_startup_ := scan_on_startup_ w;
     monitor_ := monitor_ w;
     song_tracking_ := song_tracking_ w;
     w_mark_songs_unavailable_ := w_mark_songs_unavailable_ w;
     w_expire_unavailable_songs_days_ := w_expire_unavailable_songs_days_ w;
     stop_requested_ := stop_requested_ w;
     rescan_paused_ := rescan_paused_ w;
     watched_dirs_ := watched_dirs_ w;
     subdir_mapping_ := subdir_mapping_ w;
     rescan_queue_ := rescan_queue_ w;
     best_image_filters_ := best_image_filters_ w;
     last_scan_time_ := last_scan_time_ w;
     next_task_ := v;
     emitted := emitted w |}.

Definition set_emitted (v : list Signal) (w : CollectionWatcher) : CollectionWatcher :=
  {| source_ := source_ w;
     scan_on_startup_ := scan_on_startup_ w;
     monitor_ := monitor_ w;
     song_tracking_ := song_tracking_ w;
     w_mark_songs_unavailable_ := w_mark_songs_unavailable_ w;
     w_expire_unavailable_songs_days_ := w_expire_unavailable_songs_days_ w;
     stop_requested_ := stop_requested_ w;
     rescan_paused_ := rescan_paused_ w;
     watched_dirs_ := watched_dirs_ w;
     subdir_mapping_ := subdir_mapping_ w;
     rescan_queue_ := rescan_queue_ w;
     best_image_filters_ := best_image_filters_ w;
     last_scan_time_ := last_scan_time_ w;
     next_task_ := next_task_ w;
     emitted := v |}.

Definition set_watched_dirs_ (v : gmap Z Directory.t) (w : CollectionWatcher) : CollectionWatcher :=
  {| source_ := source_ w;
     scan_on_startup_ := scan_on_startup_ w;
     monitor_ := monitor_ w;
     song_tracking_ := song_tracking_ w;
     w_mark_songs_unavailable_ := w_mark_songs_unavailable_ w;
     w_expire_unavailable_songs_days_ := w_expire_unavailable_songs_days_ w;
     stop_requested_ := stop_requested_ w;
     rescan_paused_ := rescan_paused_ w;
     watched_dirs_ := v;
     subdir_mapping_ := subdir_mapping_ w;
     rescan_queue_ := rescan_queue_ w;
     best_image_filters_ := best_image_filters_ w;
     last_scan_time_ := last_scan_time_ w;
     next_task_ := next_task_ w;
     emitted := emitted w |}.

(** ** The watcher's operations *)

Definition kNoMediaFile : string := ".nomedia".
Definition kNoMusicFile : string := ".nomusic".

Definition emit (s : Signal) (w : CollectionWatcher) : CollectionWatcher :=
  set_emitted (emitted w ++ [s]) w.

Definition probe (p : list Probe) (t : ScanTransaction) : ScanTransaction :=
  set_trace (trace t ++ p) t.

(** [QMap::values()]: the values in ascending key order. *)
Definition key_le {A} (a b : Z * A) : Prop := a.1 ≤ b.1.

#[global] Instance key_le_dec {A} (a b : Z * A) : Decision (key_le a b) :=
  Z_le_dec a.1 b.1.

Definition QMap_values {A} (m : gmap Z A) : list A :=
  (merge_sort key_le (map_to_list m)).*2.

(** [QHash::keys(value)]: the keys mapped to a value equal to [d]. *)
Definition QHash_keys (m : gmap string Directory.t) (d : Directory.t) : list string :=
  (List.filter (λ kv : string * Directory.t, Directory.eqb kv.2 d) (map_to_list m)).*1.

Definition nonempty {A} (l : list A) : bool :=
  match l with [] => false | _ :: _ => true end.

(** A loop either runs on with its state or leaves [ScanSubdirectory]
    with the transaction as it stands. *)
Inductive Flow (A : Type) :=
| Next (a : A)
| Return (t : ScanTransaction).
Arguments Next {A} a.
Arguments Return {A} t.

Section Watcher.

Context (E : Env).

(** *** ScanTransaction: progress and cached queries *)

Definition AddToProgress (n : Z) (t : ScanTransaction) : ScanTransaction :=
  let t := set_progress_ (u64 (progress_ t + n)) t in
  probe [SetTaskProgress (task_id_ t) (progress_ t) (progress_max_ t)] t.

Definition AddToProgressMax (n : Z) (t : ScanTransaction) : ScanTransaction :=
  let t := set_progress_max_ (u64 (progress_max_ t + n)) t in
  probe [SetTaskProgress (task_id_ t) (progress_ t) (progress_max_ t)] t.

Definition in_directory (path : string) (song : Song.t) : bool :=
  String.eqb (QString.section_0_m2 "/" (Song.url song)) path.

Definition FindSongsInSubdirectory (path : string) (t : ScanTransaction)
  : list Song.t * ScanTransaction :=
  let t := if cached_songs_dirty_ t
           then set_cached_songs_ (FindSongsInDirectory (backend E) (dir_ t)) t
           else t in
  (List.filter (in_directory path) (cached_songs_ t), t).

Definition HasSongsWithMissingFingerprint (path : string) (t : ScanTransaction)
  : bool * ScanTransaction :=
  let t := if cached_songs_missing_fingerprint_dirty_ t
           then set_cached_songs_missing_fingerprint_
                  (SongsWithMissingFingerprint (backend E) (dir_ t)) t
           else t in
  (existsb (in_directory path) (cached_songs_missing_fingerprint_ t), t).

Definition SetKnownSubdirs (subdirs : list Subdirectory.t) (t : ScanTransaction)
  : ScanTransaction :=
  set_known_subdirs_ subdirs t.

Definition populate_known_subdirs (t : ScanTransaction) : ScanTransaction :=
  if known_subdirs_dirty_ t
  then SetKnownSubdirs (SubdirsInDirectory (backend E) (dir_ t)) t
  else t.

Definition HasSeenSubdir (path : string) (t : ScanTransaction)
  : bool * ScanTransaction :=
  let t := populate_known_subdirs t in
  (existsb (λ subdir, String.eqb (Subdirectory.path subdir) path
                      && negb (Subdirectory.mtime subdir =? 0))
           (known_subdirs_ t), t).

Definition GetImmediateSubdirs (path : string) (t : ScanTransaction)
  : list Subdirectory.t * ScanTransaction :=
  let t := populate_known_subdirs t in
  (List.filter (λ subdir,
      String.eqb (QString.left_lastIndexOf "/" (Subdirectory.path subdir)) path
      && negb (Subdirectory.mtime subdir =? 0))
     (known_subdirs_ t), t).

Definition GetAllSubdirs (t : ScanTransaction)
  : list Subdirectory.t * ScanTransaction :=
  let t := populate_known_subdirs t in
  (known_subdirs_ t, t).

(** *** Artwork selection *)

(** The filter loop of [PickBestImage]: the matches of each term are
    appended to [filtered]; the loop is left as soon as [filtered] is not
    empty. *)
Fixpoint filter_images (filters images filtered : list string) : list string :=
  match filters with
  | [] => filtered
  | filter_text :: rest =>
      let filtered :=
        filtered ++ List.filter
          (λ image, contains_CaseInsensitive E (QString.fileName image) filter_text)
          images in
      if nonempty filtered then filtered else filter_images rest images filtered
  end.

(** The size loop of [PickBestImage]. *)
Fixpoint pick_biggest (stop : bool) (paths : list string)
    (biggest_size : Z) (biggest_path : string) (probes : list Probe)
  : string * list Probe :=
  match paths with
  | [] => (biggest_path, probes)
  | path :: rest =>
      if stop then (biggest_path, probes)
      else
        match QImage_load E path with
        | None => pick_biggest stop rest biggest_size biggest_path (probes ++ [Decode path])
        | Some image =>
            let size := int32 (img_width image * img_height image) in
            if biggest_size <? size
            then pick_biggest stop rest size path (probes ++ [Decode path])
            else pick_biggest stop rest biggest_size biggest_path (probes ++ [Decode path])
        end
  end.

(** [filtered] as the size loop finds it: the matches of the first term
    that matches, or the original list when the filter was too
    restrictive. *)
Definition image_candidates (w : CollectionWatcher) (images : list string)
  : list string :=
  let filtered := filter_images (best_image_filters_ w) images [] in
  if nonempty filtered then filtered else images.

Definition PickBestImage (w : CollectionWatcher) (images : list string)
  : string * list Probe :=
  pick_biggest (stop_requested_ w) (image_candidates w images) 0 EmptyString [].

Definition ImageForSong (w : CollectionWatcher) (path : string)
    (album_art : gmap string (list string))
  : string * gmap string (list string) * list Probe :=
  let dir := DirectoryPart E path in
  match album_art !! dir with
  | Some images =>
      if (length images =? 1)%nat
      then (List.hd EmptyString images, album_art, [])
      else
        let '(best_image, probes) := PickBestImage w images in
        (best_image, <[dir := [best_image]]> album_art, PickBest images :: probes)
  | None => (EmptyString, album_art, [])
  end.

(** *** Watch set *)

Definition AddWatch (dir : Directory.t) (path : string) (w : CollectionWatcher)
  : CollectionWatcher :=
  if negb (fs_exists E path) then w
  else
    let w := emit (WatcherAddPath path) w in
    set_subdir_mapping_ (<[path := dir]> (subdir_mapping_ w)) w.

Definition RemoveWatch (dir : Directory.t) (subdir : Subdirectory.t)
    (w : CollectionWatcher) : CollectionWatcher :=
  let subdir_paths := QHash_keys (subdir_mapping_ w) dir in
  if QString.list_contains subdir_paths (Subdirectory.path subdir)
  then
    let w := emit (WatcherRemovePath (Subdirectory.path subdir)) w in
    set_subdir_mapping_ (delete (Subdirectory.path subdir) (subdir_mapping_ w)) w
  else w.

(** *** ScanTransaction: construction, commit, destruction *)

Definition ScanTransaction_new (w : CollectionWatcher) (dir : Z)
    (incremental ignores_mtime mark_songs_unavailable : bool)
  : CollectionWatcher * ScanTransaction :=
  let task_id := next_task_ w in
  let w := set_next_task_ (task_id + 1) w in
  let w := emit (StartTask task_id) w in
  let w := emit (ScanStarted task_id) w in
  (w,
   {| deleted_songs := []; readded_songs := []; new_songs := [];
      touched_songs := []; new_subdirs := []; touched_subdirs := [];
      deleted_subdirs := []; files_changed_path_ := [];
      task_id_ := task_id; progress_ := 0; progress_max_ := 0;
      dir_ := dir; incremental_ := incremental;
      ignores_mtime_ := ignores_mtime;
      mark_songs_unavailable_ := mark_songs_unavailable;
      expire_unavailable_songs_days_ := 60;
      cached_songs_ := []; cached_songs_dirty_ := true;
      cached_songs_missing_fingerprint_ := [];
      cached_songs_missing_fingerprint_dirty_ := true;
      known_subdirs_ := []; known_subdirs_dirty_ := true;
      trace := [] |}).

Definition emit_unless_empty {A} (sig : list A → Signal) (l : list A)
    (w : CollectionWatcher) : CollectionWatcher :=
  if nonempty l then emit (sig l) w else w.

Definition clear_deltas (t : ScanTransaction) : ScanTransaction :=
  set_new_subdirs [] (set_deleted_subdirs [] (set_touched_subdirs []
    (set_readded_songs [] (set_touched_songs [] (set_new_songs []
      (set_deleted_songs [] t)))))).

Definition CommitNewOrUpdatedSongs (w : CollectionWatcher) (t : ScanTransaction)
  : CollectionWatcher * ScanTransaction :=
  let w := if nonempty (deleted_songs t)
           then if mark_songs_unavailable_ t
                then emit (SongsUnavailable (deleted_songs t)) w
                else emit (SongsDeleted (deleted_songs t)) w
           else w in
  let w := emit_unless_empty NewOrUpdatedSongs (new_songs t) w in
  let w := emit_unless_empty SongsMTimeUpdated (touched_songs t) w in
  let w := emit_unless_empty SongsReadded (readded_songs t) w in
  let w := emit_unless_empty SubdirsDiscovered (new_subdirs t) w in
  let w := emit_unless_empty SubdirsMTimeUpdated (touched_subdirs t) w in
  let w := fold_left (λ w subdir,
               match watched_dirs_ w !! dir_ t with
               | Some dir => RemoveWatch dir subdir w
               | None => w
               end) (deleted_subdirs t) w in
  let w := if monitor_ w
           then fold_left (λ w subdir,
               match watched_dirs_ w !! dir_ t with
               | Some dir => AddWatch dir (Subdirectory.path subdir) w
               | None => w
               end) (new_subdirs t) w
           else w in
  let w := emit (UpdateLastSeen (dir_ t) (expire_unavailable_songs_days_ t)) w in
  (w, clear_deltas t).

(** [~ScanTransaction] *)
Definition ScanTransaction_destroy (w : CollectionWatcher) (t : ScanTransaction)
  : CollectionWatcher :=
  let w := if negb (stop_requested_ w)
           then (CommitNewOrUpdatedSongs w t).1
           else w in
  emit (SetTaskFinished (task_id_ t)) w.

(** *** Matching a file against the database *)

Definition FindSongByPath (songs : list Song.t) (path : string) : option Song.t :=
  List.find (λ song, String.eqb (Song.url song) path) songs.

Definition FindSongByFingerprint (file fingerprint : string) : option Song.t :=
  List.find (λ song,
      let filename := Song.url song in
      String.eqb file filename || negb (fs_exists E filename))
    (GetSongsByFingerprint (backend E) fingerprint).

(** The overload over a given song list. *)
Definition FindSongByFingerprint_in (file : string) (songs : list Song.t)
    (fingerprint : string) : option Song.t :=
  List.find (λ song,
      let filename := Song.url song in
      String.eqb (Song.fingerprint song) fingerprint
      && (String.eqb file filename || negb (fs_exists E filename)))
    songs.

Definition GetMtimeForCue (cue_path : string) : Z :=
  if QString.isEmpty cue_path then 0
  else if negb (fs_exists E cue_path) then 0
  else if fs_lastModifiedValid E cue_path then fs_lastModified E cue_path
  else 0.

(** The fingerprint block compiled under [HAVE_MUSICBRAINZ]. *)
Definition file_fingerprint (w : CollectionWatcher) (file : string) : string :=
  if HAVE_MUSICBRAINZ E && song_tracking_ w
  then
    let fingerprint := CreateFingerprint E file in
    if QString.isEmpty fingerprint then "NONE" else fingerprint
  else EmptyString.

(** *** Filing a re-read song *)

Definition PreserveUserSetData (matching_song : Song.t) (image : string)
    (out : Song.t) : Song.t :=
  let out := Song.set_id (Song.id matching_song) out in
  let out := if negb (Song.has_embedded_cover out)
             then Song.set_art_automatic image out else out in
  Song.MergeUserSetData matching_song out.

Definition UpdateSong (matching_song out : Song.t) (t : ScanTransaction)
  : ScanTransaction :=
  if Song.is_unavailable matching_song
  then set_new_songs (new_songs t ++ [out]) t
  else if negb (Song.IsMetadataEqual matching_song out)
  then set_new_songs (new_songs t ++ [out]) t
  else if negb (String.eqb (Song.fingerprint matching_song) (Song.fingerprint out))
  then set_new_songs (new_songs t ++ [out]) t
  else if negb (String.eqb (Song.art_automatic matching_song) (Song.art_automatic out))
          || negb (String.eqb (Song.art_manual matching_song) (Song.art_manual out))
  then set_new_songs (new_songs t ++ [out]) t
  else if negb (Song.mtime matching_song =? Song.mtime out)
  then set_touched_songs (touched_songs t ++ [out]) t
  else set_touched_songs (touched_songs t ++ [out]) t.

(** One round of the loop over the sections the cue parser returns. *)
Definition update_cue_section (w : CollectionWatcher) (fingerprint image : string)
    (sections_map : gmap Z Song.t)
    (st : ScanTransaction * gset Z) (cue_song : Song.t)
  : ScanTransaction * gset Z :=
  let '(t, used_ids) := st in
  let cue_song := Song.set_source (source_ w) cue_song in
  let cue_song := Song.set_directory_id (dir_ t) cue_song in
  let cue_song := Song.set_fingerprint fingerprint cue_song in
  let matching := default (Song.init 0)
                    (sections_map !! Song.beginning_nanosec cue_song) in
  if negb (Song.is_valid matching)
  then (set_new_songs (new_songs t ++ [cue_song]) t, used_ids)
  else
    let cue_song := PreserveUserSetData matching image cue_song in
    (UpdateSong matching cue_song t, {[Song.id matching]} ∪ used_ids).

Definition UpdateCueAssociatedSongs (w : CollectionWatcher)
    (file path fingerprint matching_cue image : string) (t : ScanTransaction)
  : ScanTransaction :=
  if negb (fs_exists E matching_cue) || negb (fs_open E matching_cue) then t
  else
    let old_sections := GetSongsByUrl (backend E) file in
    let sections_map : gmap Z Song.t :=
      fold_left (λ m song, <[Song.beginning_nanosec song := song]> m)
                old_sections ∅ in
    let '(t, used_ids) :=
      fold_left (update_cue_section w fingerprint image sections_map)
                (cue_Load E matching_cue path) (t, ∅) in
    fold_left (λ t matching,
        if negb (bool_decide (Song.id matching ∈ used_ids))
        then set_deleted_songs (deleted_songs t ++ [matching]) t
        else t) old_sections t.

Definition UpdateNonCueAssociatedSong (w : CollectionWatcher)
    (file fingerprint : string) (matching_song : Song.t) (image : string)
    (cue_deleted : bool) (t : ScanTransaction) : ScanTransaction :=
  let t :=
    if cue_deleted
    then fold_left (λ t song,
             if negb (Song.IsMetadataAndMoreEqual song matching_song)
             then set_deleted_songs (deleted_songs t ++ [song]) t
             else t) (GetSongsByUrl (backend E) file) t
    else t in
  let song_on_disk := Song.init (source_ w) in
  let song_on_disk := Song.set_directory_id (dir_ t) song_on_disk in
  let song_on_disk := ReadFileBlocking E file song_on_disk in
  if Song.is_valid song_on_disk
  then
    let song_on_disk := Song.set_source (source_ w) song_on_disk in
    let song_on_disk := Song.set_fingerprint fingerprint song_on_disk in
    let song_on_disk := PreserveUserSetData matching_song image song_on_disk in
    UpdateSong matching_song song_on_disk t
  else t.

Definition ScanNewFile (w : CollectionWatcher)
    (file path fingerprint matching_cue : string) (cues_processed : gset string)
  : list Song.t * gset string :=
  let matching_cue_mtime := GetMtimeForCue matching_cue in
  if negb (matching_cue_mtime =? 0)
  then
    if bool_decide (matching_cue ∈ cues_processed) then ([], cues_processed)
    else if negb (fs_exists E matching_cue) || negb (fs_open E matching_cue)
    then ([], cues_processed)
    else
      let file_nfd := normalized_NFD E file in
      let songs :=
        fold_left (λ songs cue_song,
            let cue_song := Song.set_source (source_ w) cue_song in
            let cue_song := Song.set_fingerprint fingerprint cue_song in
            if String.eqb (normalized_NFD E (Song.url cue_song)) file_nfd
            then if IsMediaFileBlocking E file then songs ++ [cue_song] else songs
            else songs) (cue_Load E matching_cue path) [] in
      if nonempty songs then (songs, {[matching_cue]} ∪ cues_processed)
      else (songs, cues_processed)
  else
    let song := ReadFileBlocking E file (Song.init (source_ w)) in
    if Song.is_valid song
    then
      let song := Song.set_source (source_ w) song in
      let song := Song.set_fingerprint fingerprint song in
      ([song], cues_processed)
    else ([], cues_processed).

(** *** The reconciliation walk *)

(** The two branches that file a matched record again: through the cue
    sheet, or as a plain file. *)
Definition update_matched (w : CollectionWatcher)
    (file path fingerprint matching_cue image : string)
    (matching_song : Song.t) (cue_deleted cue_added : bool)
    (t : ScanTransaction) : ScanTransaction :=
  if negb cue_deleted && (Song.has_cue matching_song || cue_added)
  then UpdateCueAssociatedSongs w file path fingerprint matching_cue image t
  else UpdateNonCueAssociatedSong w file fingerprint matching_song image cue_deleted t.

Definition Listing : Type :=
  ScanTransaction * gmap string (list string) * list string * list Subdirectory.t.

(** The loop over the [QDirIterator]: [album_art], [files_on_disk] and
    [my_new_subdirs] are filled. *)
Fixpoint enumerate_children (w : CollectionWatcher) (children : list string)
    (st : Listing) : Flow Listing :=
  match children with
  | [] => Next st
  | child :: rest =>
      let '(t, album_art, files_on_disk, my_new_subdirs) := st in
      if stop_requested_ w then Return t
      else if fs_isDir E child
      then
        let '(my_new_subdirs, t) :=
          if negb (fs_isHidden E child)
          then
            let '(seen, t) := HasSeenSubdir child t in
            if negb seen
            then (my_new_subdirs ++
                    [Subdirectory.mk (-1) child (fs_lastModified E child)], t)
            else (my_new_subdirs, t)
          else (my_new_subdirs, t) in
        enumerate_children w rest
          (AddToProgress 1 t, album_art, files_on_disk, my_new_subdirs)
      else
        let ext_part := ExtensionPart E child in
        let dir_part := DirectoryPart E child in
        if QString.list_contains (sValidImages E) ext_part
        then
          let album_art :=
            <[dir_part := default [] (album_art !! dir_part) ++ [child]]> album_art in
          enumerate_children w rest
            (AddToProgress 1 t, album_art, files_on_disk, my_new_subdirs)
        else if IsMediaFileBlocking E child
        then enumerate_children w rest
               (t, album_art, files_on_disk ++ [child], my_new_subdirs)
        else enumerate_children w rest
               (AddToProgress 1 t, album_art, files_on_disk, my_new_subdirs)
  end.

Definition FileLoop : Type :=
  ScanTransaction * list string * gmap string (list string) * gset string.

Definition art_changed (matching_song : Song.t) (image : string) : bool :=
  (QString.isEmpty (Song.art_automatic matching_song) && negb (QString.isEmpty image))
  || (negb (QString.isEmpty (Song.art_automatic matching_song))
      && negb (Song.has_embedded_cover matching_song)
      && negb (fs_exists E (Song.art_automatic matching_song))).

(** The body of the loop over [files_on_disk_copy], after its stop check. *)
Definition scan_file (w : CollectionWatcher) (path : string)
    (songs_in_db : list Song.t) (file : string) (st : FileLoop) : FileLoop :=
  let '(t, files_on_disk, album_art, cues_processed) := st in
  let matching_cue := (NoExtensionPart E file +:+ ".cue")%string in
  match FindSongByPath songs_in_db file with
  | Some matching_song =>
      if negb (fs_exists E file)
      then (AddToProgress 1 t, QString.removeAll file files_on_disk,
            album_art, cues_processed)
      else
        let song_cue_mtime := GetMtimeForCue (Song.cue_path matching_song) in
        let cue_deleted := (song_cue_mtime =? 0) && Song.has_cue matching_song in
        let matching_cue_mtime := GetMtimeForCue matching_cue in
        let cue_added :=
          negb (matching_cue_mtime =? 0) && negb (Song.has_cue matching_song) in
        let changed :=
          negb (Song.mtime matching_song
                =? Z.max (fs_lastModified E file) song_cue_mtime)
          || cue_deleted || cue_added in
        let '(image, album_art, probes) := ImageForSong w file album_art in
        let t := probe probes t in
        let changed := changed || art_changed matching_song image in
        let missing_fingerprint :=
          HAVE_MUSICBRAINZ E && song_tracking_ w
          && QString.isEmpty (Song.fingerprint matching_song) in
        let t :=
          if ignores_mtime_ t || changed || missing_fingerprint
          then update_matched w file path (file_fingerprint w file) matching_cue
                 image matching_song cue_deleted cue_added t
          else t in
        let t := if Song.is_unavailable matching_song
                 then set_readded_songs (readded_songs t ++ [matching_song]) t
                 else t in
        (AddToProgress 1 t, files_on_disk, album_art, cues_processed)
  | None =>
      let fingerprint := file_fingerprint w file in
      match (if song_tracking_ w && negb (QString.isEmpty fingerprint)
                && negb (String.eqb fingerprint "NONE")
             then FindSongByFingerprint file fingerprint else None) with
      | Some matching_song =>
          let t := set_files_changed_path_
                     (files_changed_path_ t ++ [Song.url matching_song]) t in
          let t := if Song.list_contains (deleted_songs t) matching_song
                   then set_deleted_songs
                          (Song.removeAll matching_song (deleted_songs t)) t
                   else t in
          let matching_song := Song.set_url file matching_song in
          if negb (fs_exists E file)
          then (AddToProgress 1 t, QString.removeAll file files_on_disk,
                album_art, cues_processed)
          else
            let song_cue_mtime := GetMtimeForCue (Song.cue_path matching_song) in
            let cue_deleted := (song_cue_mtime =? 0) && Song.has_cue matching_song in
            let matching_cue_mtime := GetMtimeForCue matching_cue in
            let cue_added :=
              negb (matching_cue_mtime =? 0) && negb (Song.has_cue matching_song) in
            let '(image, album_art, probes) := ImageForSong w file album_art in
            let t := probe probes t in
            let t := update_matched w file path fingerprint matching_cue
                       image matching_song cue_deleted cue_added t in
            let t := if Song.is_unavailable matching_song
                     then set_readded_songs (readded_songs t ++ [matching_song]) t
                     else t in
            (AddToProgress 1 t, files_on_disk, album_art, cues_processed)
      | None =>
          let '(songs, cues_processed) :=
            ScanNewFile w file path fingerprint matching_cue cues_processed in
          if negb (nonempty songs)
          then (AddToProgress 1 t, files_on_disk, album_art, cues_processed)
          else
            let '(image, album_art, probes) := ImageForSong w file album_art in
            let t := probe probes t in
            let t :=
              fold_left (λ t song,
                  let song := Song.set_directory_id (dir_ t) song in
                  let song := if QString.isEmpty (Song.art_automatic song)
                              then Song.set_art_automatic image song else song in
                  set_new_songs (new_songs t ++ [song]) t) songs t in
            (AddToProgress 1 t, files_on_disk, album_art, cues_processed)
      end
  end.

Fixpoint scan_files (w : CollectionWatcher) (path : string)
    (songs_in_db : list Song.t) (files_on_disk_copy : list string)
    (st : FileLoop) : Flow FileLoop :=
  match files_on_disk_copy with
  | [] => Next st
  | file :: rest =>
      if stop_requested_ w then Return st.1.1.1
      else scan_files w path songs_in_db rest (scan_file w path songs_in_db file st)
  end.

(** The loop "Look for deleted songs". *)
Definition look_for_deleted (songs_in_db : list Song.t)
    (files_on_disk : list string) (t : ScanTransaction) : ScanTransaction :=
  fold_left (λ t song,
      let file := Song.url song in
      if negb (Song.is_unavailable song)
         && negb (QString.list_contains files_on_disk file)
         && negb (QString.list_contains (files_changed_path_ t) file)
      then set_deleted_songs (deleted_songs t ++ [song]) t
      else t) songs_in_db t.

(** "Add this subdir to the new or touched list". *)
Definition add_subdir_record (path : string) (subdir : Subdirectory.t)
    (t : ScanTransaction) : ScanTransaction :=
  let updated_subdir :=
    Subdirectory.mk (dir_ t) path
      (if fs_exists E path then fs_lastModified E path else 0) in
  let t := if Subdirectory.directory_id subdir =? -1
           then set_new_subdirs (new_subdirs t ++ [updated_subdir]) t
           else set_touched_subdirs (touched_subdirs t ++ [updated_subdir]) t in
  if Subdirectory.mtime updated_subdir =? 0
  then set_deleted_subdirs (deleted_subdirs t ++ [updated_subdir]) t
  else t.

(** The loop over [previous_subdirs]: a known child that is gone from
    disk is rescanned to collect its deleted songs. *)
Fixpoint rescan_removed
    (rec : string → Subdirectory.t → ScanTransaction → option ScanTransaction)
    (path : string) (previous_subdirs : list Subdirectory.t)
    (t : ScanTransaction) : option ScanTransaction :=
  match previous_subdirs with
  | [] => Some t
  | prev_subdir :: rest =>
      if negb (fs_exists E (Subdirectory.path prev_subdir))
         && negb (String.eqb (Subdirectory.path prev_subdir) path)
      then
        match rec (Subdirectory.path prev_subdir) prev_subdir t with
        | Some t => rescan_removed rec path rest t
        | None => None
        end
      else rescan_removed rec path rest t
  end.

(** The loop over [my_new_subdirs]. *)
Fixpoint scan_new_subdirs
    (rec : string → Subdirectory.t → ScanTransaction → option ScanTransaction)
    (stop : bool) (my_new_subdirs : list Subdirectory.t)
    (t : ScanTransaction) : option ScanTransaction :=
  match my_new_subdirs with
  | [] => Some t
  | my_new_subdir :: rest =>
      if stop then Some t
      else
        match rec (Subdirectory.path my_new_subdir) my_new_subdir t with
        | Some t => scan_new_subdirs rec stop rest t
        | None => None
        end
  end.

Definition symlink_into_collection (w : CollectionWatcher) (path : string) : bool :=
  fs_isSymLink E path
  && existsb (λ dir, QString.startsWith (fs_symLinkTarget E path) (Directory.path dir))
             (QMap_values (watched_dirs_ w)).

Definition has_nomedia_marker (path : string) : bool :=
  fs_dir_exists E path kNoMediaFile || fs_dir_exists E path kNoMusicFile.

(** [songs_missing_fingerprint], looked up only with song tracking. *)
Definition songs_missing_fingerprint (w : CollectionWatcher) (path : string)
    (t : ScanTransaction) : bool * ScanTransaction :=
  if HAVE_MUSICBRAINZ E && song_tracking_ w
  then HasSongsWithMissingFingerprint path t
  else (false, t).

(** "The directory hasn't changed since last time". *)
Definition unchanged_since_last_time (path : string) (subdir : Subdirectory.t)
    (t : ScanTransaction) (force_noincremental missing : bool) : bool :=
  negb (ignores_mtime_ t) && negb force_noincremental && incremental_ t
  && (Subdirectory.mtime subdir =? fs_lastModified E path)
  && negb missing.

(** [ScanSubdirectory].  The recursion follows the directory tree and the
    ledger; [fuel] bounds its depth and [None] is "out of fuel". *)
Fixpoint ScanSubdirectory (fuel : nat) (w : CollectionWatcher) (path : string)
    (subdir : Subdirectory.t) (files_count : Z) (t : ScanTransaction)
    (force_noincremental : bool) {struct fuel} : option ScanTransaction :=
  match fuel with
  | O => None
  | S fuel' =>
      if symlink_into_collection w path then Some t
      else if has_nomedia_marker path then Some t
      else
        let '(missing, t) := songs_missing_fingerprint w path t in
        if unchanged_since_last_time path subdir t force_noincremental missing
        then Some (AddToProgress files_count t)
        else
          let '(previous_subdirs, t) := GetImmediateSubdirs path t in
          match rescan_removed (λ p s t, ScanSubdirectory fuel' w p s 0 t true)
                               path previous_subdirs t with
          | None => None
          | Some t =>
              match enumerate_children w (fs_entries E path)
                      (probe [Enumerate path] t, ∅, [], []) with
              | Return t => Some t
              | Next (t, album_art, files_on_disk, my_new_subdirs) =>
                  if stop_requested_ w then Some t
                  else
                    let '(songs_in_db, t) := FindSongsInSubdirectory path t in
                    match scan_files w path songs_in_db files_on_disk
                            (t, files_on_disk, album_art, ∅) with
                    | Return t => Some t
                    | Next (t, files_on_disk, _, _) =>
                        let t := look_for_deleted songs_in_db files_on_disk t in
                        let t := add_subdir_record path subdir t in
                        scan_new_subdirs
                          (λ p s t, ScanSubdirectory fuel' w p s 0 t true)
                          (stop_requested_ w) my_new_subdirs t
                    end
              end
          end
  end.

(** *** Progress estimates *)

(** The loop of [FilesCountForPath] over the [QDirIterator].  The marker
    test there is the static [QFileInfo::exists(name)]. *)
Fixpoint count_children
    (rec : string → ScanTransaction → option (Z * ScanTransaction))
    (stop : bool) (children : list string) (i : Z) (t : ScanTransaction)
  : option (Z * ScanTransaction) :=
  match children with
  | [] => Some (i, t)
  | child :: rest =>
      if stop then Some (i, t)
      else if fs_isDir E child
      then
        if fs_exists E kNoMediaFile || fs_exists E kNoMusicFile
        then count_children rec stop rest i t
        else
          let '(seen, t) := HasSeenSubdir child t in
          if negb seen && negb (fs_isHidden E child)
          then
            match rec child t with
            | Some (n, t) => count_children rec stop rest (u64 (u64 (i + n) + 1)) t
            | None => None
            end
          else count_children rec stop rest (u64 (i + 1)) t
      else count_children rec stop rest (u64 (i + 1)) t
  end.

Fixpoint FilesCountForPath (fuel : nat) (w : CollectionWatcher) (path : string)
    (t : ScanTransaction) {struct fuel} : option (Z * ScanTransaction) :=
  match fuel with
  | O => None
  | S fuel' =>
      count_children (FilesCountForPath fuel' w) (stop_requested_ w)
        (fs_entries E path) 0 (probe [Enumerate path] t)
  end.

Fixpoint FilesCountForSubdirs_loop (fuel : nat) (w : CollectionWatcher)
    (subdirs : list Subdirectory.t) (i : Z) (subdir_files_count : gmap string Z)
    (t : ScanTransaction) : option (Z * gmap string Z * ScanTransaction) :=
  match subdirs with
  | [] => Some (i, subdir_files_count, t)
  | subdir :: rest =>
      if stop_requested_ w then Some (i, subdir_files_count, t)
      else
        match FilesCountForPath fuel w (Subdirectory.path subdir) t with
        | Some (files_count, t) =>
            FilesCountForSubdirs_loop fuel w rest (u64 (i + files_count))
              (<[Subdirectory.path subdir := files_count]> subdir_files_count) t
        | None => None
        end
  end.

Definition FilesCountForSubdirs (fuel : nat) (w : CollectionWatcher)
    (subdirs : list Subdirectory.t) (subdir_files_count : gmap string Z)
    (t : ScanTransaction) : option (Z * gmap string Z * ScanTransaction) :=
  FilesCountForSubdirs_loop fuel w subdirs 0 subdir_files_count t.

(** *** Scheduler *)

(** The loop of [PerformScan] over the subdirectories of one root. *)
Fixpoint scan_subdirs (fuel : nat) (w : CollectionWatcher)
    (subdir_files_count : gmap string Z) (subdirs : list Subdirectory.t)
    (t : ScanTransaction) : option ScanTransaction :=
  match subdirs with
  | [] => Some t
  | subdir :: rest =>
      if stop_requested_ w then Some t
      else
        match ScanSubdirectory fuel w (Subdirectory.path subdir) subdir
                (default 0 (subdir_files_count !! Subdirectory.path subdir))
                t false with
        | Some t => scan_subdirs fuel w subdir_files_count rest t
        | None => None
        end
  end.

(** One round of the loop of [PerformScan] over the watched roots: the
    transaction lives for the round and is destroyed at its end. *)
Definition scan_root (fuel : nat) (incremental ignore_mtimes : bool)
    (w : CollectionWatcher) (dir : Directory.t) : option CollectionWatcher :=
  let '(w, t) := ScanTransaction_new w (Directory.id dir) incremental ignore_mtimes
                   (w_mark_songs_unavailable_ w) in
  let '(subdirs, t) := GetAllSubdirs t in
  let subdirs :=
    if nonempty subdirs then subdirs
    else [Subdirectory.mk (Directory.id dir) (Directory.path dir) 0] in
  match FilesCountForSubdirs fuel w subdirs ∅ t with
  | None => None
  | Some (files_count, subdir_files_count, t) =>
      let t := AddToProgressMax files_count t in
      match scan_subdirs fuel w subdir_files_count subdirs t with
      | None => None
      | Some t => Some (ScanTransaction_destroy w t)
      end
  end.

Fixpoint scan_roots (fuel : nat) (incremental ignore_mtimes : bool)
    (dirs : list Directory.t) (w : CollectionWatcher) : option CollectionWatcher :=
  match dirs with
  | [] => Some w
  | dir :: rest =>
      if stop_requested_ w then Some w
      else
        match scan_root fuel incremental ignore_mtimes w dir with
        | Some w => scan_roots fuel incremental ignore_mtimes rest w
        | None => None
        end
  end.

Definition PerformScan (fuel : nat) (incremental ignore_mtimes : bool)
    (w : CollectionWatcher) : option CollectionWatcher :=
  let w := set_stop_requested_ false w in
  let dirs := QMap_values (watched_dirs_ w) in
  match scan_roots fuel incremental ignore_mtimes dirs w with
  | None => None
  | Some w =>
      let w := set_last_scan_time_ (now E) w in
      Some (emit CompilationsNeedUpdating w)
  end.

Definition IncrementalScanNow (fuel : nat) (w : CollectionWatcher)
  : option CollectionWatcher := PerformScan fuel true false w.

Definition FullScanNow (fuel : nat) (w : CollectionWatcher)
  : option CollectionWatcher := PerformScan fuel false true w.

Definition IncrementalScanCheck (fuel : nat) (w : CollectionWatcher)
  : option CollectionWatcher :=
  let duration := int64 (now E - last_scan_time_ w) in
  if 86400 <=? duration then IncrementalScanNow fuel w else Some w.

End Watcher.

(** *** Change notifications *)

Definition DirectoryChanged (subdir : string) (w : CollectionWatcher)
  : CollectionWatcher :=
  match subdir_mapping_ w !! subdir with
  | None => w
  | Some dir =>
      let queue := default [] (rescan_queue_ w !! Directory.id dir) in
      let queue := if negb (QString.list_contains queue subdir)
                   then queue ++ [subdir] else queue in
      let w := set_rescan_queue_ (<[Directory.id dir := queue]> (rescan_queue_ w)) w in
      if negb (rescan_paused_ w) then emit RescanTimerStart w else w
  end.

(** ** Worlds to run the watcher in *)

(** Replacing one collaborator of a world. *)

Definition with_fs_exists (v : string → bool) (E : Env) : Env :=
  {| fs_exists := v;
     fs_isSymLink := fs_isSymLink E;
     fs_symLinkTarget := fs_symLinkTarget E;
     fs_isDir := fs_isDir E;
     fs_isHidden := fs_isHidden E;
     fs_lastModified := fs_lastModified E;
     fs_lastModifiedValid := fs_lastModifiedValid E;
     fs_entries := fs_entries E;
     fs_dir_exists := fs_dir_exists E;
     fs_open := fs_open E;
     IsMediaFileBlocking := IsMediaFileBlocking E;
     ReadFileBlocking := ReadFileBlocking E;
     HAVE_MUSICBRAINZ := HAVE_MUSICBRAINZ E;
     CreateFingerprint := CreateFingerprint E;
     cue_Load := cue_Load E;
     QImage_load := QImage_load E;
     DirectoryPart := DirectoryPart E;
     ExtensionPart := ExtensionPart E;
     NoExtensionPart := NoExtensionPart E;
     sValidImages := sValidImages E;
     contains_CaseInsensitive := contains_CaseInsensitive E;
     normalized_NFD := normalized_NFD E;
     now := now E;
     backend := backend E |}.

Definition with_fs_isDir (v : string → bool) (E : Env) : Env :=
  {| fs_exists := fs_exists E;
     fs_isSymLink := fs_isSymLink E;
     fs_symLinkTarget := fs_symLinkTarget E;
     fs_isDir := v;
     fs_isHidden := fs_isHidden E;
     fs_lastModified := fs_lastModified E;
     fs_lastModifiedValid := fs_lastModifiedValid E;
     fs_entries := fs_entries E;
     fs_dir_exists := fs_dir_exists E;
     fs_open := fs_open E;
     IsMediaFileBlocking := IsMediaFileBlocking E;
     ReadFileBlocking := ReadFileBlocking E;
     HAVE_MUSICBRAINZ := HAVE_MUSICBRAINZ E;
     CreateFingerprint := CreateFingerprint E;
     cue_Load := cue_Load E;
     QImage_load := QImage_load E;
     DirectoryPart := DirectoryPart E;
     ExtensionPart := ExtensionPart E;
     NoExtensionPart := NoExtensionPart E;
     sValidImages := sValidImages E;
     contains_CaseInsensitive := contains_CaseInsensitive E;
     normalized_NFD := normalized_NFD E;
     now := now E;
     backend := backend E |}.


Definition with_fs_entries (v : string → list string) (E : Env) : Env :=
  {| fs_exists := fs_exists E;
     fs_isSymLink := fs_isSymLink E;
     fs_symLinkTarget := fs_symLinkTarget E;
     fs_isDir := fs_isDir E;
     fs_isHidden := fs_isHidden E;
     fs_lastModified := fs_lastModified E;
     fs_lastModifiedValid := fs_lastModifiedValid E;
     fs_entries := v;
     fs_dir_exists := fs_dir_exists E;
     fs_open := fs_open E;
     IsMediaFileBlocking := IsMediaFileBlocking E;
     ReadFileBlocking := ReadFileBlocking E;
     HAVE_MUSICBRAINZ := HAVE_MUSICBRAINZ E;
     CreateFingerprint := CreateFingerprint E;
     cue_Load := cue_Load E;
     QImage_load := QImage_load E;
     DirectoryPart := DirectoryPart E;
     ExtensionPart := ExtensionPart E;
     NoExtensionPart := NoExtensionPart E;
     sValidImages := sValidImages E;
     contains_CaseInsensitive := contains_CaseInsensitive E;
     normalized_NFD := normalized_NFD E;
     now := now E;
     backend := backend E |}.

Definition with_fs_dir_exists (v : string → string → bool) (E : Env) : Env :=
  {| fs_exists := fs_exists E;
     fs_isSymLink := fs_isSymLink E;
     fs_symLinkTarget := fs_symLinkTarget E;
     fs_isDir := fs_isDir E;
     fs_isHidden := fs_isHidden E;
     fs_lastModified := fs_lastModified E;
     fs_lastModifiedValid := fs_lastModifiedValid E;
     fs_entries := fs_entries E;
     fs_dir_exists := v;
     fs_open := fs_open E;
     IsMediaFileBlocking := IsMediaFileBlocking E;
     ReadFileBlocking := ReadFileBlocking E;
     HAVE_MUSICBRAINZ := HAVE_MUSICBRAINZ E;
     CreateFingerprint := CreateFingerprint E;
     cue_Load := cue_Load E;
     QImage_load := QImage_load E;
     DirectoryPart := DirectoryPart E;
     ExtensionPart := ExtensionPart E;
     NoExtensionPart := NoExtensionPart E;
     sValidImages := sValidImages E;
     contains_CaseInsensitive := contains_CaseInsensitive E;
     normalized_NFD := normalized_NFD E;
     now := now E;
     backend := backend E |}.

Definition with_IsMediaFileBlocking (v : string → bool) (E : Env) : Env :=
  {| fs_exists := fs_exists E;
     fs_isSymLink := fs_isSymLink E;
     fs_symLinkTarget := fs_symLinkTarget E;
     fs_isDir := fs_isDir E;
     fs_isHidden := fs_isHidden E;
     fs_lastModified := fs_lastModified E;
     fs_lastModifiedValid := fs_lastModifiedValid E;
     fs_entries := fs_entries E;
     fs_dir_exists := fs_dir_exists E;
     fs_open := fs_open E;
     IsMediaFileBlocking := v;
     ReadFileBlocking := ReadFileBlocking E;
     HAVE_MUSICBRAINZ := HAVE_MUSICBRAINZ E;
     CreateFingerprint := CreateFingerprint E;
     cue_Load := cue_Load E;
     QImage_load := QImage_load E;
     DirectoryPart := DirectoryPart E;
     ExtensionPart := ExtensionPart E;
     NoExtensionPart := NoExtensionPart E;
     sValidImages := sValidImages E;
     contains_CaseInsensitive := contains_CaseInsensitive E;
     normalized_NFD := normalized_NFD E;
     now := now E;
     backend := backend E |}.

Definition with_ReadFileBlocking (v : string → Song.t → Song.t) (E : Env) : Env :=
  {| fs_exists := fs_exists E;
     fs_isSymLink := fs_isSymLink E;
     fs_symLinkTarget := fs_symLinkTarget E;
     fs_isDir := fs_isDir E;
     fs_isHidden := fs_isHidden E;
     fs_lastModified := fs_lastModified E;
     fs_lastModifiedValid := fs_lastModifiedValid E;
     fs_entries := fs_entries E;
     fs_dir_exists := fs_dir_exists E;
     fs_open := fs_open E;
     IsMediaFileBlocking := IsMediaFileBlocking E;
     ReadFileBlocking := v;
     HAVE_MUSICBRAINZ := HAVE_MUSICBRAINZ E;
     CreateFingerprint := CreateFingerprint E;
     cue_Load := cue_Load E;
     QImage_load := QImage_load E;
     DirectoryPart := DirectoryPart E;
     ExtensionPart := ExtensionPart E;
     NoExtensionPart := NoExtensionPart E;
     sValidImages := sValidImages E;
     contains_CaseInsensitive := contains_CaseInsensitive E;
     normalized_NFD := normalized_NFD E;
     now := now E;
     backend := backend E |}.

Definition with_HAVE_MUSICBRAINZ (v : bool) (E : Env) : Env :=
  {| fs_exists := fs_exists E;
     fs_isSymLink := fs_isSymLink E;
     fs_symLinkTarget := fs_symLinkTarget E;
     fs_isDir := fs_isDir E;
     fs_isHidden := fs_isHidden E;
     fs_lastModified := fs_lastModified E;
     fs_lastModifiedValid := fs_lastModifiedValid E;
     fs_entries := fs_entries E;
     fs_dir_exists := fs_dir_exists E;
     fs_open := fs_open E;
     IsMediaFileBlocking := IsMediaFileBlocking E;
     ReadFileBlocking := ReadFileBlocking E;
     HAVE_MUSICBRAINZ := v;
     CreateFingerprint := CreateFingerprint E;
     cue_Load := cue_Load E;
     QImage_load := QImage_load E;
     DirectoryPart := DirectoryPart E;
     ExtensionPart := ExtensionPart E;
     NoExtensionPart := NoExtensionPart E;
     sValidImages := sValidImages E;
     contains_CaseInsensitive := contains_CaseInsensitive E;
     normalized_NFD := normalized_NFD E;
     now := now E;
     backend := backend E |}.

Definition with_CreateFingerprint (v : string → string) (E : Env) : Env :=
  {| fs_exists := fs_exists E;
     fs_isSymLink := fs_isSymLink E;
     fs_symLinkTarget := fs_symLinkTarget E;
     fs_isDir := fs_isDir E;
     fs_isHidden := fs_isHidden E;
     fs_lastModified := fs_lastModified E;
     fs_lastModifiedValid := fs_lastModifiedValid E;
     fs_entries := fs_entries E;
     fs_dir_exists := fs_dir_exists E;
     fs_open := fs_open E;
     IsMediaFileBlocking := IsMediaFileBlocking E;
     ReadFileBlocking := ReadFileBlocking E;
     HAVE_MUSICBRAINZ := HAVE_MUSICBRAINZ E;
     CreateFingerprint := v;
     cue_Load := cue_Load E;
     QImage_load := QImage_load E;
     DirectoryPart := DirectoryPart E;
     ExtensionPart := ExtensionPart E;
     NoExtensionPart := NoExtensionPart E;
     sValidImages := sValidImages E;
     contains_CaseInsensitive := contains_CaseInsensitive E;
     normalized_NFD := normalized_NFD E;
     now := now E;
     backend := backend E |}.

Definition with_QImage_load (v : string → option QImage) (E : Env) : Env :=
  {| fs_exists := fs_exists E;
     fs_isSymLink := fs_isSymLink E;
     fs_symLinkTarget := fs_symLinkTarget E;
     fs_isDir := fs_isDir E;
     fs_isHidden := fs_isHidden E;
     fs_lastModified := fs_lastModified E;
     fs_lastModifiedValid := fs_lastModifiedValid E;
     fs_entries := fs_entries E;
     fs_dir_exists := fs_dir_exists E;
     fs_open := fs_open E;
     IsMediaFileBlocking := IsMediaFileBlocking E;
     ReadFileBlocking := ReadFileBlocking E;
     HAVE_MUSICBRAINZ := HAVE_MUSICBRAINZ E;
     CreateFingerprint := CreateFingerprint E;
     cue_Load := cue_Load E;
     QImage_load := v;
     DirectoryPart := DirectoryPart E;
     ExtensionPart := ExtensionPart E;
     NoExtensionPart := NoExtensionPart E;
     sValidImages := sValidImages E;
     contains_CaseInsensitive := contains_CaseInsensitive E;
     normalized_NFD := normalized_NFD E;
     now := now E;
     backend := backend E |}.

Definition with_now (v : Z) (E : Env) : Env :=
  {| fs_exists := fs_exists E;
     fs_isSymLink := fs_isSymLink E;
     fs_symLinkTarget := fs_symLinkTarget E;
     fs_isDir := fs_isDir E;
     fs_isHidden := fs_isHidden E;
     fs_lastModified := fs_lastModified E;
     fs_lastModifiedValid := fs_lastModifiedValid E;
     fs_entries := fs_entries E;
     fs_dir_exists := fs_dir_exists E;
     fs_open := fs_open E;
     IsMediaFileBlocking := IsMediaFileBlocking E;
     ReadFileBlocking := ReadFileBlocking E;
     HAVE_MUSICBRAINZ := HAVE_MUSICBRAINZ E;
     CreateFingerprint := CreateFingerprint E;
     cue_Load := cue_Load E;
     QImage_load := QImage_load E;
     DirectoryPart := DirectoryPart E;
     ExtensionPart := ExtensionPart E;
     NoExtensionPart := NoExtensionPart E;
     sValidImages := sValidImages E;
     contains_CaseInsensitive := contains_CaseInsensitive E;
     normalized_NFD := normalized_NFD E;
     now := v;
     backend := backend E |}.

Definition with_backend (v : Backend) (E : Env) : Env :=
  {| fs_exists := fs_exists E;
     fs_isSymLink := fs_isSymLink E;
     fs_symLinkTarget := fs_symLinkTarget E;
     fs_isDir := fs_isDir E;
     fs_isHidden := fs_isHidden E;
     fs_lastModified := fs_lastModified E;
     fs_lastModifiedValid := fs_lastModifiedValid E;
     fs_entries := fs_entries E;
     fs_dir_exists := fs_dir_exists E;
     fs_open := fs_open E;
     IsMediaFileBlocking := IsMediaFileBlocking E;
     ReadFileBlocking := ReadFileBlocking E;
     HAVE_MUSICBRAINZ := HAVE_MUSICBRAINZ E;
     CreateFingerprint := CreateFingerprint E;
     cue_Load := cue_Load E;
     QImage_load := QImage_load E;
     DirectoryPart := DirectoryPart E;
     ExtensionPart := ExtensionPart E;
     NoExtensionPart := NoExtensionPart E;
     sValidImages := sValidImages E;
     contains_CaseInsensitive := contains_CaseInsensitive E;
     normalized_NFD := normalized_NFD E;
     now := now E;
     backend := v |}.

(** Modelled from the spec: the persistence layer (collectionbackend.cpp is
    not part of the sources at hand).  It stores the song records and the
    subdirectory ledger, answers [songsInDirectory], [songsMissingFingerprint]
    (a fingerprint that is empty is "not computed"), [subdirectoriesOf],
    [songsByPath] and [songsByFingerprint], and on commit takes the deltas
    of a transaction: a subdirectory record is created on first discovery
    and its mtime refreshed by every scan that visits it; a new song gets an
    id, an updated one replaces the stored record, a touched one gets its
    mtime bumped, a deleted one is removed, an unavailable one is flagged
    and a readded one is flagged available again. *)
Record Database := {
  db_songs : list Song.t;
  db_subdirs : list Subdirectory.t;
  db_next_id : Z
}.

Definition db_backend (db : Database) : Backend :=
  {| FindSongsInDirectory d :=
       List.filter (λ s, Song.directory_id s =? d) (db_songs db);
     SongsWithMissingFingerprint d :=
       List.filter (λ s, (Song.directory_id s =? d)
                         && QString.isEmpty (Song.fingerprint s)) (db_songs db);
     SubdirsInDirectory d :=
       List.filter (λ s, Subdirectory.directory_id s =? d) (db_subdirs db);
     GetSongsByUrl u :=
       List.filter (λ s, String.eqb (Song.url s) u) (db_songs db);
     GetSongsByFingerprint fp :=
       List.filter (λ s, String.eqb (Song.fingerprint s) fp) (db_songs db) |}.

Definition same_subdir (a b : Subdirectory.t) : bool :=
  (Subdirectory.directory_id a =? Subdirectory.directory_id b)
  && String.eqb (Subdirectory.path a) (Subdirectory.path b).

Definition upsert_subdir (ledger : list Subdirectory.t) (sd : Subdirectory.t)
  : list Subdirectory.t :=
  if existsb (same_subdir sd) ledger
  then map (λ x, if same_subdir sd x then sd else x) ledger
  else ledger ++ [sd].

Definition db_upsert_subdir (db : Database) (sd : Subdirectory.t) : Database :=
  {| db_songs := db_songs db;
     db_subdirs := upsert_subdir (db_subdirs db) sd;
     db_next_id := db_next_id db |}.

Definition db_map_song (ids : list Z) (f : Song.t → Song.t) (db : Database)
  : Database :=
  {| db_songs := map (λ s, if bool_decide (Song.id s ∈ ids) then f s else s)
                     (db_songs db);
     db_subdirs := db_subdirs db;
     db_next_id := db_next_id db |}.

Definition db_upsert_song (db : Database) (s : Song.t) : Database :=
  if existsb (λ x, Song.id x =? Song.id s) (db_songs db)
  then {| db_songs := map (λ x, if Song.id x =? Song.id s
                                then Song.set_unavailable false s else x)
                          (db_songs db);
          db_subdirs := db_subdirs db;
          db_next_id := db_next_id db |}
  else {| db_songs := db_songs db ++ [Song.set_id (db_next_id db) s];
          db_subdirs := db_subdirs db;
          db_next_id := db_next_id db + 1 |}.

Definition db_touch_song (db : Database) (s : Song.t) : Database :=
  db_map_song [Song.id s] (Song.set_mtime (Song.mtime s)) db.

Definition db_commit (db : Database) (sig : Signal) : Database :=
  match sig with
  | SongsUnavailable songs =>
      db_map_song (Song.id <$> songs) (Song.set_unavailable true) db
  | SongsDeleted songs =>
      {| db_songs := List.filter
           (λ s, negb (bool_decide (Song.id s ∈ Song.id <$> songs))) (db_songs db);
         db_subdirs := db_subdirs db;
         db_next_id := db_next_id db |}
  | NewOrUpdatedSongs songs => fold_left db_upsert_song songs db
  | SongsMTimeUpdated songs => fold_left db_touch_song songs db
  | SongsReadded songs =>
      db_map_song (Song.id <$> songs) (Song.set_unavailable false) db
  | SubdirsDiscovered subdirs => fold_left db_upsert_subdir subdirs db
  | SubdirsMTimeUpdated subdirs => fold_left db_upsert_subdir subdirs db
  | _ => db
  end.

(** The deltas among the signals. *)
Definition is_delta (sig : Signal) : bool :=
  match sig with
  | SongsUnavailable _ | SongsDeleted _ | NewOrUpdatedSongs _
  | SongsMTimeUpdated _ | SongsReadded _
  | SubdirsDiscovered _ | SubdirsMTimeUpdated _ => true
  | _ => false
  end.

(** What a commit is to announce for a transaction: every delta list that
    is not empty, whole, in one signal. *)
Definition batch {A} (sig : list A → Signal) (l : list A) : list Signal :=
  if nonempty l then [sig l] else [].

Definition delta_signals (t : ScanTransaction) : list Signal :=
  batch (if mark_songs_unavailable_ t then SongsUnavailable else SongsDeleted)
        (deleted_songs t)
  ++ batch NewOrUpdatedSongs (new_songs t)
  ++ batch SongsMTimeUpdated (touched_songs t)
  ++ batch SongsReadded (readded_songs t)
  ++ batch SubdirsDiscovered (new_subdirs t)
  ++ batch SubdirsMTimeUpdated (touched_subdirs t).

(** Modelled from the spec: the inline helpers of collectionwatcher.h.  The
    directory part of a file is its path up to the last slash, the
    extension part is what follows the last dot, in lower case, and the
    no-extension part is what precedes it. *)
Definition qt_DirectoryPart (fileName : string) : string :=
  QString.section_0_m2 "/" fileName.

Definition qt_ExtensionPart (fileName : string) : string :=
  match QString.after_last "." fileName with
  | Some ext => QString.toLower ext
  | None => EmptyString
  end.

Definition qt_NoExtensionPart (fileName : string) : string :=
  QString.section_0_m2 "." fileName.

Definition empty_db : Database :=
  {| db_songs := []; db_subdirs := []; db_next_id := 1 |}.

(** A world with nothing on disk and an empty database. *)
Definition empty_env : Env :=
  {| fs_exists := λ _, false;
     fs_isSymLink := λ _, false;
     fs_symLinkTarget := λ _, EmptyString;
     fs_isDir := λ _, false;
     fs_isHidden := λ _, false;
     fs_lastModified := λ _, 0;
     fs_lastModifiedValid := λ _, false;
     fs_entries := λ _, [];
     fs_dir_exists := λ _ _, false;
     fs_open := λ _, false;
     IsMediaFileBlocking := λ _, false;
     ReadFileBlocking := λ _ s, s;
     HAVE_MUSICBRAINZ := true;
     CreateFingerprint := λ _, EmptyString;
     cue_Load := λ _ _, [];
     QImage_load := λ _, None;
     DirectoryPart := qt_DirectoryPart;
     ExtensionPart := qt_ExtensionPart;
     NoExtensionPart := qt_NoExtensionPart;
     sValidImages := ["jpg"; "png"; "gif"; "jpeg"];
     contains_CaseInsensitive := QString.contains_ci;
     normalized_NFD := λ s, s;
     now := 0;
     backend := db_backend empty_db |}.

(** A watcher as its constructor leaves it, after [ReloadSettings] with
    the default settings. *)
Definition new_watcher : CollectionWatcher :=
  {| source_ := 2;
     scan_on_startup_ := true;
     monitor_ := true;
     song_tracking_ := false;
     w_mark_songs_unavailable_ := true;
     w_expire_unavailable_songs_days_ := 60;
     stop_requested_ := false;
     rescan_paused_ := false;
     watched_dirs_ := ∅;
     subdir_mapping_ := ∅;
     rescan_queue_ := ∅;
     best_image_filters_ := ["front"; "cover"];
     last_scan_time_ := 0;
     next_task_ := 0;
     emitted := [] |}.

(** ** Predicates of the statements *)

(** No root's rescan queue holds a path twice. *)
Definition queues_nodup (w : CollectionWatcher) : Prop :=
  ∀ id queue, rescan_queue_ w !! id = Some queue → NoDup queue.


(** The images whose file name contains a preference term. *)
Definition image_matches (E : Env) (term : string) (images : list string)
  : list string :=
  List.filter (λ image, contains_CaseInsensitive E (QString.fileName image) term)
              images.

(** The pixel area of a decoded image. *)
Definition pixel_area (image : QImage) : Z := img_width image * img_height image.

(** The size the loop of [PickBestImage] compares for a path: the area as
    an [int], or nothing to compare (0) for a file that does not decode. *)
Definition decoded_size (E : Env) (path : string) : Z :=
  match QImage_load E path with
  | Some image => int32 (pixel_area image)
  | None => 0
  end.

Definition is_PickBest (p : Probe) : bool :=
  match p with PickBest _ => true | _ => false end.

Definition is_Enumerate (p : Probe) : bool :=
  match p with Enumerate _ => true | _ => false end.

(** A world with the two cover images of one album directory. *)
Definition cover_images : list string :=
  ["/music/album/cover_small.jpg"; "/music/album/front_big.jpg"].

Definition covers_env : Env :=
  with_QImage_load
    (λ path,
       if String.eqb path "/music/album/cover_small.jpg"
       then Some {| img_width := 10; img_height := 10 |}
       else if String.eqb path "/music/album/front_big.jpg"
       then Some {| img_width := 100; img_height := 100 |}
       else None)
    empty_env.

(** A world with three images whose areas are 2^32, 2 500 000 000 and 1. *)
Definition overflow_env : Env :=
  with_QImage_load
    (λ path,
       if String.eqb path "/m/huge.png"
       then Some {| img_width := 65536; img_height := 65536 |}
       else if String.eqb path "/m/large.png"
       then Some {| img_width := 50000; img_height := 50000 |}
       else if String.eqb path "/m/dot.png"
       then Some {| img_width := 1; img_height := 1 |}
       else None)
    empty_env.

(** The calls to the file-system watcher among the signals. *)
Definition is_watch_call (sig : Signal) : bool :=
  match sig with
  | WatcherAddPath _ | WatcherRemovePath _ => true
  | _ => false
  end.

(** A small disk to run the watcher on: directories with their mtime and
    children, files with their mtime.  Files ending in mp3 or flac are
    media files, and the tag reader reads every media file but those
    listed as unreadable. *)
Record Disk := {
  disk_dirs : list (string * (Z * list string));
  disk_files : list (string * Z);
  disk_unreadable : list string
}.

Fixpoint assoc {A} (l : list (string * A)) (key : string) : option A :=
  match l with
  | [] => None
  | (k, v) :: rest => if String.eqb k key then Some v else assoc rest key
  end.

Definition disk_mtime (d : Disk) (path : string) : Z :=
  match assoc (disk_dirs d) path with
  | Some (mtime, _) => mtime
  | None => default 0 (assoc (disk_files d) path)
  end.

Definition disk_exists (d : Disk) (path : string) : bool :=
  match assoc (disk_dirs d) path, assoc (disk_files d) path with
  | None, None => false
  | _, _ => true
  end.

Definition disk_env (d : Disk) (db : Database) : Env :=
  {| fs_exists := disk_exists d;
     fs_isSymLink := λ _, false;
     fs_symLinkTarget := λ _, EmptyString;
     fs_isDir := λ path, match assoc (disk_dirs d) path with
                         | Some _ => true | None => false end;
     fs_isHidden := λ _, false;
     fs_lastModified := disk_mtime d;
     fs_lastModifiedValid := disk_exists d;
     fs_entries := λ path, match assoc (disk_dirs d) path with
                           | Some (_, children) => children | None => [] end;
     fs_dir_exists := λ path name, disk_exists d (path +:+ "/" +:+ name);
     fs_open := disk_exists d;
     IsMediaFileBlocking := λ path,
       QString.list_contains ["mp3"; "flac"] (qt_ExtensionPart path);
     ReadFileBlocking := λ path song,
       if QString.list_contains (disk_unreadable d) path then song
       else Song.mk (Song.id song) true (Song.source song) path
              (Song.directory_id song) (disk_mtime d path) EmptyString false
              EmptyString EmptyString EmptyString false 0 path 0;
     HAVE_MUSICBRAINZ := true;
     CreateFingerprint := λ path, ("fp:" +:+ QString.fileName path);
     cue_Load := λ _ _, [];
     QImage_load := λ _, None;
     DirectoryPart := qt_DirectoryPart;
     ExtensionPart := qt_ExtensionPart;
     NoExtensionPart := qt_NoExtensionPart;
     sValidImages := ["jpg"; "png"; "gif"; "jpeg"];
     contains_CaseInsensitive := QString.contains_ci;
     normalized_NFD := λ s, s;
     now := 200000;
     backend := db_backend db |}.

(** The watcher of one root, "/music" with id 1. *)
Definition music_root : Directory.t := Directory.mk "/music" 1.

Definition music_watcher : CollectionWatcher :=
  set_subdir_mapping_ {[ "/music" := music_root ]}
    (set_watched_dirs_ {[ 1 := music_root ]} new_watcher).

(** A stored record of a plain file of the root. *)
Definition stored_song (id : Z) (path : string) (mtime : Z) (fp : string)
    (unavailable : bool) : Song.t :=
  Song.mk id true 2 path 1 mtime fp unavailable EmptyString EmptyString
          EmptyString false 0 path 0.

(** The deltas of a transaction. *)
Definition deltas (t : ScanTransaction) :=
  (deleted_songs t, readded_songs t, new_songs t, touched_songs t,
   new_subdirs t, touched_subdirs t, deleted_subdirs t).

(** A fresh incremental transaction of the root. *)
Definition music_transaction : ScanTransaction :=
  (ScanTransaction_new music_watcher 1 true false true).2.

(** "/music" holds one track and was last scanned at its present mtime. *)
Definition one_track_disk : Disk :=
  {| disk_dirs := [("/music", (100, ["/music/a.mp3"]))];
     disk_files := [("/music/a.mp3", 50)];
     disk_unreadable := [] |}.

Definition one_track_db : Database :=
  {| db_songs := [stored_song 1 "/music/a.mp3" 50 "fp:a.mp3" false];
     db_subdirs := [Subdirectory.mk 1 "/music" 100];
     db_next_id := 2 |}.

(** The same directory with a .nomedia marker in it. *)
Definition nomedia_disk : Disk :=
  {| disk_dirs := [("/music", (100, ["/music/a.mp3"; "/music/.nomedia"]))];
     disk_files := [("/music/a.mp3", 50); ("/music/.nomedia", 60)];
     disk_unreadable := [] |}.

(** The snapshot of the database a transaction reads: its cached list once
    it is filled, the backend's answer before that. *)
Definition songs_of (E : Env) (t : ScanTransaction) : list Song.t :=
  if cached_songs_dirty_ t
  then FindSongsInDirectory (backend E) (dir_ t) else cached_songs_ t.

Definition subdirs_of (E : Env) (t : ScanTransaction) : list Subdirectory.t :=
  if known_subdirs_dirty_ t
  then SubdirsInDirectory (backend E) (dir_ t) else known_subdirs_ t.

Definition missing_of (E : Env) (t : ScanTransaction) : list Song.t :=
  if cached_songs_missing_fingerprint_dirty_ t
  then SongsWithMissingFingerprint (backend E) (dir_ t)
  else cached_songs_missing_fingerprint_ t.

(** A stored record the walk can meet: in the snapshot of the root, or
    returned by a lookup by fingerprint or by path. *)
Definition stored_record (E : Env) (t : ScanTransaction) (m : Song.t) : Prop :=
  m ∈ songs_of E t
  ∨ (∃ fp, m ∈ GetSongsByFingerprint (backend E) fp)
  ∨ (∃ file, m ∈ GetSongsByUrl (backend E) file).

(** Where a re-filed song [x] has its id from: a stored record whose file
    is on disk, or one relocated by a fingerprint match, or a section
    stored for a file that is on disk. *)
Definition refiled_from (E : Env) (t : ScanTransaction) (x : Song.t) : Prop :=
  ∃ m, Song.id x = Song.id m
       ∧ ((m ∈ songs_of E t ∧ fs_exists E (Song.url m) = true)
          ∨ ((∃ fp, m ∈ GetSongsByFingerprint (backend E) fp)
             ∧ Song.url m ∈ files_changed_path_ t)
          ∨ (∃ file, m ∈ GetSongsByUrl (backend E) file
                     ∧ fs_exists E file = true)).

(** The mtime a walk records for a directory: its timestamp, or 0 when it
    is gone from disk. *)
Definition current_mtime (E : Env) (path : string) : Z :=
  if fs_exists E path then fs_lastModified E path else 0.

(** What every step of a walk keeps of the transaction. *)
Record walk_step (E : Env) (t t' : ScanTransaction) : Prop := {
  ws_dir : dir_ t' = dir_ t;
  ws_mark : mark_songs_unavailable_ t' = mark_songs_unavailable_ t;
  ws_songs : songs_of E t' = songs_of E t;
  ws_subdirs : subdirs_of E t' = subdirs_of E t;
  ws_changed_path : ∀ p, p ∈ files_changed_path_ t → p ∈ files_changed_path_ t';
  ws_deleted : ∀ s, s ∈ deleted_songs t →
               s ∈ deleted_songs t' ∨ Song.url s ∈ files_changed_path_ t';
  ws_touched : ∀ x, x ∈ touched_songs t' →
               x ∈ touched_songs t ∨ refiled_from E t' x;
  ws_new_subdirs : ∀ u, u ∈ new_subdirs t → u ∈ new_subdirs t';
  ws_touched_subdirs : ∀ u, u ∈ touched_subdirs t → u ∈ touched_subdirs t';
  ws_subdir_records :
    ∀ u, u ∈ new_subdirs t' ++ touched_subdirs t' →
         u ∈ new_subdirs t ++ touched_subdirs t
         ∨ (Subdirectory.directory_id u = dir_ t
            ∧ Subdirectory.mtime u = current_mtime E (Subdirectory.path u))
}.

(** The recursion of [ScanSubdirectory] from [path] is at most [n] deep:
    it goes into listed children and into ledger entries below [path]. *)
Fixpoint walk_height_le (E : Env) (ledger : list Subdirectory.t) (n : nat)
    (path : string) : Prop :=
  match n with
  | O => False
  | S n =>
      (∀ child, child ∈ fs_entries E path → walk_height_le E ledger n child)
      ∧ (∀ sd, sd ∈ ledger →
           QString.left_lastIndexOf "/" (Subdirectory.path sd) = path →
           Subdirectory.path sd ≠ path →
           walk_height_le E ledger n (Subdirectory.path sd))
  end.

(** The recursion of [FilesCountForPath] from [path] is at most [n] deep. *)
Fixpoint fs_height_le (E : Env) (n : nat) (path : string) : Prop :=
  match n with
  | O => False
  | S n => ∀ child, child ∈ fs_entries E path → fs_height_le E n child
  end.

(** The transaction a loop leaves behind, whichever way it ends. *)
Definition flow_txn {B C D} (f : Flow (ScanTransaction * B * C * D))
  : ScanTransaction :=
  match f with
  | Next st => st.1.1.1
  | Return t => t
  end.

(** The two signals that take a song away. *)
Definition is_removal (sig : Signal) : bool :=
  match sig with
  | SongsUnavailable _ | SongsDeleted _ => true
  | _ => false
  end.

(** "/music" was scanned with two tracks; a.mp3 has been removed since. *)
Definition removed_track_disk : Disk :=
  {| disk_dirs := [("/music", (120, ["/music/b.mp3"]))];
     disk_files := [("/music/b.mp3", 60)];
     disk_unreadable := [] |}.

Definition two_tracks_db : Database :=
  {| db_songs := [stored_song 1 "/music/a.mp3" 50 EmptyString false;
                  stored_song 2 "/music/b.mp3" 60 EmptyString false];
     db_subdirs := [Subdirectory.mk 1 "/music" 100];
     db_next_id := 3 |}.

(** The same database once a.mp3 has been marked unavailable. *)
Definition unavailable_track_db : Database :=
  {| db_songs := [stored_song 1 "/music/a.mp3" 50 EmptyString true;
                  stored_song 2 "/music/b.mp3" 60 EmptyString false];
     db_subdirs := [Subdirectory.mk 1 "/music" 100];
     db_next_id := 3 |}.

(** a.mp3 has been renamed to c.mp3: same audio, same tags, same mtime. *)
Definition renamed_track_disk : Disk :=
  {| disk_dirs := [("/music", (120, ["/music/c.mp3"]))];
     disk_files := [("/music/c.mp3", 50)];
     disk_unreadable := [] |}.

Definition fingerprinted_db : Database :=
  {| db_songs := [Song.mk 1 true 2 "/music/a.mp3" 1 50 "fp:x" false EmptyString
                    EmptyString EmptyString false 0 "title" 0];
     db_subdirs := [Subdirectory.mk 1 "/music" 100];
     db_next_id := 2 |}.

Definition renamed_track_env : Env :=
  with_ReadFileBlocking
    (λ path song,
       Song.mk (Song.id song) true (Song.source song) path (Song.directory_id song)
               50 EmptyString false EmptyString EmptyString EmptyString false 0
               "title" 0)
    (with_CreateFingerprint (λ _, "fp:x")
       (disk_env renamed_track_disk fingerprinted_db)).

(** The watcher of "/music" with song tracking switched on. *)
Definition tracking_watcher : CollectionWatcher :=
  {| source_ := 2;
     scan_on_startup_ := true;
     monitor_ := true;
     song_tracking_ := true;
     w_mark_songs_unavailable_ := true;
     w_expire_unavailable_songs_days_ := 60;
     stop_requested_ := false;
     rescan_paused_ := false;
     watched_dirs_ := {[ 1 := music_root ]};
     subdir_mapping_ := {[ "/music" := music_root ]};
     rescan_queue_ := ∅;
     best_image_filters_ := ["front"; "cover"];
     last_scan_time_ := 0;
     next_task_ := 0;
     emitted := [] |}.

(** "/music/old" has been renamed to "/music/new": the watcher still
    watches the old path, and a transaction of "/music" has found a.mp3 and
    the old directory gone and the new directory there. *)
Definition moved_dir_disk : Disk :=
  {| disk_dirs := [("/music", (120, ["/music/new"])); ("/music/new", (130, []))];
     disk_files := [];
     disk_unreadable := [] |}.

Definition moved_dir_watcher : CollectionWatcher :=
  set_subdir_mapping_ (<["/music/old" := music_root]> {[ "/music" := music_root ]})
    music_watcher.

Definition pending_transaction : ScanTransaction :=
  set_deleted_subdirs [Subdirectory.mk 1 "/music/old" 0]
    (set_touched_subdirs [Subdirectory.mk 1 "/music/old" 0]
       (set_new_subdirs [Subdirectory.mk 1 "/music/new" 130]
          (set_deleted_songs [stored_song 1 "/music/a.mp3" 50 EmptyString false]
             music_transaction))).

(** What the steps of an unchanged pass keep of the transaction. *)
Record quiet_step (E : Env) (t t' : ScanTransaction) : Prop := {
  qs_deltas : deltas t' = deltas t;
  qs_dir : dir_ t' = dir_ t;
  qs_incremental : incremental_ t' = incremental_ t;
  qs_ignores_mtime : ignores_mtime_ t' = ignores_mtime_ t;
  qs_missing : missing_of E t' = missing_of E t;
  qs_task : task_id_ t' = task_id_ t;
  qs_expire : expire_unavailable_songs_days_ t' = expire_unavailable_songs_days_ t
}.

(** The subdirectories [PerformScan] goes through for a root: its ledger,
    or the root itself when the ledger is empty. *)
Definition ledger_of_root (E : Env) (dir : Directory.t) : list Subdirectory.t :=
  let subdirs := SubdirsInDirectory (backend E) (Directory.id dir) in
  if nonempty subdirs then subdirs
  else [Subdirectory.mk (Directory.id dir) (Directory.path dir) 0].


(** Two incremental scans in a row over an unchanging disk: the first is
    run and committed to the database, then the second is run; the result
    is the deltas the second one announces. *)
Definition second_pass_deltas (E : Env) (db : Database) (fuel : nat)
    (w : CollectionWatcher) : option (list Signal) :=
  match IncrementalScanNow (with_backend (db_backend db) E) fuel
          (set_emitted [] w) with
  | Some w1 =>
      let db1 := fold_left db_commit (emitted w1) db in
      match IncrementalScanNow (with_backend (db_backend db1) E) fuel
              (set_emitted [] w1) with
      | Some w2 => Some (List.filter is_delta (emitted w2))
      | None => None
      end
  | None => None
  end.

(** The subdirectory records among the signals, in the order the
    persistence layer takes them. *)
Definition upserts_of (sigs : list Signal) : list Subdirectory.t :=
  flat_map (λ sig, match sig with
                   | SubdirsDiscovered subdirs => subdirs
                   | SubdirsMTimeUpdated subdirs => subdirs
                   | _ => []
                   end) sigs.






(** "/music" with one track, never scanned before. *)
Definition fresh_db : Database :=
  {| db_songs := []; db_subdirs := []; db_next_id := 1 |}.

(** ** Roots, queued rescans and track rescans *)

(** [QMap::keys()]: the keys in ascending order. *)
Definition QMap_keys {A} (m : gmap Z A) : list Z :=
  (merge_sort key_le (map_to_list m)).*1.

Definition set_rescan_paused_ (v : bool) (w : CollectionWatcher) : CollectionWatcher :=
  {| source_ := source_ w;
     scan_on_startup_ := scan_on_startup_ w;
     monitor_ := monitor_ w;
     song_tracking_ := song_tracking_ w;
     w_mark_songs_unavailable_ := w_mark_songs_unavailable_ w;
     w_expire_unavailable_songs_days_ := w_expire_unavailable_songs_days_ w;
     stop_requested_ := stop_requested_ w;
     rescan_paused_ := v;
     watched_dirs_ := watched_dirs_ w;
     subdir_mapping_ := subdir_mapping_ w;
     rescan_queue_ := rescan_queue_ w;
     best_image_filters_ := best_image_filters_ w;
     last_scan_time_ := last_scan_time_ w;
     next_task_ := next_task_ w;
     emitted := emitted w |}.

Section Roots.

Context (E : Env).

(** [RemoveDirectory]: the root leaves the rescan queue and the watched
    roots, and every path watched for it leaves the watch set. *)
Definition RemoveDirectory (dir : Directory.t) (w : CollectionWatcher)
  : CollectionWatcher :=
  let w := set_rescan_queue_ (delete (Directory.id dir) (rescan_queue_ w)) w in
  let w := set_watched_dirs_ (delete (Directory.id dir) (watched_dirs_ w)) w in
  fold_left (λ w subdir_path,
      let w := emit (WatcherRemovePath subdir_path) w in
      set_subdir_mapping_ (delete subdir_path (subdir_mapping_ w)) w)
    (QHash_keys (subdir_mapping_ w) dir) w.

(** The loop of [AddDirectory] over the known subdirectories of a root:
    each is scanned if the startup scan is on, and watched if monitoring
    is on. *)
Fixpoint add_directory_subdirs (fuel : nat) (dir : Directory.t)
    (subdir_files_count : gmap string Z) (subdirs : list Subdirectory.t)
    (st : CollectionWatcher * ScanTransaction)
  : option (CollectionWatcher * ScanTransaction) :=
  match subdirs with
  | [] => Some st
  | subdir :: rest =>
      let '(w, t) := st in
      if stop_requested_ w then Some st
      else
        match (if scan_on_startup_ w
               then ScanSubdirectory E fuel w (Subdirectory.path subdir) subdir
                      (default 0 (subdir_files_count !! Subdirectory.path subdir))
                      t false
               else Some t) with
        | None => None
        | Some t =>
            let w := if monitor_ w
                     then AddWatch E dir (Subdirectory.path subdir) w else w in
            add_directory_subdirs fuel dir subdir_files_count rest (w, t)
        end
  end.

(** [AddDirectory]: a root with no known subdirectory is scanned in full,
    a root with known subdirectories incrementally.  The transaction of
    either branch is destroyed at the end of its block. *)
Definition AddDirectory (fuel : nat) (dir : Directory.t)
    (subdirs : list Subdirectory.t) (w : CollectionWatcher)
  : option CollectionWatcher :=
  let w := set_watched_dirs_ (<[Directory.id dir := dir]> (watched_dirs_ w)) w in
  let scanned :=
    if negb (nonempty subdirs)
    then
      let '(w, t) := ScanTransaction_new w (Directory.id dir) false false
                       (w_mark_songs_unavailable_ w) in
      match FilesCountForPath E fuel w (Directory.path dir) t with
      | None => None
      | Some (files_count, t) =>
          let t := SetKnownSubdirs subdirs t in
          let t := AddToProgressMax files_count t in
          match ScanSubdirectory E fuel w (Directory.path dir) Subdirectory.init
                  files_count t false with
          | None => None
          | Some t =>
              let w := set_last_scan_time_ (now E) w in
              Some (ScanTransaction_destroy E w t)
          end
      end
    else
      let '(w, t) := ScanTransaction_new w (Directory.id dir) true false
                       (w_mark_songs_unavailable_ w) in
      match FilesCountForSubdirs E fuel w subdirs ∅ t with
      | None => None
      | Some (files_count, subdir_files_count, t) =>
          let t := SetKnownSubdirs subdirs t in
          let t := AddToProgressMax files_count t in
          match add_directory_subdirs fuel dir subdir_files_count subdirs (w, t) with
          | None => None
          | Some (w, t) =>
              let w := set_last_scan_time_ (now E) w in
              Some (ScanTransaction_destroy E w t)
          end
      end in
  match scanned with
  | None => None
  | Some w => Some (emit CompilationsNeedUpdating w)
  end.

(** The first loop of [RescanPathsNow] over the queued paths of a root:
    the file counts. *)
Fixpoint count_queued (fuel : nat) (w : CollectionWatcher) (paths : list string)
    (subdir_files_count : gmap string Z) (t : ScanTransaction)
  : option (gmap string Z * ScanTransaction) :=
  match paths with
  | [] => Some (subdir_files_count, t)
  | path :: rest =>
      match FilesCountForPath E fuel w path t with
      | None => None
      | Some (files_count, t) =>
          count_queued fuel w rest (<[path := files_count]> subdir_files_count)
            (AddToProgressMax files_count t)
      end
  end.

(** The second loop: the queued paths are scanned. *)
Fixpoint rescan_queued (fuel : nat) (w : CollectionWatcher) (dir : Z)
    (subdir_files_count : gmap string Z) (paths : list string)
    (t : ScanTransaction) : option ScanTransaction :=
  match paths with
  | [] => Some t
  | path :: rest =>
      if stop_requested_ w then Some t
      else
        match ScanSubdirectory E fuel w path (Subdirectory.mk dir path 0)
                (default 0 (subdir_files_count !! path)) t false with
        | None => None
        | Some t => rescan_queued fuel w dir subdir_files_count rest t
        end
  end.

(** One round of the loop of [RescanPathsNow] over the queued roots. *)
Definition rescan_dir (fuel : nat) (w : CollectionWatcher) (dir : Z)
  : option CollectionWatcher :=
  let '(w, t) := ScanTransaction_new w dir false false
                   (w_mark_songs_unavailable_ w) in
  let paths := default [] (rescan_queue_ w !! dir) in
  match count_queued fuel w paths ∅ t with
  | None => None
  | Some (subdir_files_count, t) =>
      match rescan_queued fuel w dir subdir_files_count paths t with
      | None => None
      | Some t => Some (ScanTransaction_destroy E w t)
      end
  end.

Fixpoint rescan_dirs (fuel : nat) (dirs : list Z) (w : CollectionWatcher)
  : option CollectionWatcher :=
  match dirs with
  | [] => Some w
  | dir :: rest =>
      if stop_requested_ w then Some w
      else
        match rescan_dir fuel w dir with
        | None => None
        | Some w => rescan_dirs fuel rest w
        end
  end.

Definition RescanPathsNow (fuel : nat) (w : CollectionWatcher)
  : option CollectionWatcher :=
  match rescan_dirs fuel (QMap_keys (rescan_queue_ w)) w with
  | None => None
  | Some w => Some (emit CompilationsNeedUpdating (set_rescan_queue_ ∅ w))
  end.

Definition SetRescanPaused (fuel : nat) (pause : bool) (w : CollectionWatcher)
  : option CollectionWatcher :=
  let w := set_rescan_paused_ pause w in
  if negb (rescan_paused_ w) && nonempty (map_to_list (rescan_queue_ w))
  then RescanPathsNow fuel w
  else Some w.

(** The loop of [RescanTracksNow].  The members [song_rescan_queue_] and
    [scanned_dirs] are passed along; what is left of the queue is
    returned with the watcher.  The transaction of a round is destroyed
    at the end of its block, after [CompilationsNeedUpdating]. *)
Fixpoint rescan_tracks (fuel : nat) (song_rescan_queue_ : list Song.t)
    (scanned_dirs : list string) (w : CollectionWatcher)
  : option (list Song.t * CollectionWatcher) :=
  match song_rescan_queue_ with
  | [] => Some ([], w)
  | song :: rest =>
      if stop_requested_ w then Some (song_rescan_queue_, w)
      else
        let songdir := QString.section_0_m2 "/" (Song.url song) in
        if negb (QString.list_contains scanned_dirs songdir)
        then
          let '(w, t) := ScanTransaction_new w (Song.directory_id song)
                           false false (w_mark_songs_unavailable_ w) in
          match FilesCountForPath E fuel w songdir t with
          | None => None
          | Some (files_count, t) =>
              match ScanSubdirectory E fuel w songdir Subdirectory.init
                      files_count t false with
              | None => None
              | Some t =>
                  let w := emit CompilationsNeedUpdating w in
                  let w := ScanTransaction_destroy E w t in
                  rescan_tracks fuel rest (scanned_dirs ++ [songdir]) w
              end
          end
        else rescan_tracks fuel rest scanned_dirs w
  end.

Definition RescanTracksNow (fuel : nat) (song_rescan_queue_ : list Song.t)
    (w : CollectionWatcher) : option (list Song.t * CollectionWatcher) :=
  rescan_tracks fuel song_rescan_queue_ [] (set_stop_requested_ false w).

End Roots.

(** ** Predicates of the statements, continued *)

(** What [RemoveWatch] and [RemoveDirectory] leave of a watch: nothing of a
    watch held for the root, and any other as it is. *)
Definition unless_watched_for (dir : Directory.t) (entry : option Directory.t)
  : option Directory.t :=
  match entry with
  | Some d => if Directory.eqb d dir then None else Some d
  | None => None
  end.

(** An entry of the watch set that is a watch held for the root. *)
Definition watched_for (dir : Directory.t) (entry : option Directory.t) : bool :=
  match entry with
  | Some d => Directory.eqb d dir
  | None => false
  end.

(** The stored record and the song read again differ in nothing that
    [UpdateSong] looks at, but perhaps the mtime: the record is available
    and has the same metadata, fingerprint and artwork. *)
Definition only_mtime_differs (matching_song out : Song.t) : bool :=
  negb (Song.is_unavailable matching_song)
  && Song.IsMetadataEqual matching_song out
  && String.eqb (Song.fingerprint matching_song) (Song.fingerprint out)
  && String.eqb (Song.art_automatic matching_song) (Song.art_automatic out)
  && String.eqb (Song.art_manual matching_song) (Song.art_manual out).

(** What the loop of [UpdateCueAssociatedSongs] over the sections of the
    sheet has filed after [k] sections, starting from the transaction [t]:
    [k] songs, each as new or as touched, with the source, root and
    fingerprint of the file; and every id in [used_ids] is the id of a
    stored section and of a song filed. *)
Definition cue_sections_filed (w : CollectionWatcher) (fingerprint : string)
    (old_sections : list Song.t) (t : ScanTransaction) (k : nat)
    (st : ScanTransaction * gset Z) : Prop :=
  ∃ added_new added_touched,
    new_songs st.1 = new_songs t ++ added_new
    ∧ touched_songs st.1 = touched_songs t ++ added_touched
    ∧ deleted_songs st.1 = deleted_songs t
    ∧ readded_songs st.1 = readded_songs t
    ∧ dir_ st.1 = dir_ t
    ∧ (length added_new + length added_touched = k)%nat
    ∧ (∀ x, x ∈ added_new ++ added_touched →
            Song.source x = source_ w
            ∧ Song.directory_id x = dir_ t
            ∧ Song.fingerprint x = fingerprint)
    ∧ (∀ i, i ∈ st.2 →
            (∃ x, x ∈ added_new ++ added_touched ∧ Song.id x = i)
            ∧ ∃ m, m ∈ old_sections ∧ Song.id m = i).

(** A step of a transaction that reports no progress. *)
Definition progress_kept (t t' : ScanTransaction) : Prop :=
  progress_ t' = progress_ t ∧ progress_max_ t' = progress_max_ t.

(** A directory the unchanged-directory shortcut applies to: not skipped
    outright, with the recorded mtime and, under song tracking, no song
    without a fingerprint. *)
Definition directory_unchanged (E : Env) (w : CollectionWatcher)
    (t : ScanTransaction) (sd : Subdirectory.t) : Prop :=
  symlink_into_collection E w (Subdirectory.path sd) = false
  ∧ has_nomedia_marker E (Subdirectory.path sd) = false
  ∧ Subdirectory.mtime sd = fs_lastModified E (Subdirectory.path sd)
  ∧ (HAVE_MUSICBRAINZ E && song_tracking_ w = true →
     existsb (in_directory (Subdirectory.path sd)) (missing_of E t) = false).

(** The sum of the file counts kept for the subdirectories. *)
Definition counted (subdir_files_count : gmap string Z)
    (subdirs : list Subdirectory.t) : Z :=
  fold_right (λ sd sum, default 0 (subdir_files_count !! Subdirectory.path sd) + sum)
             0 subdirs.

(** What a walk keeps of the transaction it works on: the task, the root,
    the mode, the retention settings and the progress maximum; and it only
    appends to the probes. *)
Record config_kept (t t' : ScanTransaction) : Prop := {
  ck_task : task_id_ t' = task_id_ t;
  ck_dir : dir_ t' = dir_ t;
  ck_incremental : incremental_ t' = incremental_ t;
  ck_ignores_mtime : ignores_mtime_ t' = ignores_mtime_ t;
  ck_mark : mark_songs_unavailable_ t' = mark_songs_unavailable_ t;
  ck_expire : expire_unavailable_songs_days_ t' = expire_unavailable_songs_days_ t;
  ck_progress_max : progress_max_ t' = progress_max_ t;
  ck_trace : trace t `prefix_of` trace t'
}.

(** The tasks the signals start and finish with the task manager, in
    order. *)
Definition tasks_started (sigs : list Signal) : list Z :=
  flat_map (λ sig, match sig with StartTask task => [task] | _ => [] end) sigs.

Definition tasks_finished (sigs : list Signal) : list Z :=
  flat_map (λ sig, match sig with SetTaskFinished task => [task] | _ => [] end) sigs.

(** What a scan keeps of the watcher: its settings, the stop and pause
    flags, the watched roots and the rescan queue.  (It may change the
    watch set, the time of the last scan and the signals sent.) *)
Record watcher_kept (w w' : CollectionWatcher) : Prop := {
  wk_source : source_ w' = source_ w;
  wk_scan_on_startup : scan_on_startup_ w' = scan_on_startup_ w;
  wk_monitor : monitor_ w' = monitor_ w;
  wk_song_tracking : song_tracking_ w' = song_tracking_ w;
  wk_mark : w_mark_songs_unavailable_ w' = w_mark_songs_unavailable_ w;
  wk_expire : w_expire_unavailable_songs_days_ w' = w_expire_unavailable_songs_days_ w;
  wk_stop : stop_requested_ w' = stop_requested_ w;
  wk_paused : rescan_paused_ w' = rescan_paused_ w;
  wk_watched_dirs : watched_dirs_ w' = watched_dirs_ w;
  wk_rescan_queue : rescan_queue_ w' = rescan_queue_ w;
  wk_filters : best_image_filters_ w' = best_image_filters_ w
}.

(** The watcher of "/music" with a change of "/music" queued. *)
Definition queued_watcher : CollectionWatcher :=
  set_rescan_queue_ {[ 1 := ["/music"] ]} music_watcher.

(** The subdirectory records announced as discovered. *)
Definition subdirs_discovered (sigs : list Signal) : list Subdirectory.t :=
  flat_map (λ sig, match sig with SubdirsDiscovered subdirs => subdirs | _ => [] end)
           sigs.

(** A watcher that monitors but does not scan the known subdirectories of a
    root when the root is added. *)
Definition no_startup_scan_watcher : CollectionWatcher :=
  {| source_ := 2;
     scan_on_startup_ := false;
     monitor_ := true;
     song_tracking_ := false;
     w_mark_songs_unavailable_ := true;
     w_expire_unavailable_songs_days_ := 60;
     stop_requested_ := false;
     rescan_paused_ := false;
     watched_dirs_ := ∅;
     subdir_mapping_ := ∅;
     rescan_queue_ := ∅;
     best_image_filters_ := ["front"; "cover"];
     last_scan_time_ := 0;
     next_task_ := 0;
     emitted := [] |}.

(** The directory of a queued track. *)
Definition track_directory (song : Song.t) : string :=
  QString.section_0_m2 "/" (Song.url song).

(** ** The listing of a directory *)

(** What the listing loop of [ScanSubdirectory] makes of a child: an
    image by its suffix, a media file by the tag reader, or a new
    subdirectory, one that is not hidden and that the ledger does not
    have with an mtime. *)
Definition is_image_file (E : Env) (child : string) : bool :=
  negb (fs_isDir E child)
  && QString.list_contains (sValidImages E) (ExtensionPart E child).

Definition is_media_file (E : Env) (child : string) : bool :=
  negb (fs_isDir E child)
  && negb (QString.list_contains (sValidImages E) (ExtensionPart E child))
  && IsMediaFileBlocking E child.

Definition seen_in (ledger : list Subdirectory.t) (path : string) : bool :=
  existsb (λ subdir, String.eqb (Subdirectory.path subdir) path
                     && negb (Subdirectory.mtime subdir =? 0)) ledger.

Definition is_new_subdir (E : Env) (ledger : list Subdirectory.t) (child : string)
  : bool :=
  fs_isDir E child && negb (fs_isHidden E child) && negb (seen_in ledger child).

(** The record the listing makes for a new subdirectory. *)
Definition new_subdir_record (E : Env) (child : string) : Subdirectory.t :=
  Subdirectory.mk (-1) child (fs_lastModified E child).

(** "/music" with a track, a cover, a text file and a subdirectory the
    ledger does not have. *)
Definition mixed_disk : Disk :=
  {| disk_dirs := [("/music", (120, ["/music/a.mp3"; "/music/cover.jpg";
                                      "/music/notes.txt"; "/music/live"]));
                   ("/music/live", (110, []))];
     disk_files := [("/music/a.mp3", 50); ("/music/cover.jpg", 40);
                    ("/music/notes.txt", 30)];
     disk_unreadable := [] |}.

(** ** The import of a tree the database does not know *)

(** The images the listing of a directory has filed under [dir]. *)
Definition listed_images (E : Env) (children : list string) (dir : string)
  : list string :=
  List.filter (λ child, is_image_file E child
                        && String.eqb (DirectoryPart E child) dir) children.

(** The image the songs of a directory get whose images are [images]:
    none, the only one, or the best one. *)
Definition directory_image (E : Env) (w : CollectionWatcher) (images : list string)
  : string :=
  match images with
  | [] => EmptyString
  | [image] => image
  | _ => (PickBestImage E w images).1
  end.

(** The song a walk files for a plain file that has no record: what the
    tag reader reads, if it is valid, with the source of the watcher, the
    fingerprint of the file, the root, and the image of the directory when
    the tags gave none. *)
Definition imported_song (E : Env) (w : CollectionWatcher) (root : Z)
    (image file : string) : list Song.t :=
  let song := ReadFileBlocking E file (Song.init (source_ w)) in
  if Song.is_valid song
  then
    let song := Song.set_source (source_ w) song in
    let song := Song.set_fingerprint (file_fingerprint E w file) song in
    let song := Song.set_directory_id root song in
    [if QString.isEmpty (Song.art_automatic song)
     then Song.set_art_automatic image song else song]
  else [].

(** The songs of a tree, depth first: the media files of a directory in
    listing order, then the trees of its subdirectories that are not
    hidden; nothing below a directory that is skipped outright. *)
Fixpoint imported_tree (E : Env) (w : CollectionWatcher) (root : Z) (fuel : nat)
    (path : string) : list Song.t :=
  match fuel with
  | O => []
  | S fuel =>
      if symlink_into_collection E w path || has_nomedia_marker E path then []
      else
        let children := fs_entries E path in
        flat_map (λ file,
            imported_song E w root
              (directory_image E w (listed_images E children (DirectoryPart E file)))
              file)
          (List.filter (is_media_file E) children)
        ++ flat_map (imported_tree E w root fuel)
             (List.filter (is_new_subdir E []) children)
  end.

(** A tree of plain files at most [n] deep: no media file in it has a cue
    sheet beside it. *)
Fixpoint plain_tree (E : Env) (n : nat) (path : string) : Prop :=
  match n with
  | O => False
  | S n =>
      ∀ child, child ∈ fs_entries E path →
        (is_media_file E child = true →
         GetMtimeForCue E (NoExtensionPart E child +:+ ".cue") = 0)
        ∧ (is_new_subdir E [] child = true → plain_tree E n child)
  end.

(** ** The artwork of the songs of a walk *)

(** A song the tag reader or the cue parser gives for a file. *)
Definition reader_gave (E : Env) (path file : string) (r : Song.t) : Prop :=
  (∃ seed, r = ReadFileBlocking E file seed)
  ∨ r ∈ cue_Load E (NoExtensionPart E file +:+ ".cue") path.

(** The automatic artwork of a song [x] filed for a file, against the song
    [r] read for it: [x] takes the image given for the directory, and then
    [r] has no embedded cover or names no artwork; or [x] keeps the artwork
    of [r], and then [r] has an embedded cover, names artwork, or is a
    section of the cue sheet of the file. *)
Definition art_of (E : Env) (path file image : string) (r x : Song.t) : Prop :=
  (Song.art_automatic x = image
   ∧ (Song.has_embedded_cover r = false
      ∨ QString.isEmpty (Song.art_automatic r) = true))
  ∨ (Song.art_automatic x = Song.art_automatic r
     ∧ (Song.has_embedded_cover r = true
        ∨ QString.isEmpty (Song.art_automatic r) = false
        ∨ r ∈ cue_Load E (NoExtensionPart E file +:+ ".cue") path)).

Definition art_from (E : Env) (path file image : string) (x : Song.t) : Prop :=
  ∃ r, reader_gave E path file r ∧ art_of E path file image r x.

(** A step of the file loop that makes no probe and files songs, as new or
    as touched, that all satisfy [P]. *)
Definition files_songs (P : Song.t → Prop) (t t' : ScanTransaction) : Prop :=
  trace t' = trace t
  ∧ ∃ added_new added_touched,
      new_songs t' = new_songs t ++ added_new
      ∧ touched_songs t' = touched_songs t ++ added_touched
      ∧ ∀ x, x ∈ added_new ++ added_touched → P x.

(** "/music" with two tracks and two cover images; the tags of b.mp3
    carry a cover of their own. *)
Definition two_tracks_covers_disk : Disk :=
  {| disk_dirs := [("/music", (120, ["/music/a.mp3"; "/music/b.mp3";
                                      "/music/cover_small.jpg";
                                      "/music/front_big.jpg"]))];
     disk_files := [("/music/a.mp3", 50); ("/music/b.mp3", 60);
                    ("/music/cover_small.jpg", 40); ("/music/front_big.jpg", 41)];
     disk_unreadable := [] |}.

Definition embedded_cover_env : Env :=
  with_ReadFileBlocking
    (λ path song,
       if String.eqb path "/music/b.mp3"
       then Song.mk (Song.id song) true (Song.source song) path
              (Song.directory_id song) 60 EmptyString false EmptyString
              "(embedded)" EmptyString true 0 path 0
       else ReadFileBlocking (disk_env two_tracks_covers_disk fresh_db) path song)
    (with_QImage_load
       (λ path,
          if String.eqb path "/music/cover_small.jpg"
          then Some {| img_width := 10; img_height := 10 |}
          else if String.eqb path "/music/front_big.jpg"
          then Some {| img_width := 100; img_height := 100 |}
          else None)
       (disk_env two_tracks_covers_disk fresh_db)).

(** * Properties *)

(** Projections of updated records. *)
Ltac record_simpl :=
  cbn [deleted_songs readded_songs new_songs touched_songs new_subdirs
       touched_subdirs deleted_subdirs files_changed_path_ task_id_ progress_
       progress_max_ dir_ incremental_ ignores_mtime_ mark_songs_unavailable_
       expire_unavailable_songs_days_ cached_songs_ cached_songs_dirty_ cached_songs_missing_fingerprint_ cached_songs_missing_fingerprint_dirty_
       known_subdirs_ known_subdirs_dirty_ trace set_deleted_songs set_readded_songs
       set_new_songs set_touched_songs set_new_subdirs set_touched_subdirs set_deleted_subdirs
       set_files_changed_path_ set_progress_ set_progress_max_ set_cached_songs_ set_cached_songs_missing_fingerprint_
       set_known_subdirs_ set_trace source_ scan_on_startup_ monitor_
       song_tracking_ w_mark_songs_unavailable_ w_expire_unavailable_songs_days_ stop_requested_ rescan_paused_
       watched_dirs_ subdir_mapping_ rescan_queue_ best_image_filters_ last_scan_time_
       next_task_ emitted set_stop_requested_ set_subdir_mapping_ set_rescan_queue_
       set_last_scan_time_ set_next_task_ set_emitted set_watched_dirs_ emit
       probe fst snd] in *.

(** ** Machine integers *)

Lemma int64_small z : - 2 ^ 63 ≤ z < 2 ^ 63 → int64 z = z.
Proof.
  intros Hz. unfold int64.
  rewrite Z.mod_small; lia.
Qed.

Lemma int32_small z : - 2 ^ 31 ≤ z < 2 ^ 31 → int32 z = z.
Proof.
  intros Hz. unfold int32.
  rewrite Z.mod_small; lia.
Qed.

(** ** Scheduler: the periodic check *)

(** A scan pass that returns has left its mark on the watcher. *)
Lemma PerformScan_emits E fuel incremental ignore_mtimes w w' :
  PerformScan E fuel incremental ignore_mtimes w = Some w' →
  last (emitted w') = Some CompilationsNeedUpdating.
Proof.
  unfold PerformScan.
  destruct (scan_roots _ _ _ _ _ _) as [w1|]; [|discriminate].
  intros [= <-]. cbn. apply last_snoc.
Qed.

(** C8, as the code has it: when the periodic timer fires, an incremental
    scan is started if the time since the last scan is at least 86400
    seconds, and nothing at all is done if it is less. *)
Theorem IncrementalScanCheck_at_least_a_day E fuel w :
  - 2 ^ 63 ≤ now E - last_scan_time_ w < 2 ^ 63 →
  (86400 ≤ now E - last_scan_time_ w →
     IncrementalScanCheck E fuel w = IncrementalScanNow E fuel w)
  ∧ (now E - last_scan_time_ w < 86400 →
     IncrementalScanCheck E fuel w = Some w).
Proof.
  intros Hrange. unfold IncrementalScanCheck.
  rewrite (int64_small _ Hrange).
  split; intros H.
  - apply Z.leb_le in H. by rewrite H.
  - apply Z.leb_gt in H. by rewrite H.
Qed.

Lemma IncrementalScanCheck_at_least_a_day_witness :
  IncrementalScanCheck (with_now 90000 empty_env) 1 new_watcher
  = IncrementalScanNow (with_now 90000 empty_env) 1 new_watcher.
Proof.
  refine (proj1 (IncrementalScanCheck_at_least_a_day
                   (with_now 90000 empty_env) 1 new_watcher _) _);
    cbn; lia.
Defined.

(** C8 as stated fails at exactly one day: the elapsed time does not exceed
    86400 seconds, and the check runs the incremental scan all the same. *)
Lemma IncrementalScanCheck_exactly_a_day :
  let E := with_now 86400 empty_env in
  let w := new_watcher in
  now E - last_scan_time_ w = 86400
  ∧ ¬ (86400 < now E - last_scan_time_ w)
  ∧ IncrementalScanCheck E 1 w = IncrementalScanNow E 1 w
  ∧ IncrementalScanCheck E 1 w ≠ Some w
  ∧ ∃ w', IncrementalScanCheck E 1 w = Some w'
          ∧ emitted w' = [CompilationsNeedUpdating]
          ∧ last_scan_time_ w' = 86400.
Proof.
  cbn zeta. split; [reflexivity|]. split; [cbn; lia|].
  split; [reflexivity|]. split.
  - vm_compute. discriminate.
  - eexists. split; [vm_compute; reflexivity|]. split; reflexivity.
Qed.

(** ** Watch set: the rescan queue *)

Lemma list_contains_elem (l : list string) (x : string) :
  QString.list_contains l x = true ↔ x ∈ l.
Proof.
  unfold QString.list_contains. rewrite existsb_exists. split.
  - intros (y & Hy & Heq). apply String.eqb_eq in Heq. subst.
    by apply list_elem_of_In.
  - intros Hx. exists x. split; [by apply list_elem_of_In|apply String.eqb_refl].
Qed.

Lemma list_contains_not_elem (l : list string) (x : string) :
  QString.list_contains l x = false ↔ x ∉ l.
Proof.
  rewrite <- list_contains_elem. destruct (QString.list_contains l x); split; congruence.
Qed.

Lemma DirectoryChanged_mapping subdir w :
  subdir_mapping_ (DirectoryChanged subdir w) = subdir_mapping_ w.
Proof.
  unfold DirectoryChanged.
  destruct (subdir_mapping_ w !! subdir); [|done].
  record_simpl. destruct (rescan_paused_ w); reflexivity.
Qed.

Lemma DirectoryChanged_queue subdir w dir :
  subdir_mapping_ w !! subdir = Some dir →
  rescan_queue_ (DirectoryChanged subdir w)
  = <[Directory.id dir :=
        let queue := default [] (rescan_queue_ w !! Directory.id dir) in
        if QString.list_contains queue subdir then queue else queue ++ [subdir]]>
      (rescan_queue_ w).
Proof.
  intros Hdir. unfold DirectoryChanged. rewrite Hdir. cbn zeta.
  record_simpl.
  destruct (QString.list_contains _ subdir); destruct (rescan_paused_ w); reflexivity.
Qed.

Lemma DirectoryChanged_nodup subdir w :
  queues_nodup w → queues_nodup (DirectoryChanged subdir w).
Proof.
  intros Hw. destruct (subdir_mapping_ w !! subdir) as [dir|] eqn:Hdir.
  - intros id queue. rewrite (DirectoryChanged_queue _ _ _ Hdir). cbn zeta.
    destruct (decide (Directory.id dir = id)) as [->|Hne].
    + rewrite lookup_insert_eq. intros [= <-].
      assert (NoDup (default [] (rescan_queue_ w !! id))) as Hq.
      { destruct (rescan_queue_ w !! id) as [q|] eqn:Hq; cbn; [by eapply Hw|constructor]. }
      destruct (QString.list_contains _ subdir) eqn:Hc; [done|].
      apply list_contains_not_elem in Hc.
      apply NoDup_app. split; [done|]. split; [|apply NoDup_singleton].
      intros x Hx ->%list_elem_of_singleton. done.
    + rewrite lookup_insert_ne by done. apply Hw.
  - unfold DirectoryChanged. by rewrite Hdir.
Qed.

Lemma DirectoryChanged_queued subdir w dir queue :
  subdir_mapping_ w !! subdir = Some dir →
  rescan_queue_ w !! Directory.id dir = Some queue →
  subdir ∈ queue →
  rescan_queue_ (DirectoryChanged subdir w) = rescan_queue_ w.
Proof.
  intros Hdir Hq Hin. rewrite (DirectoryChanged_queue _ _ _ Hdir), Hq.
  apply list_contains_elem in Hin. cbn [default from_option id]. cbn zeta.
  rewrite Hin. by apply insert_id.
Qed.

(** C6: whatever notifications arrive, no root's queue ever holds a path
    twice, and a notification for a path that is already queued for its
    root leaves the queue as it is. *)
Theorem DirectoryChanged_set_semantics (w : CollectionWatcher)
    (notifications : list string) :
  queues_nodup w →
  let w' := fold_left (λ w subdir, DirectoryChanged subdir w) notifications w in
  queues_nodup w'
  ∧ ∀ subdir dir queue,
      subdir_mapping_ w' !! subdir = Some dir →
      rescan_queue_ w' !! Directory.id dir = Some queue →
      subdir ∈ queue →
      rescan_queue_ (DirectoryChanged subdir w') = rescan_queue_ w'.
Proof.
  intros Hw. cbn zeta. split.
  - revert w Hw. induction notifications as [|p ps IH]; intros w Hw; [done|].
    cbn. apply IH. by apply DirectoryChanged_nodup.
  - intros subdir dir queue. apply DirectoryChanged_queued.
Qed.

Lemma DirectoryChanged_set_semantics_witness :
  let w := set_subdir_mapping_
             {[ "/music/a" := Directory.mk "/music" 1 ]} new_watcher in
  let w' := fold_left (λ w subdir, DirectoryChanged subdir w)
              ["/music/a"; "/music/b"; "/music/a"] w in
  queues_nodup w'
  ∧ ∀ subdir dir queue,
      subdir_mapping_ w' !! subdir = Some dir →
      rescan_queue_ w' !! Directory.id dir = Some queue →
      subdir ∈ queue →
      rescan_queue_ (DirectoryChanged subdir w') = rescan_queue_ w'.
Proof.
  intros w.
  apply (DirectoryChanged_set_semantics w ["/music/a"; "/music/b"; "/music/a"]).
  intros id queue H.
  change (rescan_queue_ w) with (∅ : gmap Z (list string)) in H.
  rewrite lookup_empty in H. discriminate.
Defined.

(** ** Artwork selection *)

Section Artwork.

Context (E : Env).

Lemma pick_biggest_stopped paths size path probes :
  pick_biggest E true paths size path probes = (path, probes).
Proof. by destruct paths. Qed.

Lemma pick_biggest_spec paths : ∀ size best probes,
  0 ≤ size →
  let r := (pick_biggest E false paths size best probes).1 in
  (r = best ∧ ∀ p, p ∈ paths → decoded_size E p ≤ size)
  ∨ (r ∈ paths ∧ size < decoded_size E r ∧ ∀ p, p ∈ paths → decoded_size E p ≤ decoded_size E r).
Proof.
  induction paths as [|path rest IH]; intros size best probes Hsize; cbn zeta.
  - left. split; [done|]. intros p Hp. by apply elem_of_nil in Hp.
  - cbn [pick_biggest].
    destruct (QImage_load E path) as [image|] eqn:Hload.
    + destruct (size <? int32 (img_width image * img_height image)) eqn:Hlt.
      * apply Z.ltb_lt in Hlt.
        destruct (IH (int32 (img_width image * img_height image)) path
                     (probes ++ [Decode path]) ltac:(lia)) as [[-> Hall]|(Hin & Hgt & Hall)].
        -- right. split; [apply list_elem_of_here|].
           assert (decoded_size E path = int32 (img_width image * img_height image)) as Hsz
             by (unfold decoded_size, pixel_area; by rewrite Hload).
           split; [lia|]. intros p [->|Hp]%elem_of_cons; [lia|].
           rewrite Hsz. by apply Hall.
        -- right. split; [by apply list_elem_of_further|]. split; [lia|].
           intros p [->|Hp]%elem_of_cons; [|by apply Hall].
           unfold decoded_size at 1, pixel_area. rewrite Hload. lia.
      * apply Z.ltb_ge in Hlt.
        destruct (IH size best (probes ++ [Decode path]) Hsize)
          as [[-> Hall]|(Hin & Hgt & Hall)].
        -- left. split; [done|]. intros p [->|Hp]%elem_of_cons; [|by apply Hall].
           unfold decoded_size, pixel_area. by rewrite Hload.
        -- right. split; [by apply list_elem_of_further|]. split; [done|].
           intros p [->|Hp]%elem_of_cons; [|by apply Hall].
           unfold decoded_size at 1, pixel_area. rewrite Hload. lia.
    + destruct (IH size best (probes ++ [Decode path]) Hsize)
        as [[-> Hall]|(Hin & Hgt & Hall)].
      * left. split; [done|]. intros p [->|Hp]%elem_of_cons; [|by apply Hall].
        unfold decoded_size. by rewrite Hload.
      * right. split; [by apply list_elem_of_further|]. split; [done|].
        intros p [->|Hp]%elem_of_cons; [|by apply Hall].
        unfold decoded_size at 1. rewrite Hload. lia.
Qed.

Lemma filter_images_skip pre : ∀ post images,
  (∀ term, term ∈ pre → image_matches E term images = []) →
  filter_images E (pre ++ post) images [] = filter_images E post images [].
Proof.
  induction pre as [|term pre IH]; intros post images Hpre; [done|].
  cbn [app filter_images].
  fold (image_matches E term images).
  rewrite (Hpre term) by apply list_elem_of_here. cbn [app nonempty].
  apply IH. intros t Ht. apply Hpre. by apply list_elem_of_further.
Qed.

Lemma image_candidates_first w images pre term post :
  best_image_filters_ w = pre ++ term :: post →
  (∀ t, t ∈ pre → image_matches E t images = []) →
  image_matches E term images ≠ [] →
  image_candidates E w images = image_matches E term images.
Proof.
  intros Hf Hpre Hterm. unfold image_candidates.
  rewrite Hf, filter_images_skip by done.
  cbn [filter_images app]. fold (image_matches E term images).
  destruct (image_matches E term images) as [|x l] eqn:Hm; [done|].
  reflexivity.
Qed.

Lemma image_candidates_fallback w images :
  (∀ t, t ∈ best_image_filters_ w → image_matches E t images = []) →
  image_candidates E w images = images.
Proof.
  intros Hall. unfold image_candidates.
  rewrite <- (app_nil_r (best_image_filters_ w)).
  rewrite filter_images_skip by done. reflexivity.
Qed.

Lemma pick_biggest_none stop paths : ∀ size best probes,
  0 ≤ size →
  (∀ p, p ∈ paths → decoded_size E p = 0) →
  (pick_biggest E stop paths size best probes).1 = best.
Proof.
  destruct stop; [intros; by rewrite pick_biggest_stopped|].
  intros size best probes Hsize Hall.
  destruct (pick_biggest_spec paths size best probes Hsize)
    as [[Hr _]|(Hin & Hgt & _)]; [done|].
  rewrite (Hall _ Hin) in Hgt. lia.
Qed.

(** C5, as the code has it: the candidates are the matches of the first
    preference term that matches a file name, or the whole list if no
    term matches.  When no stop is requested and some candidate has a
    positive size, the size being the area the code computes, width
    times height as an [int], the selection is a candidate of the largest
    size; when the areas of the candidates fit an [int], it is a
    candidate of the largest pixel area.  So of "cover_small.jpg" and
    "front_big.jpg" under the order front, cover, where only the second
    name contains "front", the selection is "front_big.jpg". *)
Theorem PickBestImage_preferred_largest (w : CollectionWatcher)
    (images : list string) :
  stop_requested_ w = false →
  (∃ path, path ∈ image_candidates E w images ∧ 0 < decoded_size E path) →
  (∀ pre term post,
     best_image_filters_ w = pre ++ term :: post →
     (∀ t, t ∈ pre → image_matches E t images = []) →
     image_matches E term images ≠ [] →
     image_candidates E w images = image_matches E term images)
  ∧ ((∀ t, t ∈ best_image_filters_ w → image_matches E t images = []) →
     image_candidates E w images = images)
  ∧ ((PickBestImage E w images).1 ∈ image_candidates E w images
     ∧ 0 < decoded_size E (PickBestImage E w images).1
     ∧ ∀ path, path ∈ image_candidates E w images →
               decoded_size E path ≤ decoded_size E (PickBestImage E w images).1)
  ∧ ((∀ path image, path ∈ image_candidates E w images →
        QImage_load E path = Some image → 0 ≤ pixel_area image < 2 ^ 31) →
     ∃ image,
       QImage_load E (PickBestImage E w images).1 = Some image
       ∧ ∀ path image', path ∈ image_candidates E w images →
           QImage_load E path = Some image' →
           pixel_area image' ≤ pixel_area image)
  ∧ (best_image_filters_ w = ["front"; "cover"] →
     images = ["cover_small.jpg"; "front_big.jpg"] →
     contains_CaseInsensitive E "cover_small.jpg" "front" = false →
     contains_CaseInsensitive E "front_big.jpg" "front" = true →
     (PickBestImage E w images).1 = "front_big.jpg").
Proof.
  intros Hstop (p0 & Hp0 & Hpos0).
  split; [apply image_candidates_first|].
  split; [apply image_candidates_fallback|].
  assert ((PickBestImage E w images).1 ∈ image_candidates E w images
          ∧ 0 < decoded_size E (PickBestImage E w images).1
          ∧ ∀ path, path ∈ image_candidates E w images →
              decoded_size E path ≤ decoded_size E (PickBestImage E w images).1)
    as Hbest.
  { unfold PickBestImage. rewrite Hstop.
    destruct (pick_biggest_spec (image_candidates E w images) 0 EmptyString []
                ltac:(lia)) as [[_ Hall]|(Hin & Hgt & Hall)]; [|done].
    specialize (Hall p0 Hp0). lia. }
  split; [exact Hbest|]. destruct Hbest as (Hin & Hgt & Hall). split.
  - intros Hdims.
    assert (∀ p image, p ∈ image_candidates E w images →
              QImage_load E p = Some image → decoded_size E p = pixel_area image)
      as Hsz.
    { intros p image Hp Hl. unfold decoded_size. rewrite Hl.
      apply int32_small. specialize (Hdims p image Hp Hl). lia. }
    destruct (QImage_load E (PickBestImage E w images).1) as [image|] eqn:Hload.
    + exists image. split; [done|]. intros path image' Hpath Hload'.
      rewrite <- (Hsz _ _ Hpath Hload'), <- (Hsz _ _ Hin Hload). by apply Hall.
    + unfold decoded_size in Hgt. rewrite Hload in Hgt. lia.
  - intros Hfilters -> Hcover Hfront.
    rewrite (image_candidates_first w _ [] "front" ["cover"]) in Hin;
      [|exact Hfilters|by intros t ?%elem_of_nil|].
    + unfold image_matches in Hin. cbn [List.filter QString.fileName] in Hin.
      change (QString.fileName "cover_small.jpg") with "cover_small.jpg" in Hin.
      change (QString.fileName "front_big.jpg") with "front_big.jpg" in Hin.
      rewrite Hcover, Hfront in Hin.
      by apply list_elem_of_singleton in Hin.
    + unfold image_matches. cbn [List.filter].
      change (QString.fileName "cover_small.jpg") with "cover_small.jpg".
      change (QString.fileName "front_big.jpg") with "front_big.jpg".
      by rewrite Hcover, Hfront.
Qed.

(** C10: when every candidate fails to decode or has no area, the
    selection is the empty path, and a song of a directory with several
    such images is given no automatic artwork. *)
Theorem PickBestImage_none_decodes (w : CollectionWatcher)
    (images : list string) :
  images ≠ [] →
  (∀ path, path ∈ image_candidates E w images →
     match QImage_load E path with
     | Some image => pixel_area image = 0
     | None => True
     end) →
  (PickBestImage E w images).1 = EmptyString
  ∧ ∀ path album_art,
      album_art !! DirectoryPart E path = Some images →
      length images ≠ 1%nat →
      (ImageForSong E w path album_art).1.1 = EmptyString.
Proof.
  intros _ Hall.
  assert ((PickBestImage E w images).1 = EmptyString) as Hbest.
  { unfold PickBestImage. apply pick_biggest_none; [lia|].
    intros p Hp. specialize (Hall p Hp). unfold decoded_size.
    destruct (QImage_load E p); [|done]. by rewrite Hall. }
  split; [done|].
  intros path album_art Hdir Hlen. unfold ImageForSong. rewrite Hdir.
  apply Nat.eqb_neq in Hlen. rewrite Hlen.
  destruct (PickBestImage E w images) as [best probes]. by cbn in *.
Qed.

End Artwork.

Lemma PickBestImage_preferred_largest_witness :
  (PickBestImage covers_env new_watcher cover_images).1
  = "/music/album/front_big.jpg"
  ∧ ∃ image,
      QImage_load covers_env (PickBestImage covers_env new_watcher cover_images).1
      = Some image
      ∧ ∀ path image', path ∈ image_candidates covers_env new_watcher cover_images →
          QImage_load covers_env path = Some image' →
          pixel_area image' ≤ pixel_area image.
Proof.
  destruct (PickBestImage_preferred_largest covers_env new_watcher cover_images)
    as (Hfirst & _ & (Hin & _) & Hlargest & _).
  - reflexivity.
  - exists "/music/album/front_big.jpg".
    split; [apply list_elem_of_In; vm_compute; tauto|reflexivity].
  - split.
    + rewrite (Hfirst [] "front" ["cover"]) in Hin.
      * apply list_elem_of_In in Hin. vm_compute in Hin. destruct Hin as [Hin|[]].
        symmetry. exact Hin.
      * reflexivity.
      * intros t Ht. by apply elem_of_nil in Ht.
      * vm_compute. discriminate.
    + apply Hlargest. intros path image Hpath Hload.
      apply list_elem_of_In in Hpath. vm_compute in Hpath.
      destruct Hpath as [<-|[]]. vm_compute in Hload.
      injection Hload as <-. unfold pixel_area. cbn. lia.
Defined.

(** C5 as stated fails in two ways.  On a list whose images do not decode
    the selection is the empty path, which is no element of the list.  And
    the area is computed as an [int]: of three images of 65536 x 65536,
    50000 x 50000 and 1 x 1 pixels, none of whose names matches a
    preference, the first two areas wrap to 0 and to a negative number,
    and the selection is the image of one pixel. *)
Lemma PickBestImage_not_the_largest :
  (let images := ["/music/album/a.jpg"; "/music/album/b.jpg"] in
   (PickBestImage empty_env new_watcher images).1 = EmptyString
   ∧ (PickBestImage empty_env new_watcher images).1 ∉ images)
  ∧ (let E := overflow_env in
     let images := ["/m/huge.png"; "/m/large.png"; "/m/dot.png"] in
     image_candidates E new_watcher images = images
     ∧ (PickBestImage E new_watcher images).1 = "/m/dot.png"
     ∧ (∃ dot large,
          QImage_load E "/m/dot.png" = Some dot
          ∧ QImage_load E "/m/large.png" = Some large
          ∧ pixel_area dot < pixel_area large)).
Proof.
  split.
  - cbn zeta. split; [reflexivity|].
    intros Hin. apply list_elem_of_In in Hin. vm_compute in Hin.
    destruct Hin as [Hin|[Hin|[]]]; discriminate.
  - cbn zeta. split; [reflexivity|]. split; [reflexivity|].
    exists {| img_width := 1; img_height := 1 |},
           {| img_width := 50000; img_height := 50000 |}.
    split; [reflexivity|]. split; [reflexivity|]. unfold pixel_area. cbn. lia.
Qed.

Lemma PickBestImage_none_decodes_witness :
  let images := ["/music/album/a.jpg"; "/music/album/b.jpg"] in
  (PickBestImage empty_env new_watcher images).1 = EmptyString
  ∧ ∀ path album_art,
      album_art !! DirectoryPart empty_env path = Some images →
      length images ≠ 1%nat →
      (ImageForSong empty_env new_watcher path album_art).1.1 = EmptyString.
Proof.
  intros images.
  apply (PickBestImage_none_decodes empty_env new_watcher images).
  - discriminate.
  - intros path _. exact I.
Defined.

Section ArtworkCache.

Context (E : Env).

Lemma pick_biggest_decodes stop paths : ∀ size best probes,
  filter is_PickBest (pick_biggest E stop paths size best probes).2
  = filter is_PickBest probes.
Proof.
  induction paths as [|path rest IH]; intros size best probes; [done|].
  cbn [pick_biggest]. destruct stop; [done|].
  destruct (QImage_load E path) as [image|].
  - destruct (size <? _); rewrite IH, filter_app; cbn; by rewrite app_nil_r.
  - rewrite IH, filter_app; cbn; by rewrite app_nil_r.
Qed.

End ArtworkCache.

(** ** The scan transaction: commit and destruction *)

Section Commit.

Context (E : Env).

Lemma emit_unless_empty_emitted {A} (sig : list A → Signal) l w :
  emitted (emit_unless_empty sig l w) = emitted w ++ batch sig l.
Proof.
  unfold emit_unless_empty, batch. destruct (nonempty l); record_simpl;
    [done|by rewrite app_nil_r].
Qed.

Lemma RemoveWatch_emitted dir subdir w :
  ∃ calls, emitted (RemoveWatch dir subdir w) = emitted w ++ calls
           ∧ forallb is_watch_call calls = true.
Proof.
  unfold RemoveWatch. destruct (QString.list_contains _ _); record_simpl.
  - by exists [WatcherRemovePath (Subdirectory.path subdir)].
  - exists []. by rewrite app_nil_r.
Qed.

Lemma AddWatch_emitted dir path w :
  ∃ calls, emitted (AddWatch E dir path w) = emitted w ++ calls
           ∧ forallb is_watch_call calls = true.
Proof.
  unfold AddWatch. destruct (fs_exists E path); record_simpl.
  - by exists [WatcherAddPath path].
  - exists []. by rewrite app_nil_r.
Qed.

Lemma fold_watch_emitted {A}
    (step : CollectionWatcher → A → CollectionWatcher) (l : list A) :
  (∀ w a, ∃ calls, emitted (step w a) = emitted w ++ calls
                   ∧ forallb is_watch_call calls = true) →
  ∀ w, ∃ calls, emitted (fold_left step l w) = emitted w ++ calls
                ∧ forallb is_watch_call calls = true.
Proof.
  intros Hstep. induction l as [|a l IH]; intros w; cbn [fold_left].
  - exists []. by rewrite app_nil_r.
  - destruct (IH (step w a)) as (c2 & -> & H2).
    destruct (Hstep w a) as (c1 & -> & H1).
    exists (c1 ++ c2). rewrite <- app_assoc. split; [done|].
    rewrite forallb_app, H1, H2. done.
Qed.

Lemma CommitNewOrUpdatedSongs_emitted w t :
  ∃ calls,
    emitted (CommitNewOrUpdatedSongs E w t).1
    = emitted w ++ delta_signals t ++ calls
        ++ [UpdateLastSeen (dir_ t) (expire_unavailable_songs_days_ t)]
    ∧ forallb is_watch_call calls = true.
Proof.
  unfold CommitNewOrUpdatedSongs. cbn zeta.
  set (w1 := if nonempty (deleted_songs t) then _ else w).
  assert (emitted w1 = emitted w
            ++ batch (if mark_songs_unavailable_ t
                      then SongsUnavailable else SongsDeleted) (deleted_songs t)) as H1.
  { subst w1. unfold batch. destruct (nonempty (deleted_songs t));
      [|by rewrite app_nil_r].
    by destruct (mark_songs_unavailable_ t). }
  set (w6 := emit_unless_empty SubdirsMTimeUpdated _ _).
  assert (emitted w6 = emitted w ++ delta_signals t) as H6.
  { subst w6. rewrite !emit_unless_empty_emitted, H1. unfold delta_signals.
    by rewrite <- !app_assoc. }
  set (w7 := fold_left _ (deleted_subdirs t) w6).
  destruct (fold_watch_emitted
              (λ w subdir, match watched_dirs_ w !! dir_ t with
                           | Some dir => RemoveWatch dir subdir w
                           | None => w
                           end) (deleted_subdirs t)) with (w := w6)
    as (c7 & H7 & Hc7).
  { intros w0 a. destruct (watched_dirs_ w0 !! dir_ t).
    - apply RemoveWatch_emitted.
    - exists []. by rewrite app_nil_r. }
  fold w7 in H7.
  set (w8 := if monitor_ w7 then _ else w7).
  assert (∃ c8, emitted w8 = emitted w7 ++ c8
                ∧ forallb is_watch_call c8 = true) as (c8 & H8 & Hc8).
  { subst w8. destruct (monitor_ w7).
    - apply fold_watch_emitted. intros w0 a.
      destruct (watched_dirs_ w0 !! dir_ t).
      + apply AddWatch_emitted.
      + exists []. by rewrite app_nil_r.
    - exists []. by rewrite app_nil_r. }
  exists (c7 ++ c8). record_simpl. rewrite H8, H7, H6, forallb_app, Hc7, Hc8.
  split; [|done]. by rewrite <- !app_assoc.
Qed.

Lemma ScanTransaction_destroy_emitted w t :
  stop_requested_ w = false →
  ∃ calls,
    forallb is_watch_call calls = true
    ∧ emitted (ScanTransaction_destroy E w t)
      = emitted w ++ delta_signals t ++ calls
          ++ [UpdateLastSeen (dir_ t) (expire_unavailable_songs_days_ t);
              SetTaskFinished (task_id_ t)].
Proof.
  intros Hstop. unfold ScanTransaction_destroy. rewrite Hstop. cbn [negb].
  destruct (CommitNewOrUpdatedSongs_emitted w t) as (calls & Hc & Hcalls).
  exists calls. split; [done|]. record_simpl. rewrite Hc.
  by rewrite <- !app_assoc.
Qed.

End Commit.

(** ** The walk: the unchanged-directory shortcut *)

Section Shortcut.

Context (E : Env).

Lemma HasSongsWithMissingFingerprint_deltas path t :
  let t' := (HasSongsWithMissingFingerprint E path t).2 in
  deltas t' = deltas t ∧ files_changed_path_ t' = files_changed_path_ t
  ∧ trace t' = trace t ∧ progress_ t' = progress_ t
  ∧ progress_max_ t' = progress_max_ t ∧ task_id_ t' = task_id_ t.
Proof.
  unfold HasSongsWithMissingFingerprint. cbn zeta.
  by destruct (cached_songs_missing_fingerprint_dirty_ t).
Qed.

(** C2, as the code has it: in an incremental pass that does not ignore
    mtimes, a directory that is not skipped outright (no symbolic link
    into a watched root, no .nomedia or .nomusic marker), whose mtime is
    the recorded one and that has no song without a fingerprint makes
    [ScanSubdirectory] credit the estimated file count to the progress
    and return: the directory is not enumerated and no delta is added. *)
Theorem ScanSubdirectory_unchanged_directory (w : CollectionWatcher)
    (fuel : nat) (path : string) (subdir : Subdirectory.t)
    (files_count : Z) (t : ScanTransaction) :
  incremental_ t = true →
  ignores_mtime_ t = false →
  symlink_into_collection E w path = false →
  has_nomedia_marker E path = false →
  Subdirectory.mtime subdir = fs_lastModified E path →
  (HasSongsWithMissingFingerprint E path t).1 = false →
  ∃ t',
    ScanSubdirectory E (S fuel) w path subdir files_count t false = Some t'
    ∧ progress_ t' = u64 (progress_ t + files_count)
    ∧ trace t' = trace t
        ++ [SetTaskProgress (task_id_ t) (u64 (progress_ t + files_count))
              (progress_max_ t)]
    ∧ filter is_Enumerate (trace t') = filter is_Enumerate (trace t)
    ∧ deltas t' = deltas t
    ∧ files_changed_path_ t' = files_changed_path_ t.
Proof.
  intros Hinc Hign Hsym Hmark Hmtime Hmissing.
  cbn [ScanSubdirectory]. rewrite Hsym, Hmark.
  unfold songs_missing_fingerprint.
  destruct (HasSongsWithMissingFingerprint_deltas path t)
    as (Hd & Hf & Htr & Hp & Hpm & Hid).
  destruct (HAVE_MUSICBRAINZ E && song_tracking_ w).
  - destruct (HasSongsWithMissingFingerprint E path t) as [missing t1] eqn:Ht1.
    cbn [fst snd] in *. subst missing.
    assert (incremental_ t1 = true ∧ ignores_mtime_ t1 = false) as [Hinc1 Hign1].
    { unfold HasSongsWithMissingFingerprint in Ht1. cbn zeta in Ht1.
      injection Ht1 as _ <-.
      by destruct (cached_songs_missing_fingerprint_dirty_ t). }
    unfold unchanged_since_last_time.
    rewrite Hinc1, Hign1, Hmtime, Z.eqb_refl. cbn [negb andb].
    eexists. split; [reflexivity|]. unfold AddToProgress. record_simpl.
    rewrite Hp, Htr, Hid, Hpm. split; [done|]. split; [done|].
    split; [|by split].
    rewrite filter_app. cbn. by rewrite app_nil_r.
  - unfold unchanged_since_last_time.
    rewrite Hinc, Hign, Hmtime, Z.eqb_refl. cbn [negb andb].
    eexists. split; [reflexivity|]. unfold AddToProgress. record_simpl.
    split; [done|]. split; [done|]. split; [|by split].
    rewrite filter_app. cbn. by rewrite app_nil_r.
Qed.

End Shortcut.

Lemma ScanSubdirectory_unchanged_directory_witness :
  let E := disk_env one_track_disk one_track_db in
  ∃ t',
    ScanSubdirectory E 1 music_watcher "/music" (Subdirectory.mk 1 "/music" 100)
      1 music_transaction false = Some t'
    ∧ progress_ t' = u64 (progress_ music_transaction + 1)
    ∧ trace t' = trace music_transaction
        ++ [SetTaskProgress (task_id_ music_transaction)
              (u64 (progress_ music_transaction + 1))
              (progress_max_ music_transaction)]
    ∧ filter is_Enumerate (trace t') = filter is_Enumerate (trace music_transaction)
    ∧ deltas t' = deltas music_transaction
    ∧ files_changed_path_ t' = files_changed_path_ music_transaction.
Proof.
  intros E.
  apply (ScanSubdirectory_unchanged_directory E music_watcher 0 "/music"
           (Subdirectory.mk 1 "/music" 100) 1 music_transaction);
    vm_compute; reflexivity.
Defined.

(** C2 as stated fails on a directory that holds a .nomedia marker: the
    pass is incremental, the mtime is the recorded one and no song lacks a
    fingerprint, but [ScanSubdirectory] returns before the shortcut and
    credits nothing to the progress. *)
Lemma ScanSubdirectory_nomedia_not_credited :
  let E := disk_env nomedia_disk one_track_db in
  let t := music_transaction in
  let subdir := Subdirectory.mk 1 "/music" 100 in
  incremental_ t = true
  ∧ ignores_mtime_ t = false
  ∧ Subdirectory.mtime subdir = fs_lastModified E "/music"
  ∧ (HasSongsWithMissingFingerprint E "/music" t).1 = false
  ∧ ScanSubdirectory E 1 music_watcher "/music" subdir 2 t false = Some t
  ∧ progress_ t ≠ u64 (progress_ t + 2).
Proof.
  cbn zeta. repeat split; try (vm_compute; reflexivity).
  vm_compute. discriminate.
Qed.

(** ** The walk: what every step keeps *)

(** A step that leaves the configuration, the caches and the relocated
    paths alone, and at most appends to the deleted songs. *)
Ltac frame_step :=
  constructor;
  [ reflexivity | reflexivity | reflexivity | reflexivity
  | intros ? ?; assumption
  | intros ? ?; left; first [assumption | apply elem_of_app; left; assumption]
  | intros ? ?; left; assumption
  | intros ? ?; assumption
  | intros ? ?; assumption
  | intros ? ?; left; assumption ].

Section Walk.

Context (E : Env).

Lemma walk_step_refl t : walk_step E t t.
Proof. frame_step. Qed.

Lemma refiled_from_mono t t' x :
  songs_of E t' = songs_of E t →
  (∀ p, p ∈ files_changed_path_ t → p ∈ files_changed_path_ t') →
  refiled_from E t x → refiled_from E t' x.
Proof.
  intros Hs Hf (m & Hid & Hm). exists m. split; [done|].
  destruct Hm as [[Hin Hex]|[[Hfp Hin]|Hurl]].
  - left. by rewrite Hs.
  - right. left. split; [done|]. by apply Hf.
  - right. by right.
Qed.

Lemma walk_step_trans t1 t2 t3 :
  walk_step E t1 t2 → walk_step E t2 t3 → walk_step E t1 t3.
Proof.
  intros [d1 m1 s1 k1 f1 del1 tou1 n1 ts1 r1] [d2 m2 s2 k2 f2 del2 tou2 n2 ts2 r2].
  constructor; try congruence.
  - intros p Hp. auto.
  - intros s Hs. destruct (del1 s Hs) as [H|H]; [|right; auto].
    apply del2, H.
  - intros x Hx. destruct (tou2 x Hx) as [H|H]; [|by right].
    destruct (tou1 x H) as [H'|H']; [by left|right].
    eapply refiled_from_mono; eauto.
  - intros u Hu. auto.
  - intros u Hu. auto.
  - intros u Hu. destruct (r2 u Hu) as [H|[H1 H2]].
    + by apply r1.
    + right. split; [congruence|done].
Qed.

Lemma AddToProgress_step n t : walk_step E t (AddToProgress n t).
Proof. frame_step. Qed.

Lemma probe_step p t : walk_step E t (probe p t).
Proof. frame_step. Qed.

Lemma set_new_songs_step l t : walk_step E t (set_new_songs l t).
Proof. frame_step. Qed.

Lemma set_readded_songs_step l t : walk_step E t (set_readded_songs l t).
Proof. frame_step. Qed.

Lemma add_deleted_step x t :
  walk_step E t (set_deleted_songs (deleted_songs t ++ [x]) t).
Proof. frame_step. Qed.

Lemma FindSongsInSubdirectory_step path t :
  walk_step E t (FindSongsInSubdirectory E path t).2.
Proof.
  unfold FindSongsInSubdirectory. cbn zeta. cbn [snd].
  unfold songs_of, subdirs_of.
  destruct (cached_songs_dirty_ t) eqn:Hd; [|frame_step].
  constructor; unfold songs_of, subdirs_of; record_simpl;
    try rewrite Hd; try reflexivity; auto.
Qed.

Lemma HasSongsWithMissingFingerprint_step path t :
  walk_step E t (HasSongsWithMissingFingerprint E path t).2.
Proof.
  unfold HasSongsWithMissingFingerprint. cbn zeta. cbn [snd].
  destruct (cached_songs_missing_fingerprint_dirty_ t); frame_step.
Qed.

Lemma populate_known_subdirs_step t :
  walk_step E t (populate_known_subdirs E t).
Proof.
  unfold populate_known_subdirs, SetKnownSubdirs.
  destruct (known_subdirs_dirty_ t) eqn:Hd; [|frame_step].
  constructor; unfold songs_of, subdirs_of; record_simpl;
    try rewrite Hd; try reflexivity; auto.
Qed.

Lemma HasSeenSubdir_step path t : walk_step E t (HasSeenSubdir E path t).2.
Proof. apply populate_known_subdirs_step. Qed.

Lemma GetImmediateSubdirs_step path t :
  walk_step E t (GetImmediateSubdirs E path t).2.
Proof. apply populate_known_subdirs_step. Qed.

Lemma GetAllSubdirs_step t : walk_step E t (GetAllSubdirs E t).2.
Proof. apply populate_known_subdirs_step. Qed.

Lemma PreserveUserSetData_id matching image out :
  Song.id (PreserveUserSetData matching image out) = Song.id matching.
Proof.
  unfold PreserveUserSetData. cbn zeta.
  by destruct (negb (Song.has_embedded_cover _)).
Qed.

Lemma UpdateSong_step matching out t :
  refiled_from E t out → walk_step E t (UpdateSong matching out t).
Proof.
  intros Hout. unfold UpdateSong.
  assert (walk_step E t (set_touched_songs (touched_songs t ++ [out]) t)) as Ht.
  { constructor; try reflexivity; auto.
    intros x [Hx| ->%list_elem_of_singleton]%elem_of_app; [by left|by right]. }
  repeat match goal with
         | |- context [if ?b then _ else _] => destruct b
         end; first [exact Ht | apply set_new_songs_step].
Qed.

Lemma sections_map_elem (old_sections : list Song.t) :
  ∀ (m0 : gmap Z Song.t) k m,
    fold_left (λ m song, <[Song.beginning_nanosec song := song]> m)
      old_sections m0 !! k = Some m →
    m ∈ old_sections ∨ m0 !! k = Some m.
Proof.
  induction old_sections as [|song rest IH]; intros m0 k m H;
    cbn [fold_left] in H; [by right|].
  destruct (IH _ _ _ H) as [Hin|Hm0]; [left; by apply list_elem_of_further|].
  destruct (decide (Song.beginning_nanosec song = k)) as [Heq|Hne].
  - rewrite Heq, lookup_insert_eq in Hm0. injection Hm0 as ->.
    left. apply list_elem_of_here.
  - rewrite lookup_insert_ne in Hm0 by done. by right.
Qed.

Lemma update_cue_section_step w fingerprint image file sections_map
    t used_ids cue_song :
  fs_exists E file = true →
  (∀ k m, sections_map !! k = Some m → m ∈ GetSongsByUrl (backend E) file) →
  walk_step E t
    (update_cue_section w fingerprint image sections_map (t, used_ids) cue_song).1.
Proof.
  intros Hfile Hmap. unfold update_cue_section. cbn zeta.
  destruct (sections_map !! _) as [matching|] eqn:Hk; cbn [default from_option id].
  - destruct (negb (Song.is_valid matching)); cbn [fst].
    + apply set_new_songs_step.
    + apply UpdateSong_step. exists matching.
      split; [apply PreserveUserSetData_id|].
      right. right. exists file. split; [|done]. eapply Hmap, Hk.
  - cbn. apply set_new_songs_step.
Qed.

Lemma UpdateCueAssociatedSongs_step w file path fingerprint matching_cue image t :
  fs_exists E file = true →
  walk_step E t
    (UpdateCueAssociatedSongs E w file path fingerprint matching_cue image t).
Proof.
  intros Hfile. unfold UpdateCueAssociatedSongs.
  destruct (negb (fs_exists E matching_cue) || negb (fs_open E matching_cue));
    [apply walk_step_refl|].
  cbn zeta.
  set (sections_map := fold_left _ (GetSongsByUrl (backend E) file) ∅).
  assert (∀ k m, sections_map !! k = Some m → m ∈ GetSongsByUrl (backend E) file)
    as Hmap.
  { intros k m Hk. apply sections_map_elem in Hk as [H|H]; [done|].
    by rewrite lookup_empty in H. }
  assert (∀ l t0 used, walk_step E t t0 →
            walk_step E t
              (fold_left (update_cue_section w fingerprint image sections_map)
                         l (t0, used)).1) as Hloop.
  { induction l as [|cue_song l IH]; intros t0 used Ht0; [done|].
    cbn [fold_left].
    destruct (update_cue_section w fingerprint image sections_map (t0, used) cue_song)
      as [t1 used1] eqn:Hstep.
    apply IH. eapply walk_step_trans; [exact Ht0|].
    change t1 with (t1, used1).1. rewrite <- Hstep.
    by eapply update_cue_section_step. }
  specialize (Hloop (cue_Load E matching_cue path) t ∅ (walk_step_refl t)).
  destruct (fold_left (update_cue_section w fingerprint image sections_map) _ _)
    as [t1 used_ids]. cbn [fst] in Hloop.
  generalize (GetSongsByUrl (backend E) file) as old. intros old.
  revert t1 Hloop. induction old as [|matching old IH]; intros t1 Ht1; [done|].
  cbn [fold_left]. apply IH.
  destruct (negb (bool_decide _)); [|done].
  eapply walk_step_trans; [exact Ht1|apply add_deleted_step].
Qed.

Lemma UpdateNonCueAssociatedSong_step w file fingerprint matching_song image
    cue_deleted t :
  refiled_from E t matching_song →
  walk_step E t
    (UpdateNonCueAssociatedSong E w file fingerprint matching_song image cue_deleted t).
Proof.
  intros Hm. unfold UpdateNonCueAssociatedSong. cbn zeta.
  set (t1 := if cue_deleted then _ else t).
  assert (walk_step E t t1) as Ht1.
  { subst t1. destruct cue_deleted; [|apply walk_step_refl].
    generalize (GetSongsByUrl (backend E) file) as old. intros old.
    assert (∀ t0, walk_step E t t0 →
              walk_step E t
                (fold_left (λ t song,
                   if negb (Song.IsMetadataAndMoreEqual song matching_song)
                   then set_deleted_songs (deleted_songs t ++ [song]) t
                   else t) old t0)) as Hloop.
    { induction old as [|song old IH]; intros t0 Ht0; [done|].
      cbn [fold_left]. apply IH. destruct (negb _); [|done].
      eapply walk_step_trans; [exact Ht0|apply add_deleted_step]. }
    apply Hloop, walk_step_refl. }
  destruct (Song.is_valid _); [|done].
  eapply walk_step_trans; [exact Ht1|]. apply UpdateSong_step.
  destruct Hm as (m & Hid & Hm). exists m.
  split; [by rewrite PreserveUserSetData_id|].
  destruct Ht1 as [_ _ Hs _ Hf _ _].
  destruct Hm as [[Hin Hex]|[[Hfp Hin]|Hurl]].
  - left. by rewrite Hs.
  - right. left. split; [done|]. by apply Hf.
  - right. by right.
Qed.

Lemma update_matched_step w file path fingerprint matching_cue image
    matching_song cue_deleted cue_added t :
  fs_exists E file = true →
  refiled_from E t matching_song →
  walk_step E t
    (update_matched E w file path fingerprint matching_cue image matching_song
       cue_deleted cue_added t).
Proof.
  intros Hfile Hm. unfold update_matched.
  destruct (negb cue_deleted && _).
  - by apply UpdateCueAssociatedSongs_step.
  - by apply UpdateNonCueAssociatedSong_step.
Qed.

End Walk.

Create HintDb walk.

Section WalkLoops.

Context (E : Env).

Local Hint Resolve walk_step_refl AddToProgress_step probe_step
  set_new_songs_step set_readded_songs_step add_deleted_step : walk.

Ltac then_step lem := eapply walk_step_trans; [|apply lem].

Lemma Song_eqb_url a b : Song.eqb a b = true → Song.url a = Song.url b.
Proof.
  unfold Song.eqb. intros H.
  apply andb_prop in H as [H _]. apply andb_prop in H as [_ H].
  by apply String.eqb_eq.
Qed.

Lemma relocate_step m t :
  let t1 := set_files_changed_path_ (files_changed_path_ t ++ [Song.url m]) t in
  let t2 := if Song.list_contains (deleted_songs t1) m
            then set_deleted_songs (Song.removeAll m (deleted_songs t1)) t1
            else t1 in
  walk_step E t t2 ∧ Song.url m ∈ files_changed_path_ t2.
Proof.
  cbn zeta. split.
  - destruct (Song.list_contains _ m); constructor; try reflexivity; record_simpl;
      try (intros ? ?; assumption); try (intros ? ?; left; assumption).
    + intros p Hp. apply elem_of_app. by left.
    + intros s Hs. destruct (Song.eqb s m) eqn:Heq.
      * right. apply elem_of_app. right.
        apply Song_eqb_url in Heq. rewrite Heq. apply list_elem_of_here.
      * left. unfold Song.removeAll. apply list_elem_of_In, filter_In.
        split; [by apply list_elem_of_In|]. by rewrite Heq.
    + intros p Hp. apply elem_of_app. by left.
  - destruct (Song.list_contains _ m); record_simpl;
      apply elem_of_app; right; apply list_elem_of_here.
Qed.

Lemma add_new_songs_step (f : ScanTransaction → Song.t → Song.t) songs : ∀ t0 t,
  walk_step E t0 t →
  walk_step E t0
    (fold_left (λ t song, set_new_songs (new_songs t ++ [f t song]) t) songs t).
Proof.
  induction songs as [|song songs IH]; intros t0 t Ht; [done|].
  cbn [fold_left]. apply IH. then_step set_new_songs_step. done.
Qed.

Lemma scan_file_step w path songs_in_db file t files_on_disk album_art cues :
  (∀ s, s ∈ songs_in_db → s ∈ songs_of E t) →
  walk_step E t
    (scan_file E w path songs_in_db file (t, files_on_disk, album_art, cues)).1.1.1.
Proof.
  intros Hdb. unfold scan_file.
  destruct (FindSongByPath songs_in_db file) as [matching_song|] eqn:Hpath.
  - apply find_some in Hpath as [Hin Hurl]. apply String.eqb_eq in Hurl.
    apply list_elem_of_In in Hin.
    destruct (fs_exists E file) eqn:Hfile; cbn [negb]; [|cbn; auto with walk].
    cbn zeta.
    destruct (ImageForSong E w file album_art) as [[image album_art'] probes].
    cbn [fst]. then_step AddToProgress_step.
    assert (refiled_from E (probe probes t) matching_song) as Hm.
    { exists matching_song. split; [done|]. left.
      split; [by apply Hdb|]. by rewrite Hurl. }
    set (t1 := if _ || _ || _ then _ else probe probes t).
    assert (walk_step E t t1) as Ht1.
    { subst t1. destruct (_ || _ || _); [|auto with walk].
      eapply walk_step_trans; [apply probe_step|].
      by apply update_matched_step. }
    destruct (Song.is_unavailable matching_song); [|done].
    then_step set_readded_songs_step. done.
  - cbn zeta.
    destruct (if song_tracking_ w && _ && _ then _ else None)
      as [matching_song|] eqn:Hfp.
    + assert (matching_song
                ∈ GetSongsByFingerprint (backend E) (file_fingerprint E w file)) as Hin.
      { destruct (song_tracking_ w && _ && _); [|discriminate].
        apply find_some in Hfp as [Hin _]. by apply list_elem_of_In. }
      destruct (relocate_step matching_song t) as [Ht2 Hrel]. cbn zeta in Ht2, Hrel.
      set (t2 := if Song.list_contains _ matching_song then _ else _) in *.
      destruct (fs_exists E file) eqn:Hfile; cbn [negb].
      { cbn zeta.
        destruct (ImageForSong E w file album_art) as [[image album_art'] probes].
        cbn [fst]. then_step AddToProgress_step.
        match goal with
        | |- context [update_matched E w ?f ?p ?fp ?mc ?im ?ms ?cd ?ca ?tt] =>
            assert (walk_step E t (update_matched E w f p fp mc im ms cd ca tt))
              as Ht3
        end.
        { eapply walk_step_trans; [exact Ht2|].
          eapply walk_step_trans; [apply probe_step|].
          apply update_matched_step; [done|].
          exists matching_song. split; [done|]. right. left. split; [eauto|done]. }
        destruct (Song.is_unavailable _); [|exact Ht3].
        then_step set_readded_songs_step. exact Ht3. }
      cbn [fst]. then_step AddToProgress_step. exact Ht2.
    + destruct (ScanNewFile E w file path (file_fingerprint E w file) _ cues)
        as [songs cues'].
      destruct (negb (nonempty songs)); [cbn; auto with walk|].
      destruct (ImageForSong E w file album_art) as [[image album_art'] probes].
      cbn [fst]. then_step AddToProgress_step.
      apply (add_new_songs_step
               (λ t song,
                  let song := Song.set_directory_id (dir_ t) song in
                  if QString.isEmpty (Song.art_automatic song)
                  then Song.set_art_automatic image song else song)).
      auto with walk.
Qed.

Lemma enumerate_children_step w children : ∀ t album_art files_on_disk subdirs,
  walk_step E t
    (flow_txn (enumerate_children E w children
                 (t, album_art, files_on_disk, subdirs))).
Proof.
  induction children as [|child rest IH]; intros t album_art files_on_disk subdirs;
    [apply walk_step_refl|].
  cbn [enumerate_children].
  destruct (stop_requested_ w); [apply walk_step_refl|].
  destruct (fs_isDir E child).
  - destruct (negb (fs_isHidden E child)).
    + pose proof (HasSeenSubdir_step E child t) as Hseen.
      destruct (HasSeenSubdir E child t) as [seen t1]. cbn [snd] in Hseen.
      destruct (negb seen);
        (eapply walk_step_trans; [|apply IH]);
        (eapply walk_step_trans; [exact Hseen|apply AddToProgress_step]).
    + eapply walk_step_trans; [|apply IH]. apply AddToProgress_step.
  - destruct (QString.list_contains _ _);
      [eapply walk_step_trans; [|apply IH]; apply AddToProgress_step|].
    destruct (IsMediaFileBlocking E child); [apply IH|].
    eapply walk_step_trans; [|apply IH]. apply AddToProgress_step.
Qed.

(** Without a stop request the enumeration runs to its end; the new
    subdirectories it reports are children of the directory. *)
Lemma enumerate_children_next w children :
  stop_requested_ w = false →
  ∀ t album_art files_on_disk subdirs,
  ∃ t' album_art' files_on_disk' subdirs',
    enumerate_children E w children (t, album_art, files_on_disk, subdirs)
    = Next (t', album_art', files_on_disk', subdirs')
    ∧ ∀ sd, sd ∈ subdirs' → sd ∈ subdirs ∨ Subdirectory.path sd ∈ children.
Proof.
  intros Hstop. induction children as [|child rest IH];
    intros t album_art files_on_disk subdirs.
  { exists t, album_art, files_on_disk, subdirs. split; [reflexivity|].
    intros sd Hsd. by left. }
  cbn [enumerate_children]. rewrite Hstop.
  assert (∀ t1 aa1 fod1 subdirs1,
            (∀ sd, sd ∈ subdirs1 → sd ∈ subdirs ∨ Subdirectory.path sd = child) →
            ∃ t' album_art' files_on_disk' subdirs',
              enumerate_children E w rest (t1, aa1, fod1, subdirs1)
              = Next (t', album_art', files_on_disk', subdirs')
              ∧ ∀ sd, sd ∈ subdirs' →
                  sd ∈ subdirs ∨ Subdirectory.path sd ∈ child :: rest) as Hnext.
  { intros t1 aa1 fod1 subdirs1 Hsub.
    destruct (IH t1 aa1 fod1 subdirs1) as (t' & aa' & fod' & sd' & -> & Hsd).
    exists t', aa', fod', sd'. split; [reflexivity|]. intros sd Hin.
    destruct (Hsd sd Hin) as [H|H]; [|right; by apply list_elem_of_further].
    destruct (Hsub sd H) as [H'| ->]; [by left|right; apply list_elem_of_here]. }
  destruct (fs_isDir E child).
  - destruct (negb (fs_isHidden E child)); [|apply Hnext; by left].
    destruct (HasSeenSubdir E child t) as [seen t1].
    destruct (negb seen); apply Hnext; [|by left].
    intros sd [H| ->%list_elem_of_singleton]%elem_of_app; [by left|by right].
  - destruct (QString.list_contains _ _); [apply Hnext; by left|].
    destruct (IsMediaFileBlocking E child); apply Hnext; by left.
Qed.

Lemma scan_files_step w path songs_in_db files : ∀ t files_on_disk album_art cues,
  (∀ s, s ∈ songs_in_db → s ∈ songs_of E t) →
  walk_step E t
    (flow_txn (scan_files E w path songs_in_db files
                 (t, files_on_disk, album_art, cues))).
Proof.
  induction files as [|file rest IH]; intros t files_on_disk album_art cues Hdb;
    [apply walk_step_refl|].
  cbn [scan_files]. destruct (stop_requested_ w); [apply walk_step_refl|].
  pose proof (scan_file_step w path songs_in_db file t files_on_disk album_art
                cues Hdb) as Hstep.
  destruct (scan_file E w path songs_in_db file (t, files_on_disk, album_art, cues))
    as [[[t1 fod1] aa1] cues1]. cbn [fst] in Hstep.
  eapply walk_step_trans; [exact Hstep|]. apply IH.
  intros s Hs. rewrite (ws_songs _ _ _ Hstep). by apply Hdb.
Qed.

(** What one file does to [files_on_disk]: nothing, or the file is taken
    out because it is gone from disk. *)
Lemma scan_file_files_on_disk w path songs_in_db file t files_on_disk album_art cues :
  let fod' := (scan_file E w path songs_in_db file
                 (t, files_on_disk, album_art, cues)).1.1.2 in
  (fod' = files_on_disk
   ∧ (is_Some (FindSongByPath songs_in_db file) → fs_exists E file = true))
  ∨ (fod' = QString.removeAll file files_on_disk).
Proof.
  cbn zeta. unfold scan_file.
  destruct (FindSongByPath songs_in_db file) as [matching_song|].
  - destruct (fs_exists E file); cbn [negb]; [|by right].
    cbn zeta. destruct (ImageForSong E w file album_art) as [[image aa] probes].
    left. by split.
  - cbn zeta.
    destruct (if song_tracking_ w && _ && _ then _ else None) as [matching_song|].
    + destruct (fs_exists E file); cbn [negb]; [|by right].
      cbn zeta. destruct (ImageForSong E w file album_art) as [[image aa] probes].
      left. split; [done|]. by intros [? [=]].
    + destruct (ScanNewFile E w file path _ _ cues) as [songs cues'].
      destruct (negb (nonempty songs)); [left; split; [done|by intros [? [=]]]|].
      destruct (ImageForSong E w file album_art) as [[image aa] probes].
      left. split; [done|]. by intros [? [=]].
Qed.

Lemma removeAll_elem x y (l : list string) :
  y ∈ QString.removeAll x l ↔ y ∈ l ∧ y ≠ x.
Proof. unfold QString.removeAll. rewrite list_elem_of_filter. tauto. Qed.

(** Without a stop request the file loop runs to its end; it only takes
    files out of [files_on_disk], and a file it has met that matches a
    stored path and is gone from disk is taken out. *)
Lemma scan_files_next w path songs_in_db files :
  stop_requested_ w = false →
  ∀ t files_on_disk album_art cues,
  ∃ t' files_on_disk' album_art' cues',
    scan_files E w path songs_in_db files (t, files_on_disk, album_art, cues)
    = Next (t', files_on_disk', album_art', cues')
    ∧ ∀ f, f ∈ files_on_disk' →
        f ∈ files_on_disk
        ∧ (f ∈ files → is_Some (FindSongByPath songs_in_db f) →
           fs_exists E f = true).
Proof.
  intros Hstop. induction files as [|file rest IH];
    intros t files_on_disk album_art cues.
  { exists t, files_on_disk, album_art, cues. split; [reflexivity|].
    intros f Hf. split; [done|]. by intros ?%elem_of_nil. }
  cbn [scan_files]. rewrite Hstop.
  pose proof (scan_file_files_on_disk w path songs_in_db file t files_on_disk
                album_art cues) as Hfod. cbn zeta in Hfod.
  destruct (scan_file E w path songs_in_db file (t, files_on_disk, album_art, cues))
    as [[[t1 fod1] aa1] cues1]. cbn [fst snd] in Hfod.
  destruct (IH t1 fod1 aa1 cues1) as (t' & fod' & aa' & cues' & -> & Hrest).
  exists t', fod', aa', cues'. split; [reflexivity|].
  intros f Hf. destruct (Hrest f Hf) as [Hin Hmet].
  destruct Hfod as [[-> Hfile]| ->].
  - split; [done|]. intros [->|Hr]%elem_of_cons; [done|by apply Hmet].
  - apply removeAll_elem in Hin as [Hin Hne]. split; [done|].
    intros [->|Hr]%elem_of_cons; [done|by apply Hmet].
Qed.

End WalkLoops.

Section WalkRecursion.

Context (E : Env).

Lemma look_for_deleted_changed_path songs_in_db files_on_disk : ∀ t,
  files_changed_path_ (look_for_deleted songs_in_db files_on_disk t)
  = files_changed_path_ t.
Proof.
  unfold look_for_deleted.
  induction songs_in_db as [|song rest IH]; intros t; [done|].
  cbn [fold_left]. rewrite IH. by destruct (_ && _ && _).
Qed.

Lemma look_for_deleted_step songs_in_db files_on_disk : ∀ t0 t,
  walk_step E t0 t →
  walk_step E t0 (look_for_deleted songs_in_db files_on_disk t).
Proof.
  unfold look_for_deleted.
  induction songs_in_db as [|song rest IH]; intros t0 t Ht; [done|].
  cbn [fold_left]. apply IH. destruct (_ && _ && _); [|done].
  eapply walk_step_trans; [exact Ht|apply add_deleted_step].
Qed.

Lemma look_for_deleted_keeps songs_in_db files_on_disk : ∀ t s,
  s ∈ deleted_songs t →
  s ∈ deleted_songs (look_for_deleted songs_in_db files_on_disk t).
Proof.
  unfold look_for_deleted.
  induction songs_in_db as [|song rest IH]; intros t s Hs; [done|].
  cbn [fold_left]. apply IH. destruct (_ && _ && _); [|done].
  record_simpl. apply elem_of_app. by left.
Qed.

(** The loop files every stored song of the directory that is available,
    not in the disk listing and not relocated. *)
Lemma look_for_deleted_files songs_in_db files_on_disk : ∀ t song,
  song ∈ songs_in_db →
  Song.is_unavailable song = false →
  Song.url song ∉ files_on_disk →
  Song.url song ∉ files_changed_path_ t →
  song ∈ deleted_songs (look_for_deleted songs_in_db files_on_disk t).
Proof.
  induction songs_in_db as [|s rest IH]; intros t song Hin Hav Hfod Hfcp;
    [by apply elem_of_nil in Hin|].
  unfold look_for_deleted. cbn [fold_left]. fold (look_for_deleted rest files_on_disk).
  apply elem_of_cons in Hin as [->|Hin].
  - apply list_contains_not_elem in Hfod, Hfcp. rewrite Hav, Hfod, Hfcp.
    cbn [negb andb]. apply look_for_deleted_keeps. record_simpl.
    apply elem_of_app. right. apply list_elem_of_here.
  - apply IH; try done. by destruct (_ && _ && _).
Qed.

Lemma add_subdir_record_step path subdir t :
  walk_step E t (add_subdir_record E path subdir t).
Proof.
  unfold add_subdir_record. cbn zeta.
  destruct (Subdirectory.directory_id subdir =? -1);
    destruct (Subdirectory.mtime _ =? 0);
    constructor; try reflexivity; record_simpl;
    try (intros ? ?; assumption); try (intros ? ?; left; assumption);
    try (intros u Hu; apply elem_of_app; by left);
    intros u Hu; rewrite ?app_assoc in Hu;
    repeat (apply elem_of_app in Hu as [Hu|Hu]);
    try (left; apply elem_of_app; auto; fail);
    apply list_elem_of_singleton in Hu as ->; right; by split.
Qed.

Lemma songs_missing_fingerprint_step w path t :
  walk_step E t (songs_missing_fingerprint E w path t).2.
Proof.
  unfold songs_missing_fingerprint. destruct (_ && _).
  - apply HasSongsWithMissingFingerprint_step.
  - apply walk_step_refl.
Qed.

Lemma FindSongsInSubdirectory_songs path t s :
  s ∈ (FindSongsInSubdirectory E path t).1
  ↔ s ∈ songs_of E (FindSongsInSubdirectory E path t).2
    ∧ in_directory path s = true.
Proof.
  unfold FindSongsInSubdirectory. cbn zeta. cbn [fst snd].
  rewrite list_elem_of_In, filter_In, <- list_elem_of_In.
  unfold songs_of. destruct (cached_songs_dirty_ t) eqn:Hd; record_simpl;
    rewrite ?Hd; reflexivity.
Qed.

Lemma rescan_removed_step rec path previous_subdirs :
  (∀ p s t t', rec p s t = Some t' → walk_step E t t') →
  ∀ t t', rescan_removed E rec path previous_subdirs t = Some t' →
          walk_step E t t'.
Proof.
  intros Hrec. induction previous_subdirs as [|prev rest IH]; intros t t' H;
    cbn [rescan_removed] in H.
  { injection H as <-. apply walk_step_refl. }
  destruct (_ && _); [|by apply IH].
  destruct (rec _ prev t) as [t1|] eqn:H1; [|discriminate].
  eapply walk_step_trans; [by eapply Hrec|by apply IH].
Qed.

Lemma scan_new_subdirs_step rec stop my_new_subdirs :
  (∀ p s t t', rec p s t = Some t' → walk_step E t t') →
  ∀ t t', scan_new_subdirs rec stop my_new_subdirs t = Some t' →
          walk_step E t t'.
Proof.
  intros Hrec. induction my_new_subdirs as [|sd rest IH]; intros t t' H;
    cbn [scan_new_subdirs] in H.
  { injection H as <-. apply walk_step_refl. }
  destruct stop; [injection H as <-; apply walk_step_refl|].
  destruct (rec _ sd t) as [t1|] eqn:H1; [|discriminate].
  eapply walk_step_trans; [by eapply Hrec|by apply IH].
Qed.

(** Every call of [ScanSubdirectory] that returns is a step of the walk:
    it keeps the snapshot, only adds relocated paths, drops a deleted
    song only when its path is relocated, and re-files as touched only
    records with a file on disk or relocated ones. *)
Lemma ScanSubdirectory_step fuel : ∀ w path subdir files_count t force t',
  ScanSubdirectory E fuel w path subdir files_count t force = Some t' →
  walk_step E t t'.
Proof.
  induction fuel as [|fuel IH]; intros w path subdir files_count t force t' H;
    [discriminate|].
  cbn [ScanSubdirectory] in H.
  destruct (symlink_into_collection E w path);
    [injection H as <-; apply walk_step_refl|].
  destruct (has_nomedia_marker E path);
    [injection H as <-; apply walk_step_refl|].
  pose proof (songs_missing_fingerprint_step w path t) as H1.
  destruct (songs_missing_fingerprint E w path t) as [missing t1]. cbn [snd] in H1.
  destruct (unchanged_since_last_time E path subdir t1 force missing).
  { injection H as <-. eapply walk_step_trans; [exact H1|apply AddToProgress_step]. }
  pose proof (GetImmediateSubdirs_step E path t1) as H2.
  destruct (GetImmediateSubdirs E path t1) as [previous_subdirs t2]. cbn [snd] in H2.
  destruct (rescan_removed E _ path previous_subdirs t2) as [t3|] eqn:H3;
    [|discriminate].
  apply rescan_removed_step in H3; [|intros p s t0 t0'; apply IH].
  pose proof (enumerate_children_step E w (fs_entries E path)
                (probe [Enumerate path] t3) ∅ [] []) as H4.
  assert (walk_step E t t3) as H03.
  { eapply walk_step_trans; [exact H1|]. eapply walk_step_trans; [exact H2|done]. }
  destruct (enumerate_children E w (fs_entries E path) _)
    as [[[[t4 album_art] files_on_disk] my_new_subdirs]|t4]; cbn [flow_txn fst] in H4.
  2: { injection H as <-. eapply walk_step_trans; [exact H03|].
       eapply walk_step_trans; [apply probe_step|exact H4]. }
  assert (walk_step E t t4) as H04.
  { eapply walk_step_trans; [exact H03|].
    eapply walk_step_trans; [apply probe_step|exact H4]. }
  destruct (stop_requested_ w); [by injection H as <-|].
  pose proof (FindSongsInSubdirectory_step E path t4) as H5.
  pose proof (λ s, proj1 (FindSongsInSubdirectory_songs path t4 s)) as Hdb.
  destruct (FindSongsInSubdirectory E path t4) as [songs_in_db t5].
  cbn [fst snd] in H5, Hdb.
  pose proof (scan_files_step E w path songs_in_db files_on_disk t5 files_on_disk
                album_art ∅ (λ s Hs, proj1 (Hdb s Hs))) as H6.
  destruct (scan_files E w path songs_in_db files_on_disk _)
    as [[[[t6 files_on_disk'] album_art'] cues]|t6]; cbn [flow_txn fst] in H6.
  2: { injection H as <-. eapply walk_step_trans; [exact H04|].
       eapply walk_step_trans; [exact H5|exact H6]. }
  apply scan_new_subdirs_step in H; [|intros p s t0 t0'; apply IH].
  eapply walk_step_trans; [exact H04|].
  eapply walk_step_trans; [exact H5|].
  eapply walk_step_trans; [exact H6|].
  eapply walk_step_trans; [|exact H].
  eapply walk_step_trans; [|apply add_subdir_record_step].
  apply look_for_deleted_step, walk_step_refl.
Qed.

End WalkRecursion.

Section WalkTermination.

Context (E : Env).

Lemma GetImmediateSubdirs_elem path t sd :
  sd ∈ (GetImmediateSubdirs E path t).1 →
  sd ∈ subdirs_of E t
  ∧ QString.left_lastIndexOf "/" (Subdirectory.path sd) = path.
Proof.
  unfold GetImmediateSubdirs. cbn zeta. cbn [fst].
  rewrite list_elem_of_In, filter_In, <- list_elem_of_In.
  intros [Hin Hcond]. apply andb_prop in Hcond as [Hparent _].
  apply String.eqb_eq in Hparent. split; [|done].
  unfold subdirs_of, populate_known_subdirs, SetKnownSubdirs in *.
  by destruct (known_subdirs_dirty_ t).
Qed.

Lemma rescan_removed_total rec path previous_subdirs ledger :
  (∀ p s t t', rec p s t = Some t' → walk_step E t t') →
  (∀ sd t, sd ∈ previous_subdirs → Subdirectory.path sd ≠ path →
           subdirs_of E t = ledger →
           ∃ t', rec (Subdirectory.path sd) sd t = Some t') →
  ∀ t, subdirs_of E t = ledger →
       ∃ t', rescan_removed E rec path previous_subdirs t = Some t'.
Proof.
  intros Hstep. induction previous_subdirs as [|prev rest IH]; intros Hrec t Ht;
    cbn [rescan_removed]; [by eexists|].
  assert (∀ sd t, sd ∈ rest → Subdirectory.path sd ≠ path →
            subdirs_of E t = ledger →
            ∃ t', rec (Subdirectory.path sd) sd t = Some t') as Hrest.
  { intros sd t0 Hin. apply Hrec. by apply list_elem_of_further. }
  destruct (negb (fs_exists E _) && negb (Subdirectory.path prev =? path)%string)
    eqn:Hcond; [|by apply IH].
  apply andb_prop in Hcond as [_ Hne]. apply negb_true_iff, String.eqb_neq in Hne.
  destruct (Hrec prev t (list_elem_of_here _ _) Hne Ht) as [t1 H1]. rewrite H1.
  apply IH; [done|]. rewrite <- Ht. apply (ws_subdirs E t t1). by eapply Hstep.
Qed.

Lemma scan_new_subdirs_total rec stop my_new_subdirs ledger :
  (∀ p s t t', rec p s t = Some t' → walk_step E t t') →
  (∀ sd t, sd ∈ my_new_subdirs → subdirs_of E t = ledger →
           ∃ t', rec (Subdirectory.path sd) sd t = Some t') →
  ∀ t, subdirs_of E t = ledger →
       ∃ t', scan_new_subdirs rec stop my_new_subdirs t = Some t'.
Proof.
  intros Hstep. induction my_new_subdirs as [|sd rest IH]; intros Hrec t Ht;
    cbn [scan_new_subdirs]; [by eexists|].
  destruct stop; [by eexists|].
  destruct (Hrec sd t (list_elem_of_here _ _) Ht) as [t1 H1]. rewrite H1.
  apply IH.
  - intros sd' t0 Hin. apply Hrec. by apply list_elem_of_further.
  - rewrite <- Ht. apply (ws_subdirs E t t1). by eapply Hstep.
Qed.

(** [ScanSubdirectory] returns when the tree and the ledger below [path]
    are no deeper than the fuel. *)
Lemma ScanSubdirectory_total fuel : ∀ w path subdir files_count t force,
  walk_height_le E (subdirs_of E t) fuel path →
  ∃ t', ScanSubdirectory E fuel w path subdir files_count t force = Some t'.
Proof.
  induction fuel as [|fuel IH]; intros w path subdir files_count t force Hh;
    [destruct Hh|].
  destruct Hh as [Hchildren Hledger].
  cbn [ScanSubdirectory].
  destruct (symlink_into_collection E w path); [by eexists|].
  destruct (has_nomedia_marker E path); [by eexists|].
  pose proof (songs_missing_fingerprint_step E w path t) as H1.
  destruct (songs_missing_fingerprint E w path t) as [missing t1]. cbn [snd] in H1.
  destruct (unchanged_since_last_time E path subdir t1 force missing); [by eexists|].
  pose proof (GetImmediateSubdirs_step E path t1) as H2.
  pose proof (GetImmediateSubdirs_elem path t1) as Hprev.
  destruct (GetImmediateSubdirs E path t1) as [previous_subdirs t2].
  cbn [fst snd] in H2, Hprev.
  assert (subdirs_of E t2 = subdirs_of E t) as Hs2
    by (rewrite (ws_subdirs _ _ _ H2); apply (ws_subdirs _ _ _ H1)).
  destruct (rescan_removed_total
              (λ p s t, ScanSubdirectory E fuel w p s 0 t true) path
              previous_subdirs (subdirs_of E t)) with (t := t2) as [t3 H3];
    [intros p s t0 t0'; apply ScanSubdirectory_step| |done|].
  { intros sd t0 Hin Hne Ht0. apply IH. rewrite Ht0.
    destruct (Hprev sd Hin) as [Hin1 Hparent].
    apply Hledger; [|done|done]. by rewrite <- (ws_subdirs _ _ _ H1). }
  rewrite H3.
  pose proof H3 as Hstep3.
  apply rescan_removed_step in Hstep3;
    [|intros p s t0 t0'; apply ScanSubdirectory_step].
  destruct (stop_requested_ w) eqn:Hstop.
  { destruct (enumerate_children E w _ _) as [[[[t4 aa] fod] nsd]|t4]; by eexists. }
  destruct (enumerate_children_next E w (fs_entries E path) Hstop
              (probe [Enumerate path] t3) ∅ [] [])
    as (t4 & album_art & files_on_disk & my_new_subdirs & Henum & Hnew).
  pose proof (enumerate_children_step E w (fs_entries E path)
                (probe [Enumerate path] t3) ∅ [] []) as H4.
  rewrite Henum in H4 |- *. cbn [flow_txn fst] in H4.
  pose proof (FindSongsInSubdirectory_step E path t4) as H5.
  pose proof (λ s, proj1 (FindSongsInSubdirectory_songs E path t4 s)) as Hdb.
  destruct (FindSongsInSubdirectory E path t4) as [songs_in_db t5].
  cbn [fst snd] in H5, Hdb.
  destruct (scan_files_next E w path songs_in_db files_on_disk Hstop t5
              files_on_disk album_art ∅)
    as (t6 & files_on_disk' & album_art' & cues & Hfiles & _).
  pose proof (scan_files_step E w path songs_in_db files_on_disk t5 files_on_disk
                album_art ∅ (λ s Hs, proj1 (Hdb s Hs))) as H6.
  rewrite Hfiles in H6 |- *. cbn [flow_txn fst] in H6.
  apply scan_new_subdirs_total with (ledger := subdirs_of E t);
    [intros p s t0 t0'; apply ScanSubdirectory_step| |].
  - intros sd t0 Hin Ht0. apply IH. rewrite Ht0. apply Hchildren.
    destruct (Hnew sd Hin) as [H|H]; [by apply elem_of_nil in H|done].
  - rewrite (ws_subdirs _ _ _ (add_subdir_record_step E path subdir _)).
    rewrite (ws_subdirs _ _ _
               (look_for_deleted_step E songs_in_db files_on_disk' _ _
                  (walk_step_refl E t6))).
    rewrite (ws_subdirs _ _ _ H6), (ws_subdirs _ _ _ H5), (ws_subdirs _ _ _ H4).
    rewrite <- Hs2. apply (ws_subdirs _ _ _ Hstep3).
Qed.

End WalkTermination.

(** ** The walk: songs gone from disk *)

Section DeletedSongs.

Context (E : Env).

Lemma FindSongByPath_found songs song :
  song ∈ songs → is_Some (FindSongByPath songs (Song.url song)).
Proof.
  intros Hin. unfold FindSongByPath.
  destruct (find _ songs) as [m|] eqn:Hfind; [by eexists|].
  apply list_elem_of_In in Hin.
  pose proof (find_none _ _ Hfind song Hin) as Hne. cbn in Hne.
  by rewrite String.eqb_refl in Hne.
Qed.

Lemma delta_signals_removal t :
  nonempty (deleted_songs t) = true →
  ∃ rest,
    delta_signals t
    = (if mark_songs_unavailable_ t
       then SongsUnavailable (deleted_songs t)
       else SongsDeleted (deleted_songs t)) :: rest
    ∧ forallb (λ sig, negb (is_removal sig)) rest = true.
Proof.
  intros Hne. unfold delta_signals, batch at 1. rewrite Hne.
  eexists. split; [by destruct (mark_songs_unavailable_ t)|].
  unfold batch. rewrite !forallb_app.
  by repeat match goal with |- context [nonempty ?l] => destruct (nonempty l) end.
Qed.

(** What a completed walk of [path] is made of. *)
Lemma ScanSubdirectory_walked fuel w path subdir files_count t force t' :
  stop_requested_ w = false →
  symlink_into_collection E w path = false →
  has_nomedia_marker E path = false →
  unchanged_since_last_time E path subdir (songs_missing_fingerprint E w path t).2
    force (songs_missing_fingerprint E w path t).1 = false →
  ScanSubdirectory E (S fuel) w path subdir files_count t force = Some t' →
  ∃ songs_in_db files_on_disk t6,
    walk_step E t t6
    ∧ (∀ s, s ∈ songs_of E t → in_directory path s = true → s ∈ songs_in_db)
    ∧ (∀ f, f ∈ files_on_disk → is_Some (FindSongByPath songs_in_db f) →
            fs_exists E f = true)
    ∧ walk_step E
        (add_subdir_record E path subdir
           (look_for_deleted songs_in_db files_on_disk t6)) t'.
Proof.
  intros Hstop Hsym Hmark Hwalk H.
  cbn [ScanSubdirectory] in H. rewrite Hsym, Hmark in H.
  pose proof (songs_missing_fingerprint_step E w path t) as H1.
  destruct (songs_missing_fingerprint E w path t) as [missing t1].
  cbn [fst snd] in H1, Hwalk. rewrite Hwalk in H.
  pose proof (GetImmediateSubdirs_step E path t1) as H2.
  destruct (GetImmediateSubdirs E path t1) as [previous_subdirs t2]. cbn [snd] in H2.
  destruct (rescan_removed E _ path previous_subdirs t2) as [t3|] eqn:H3;
    [|discriminate].
  apply rescan_removed_step in H3;
    [|intros p s t0 t0'; apply ScanSubdirectory_step].
  destruct (enumerate_children_next E w (fs_entries E path) Hstop
              (probe [Enumerate path] t3) ∅ [] [])
    as (t4 & album_art & files_on_disk & my_new_subdirs & Henum & _).
  pose proof (enumerate_children_step E w (fs_entries E path)
                (probe [Enumerate path] t3) ∅ [] []) as H4.
  rewrite Henum in H4, H. cbn [flow_txn fst] in H4. rewrite Hstop in H.
  assert (walk_step E t t4) as H04.
  { eapply walk_step_trans; [exact H1|]. eapply walk_step_trans; [exact H2|].
    eapply walk_step_trans; [exact H3|].
    eapply walk_step_trans; [apply probe_step|exact H4]. }
  pose proof (FindSongsInSubdirectory_step E path t4) as H5.
  pose proof (FindSongsInSubdirectory_songs E path t4) as Hdb.
  destruct (FindSongsInSubdirectory E path t4) as [songs_in_db t5].
  cbn [fst snd] in H5, Hdb.
  destruct (scan_files_next E w path songs_in_db files_on_disk Hstop t5
              files_on_disk album_art ∅)
    as (t6 & files_on_disk' & album_art' & cues & Hfiles & Hfod).
  pose proof (scan_files_step E w path songs_in_db files_on_disk t5 files_on_disk
                album_art ∅ (λ s Hs, proj1 (proj1 (Hdb s) Hs))) as H6.
  rewrite Hfiles in H6, H. cbn [flow_txn fst] in H6.
  apply (scan_new_subdirs_step E) in H;
    [|intros p s t0 t0'; apply ScanSubdirectory_step].
  exists songs_in_db, files_on_disk', t6. split.
  { eapply walk_step_trans; [exact H04|]. eapply walk_step_trans; [exact H5|done]. }
  split.
  { intros s Hs Hdir. apply Hdb. split; [|done].
    by rewrite (ws_songs _ _ _ H5), (ws_songs _ _ _ H04). }
  split; [|done].
  intros f Hf. destruct (Hfod f Hf) as [Hin Hmet]. by apply Hmet.
Qed.

(** C3, as the code has it: a stored song of a walked directory that is
    still available, whose file is gone from disk and whose path is not
    relocated by a fingerprint match, is filed as deleted; the commit
    announces the deleted songs in one signal, [SongsUnavailable] under
    the mark-unavailable policy and [SongsDeleted] otherwise, never both;
    and no touched song has the id of that record. *)
Theorem ScanSubdirectory_files_removed_song (w : CollectionWatcher)
    (fuel : nat) (path : string) (subdir : Subdirectory.t) (files_count : Z)
    (t : ScanTransaction) (force : bool) (song : Song.t) :
  stop_requested_ w = false →
  symlink_into_collection E w path = false →
  has_nomedia_marker E path = false →
  unchanged_since_last_time E path subdir (songs_missing_fingerprint E w path t).2
    force (songs_missing_fingerprint E w path t).1 = false →
  walk_height_le E (subdirs_of E t) fuel path →
  song ∈ songs_of E t →
  in_directory path song = true →
  Song.is_unavailable song = false →
  fs_exists E (Song.url song) = false →
  (∀ x, x ∈ touched_songs t → Song.id x ≠ Song.id song) →
  (∀ m, stored_record E t m → Song.id m = Song.id song →
        Song.url m = Song.url song) →
  (∀ file m, m ∈ GetSongsByUrl (backend E) file → Song.url m = file) →
  ∃ t',
    ScanSubdirectory E fuel w path subdir files_count t force = Some t'
    ∧ (Song.url song ∉ files_changed_path_ t' →
       song ∈ deleted_songs t'
       ∧ (∀ x, x ∈ touched_songs t' → Song.id x ≠ Song.id song)
       ∧ ∃ rest calls,
           emitted (ScanTransaction_destroy E w t')
           = emitted w
               ++ (if mark_songs_unavailable_ t
                   then SongsUnavailable (deleted_songs t')
                   else SongsDeleted (deleted_songs t'))
               :: rest ++ calls
               ++ [UpdateLastSeen (dir_ t') (expire_unavailable_songs_days_ t');
                   SetTaskFinished (task_id_ t')]
           ∧ forallb (λ sig, negb (is_removal sig)) rest = true
           ∧ forallb is_watch_call calls = true).
Proof.
  intros Hstop Hsym Hmark Hwalk Hheight Hsong Hdir Hav Hgone Htouched Hkey Hurl.
  destruct (ScanSubdirectory_total E fuel w path subdir files_count t force Hheight)
    as [t' Hscan].
  exists t'. split; [done|]. intros Hrel.
  pose proof (ScanSubdirectory_step E _ _ _ _ _ _ _ _ Hscan) as Hstep.
  destruct fuel as [|fuel]; [discriminate|].
  destruct (ScanSubdirectory_walked fuel w path subdir files_count t force t'
              Hstop Hsym Hmark Hwalk Hscan)
    as (songs_in_db & files_on_disk & t6 & H06 & Hdb & Hfod & Htail).
  assert (song ∈ deleted_songs t') as Hdeleted.
  { assert (song ∈ songs_in_db) as Hin by (by apply Hdb).
    assert (Song.url song ∉ files_changed_path_ t6) as Hrel6.
    { intros Hin6. apply Hrel. apply (ws_changed_path _ _ _ Htail).
      unfold add_subdir_record. cbn zeta.
      assert (Song.url song
                ∈ files_changed_path_ (look_for_deleted songs_in_db files_on_disk t6))
        as Hl by (by rewrite look_for_deleted_changed_path).
      by destruct (Subdirectory.directory_id subdir =? -1);
        destruct (Subdirectory.mtime _ =? 0). }
    assert (Song.url song ∉ files_on_disk) as Hlisting.
    { intros Hf. specialize (Hfod _ Hf (FindSongByPath_found _ _ Hin)). congruence. }
    pose proof (look_for_deleted_files songs_in_db files_on_disk t6 song
                  Hin Hav Hlisting Hrel6) as Hfiled.
    destruct (ws_deleted _ _ _ Htail song) as [H|H]; [|done|done].
    apply (ws_deleted _ _ _ (add_subdir_record_step E path subdir _)) in Hfiled
      as [H|H]; [done|].
    exfalso. apply Hrel. by apply (ws_changed_path _ _ _ Htail). }
  split; [done|]. split.
  - intros x Hx Hid. destruct (ws_touched _ _ _ Hstep x Hx) as [H|(m & Hm & Hfrom)].
    { by apply (Htouched x H). }
    rewrite Hid in Hm. symmetry in Hm.
    destruct Hfrom as [[Hin Hex]|[[[fp Hfp] Hin]|(file & Hfile & Hex)]].
    + rewrite (ws_songs _ _ _ Hstep) in Hin.
      rewrite (Hkey m (or_introl Hin) Hm) in Hex. congruence.
    + apply Hrel. rewrite <- (Hkey m) by (try right; eauto). done.
    + pose proof (Hurl _ _ Hfile) as <-.
      rewrite (Hkey m) in Hex by (try (right; right); eauto). congruence.
  - destruct (ScanTransaction_destroy_emitted E w t' Hstop)
      as (calls & Hcalls & Hemitted).
    destruct (delta_signals_removal t') as (rest & Hsig & Hrest).
    { destruct (deleted_songs t'); [by apply elem_of_nil in Hdeleted|done]. }
    exists rest, calls. rewrite Hemitted, Hsig, (ws_mark _ _ _ Hstep).
    split; [|done]. reflexivity.
Qed.

End DeletedSongs.

(** C3 as stated fails for a record that is already marked unavailable
    (its file is absent and the commit announces nothing for it) and for a
    record whose file was renamed while song tracking is on (the old path
    is absent, the record is not announced as unavailable or deleted, and
    a touched song carries its id). *)
Lemma absent_song_not_always_removed :
  (let E := disk_env removed_track_disk unavailable_track_db in
   let song := stored_song 1 "/music/a.mp3" 50 EmptyString true in
   song ∈ FindSongsInDirectory (backend E) 1
   ∧ fs_exists E (Song.url song) = false
   ∧ ∃ t', ScanSubdirectory E 2 music_watcher "/music"
             (Subdirectory.mk 1 "/music" 100) 1 music_transaction false = Some t'
           ∧ deleted_songs t' = []
           ∧ filter is_removal (emitted (ScanTransaction_destroy E music_watcher t'))
             = [])
  ∧ (let E := renamed_track_env in
     let song := Song.mk 1 true 2 "/music/a.mp3" 1 50 "fp:x" false EmptyString
                   EmptyString EmptyString false 0 "title" 0 in
     song ∈ FindSongsInDirectory (backend E) 1
     ∧ Song.is_unavailable song = false
     ∧ fs_exists E (Song.url song) = false
     ∧ ∃ t', ScanSubdirectory E 2 tracking_watcher "/music"
               (Subdirectory.mk 1 "/music" 100) 1 music_transaction false = Some t'
             ∧ deleted_songs t' = []
             ∧ Song.id <$> touched_songs t' = [Song.id song]
             ∧ filter is_removal
                 (emitted (ScanTransaction_destroy E tracking_watcher t')) = []).
Proof.
  split; cbn zeta.
  - split; [apply list_elem_of_In; vm_compute; tauto|].
    split; [reflexivity|].
    eexists. split; [vm_compute; reflexivity|].
    split; [reflexivity|]. vm_compute. reflexivity.
  - split; [apply list_elem_of_In; vm_compute; tauto|].
    split; [reflexivity|]. split; [reflexivity|].
    eexists. split; [vm_compute; reflexivity|].
    split; [reflexivity|]. split; vm_compute; reflexivity.
Qed.

Lemma ScanSubdirectory_files_removed_song_witness :
  let E := disk_env removed_track_disk two_tracks_db in
  let song := stored_song 1 "/music/a.mp3" 50 EmptyString false in
  ∃ t',
    ScanSubdirectory E 2 music_watcher "/music" (Subdirectory.mk 1 "/music" 100) 1
      music_transaction false = Some t'
    ∧ song ∈ deleted_songs t'
    ∧ (∀ x, x ∈ touched_songs t' → Song.id x ≠ Song.id song)
    ∧ ∃ rest calls,
        emitted (ScanTransaction_destroy E music_watcher t')
        = emitted music_watcher
            ++ SongsUnavailable (deleted_songs t')
            :: rest ++ calls
            ++ [UpdateLastSeen (dir_ t') (expire_unavailable_songs_days_ t');
                SetTaskFinished (task_id_ t')]
        ∧ forallb (λ sig, negb (is_removal sig)) rest = true
        ∧ forallb is_watch_call calls = true.
Proof.
  intros E song.
  assert (∀ m, m ∈ db_songs two_tracks_db → Song.id m = Song.id song →
               Song.url m = Song.url song) as Hdb.
  { intros m Hm Hid. apply list_elem_of_In in Hm.
    destruct Hm as [<-|[<-|[]]]; [reflexivity|discriminate]. }
  destruct (ScanSubdirectory_files_removed_song E music_watcher 2 "/music"
              (Subdirectory.mk 1 "/music" 100) 1 music_transaction false song)
    as (t' & Hscan & Hfiled).
  - reflexivity.
  - reflexivity.
  - reflexivity.
  - reflexivity.
  - split.
    + intros child Hin. apply list_elem_of_In in Hin.
      destruct Hin as [<-|[]]. split.
      * intros c Hc. by apply elem_of_nil in Hc.
      * intros sd Hsd Hparent _. apply list_elem_of_In in Hsd.
        destruct Hsd as [<-|[]]. discriminate.
    + intros sd Hsd Hparent _. apply list_elem_of_In in Hsd.
      destruct Hsd as [<-|[]]. discriminate.
  - apply list_elem_of_In. vm_compute. tauto.
  - reflexivity.
  - reflexivity.
  - reflexivity.
  - intros x Hx. by apply elem_of_nil in Hx.
  - intros m [Hm|[[fp Hm]|[file Hm]]]; apply Hdb;
      apply list_elem_of_In, filter_In in Hm as [Hm _];
      by apply list_elem_of_In.
  - intros file m Hm. apply list_elem_of_In, filter_In in Hm as [_ Hm].
    by apply String.eqb_eq.
  - exists t'. split; [exact Hscan|].
    apply Hfiled. vm_compute in Hscan. injection Hscan as <-.
    intros Hin. by apply elem_of_nil in Hin.
Defined.

(** ** Matching by fingerprint *)

Section FingerprintMatch.

Context (E : Env).

Lemma FindSongByFingerprint_some file fingerprint song :
  FindSongByFingerprint E file fingerprint = Some song →
  song ∈ GetSongsByFingerprint (backend E) fingerprint
  ∧ (Song.url song = file ∨ fs_exists E (Song.url song) = false).
Proof.
  unfold FindSongByFingerprint. intros H.
  apply find_some in H as [Hin Hcond]. split; [by apply list_elem_of_In|].
  cbn zeta in Hcond. apply orb_prop in Hcond as [H|H].
  - left. symmetry. by apply String.eqb_eq.
  - right. by apply negb_true_iff.
Qed.

Lemma UpdateSong_changed_path matching out t :
  files_changed_path_ (UpdateSong matching out t) = files_changed_path_ t.
Proof.
  unfold UpdateSong.
  by repeat match goal with
            | |- context [if ?b then _ else _] => destruct b
            end.
Qed.

Lemma UpdateCueAssociatedSongs_changed_path w file path fingerprint matching_cue
    image t :
  files_changed_path_
    (UpdateCueAssociatedSongs E w file path fingerprint matching_cue image t)
  = files_changed_path_ t.
Proof.
  unfold UpdateCueAssociatedSongs.
  destruct (negb (fs_exists E matching_cue) || negb (fs_open E matching_cue));
    [done|].
  cbn zeta. set (sections_map := fold_left _ (GetSongsByUrl (backend E) file) ∅).
  assert (∀ l t0 used,
            files_changed_path_
              (fold_left (update_cue_section w fingerprint image sections_map)
                         l (t0, used)).1
            = files_changed_path_ t0) as Hloop.
  { induction l as [|cue_song l IH]; intros t0 used; [done|].
    cbn [fold_left].
    destruct (update_cue_section w fingerprint image sections_map (t0, used) cue_song)
      as [t1 used1] eqn:Hstep.
    rewrite IH. unfold update_cue_section in Hstep. cbn zeta in Hstep.
    destruct (negb (Song.is_valid _)); injection Hstep as <- _; [done|].
    apply UpdateSong_changed_path. }
  specialize (Hloop (cue_Load E matching_cue path) t ∅).
  destruct (fold_left (update_cue_section w fingerprint image sections_map) _ _)
    as [t1 used_ids]. cbn [fst] in Hloop. rewrite <- Hloop.
  generalize (GetSongsByUrl (backend E) file) as old. intros old. clear Hloop.
  revert t1. induction old as [|matching old IH]; intros t1; [done|].
  cbn [fold_left]. rewrite IH. by destruct (negb (bool_decide _)).
Qed.

Lemma UpdateNonCueAssociatedSong_changed_path w file fingerprint matching_song
    image cue_deleted t :
  files_changed_path_
    (UpdateNonCueAssociatedSong E w file fingerprint matching_song image cue_deleted t)
  = files_changed_path_ t.
Proof.
  unfold UpdateNonCueAssociatedSong. cbn zeta.
  set (t1 := if cue_deleted then _ else t).
  assert (files_changed_path_ t1 = files_changed_path_ t) as Ht1.
  { subst t1. destruct cue_deleted; [|done].
    generalize (GetSongsByUrl (backend E) file) as old. intros old.
    revert t. induction old as [|song old IH]; intros t; [done|].
    cbn [fold_left]. rewrite IH. by destruct (negb _). }
  destruct (Song.is_valid _); [|done].
  by rewrite UpdateSong_changed_path.
Qed.

Lemma update_matched_changed_path w file path fingerprint matching_cue image
    matching_song cue_deleted cue_added t :
  files_changed_path_
    (update_matched E w file path fingerprint matching_cue image matching_song
       cue_deleted cue_added t)
  = files_changed_path_ t.
Proof.
  unfold update_matched. destruct (negb cue_deleted && _).
  - apply UpdateCueAssociatedSongs_changed_path.
  - apply UpdateNonCueAssociatedSong_changed_path.
Qed.

Lemma add_new_songs_changed_path (f : ScanTransaction → Song.t → Song.t) songs :
  ∀ t,
  files_changed_path_
    (fold_left (λ t song, set_new_songs (new_songs t ++ [f t song]) t) songs t)
  = files_changed_path_ t.
Proof.
  induction songs as [|song songs IH]; intros t; [done|].
  cbn [fold_left]. by rewrite IH.
Qed.

(** The paths one file adds to the relocated paths: none, or the path of
    the record its fingerprint lookup returned. *)
Lemma scan_file_changed_path w path songs_in_db file t files_on_disk album_art cues :
  let t' := (scan_file E w path songs_in_db file
               (t, files_on_disk, album_art, cues)).1.1.1 in
  files_changed_path_ t' = files_changed_path_ t
  ∨ (FindSongByPath songs_in_db file = None
     ∧ ∃ record,
         FindSongByFingerprint E file (file_fingerprint E w file) = Some record
         ∧ files_changed_path_ t' = files_changed_path_ t ++ [Song.url record]).
Proof.
  cbn zeta. unfold scan_file.
  destruct (FindSongByPath songs_in_db file) as [matching_song|].
  - left. destruct (fs_exists E file); cbn [negb]; [|done].
    cbn zeta. destruct (ImageForSong E w file album_art) as [[image aa] probes].
    cbn [fst]. unfold AddToProgress. record_simpl.
    destruct (Song.is_unavailable matching_song); record_simpl;
      (destruct (_ || _ || _); [by rewrite update_matched_changed_path|done]).
  - cbn zeta.
    destruct (if song_tracking_ w && _ && _ then _ else None)
      as [matching_song|] eqn:Hfp.
    + right. split; [done|]. exists matching_song. split.
      { by destruct (song_tracking_ w && _ && _). }
      destruct (fs_exists E file); cbn [negb].
      * cbn zeta. destruct (ImageForSong E w file album_art) as [[image aa] probes].
        cbn [fst]. unfold AddToProgress. record_simpl.
        destruct (Song.is_unavailable _); record_simpl;
          rewrite update_matched_changed_path; record_simpl;
          by destruct (Song.list_contains _ _).
      * cbn [fst]. unfold AddToProgress. record_simpl.
        by destruct (Song.list_contains _ _).
    + left. destruct (ScanNewFile E w file path _ _ cues) as [songs cues'].
      destruct (negb (nonempty songs)); [done|].
      destruct (ImageForSong E w file album_art) as [[image aa] probes].
      cbn [fst]. unfold AddToProgress. record_simpl.
      by rewrite (add_new_songs_changed_path
                    (λ t song,
                       let song := Song.set_directory_id (dir_ t) song in
                       if QString.isEmpty (Song.art_automatic song)
                       then Song.set_art_automatic image song else song)).
Qed.

(** C4: a record is accepted as the fingerprint match of a file only if
    its fingerprint is the file's and its recorded path is the file's own
    path or is gone from disk; a record whose path is still taken by
    another file is never returned; and the walk relocates a path only
    for a file without a path match and only to a record so accepted. *)
Theorem fingerprint_match_needs_vacated_path (w : CollectionWatcher)
    (path : string) (songs_in_db : list Song.t) (file : string)
    (st : FileLoop) :
  (∀ fingerprint song, song ∈ GetSongsByFingerprint (backend E) fingerprint →
                       Song.fingerprint song = fingerprint) →
  (∀ fingerprint record,
     FindSongByFingerprint E file fingerprint = Some record →
     Song.fingerprint record = fingerprint
     ∧ (Song.url record = file ∨ fs_exists E (Song.url record) = false))
  ∧ (∀ fingerprint record,
       fs_exists E (Song.url record) = true →
       Song.url record ≠ file →
       FindSongByFingerprint E file fingerprint ≠ Some record)
  ∧ (∀ old,
       old ∈ files_changed_path_ (scan_file E w path songs_in_db file st).1.1.1 →
       old ∈ files_changed_path_ st.1.1.1
       ∨ (FindSongByPath songs_in_db file = None
          ∧ ∃ record,
              Song.url record = old
              ∧ Song.fingerprint record = file_fingerprint E w file
              ∧ (old = file ∨ fs_exists E old = false))).
Proof.
  intros Hbackend. split; [|split].
  - intros fingerprint record H.
    apply FindSongByFingerprint_some in H as [Hin Hpath]. split; [|done].
    by apply Hbackend.
  - intros fingerprint record Hex Hne H.
    apply FindSongByFingerprint_some in H as [_ [H|H]]; congruence.
  - intros old Hold. destruct st as [[[t files_on_disk] album_art] cues].
    destruct (scan_file_changed_path w path songs_in_db file t files_on_disk
                album_art cues) as [Heq|(Hpath & record & Hfind & Heq)];
      cbn zeta in Heq; rewrite Heq in Hold; cbn [fst]; [by left|].
    apply elem_of_app in Hold as [Hold| ->%list_elem_of_singleton]; [by left|].
    right. split; [done|]. exists record.
    apply FindSongByFingerprint_some in Hfind as [Hin Hvac].
    split; [done|]. split; [by apply Hbackend|done].
Qed.

End FingerprintMatch.

Lemma db_backend_fingerprint db fingerprint song :
  song ∈ GetSongsByFingerprint (db_backend db) fingerprint →
  Song.fingerprint song = fingerprint.
Proof.
  intros H. apply list_elem_of_In, filter_In in H as [_ H].
  by apply String.eqb_eq.
Qed.

Lemma fingerprint_match_needs_vacated_path_witness :
  let E := renamed_track_env in
  let w := tracking_watcher in
  let file := "/music/c.mp3" in
  let songs_in_db := db_songs fingerprinted_db in
  let st : FileLoop := (music_transaction, [file], ∅, ∅) in
  (∀ fingerprint record,
     FindSongByFingerprint E file fingerprint = Some record →
     Song.fingerprint record = fingerprint
     ∧ (Song.url record = file ∨ fs_exists E (Song.url record) = false))
  ∧ (∀ fingerprint record,
       fs_exists E (Song.url record) = true →
       Song.url record ≠ file →
       FindSongByFingerprint E file fingerprint ≠ Some record)
  ∧ (∀ old,
       old ∈ files_changed_path_ (scan_file E w "/music" songs_in_db file st).1.1.1 →
       old ∈ files_changed_path_ st.1.1.1
       ∨ (FindSongByPath songs_in_db file = None
          ∧ ∃ record,
              Song.url record = old
              ∧ Song.fingerprint record = file_fingerprint E w file
              ∧ (old = file ∨ fs_exists E old = false))).
Proof.
  intros E w file songs_in_db st.
  apply (fingerprint_match_needs_vacated_path E w "/music" songs_in_db file st).
  intros fingerprint song. apply db_backend_fingerprint.
Defined.

(** ** Two scans in a row *)


Ltac quiet_frame := constructor; reflexivity.

Section SettledPass.

Context (E : Env).

Lemma quiet_step_refl t : quiet_step E t t.
Proof. quiet_frame. Qed.

Lemma quiet_step_trans t1 t2 t3 :
  quiet_step E t1 t2 → quiet_step E t2 t3 → quiet_step E t1 t3.
Proof. intros [] []. constructor; congruence. Qed.

Lemma AddToProgress_quiet n t : quiet_step E t (AddToProgress n t).
Proof. quiet_frame. Qed.

Lemma AddToProgressMax_quiet n t : quiet_step E t (AddToProgressMax n t).
Proof. quiet_frame. Qed.

Lemma probe_quiet p t : quiet_step E t (probe p t).
Proof. quiet_frame. Qed.

Lemma populate_known_subdirs_quiet t :
  quiet_step E t (populate_known_subdirs E t).
Proof.
  unfold populate_known_subdirs, SetKnownSubdirs.
  destruct (known_subdirs_dirty_ t); quiet_frame.
Qed.

Lemma HasSongsWithMissingFingerprint_quiet path t :
  quiet_step E t (HasSongsWithMissingFingerprint E path t).2
  ∧ (HasSongsWithMissingFingerprint E path t).1
    = existsb (in_directory path) (missing_of E t).
Proof.
  unfold HasSongsWithMissingFingerprint, missing_of. cbn zeta. cbn [fst snd].
  destruct (cached_songs_missing_fingerprint_dirty_ t) eqn:Hd.
  - split; [|done]. constructor; try reflexivity.
    unfold missing_of. record_simpl. by rewrite Hd.
  - split; [quiet_frame|done].
Qed.

Lemma count_children_quiet rec stop children :
  (∀ child t, child ∈ children →
              ∃ n t', rec child t = Some (n, t') ∧ quiet_step E t t') →
  ∀ i t, ∃ n t', count_children E rec stop children i t = Some (n, t')
                 ∧ quiet_step E t t'.
Proof.
  induction children as [|child rest IH]; intros Hrec i t; cbn [count_children].
  { exists i, t. split; [done|apply quiet_step_refl]. }
  assert (∀ i t, ∃ n t', count_children E rec stop rest i t = Some (n, t')
                         ∧ quiet_step E t t') as Hrest.
  { apply IH. intros c t0 Hc. apply Hrec. by apply list_elem_of_further. }
  destruct stop; [exists i, t; split; [done|apply quiet_step_refl]|].
  destruct (fs_isDir E child); [|apply Hrest].
  destruct (fs_exists E kNoMediaFile || fs_exists E kNoMusicFile); [apply Hrest|].
  pose proof (populate_known_subdirs_quiet t) as Hseen.
  unfold HasSeenSubdir. cbn zeta.
  destruct (negb (existsb _ _) && negb (fs_isHidden E child)).
  - destruct (Hrec child (populate_known_subdirs E t) (list_elem_of_here _ _))
      as (n & t1 & -> & H1).
    destruct (Hrest (u64 (u64 (i + n) + 1)) t1) as (n' & t' & -> & H').
    exists n', t'. split; [done|].
    eapply quiet_step_trans; [exact Hseen|]. by eapply quiet_step_trans.
  - destruct (Hrest (u64 (i + 1)) (populate_known_subdirs E t))
      as (n' & t' & -> & H').
    exists n', t'. split; [done|]. by eapply quiet_step_trans.
Qed.

Lemma FilesCountForPath_quiet fuel : ∀ w path t,
  fs_height_le E fuel path →
  ∃ n t', FilesCountForPath E fuel w path t = Some (n, t') ∧ quiet_step E t t'.
Proof.
  induction fuel as [|fuel IH]; intros w path t Hh; [destruct Hh|].
  cbn [FilesCountForPath].
  destruct (count_children_quiet (FilesCountForPath E fuel w) (stop_requested_ w)
              (fs_entries E path)) with (i := 0) (t := probe [Enumerate path] t)
    as (n & t' & -> & H).
  { intros child t0 Hchild. apply IH. by apply Hh. }
  exists n, t'. split; [done|].
  eapply quiet_step_trans; [apply probe_quiet|done].
Qed.

Lemma FilesCountForSubdirs_quiet fuel w subdirs :
  (∀ sd, sd ∈ subdirs → fs_height_le E fuel (Subdirectory.path sd)) →
  ∀ i counts t,
  ∃ n counts' t',
    FilesCountForSubdirs_loop E fuel w subdirs i counts t = Some (n, counts', t')
    ∧ quiet_step E t t'.
Proof.
  induction subdirs as [|sd rest IH]; intros Hh i counts t;
    cbn [FilesCountForSubdirs_loop].
  { exists i, counts, t. split; [done|apply quiet_step_refl]. }
  destruct (stop_requested_ w);
    [exists i, counts, t; split; [done|apply quiet_step_refl]|].
  destruct (FilesCountForPath_quiet fuel w (Subdirectory.path sd) t)
    as (n & t1 & -> & H1); [apply Hh, list_elem_of_here|].
  destruct (IH (λ s Hs, Hh s (list_elem_of_further _ _ _ Hs))
               (u64 (i + n)) (<[Subdirectory.path sd := n]> counts) t1)
    as (n' & counts' & t' & -> & H').
  exists n', counts', t'. split; [done|]. by eapply quiet_step_trans.
Qed.



End SettledPass.

Section SettledScan.

Context (E : Env).

Lemma ScanTransaction_destroy_nothing w t :
  stop_requested_ w = false →
  deltas t = ([], [], [], [], [], [], []) →
  ScanTransaction_destroy E w t
  = emit (SetTaskFinished (task_id_ t))
      (emit (UpdateLastSeen (dir_ t) (expire_unavailable_songs_days_ t)) w).
Proof.
  intros Hstop Hd. unfold deltas in Hd.
  injection Hd as Hdel Hre Hnew Htou Hnsd Htsd Hdsd.
  unfold ScanTransaction_destroy, CommitNewOrUpdatedSongs. rewrite Hstop.
  cbn [negb fst]. rewrite Hdel, Hre, Hnew, Htou, Hnsd, Htsd, Hdsd.
  cbn [nonempty emit_unless_empty fold_left].
  by destruct (monitor_ w).
Qed.






End SettledScan.

(** The usual case, run: a first scan of a fresh root finds the track and
    the directory, and the second scan announces nothing. *)
Example second_pass_empty_after_discovery :
  second_pass_deltas (disk_env one_track_disk fresh_db) fresh_db 2 music_watcher
  = Some [].
Proof. vm_compute. reflexivity. Qed.

(** ** What a pass leaves in the ledger *)

Section PassOutcome.

Context (E : Env).

Lemma AddToProgressMax_step n t : walk_step E t (AddToProgressMax n t).
Proof. frame_step. Qed.

Lemma count_children_step rec stop children :
  (∀ p t n t', rec p t = Some (n, t') → walk_step E t t') →
  ∀ i t n t', count_children E rec stop children i t = Some (n, t') →
              walk_step E t t'.
Proof.
  intros Hrec. induction children as [|child rest IH]; intros i t n t' H;
    cbn [count_children] in H.
  { injection H as _ <-. apply walk_step_refl. }
  destruct stop; [injection H as _ <-; apply walk_step_refl|].
  destruct (fs_isDir E child); [|by eapply IH].
  destruct (fs_exists E kNoMediaFile || fs_exists E kNoMusicFile); [by eapply IH|].
  pose proof (HasSeenSubdir_step E child t) as Hseen.
  destruct (HasSeenSubdir E child t) as [seen t1]. cbn [snd] in Hseen.
  destruct (negb seen && negb (fs_isHidden E child)).
  - destruct (rec child t1) as [[n1 t2]|] eqn:H1; [|discriminate].
    eapply walk_step_trans; [exact Hseen|].
    eapply walk_step_trans; [by eapply Hrec|by eapply IH].
  - eapply walk_step_trans; [exact Hseen|by eapply IH].
Qed.

Lemma FilesCountForPath_step fuel : ∀ w path t n t',
  FilesCountForPath E fuel w path t = Some (n, t') → walk_step E t t'.
Proof.
  induction fuel as [|fuel IH]; intros w path t n t' H; [discriminate|].
  cbn [FilesCountForPath] in H.
  apply count_children_step in H; [|intros p t0 n0 t0'; apply IH].
  eapply walk_step_trans; [apply probe_step|exact H].
Qed.

Lemma FilesCountForSubdirs_step fuel w subdirs : ∀ i counts t n counts' t',
  FilesCountForSubdirs_loop E fuel w subdirs i counts t = Some (n, counts', t') →
  walk_step E t t'.
Proof.
  induction subdirs as [|sd rest IH]; intros i counts t n counts' t' H;
    cbn [FilesCountForSubdirs_loop] in H.
  { injection H as _ _ <-. apply walk_step_refl. }
  destruct (stop_requested_ w); [injection H as _ _ <-; apply walk_step_refl|].
  destruct (FilesCountForPath E fuel w _ t) as [[n1 t1]|] eqn:H1; [|discriminate].
  eapply walk_step_trans; [by eapply FilesCountForPath_step|by eapply IH].
Qed.




Lemma upserts_of_app sigs1 sigs2 :
  upserts_of (sigs1 ++ sigs2) = upserts_of sigs1 ++ upserts_of sigs2.
Proof. apply flat_map_app. Qed.

Lemma upserts_of_batch {A} (sig : list A → Signal) l :
  (∀ l, upserts_of [sig l] = []) → upserts_of (batch sig l) = [].
Proof. intros H. unfold batch. by destruct (nonempty l). Qed.

Lemma upserts_of_delta_signals t :
  upserts_of (delta_signals t) = new_subdirs t ++ touched_subdirs t.
Proof.
  unfold delta_signals. rewrite !upserts_of_app.
  rewrite !upserts_of_batch by (try destruct (mark_songs_unavailable_ t); done).
  unfold batch.
  destruct (new_subdirs t) as [|u l]; destruct (touched_subdirs t) as [|u' l'];
    cbn; by rewrite ?app_nil_r.
Qed.

Lemma upserts_of_watch_calls calls :
  forallb is_watch_call calls = true → upserts_of calls = [].
Proof.
  induction calls as [|c calls IH]; [done|]. cbn [forallb].
  intros [Hc Hcalls]%andb_prop. unfold upserts_of in *. cbn [flat_map].
  rewrite (IH Hcalls). by destruct c.
Qed.







End PassOutcome.

(** ** The persistence layer: the ledger after a commit *)














(** * The rest of the watcher *)

Ltac watcher_simpl :=
  cbn [set_rescan_paused_ source_ scan_on_startup_ monitor_ song_tracking_
       w_mark_songs_unavailable_ w_expire_unavailable_songs_days_
       stop_requested_ rescan_paused_ watched_dirs_ subdir_mapping_
       rescan_queue_ best_image_filters_ last_scan_time_ next_task_ emitted
       set_stop_requested_ set_subdir_mapping_ set_rescan_queue_
       set_last_scan_time_ set_next_task_ set_emitted set_watched_dirs_ emit
       fst snd] in *.

(** ** Watch set: adding and removing watches *)

Lemma Directory_eqb_refl d : Directory.eqb d d = true.
Proof. unfold Directory.eqb. by rewrite String.eqb_refl, Z.eqb_refl. Qed.

Lemma Directory_eqb_eq a b : Directory.eqb a b = true ↔ a = b.
Proof.
  unfold Directory.eqb. rewrite andb_true_iff, String.eqb_eq, Z.eqb_eq.
  destruct a, b; cbn. split; [by intros [-> ->]|by intros [= -> ->]].
Qed.

(** The paths a [QHash] maps to a root. *)
Lemma QHash_keys_elem (m : gmap string Directory.t) d p :
  p ∈ QHash_keys m d ↔ ∃ d', m !! p = Some d' ∧ Directory.eqb d' d = true.
Proof.
  unfold QHash_keys. rewrite list_elem_of_fmap. split.
  - intros ([p' d'] & -> & Hin). apply list_elem_of_In, filter_In in Hin as [Hin Heq].
    apply list_elem_of_In, elem_of_map_to_list in Hin. by exists d'.
  - intros (d' & Hm & Heq). exists (p, d'). split; [done|].
    apply list_elem_of_In, filter_In. split; [|done].
    by apply list_elem_of_In, elem_of_map_to_list.
Qed.

Lemma QHash_keys_NoDup (m : gmap string Directory.t) d : NoDup (QHash_keys m d).
Proof.
  unfold QHash_keys.
  assert (∀ l : list (string * Directory.t),
            NoDup l.*1 →
            NoDup (List.filter (λ kv, Directory.eqb kv.2 d) l).*1) as H.
  { induction l as [|[k v] l IH]; cbn [List.filter fmap list_fmap]; [done|].
    intros [Hk Hl]%NoDup_cons. destruct (Directory.eqb _ d); cbn; [|by apply IH].
    apply NoDup_cons. split; [|by apply IH].
    intros ([k' v'] & Heq & Hin)%list_elem_of_fmap. cbn in Heq. subst k'.
    apply list_elem_of_In, filter_In in Hin as [Hin _]. apply Hk.
    apply list_elem_of_fmap. exists (k, v'). split; [done|by apply list_elem_of_In]. }
  apply H, NoDup_fst_map_to_list.
Qed.

(** [RemoveWatch] takes away the subdirectory's own path, and only when it
    is watched for that root: every other path keeps its watch, and a path
    watched for another root is left alone. *)
Theorem RemoveWatch_own_watch_only (dir : Directory.t) (subdir : Subdirectory.t)
    (w : CollectionWatcher) :
  let w' := RemoveWatch dir subdir w in
  (∀ p, p ≠ Subdirectory.path subdir →
        subdir_mapping_ w' !! p = subdir_mapping_ w !! p)
  ∧ subdir_mapping_ w' !! Subdirectory.path subdir
    = unless_watched_for dir (subdir_mapping_ w !! Subdirectory.path subdir)
  ∧ (unless_watched_for dir (subdir_mapping_ w !! Subdirectory.path subdir)
     = subdir_mapping_ w !! Subdirectory.path subdir → w' = w)
  ∧ watched_dirs_ w' = watched_dirs_ w
  ∧ rescan_queue_ w' = rescan_queue_ w.
Proof.
  cbn zeta. unfold RemoveWatch.
  destruct (QString.list_contains _ _) eqn:Hc.
  - apply list_contains_elem, QHash_keys_elem in Hc as (d & Hd & Heq).
    watcher_simpl. rewrite Hd. cbn [unless_watched_for]. rewrite Heq.
    split; [by intros p Hp; rewrite lookup_delete_ne|].
    split; [by rewrite lookup_delete_eq|]. by split.
  - apply list_contains_not_elem in Hc.
    split; [done|]. split; [|done].
    destruct (subdir_mapping_ w !! Subdirectory.path subdir) as [d|] eqn:Hd; [|done].
    cbn [unless_watched_for]. destruct (Directory.eqb d dir) eqn:Heq; [|done].
    destruct Hc. apply QHash_keys_elem. by exists d.
Qed.

(** Watching a path and removing the watch again is a round trip: if the
    path was not watched before, the watch set is as it was, and the
    file-system watcher has been told to add and then to remove the path if
    it exists, and nothing at all if it does not. *)
Theorem AddWatch_RemoveWatch_round_trip (E : Env) (dir : Directory.t)
    (subdir : Subdirectory.t) (w : CollectionWatcher) :
  subdir_mapping_ w !! Subdirectory.path subdir = None →
  let w' := RemoveWatch dir subdir (AddWatch E dir (Subdirectory.path subdir) w) in
  subdir_mapping_ w' = subdir_mapping_ w
  ∧ emitted w'
    = emitted w ++ (if fs_exists E (Subdirectory.path subdir)
                    then [WatcherAddPath (Subdirectory.path subdir);
                          WatcherRemovePath (Subdirectory.path subdir)]
                    else []).
Proof.
  intros Hnone. cbn zeta. unfold AddWatch.
  destruct (fs_exists E (Subdirectory.path subdir)); cbn [negb].
  - unfold RemoveWatch. watcher_simpl.
    assert (QString.list_contains
              (QHash_keys (<[Subdirectory.path subdir := dir]> (subdir_mapping_ w)) dir)
              (Subdirectory.path subdir) = true) as ->.
    { apply list_contains_elem, QHash_keys_elem. exists dir.
      split; [apply lookup_insert_eq|apply Directory_eqb_refl]. }
    watcher_simpl. split.
    + rewrite delete_insert_eq. by apply delete_id.
    + by rewrite <- app_assoc.
  - unfold RemoveWatch.
    assert (QString.list_contains (QHash_keys (subdir_mapping_ w) dir)
              (Subdirectory.path subdir) = false) as ->.
    { apply list_contains_not_elem. intros (d & Hd & _)%QHash_keys_elem. congruence. }
    by rewrite app_nil_r.
Qed.

Lemma AddWatch_RemoveWatch_round_trip_witness :
  let E := disk_env one_track_disk one_track_db in
  let subdir := Subdirectory.mk 1 "/music" 100 in
  let w' := RemoveWatch music_root subdir (AddWatch E music_root "/music" new_watcher) in
  subdir_mapping_ w' = subdir_mapping_ new_watcher
  ∧ emitted w'
    = emitted new_watcher ++ (if fs_exists E "/music"
                              then [WatcherAddPath "/music"; WatcherRemovePath "/music"]
                              else []).
Proof.
  intros E subdir.
  apply (AddWatch_RemoveWatch_round_trip E music_root subdir new_watcher).
  reflexivity.
Defined.

(** A watched path answers to change notifications: after [AddWatch] of a
    path that exists, a notification for it puts it in the rescan queue of
    the root; a path that does not exist is not watched, and if it was not
    watched before a notification for it changes nothing. *)
Theorem AddWatch_then_DirectoryChanged (E : Env) (dir : Directory.t)
    (path : string) (w : CollectionWatcher) :
  (fs_exists E path = true →
   ∃ queue,
     rescan_queue_ (DirectoryChanged path (AddWatch E dir path w))
       !! Directory.id dir = Some queue
     ∧ path ∈ queue)
  ∧ (fs_exists E path = false → subdir_mapping_ w !! path = None →
     DirectoryChanged path (AddWatch E dir path w) = w).
Proof.
  unfold AddWatch. split; intros Hex.
  - rewrite Hex. cbn [negb].
    erewrite DirectoryChanged_queue; [|watcher_simpl; apply lookup_insert_eq].
    rewrite lookup_insert_eq. eexists. split; [done|]. cbn zeta.
    destruct (QString.list_contains _ path) eqn:Hc.
    + by apply list_contains_elem.
    + apply elem_of_app. right. apply list_elem_of_here.
  - rewrite Hex. cbn [negb]. intros Hnone. unfold DirectoryChanged. by rewrite Hnone.
Qed.

Lemma AddWatch_then_DirectoryChanged_witness :
  let E := disk_env one_track_disk one_track_db in
  (∃ queue,
     rescan_queue_ (DirectoryChanged "/music" (AddWatch E music_root "/music" new_watcher))
       !! Directory.id music_root = Some queue
     ∧ "/music" ∈ queue)
  ∧ DirectoryChanged "/gone" (AddWatch E music_root "/gone" new_watcher) = new_watcher.
Proof.
  intros E. split.
  - apply (AddWatch_then_DirectoryChanged E music_root "/music" new_watcher).
    reflexivity.
  - apply (AddWatch_then_DirectoryChanged E music_root "/gone" new_watcher);
      reflexivity.
Defined.

(** ** Removing a root *)

(** The loop of [RemoveDirectory] over the paths of the root. *)
Lemma remove_paths_fold (paths : list string) : ∀ w,
  let w' := fold_left (λ w subdir_path,
                let w := emit (WatcherRemovePath subdir_path) w in
                set_subdir_mapping_ (delete subdir_path (subdir_mapping_ w)) w)
              paths w in
  (∀ p, subdir_mapping_ w' !! p
        = if bool_decide (p ∈ paths) then None else subdir_mapping_ w !! p)
  ∧ emitted w' = emitted w ++ (WatcherRemovePath <$> paths)
  ∧ watched_dirs_ w' = watched_dirs_ w
  ∧ rescan_queue_ w' = rescan_queue_ w
  ∧ rescan_paused_ w' = rescan_paused_ w
  ∧ stop_requested_ w' = stop_requested_ w.
Proof.
  induction paths as [|path paths IH]; intros w; cbn zeta.
  { cbn [fold_left fmap list_fmap]. rewrite app_nil_r. by repeat split. }
  cbn [fold_left].
  destruct (IH (set_subdir_mapping_ (delete path (subdir_mapping_ (emit (WatcherRemovePath path) w)))
                  (emit (WatcherRemovePath path) w)))
    as (Hmap & Hemit & Hdirs & Hqueue & Hpaused & Hstop).
  cbn zeta in *. rewrite Hemit, Hdirs, Hqueue, Hpaused, Hstop. watcher_simpl.
  split; [|by rewrite <- app_assoc].
  intros p. rewrite Hmap. watcher_simpl.
  destruct (decide (p = path)) as [->|Hne].
  - rewrite lookup_delete_eq, (bool_decide_eq_true_2 (path ∈ path :: paths));
      [by destruct (bool_decide _)|apply list_elem_of_here].
  - rewrite lookup_delete_ne by done.
    destruct (bool_decide (p ∈ paths)) eqn:Hin.
    + apply bool_decide_eq_true in Hin.
      by rewrite bool_decide_eq_true_2 by by apply list_elem_of_further.
    + apply bool_decide_eq_false in Hin. rewrite bool_decide_eq_false_2; [done|].
      by intros [?|?]%elem_of_cons.
Qed.

(** [RemoveDirectory] forgets the root: it is no longer watched, its
    rescan queue is dropped, every path watched for it leaves the watch set
    (each removed once from the file-system watcher) while the watches of
    the other roots stay; and a change notification for one of its paths
    is ignored from then on. *)
Theorem RemoveDirectory_forgets_root (dir : Directory.t) (w : CollectionWatcher) :
  let w' := RemoveDirectory dir w in
  watched_dirs_ w' = delete (Directory.id dir) (watched_dirs_ w)
  ∧ rescan_queue_ w' = delete (Directory.id dir) (rescan_queue_ w)
  ∧ (∀ p, subdir_mapping_ w' !! p = unless_watched_for dir (subdir_mapping_ w !! p))
  ∧ (∃ removed,
       emitted w' = emitted w ++ (WatcherRemovePath <$> removed)
       ∧ NoDup removed
       ∧ ∀ p, p ∈ removed ↔ subdir_mapping_ w !! p = Some dir)
  ∧ (∀ p, subdir_mapping_ w !! p = Some dir → DirectoryChanged p w' = w').
Proof.
  cbn zeta. unfold RemoveDirectory. cbn zeta.
  match goal with
  | |- context [fold_left ?f ?l ?w0] =>
      destruct (remove_paths_fold l w0) as (Hmap & Hemit & Hdirs & Hqueue & _)
  end.
  cbn zeta in *. watcher_simpl.
  assert (∀ p, subdir_mapping_
                 (fold_left
                    (λ w0 subdir_path,
                       set_subdir_mapping_
                         (delete subdir_path (subdir_mapping_ (emit (WatcherRemovePath subdir_path) w0)))
                         (emit (WatcherRemovePath subdir_path) w0))
                    (QHash_keys (subdir_mapping_ w) dir)
                    (set_watched_dirs_ (delete (Directory.id dir) (watched_dirs_ w))
                       (set_rescan_queue_ (delete (Directory.id dir) (rescan_queue_ w)) w)))
               !! p = unless_watched_for dir (subdir_mapping_ w !! p)) as Hleft.
  { intros p. rewrite Hmap. unfold unless_watched_for.
    destruct (bool_decide _) eqn:Hin.
    - apply bool_decide_eq_true, QHash_keys_elem in Hin as (d & -> & ->). done.
    - apply bool_decide_eq_false in Hin.
      destruct (subdir_mapping_ w !! p) as [d|] eqn:Hd; [|done].
      destruct (Directory.eqb d dir) eqn:Heq; [|done].
      destruct Hin. apply QHash_keys_elem. by exists d. }
  split; [done|]. split; [done|]. split; [done|]. split.
  - exists (QHash_keys (subdir_mapping_ w) dir). split; [done|].
    split; [apply QHash_keys_NoDup|].
    intros p. rewrite QHash_keys_elem. split.
    + by intros (d & -> & ->%Directory_eqb_eq).
    + intros ->. exists dir. split; [done|apply Directory_eqb_refl].
  - intros p Hp. unfold DirectoryChanged. rewrite Hleft, Hp.
    cbn [unless_watched_for]. by rewrite Directory_eqb_refl.
Qed.

(** ** Filing a song that was read again *)

Lemma UpdateSong_decision matching_song out t :
  UpdateSong matching_song out t
  = if only_mtime_differs matching_song out
    then set_touched_songs (touched_songs t ++ [out]) t
    else set_new_songs (new_songs t ++ [out]) t.
Proof.
  unfold UpdateSong, only_mtime_differs.
  destruct (Song.is_unavailable matching_song); [done|].
  destruct (Song.IsMetadataEqual matching_song out); [|done].
  destruct (String.eqb (Song.fingerprint matching_song) _); [|done].
  destruct (String.eqb (Song.art_automatic matching_song) _); [|done].
  destruct (String.eqb (Song.art_manual matching_song) _); [|done].
  cbn. by destruct (negb _).
Qed.

Lemma drop_sections_fold (keep : Song.t → bool) (old : list Song.t) : ∀ t,
  let t' := fold_left (λ t song,
                if negb (keep song)
                then set_deleted_songs (deleted_songs t ++ [song]) t
                else t) old t in
  deleted_songs t' = deleted_songs t ++ List.filter (λ s, negb (keep s)) old
  ∧ new_songs t' = new_songs t
  ∧ touched_songs t' = touched_songs t
  ∧ readded_songs t' = readded_songs t
  ∧ dir_ t' = dir_ t.
Proof.
  induction old as [|song old IH]; intros t; cbn zeta; cbn [fold_left List.filter].
  { by rewrite app_nil_r. }
  destruct (negb (keep song)).
  - destruct (IH (set_deleted_songs (deleted_songs t ++ [song]) t))
      as (-> & -> & -> & -> & ->).
    record_simpl. by rewrite <- app_assoc.
  - apply IH.
Qed.

Lemma UpdateNonCueAssociatedSong_refiles (E : Env) (w : CollectionWatcher)
    (file fingerprint : string) (matching_song : Song.t) (image : string)
    (cue_deleted : bool) (t : ScanTransaction) :
  let read := ReadFileBlocking E file
                (Song.set_directory_id (dir_ t) (Song.init (source_ w))) in
  let dropped :=
    if cue_deleted
    then List.filter (λ s, negb (Song.IsMetadataAndMoreEqual s matching_song))
                     (GetSongsByUrl (backend E) file)
    else [] in
  let t' := UpdateNonCueAssociatedSong E w file fingerprint matching_song image
              cue_deleted t in
  deleted_songs t' = deleted_songs t ++ dropped
  ∧ readded_songs t' = readded_songs t
  ∧ (Song.is_valid read = false →
     new_songs t' = new_songs t ∧ touched_songs t' = touched_songs t)
  ∧ (Song.is_valid read = true →
     ∃ out,
       Song.id out = Song.id matching_song
       ∧ Song.user_data out = Song.user_data matching_song
       ∧ Song.source out = source_ w
       ∧ Song.fingerprint out = fingerprint
       ∧ Song.art_automatic out
         = (if Song.has_embedded_cover read then Song.art_automatic read else image)
       ∧ if only_mtime_differs matching_song out
         then new_songs t' = new_songs t ∧ touched_songs t' = touched_songs t ++ [out]
         else new_songs t' = new_songs t ++ [out] ∧ touched_songs t' = touched_songs t).
Proof.
  cbn zeta. unfold UpdateNonCueAssociatedSong. cbn zeta.
  set (t1 := if cue_deleted then _ else t).
  assert (deleted_songs t1
          = deleted_songs t
              ++ (if cue_deleted
                  then List.filter (λ s, negb (Song.IsMetadataAndMoreEqual s matching_song))
                         (GetSongsByUrl (backend E) file)
                  else [])
          ∧ new_songs t1 = new_songs t ∧ touched_songs t1 = touched_songs t
          ∧ readded_songs t1 = readded_songs t ∧ dir_ t1 = dir_ t)
    as (Hdel & Hnew & Htouched & Hreadded & Hdir).
  { subst t1. destruct cue_deleted; [|by rewrite app_nil_r].
    apply (drop_sections_fold (λ s, Song.IsMetadataAndMoreEqual s matching_song)). }
  rewrite Hdir.
  set (read := ReadFileBlocking E file _).
  destruct (Song.is_valid read) eqn:Hvalid.
  - rewrite UpdateSong_decision.
    set (out := PreserveUserSetData matching_song image _).
    assert (Song.id out = Song.id matching_song
            ∧ Song.user_data out = Song.user_data matching_song
            ∧ Song.source out = source_ w
            ∧ Song.fingerprint out = fingerprint
            ∧ Song.art_automatic out
              = (if Song.has_embedded_cover read then Song.art_automatic read else image))
      as Hout.
    { subst out. unfold PreserveUserSetData, Song.MergeUserSetData,
        Song.has_embedded_cover. cbn zeta. cbn [Song.embedded_cover Song.set_id
        Song.set_source Song.set_fingerprint].
      by destruct (Song.embedded_cover read). }
    split; [by destruct (only_mtime_differs matching_song out)|].
    split; [by destruct (only_mtime_differs matching_song out)|].
    split; [discriminate|]. intros _. exists out.
    destruct Hout as (? & ? & ? & ? & ?). repeat (split; [done|]).
    destruct (only_mtime_differs matching_song out); record_simpl;
      by rewrite Hnew, Htouched.
  - split; [done|]. split; [done|]. split; [done|]. discriminate.
Qed.

(** Re-reading a file that has a record: [UpdateNonCueAssociatedSong] files
    at most one song, and only if the tag reader could read the file.  That
    song has the id and the user data of the record, the source of the
    watcher and the fingerprint given; it is filed as touched when nothing
    but the mtime can differ from the record, and as new or updated
    otherwise, never both.  When the cue sheet of the file was deleted, the
    other sections stored for the file are filed as deleted. *)
Theorem UpdateNonCueAssociatedSong_refiles_record (E : Env) (w : CollectionWatcher)
    (file fingerprint : string) (matching_song : Song.t) (image : string)
    (cue_deleted : bool) (t : ScanTransaction) :
  let read := ReadFileBlocking E file
                (Song.set_directory_id (dir_ t) (Song.init (source_ w))) in
  let dropped :=
    if cue_deleted
    then List.filter (λ s, negb (Song.IsMetadataAndMoreEqual s matching_song))
                     (GetSongsByUrl (backend E) file)
    else [] in
  let t' := UpdateNonCueAssociatedSong E w file fingerprint matching_song image
              cue_deleted t in
  deleted_songs t' = deleted_songs t ++ dropped
  ∧ readded_songs t' = readded_songs t
  ∧ (Song.is_valid read = false →
     new_songs t' = new_songs t ∧ touched_songs t' = touched_songs t)
  ∧ (Song.is_valid read = true →
     ∃ out,
       Song.id out = Song.id matching_song
       ∧ Song.user_data out = Song.user_data matching_song
       ∧ Song.source out = source_ w
       ∧ Song.fingerprint out = fingerprint
       ∧ Song.art_automatic out
         = (if Song.has_embedded_cover read then Song.art_automatic read else image)
       ∧ if only_mtime_differs matching_song out
         then new_songs t' = new_songs t ∧ touched_songs t' = touched_songs t ++ [out]
         else new_songs t' = new_songs t ++ [out] ∧ touched_songs t' = touched_songs t).
Proof. apply UpdateNonCueAssociatedSong_refiles. Qed.

Lemma PreserveUserSetData_keeps matching image out :
  Song.source (PreserveUserSetData matching image out) = Song.source out
  ∧ Song.directory_id (PreserveUserSetData matching image out) = Song.directory_id out
  ∧ Song.fingerprint (PreserveUserSetData matching image out) = Song.fingerprint out
  ∧ Song.user_data (PreserveUserSetData matching image out) = Song.user_data matching.
Proof.
  unfold PreserveUserSetData, Song.MergeUserSetData. cbn zeta.
  by destruct (negb (Song.has_embedded_cover _)).
Qed.

Section CueSections.

Context (E : Env) (w : CollectionWatcher) (fingerprint image : string).
Context (old_sections : list Song.t) (sections_map : gmap Z Song.t).
Context (t : ScanTransaction).

Hypothesis sections_map_old :
  ∀ k m, sections_map !! k = Some m → m ∈ old_sections.

Lemma update_cue_section_filed k st cue_song :
  cue_sections_filed w fingerprint old_sections t k st →
  cue_sections_filed w fingerprint old_sections t (S k) (update_cue_section w fingerprint image sections_map st cue_song).
Proof.
  destruct st as [t0 used].
  unfold cue_sections_filed.
  intros (an & at_ & Hn & Ht & Hd & Hr & Hdir & Hlen & Hprops & Hused).
  cbn [fst snd] in *. unfold update_cue_section. cbn zeta.
  set (section := Song.set_fingerprint fingerprint _).
  assert (Song.source section = source_ w
          ∧ Song.directory_id section = dir_ t
          ∧ Song.fingerprint section = fingerprint) as Hsection.
  { subst section. by rewrite <- Hdir. }
  destruct (sections_map !! Song.beginning_nanosec section) as [matching|] eqn:Hk;
    cbn [default from_option id].
  2: { cbn. exists (an ++ [section]), at_. record_simpl.
       rewrite Hn, app_assoc. repeat (split; [done|]).
       split; [rewrite length_app; cbn; lia|]. split.
       - intros x. rewrite !elem_of_app, list_elem_of_singleton.
         intros [[Hx| ->]|Hx]; [apply Hprops; rewrite elem_of_app; auto|done|
                                apply Hprops; rewrite elem_of_app; auto].
       - intros i Hi. destruct (Hused i Hi) as [(x & Hx & Hid) Hm]. split; [|done].
         exists x. split; [|done]. rewrite !elem_of_app in *. tauto. }
  destruct (negb (Song.is_valid matching)).
  { exists (an ++ [section]), at_. record_simpl.
    rewrite Hn, app_assoc. repeat (split; [done|]).
    split; [rewrite length_app; cbn; lia|]. split.
    - intros x. rewrite !elem_of_app, list_elem_of_singleton.
      intros [[Hx| ->]|Hx]; [apply Hprops; rewrite elem_of_app; auto|done|
                             apply Hprops; rewrite elem_of_app; auto].
    - intros i Hi. destruct (Hused i Hi) as [(x & Hx & Hid) Hm]. split; [|done].
      exists x. split; [|done]. rewrite !elem_of_app in *. tauto. }
  rewrite UpdateSong_decision.
  set (out := PreserveUserSetData matching image section).
  assert (Song.source out = source_ w
          ∧ Song.directory_id out = dir_ t
          ∧ Song.fingerprint out = fingerprint) as Hout.
  { subst out.
    destruct (PreserveUserSetData_keeps matching image section) as (-> & -> & -> & _).
    done. }
  assert (Song.id out = Song.id matching) as Hid by apply PreserveUserSetData_id.
  assert (matching ∈ old_sections) as Hold by (by eapply sections_map_old).
  destruct (only_mtime_differs matching out); cbn [fst snd]; record_simpl.
  - exists an, (at_ ++ [out]). rewrite Ht, app_assoc. repeat (split; [done|]).
    split; [rewrite length_app; cbn; lia|]. split.
    + intros x. rewrite !elem_of_app, list_elem_of_singleton.
      intros [Hx|[Hx| ->]]; [apply Hprops; rewrite elem_of_app; auto|
                             apply Hprops; rewrite elem_of_app; auto|done].
    + intros i [->%elem_of_singleton|Hi]%elem_of_union.
      * split; [|by exists matching]. exists out. split; [|done].
        rewrite !elem_of_app, list_elem_of_singleton. auto.
      * destruct (Hused i Hi) as [(x & Hx & Hx') Hm]. split; [|done].
        exists x. split; [|done]. rewrite !elem_of_app in *. tauto.
  - exists (an ++ [out]), at_. rewrite Hn, app_assoc. repeat (split; [done|]).
    split; [rewrite length_app; cbn; lia|]. split.
    + intros x. rewrite !elem_of_app, list_elem_of_singleton.
      intros [[Hx| ->]|Hx]; [apply Hprops; rewrite elem_of_app; auto|done|
                             apply Hprops; rewrite elem_of_app; auto].
    + intros i [->%elem_of_singleton|Hi]%elem_of_union.
      * split; [|by exists matching]. exists out. split; [|done].
        rewrite !elem_of_app, list_elem_of_singleton. auto.
      * destruct (Hused i Hi) as [(x & Hx & Hx') Hm]. split; [|done].
        exists x. split; [|done]. rewrite !elem_of_app in *. tauto.
Qed.

Lemma update_cue_sections_filed sections : ∀ k st,
  cue_sections_filed w fingerprint old_sections t k st →
  cue_sections_filed w fingerprint old_sections t (k + length sections)
    (fold_left (update_cue_section w fingerprint image sections_map) sections st).
Proof.
  induction sections as [|cue_song sections IH]; intros k st Hst; cbn [fold_left].
  { cbn. by rewrite Nat.add_0_r. }
  cbn [length]. rewrite <- Nat.add_succ_comm. apply IH.
  by apply update_cue_section_filed.
Qed.

End CueSections.

(** Re-reading a file through its cue sheet: if the sheet is missing or
    cannot be opened, [UpdateCueAssociatedSongs] leaves the transaction as
    it is.  Otherwise every section of the sheet is filed exactly once, as
    new or as touched, with the source of the watcher, the root of the
    transaction and the fingerprint given; and every section stored for the
    file is either filed as deleted, or its id is carried by a song filed. *)
Theorem UpdateCueAssociatedSongs_files_sections (E : Env) (w : CollectionWatcher)
    (file path fingerprint matching_cue image : string) (t : ScanTransaction) :
  let t' := UpdateCueAssociatedSongs E w file path fingerprint matching_cue image t in
  (fs_exists E matching_cue && fs_open E matching_cue = false → t' = t)
  ∧ (fs_exists E matching_cue && fs_open E matching_cue = true →
     ∃ added_new added_touched removed,
       new_songs t' = new_songs t ++ added_new
       ∧ touched_songs t' = touched_songs t ++ added_touched
       ∧ deleted_songs t' = deleted_songs t ++ removed
       ∧ readded_songs t' = readded_songs t
       ∧ (length added_new + length added_touched
          = length (cue_Load E matching_cue path))%nat
       ∧ (∀ x, x ∈ added_new ++ added_touched →
               Song.source x = source_ w
               ∧ Song.directory_id x = dir_ t
               ∧ Song.fingerprint x = fingerprint)
       ∧ (∀ old, old ∈ removed → old ∈ GetSongsByUrl (backend E) file)
       ∧ (∀ old, old ∈ GetSongsByUrl (backend E) file →
                 old ∈ removed
                 ∨ ∃ x, x ∈ added_new ++ added_touched ∧ Song.id x = Song.id old)).
Proof.
  cbn zeta. unfold UpdateCueAssociatedSongs.
  destruct (fs_exists E matching_cue); destruct (fs_open E matching_cue);
    cbn [negb orb andb]; (split; [done|]); try discriminate.
  intros _. cbn zeta.
  set (old_sections := GetSongsByUrl (backend E) file).
  set (sections_map := fold_left _ old_sections ∅).
  assert (∀ k m, sections_map !! k = Some m → m ∈ old_sections) as Hmap.
  { intros k m Hk. apply sections_map_elem in Hk as [H|H]; [done|].
    by rewrite lookup_empty in H. }
  pose proof (update_cue_sections_filed w fingerprint image old_sections
                sections_map t Hmap (cue_Load E matching_cue path) 0 (t, ∅)) as Hloop.
  destruct (fold_left (update_cue_section w fingerprint image sections_map) _ _)
    as [t1 used_ids].
  destruct Hloop as (an & at_ & Hn & Ht & Hd & Hr & _ & Hlen & Hprops & Hused).
  { exists [], []. cbn [fst snd]. rewrite !app_nil_r. repeat (split; [done|]).
    split; [by intros x ?%elem_of_nil|]. by intros i ?%elem_of_empty. }
  cbn [fst snd] in *.
  destruct (drop_sections_fold (λ m, bool_decide (Song.id m ∈ used_ids))
              old_sections t1) as (Hd' & Hn' & Ht' & Hr' & _).
  cbn zeta in *. rewrite Hd', Hn', Ht', Hr', Hn, Ht, Hd, Hr.
  exists an, at_,
    (List.filter (λ m, negb (bool_decide (Song.id m ∈ used_ids))) old_sections).
  repeat (split; [done|]). split.
  - intros old Hold. by apply list_elem_of_In, filter_In in Hold as [?%list_elem_of_In _].
  - intros old Hold. destruct (decide (Song.id old ∈ used_ids)) as [Hin|Hnot].
    + right. by destruct (Hused _ Hin) as [Hx _].
    + left. apply list_elem_of_In, filter_In. split; [by apply list_elem_of_In|].
      by rewrite bool_decide_eq_false_2.
Qed.

(** ** Reading a file that has no record *)

Lemma cue_sections_of_file (E : Env) (w : CollectionWatcher)
    (file fingerprint : string) (sections : list Song.t) : ∀ songs,
  (∀ s, s ∈ songs →
        Song.source s = source_ w ∧ Song.fingerprint s = fingerprint
        ∧ normalized_NFD E (Song.url s) = normalized_NFD E file
        ∧ IsMediaFileBlocking E file = true) →
  ∀ s, s ∈ fold_left (λ songs cue_song,
               let cue_song := Song.set_source (source_ w) cue_song in
               let cue_song := Song.set_fingerprint fingerprint cue_song in
               if String.eqb (normalized_NFD E (Song.url cue_song))
                             (normalized_NFD E file)
               then if IsMediaFileBlocking E file then songs ++ [cue_song] else songs
               else songs) sections songs →
       Song.source s = source_ w ∧ Song.fingerprint s = fingerprint
       ∧ normalized_NFD E (Song.url s) = normalized_NFD E file
       ∧ IsMediaFileBlocking E file = true.
Proof.
  induction sections as [|cue_song sections IH]; intros songs Hsongs; cbn [fold_left];
    [done|].
  apply IH. cbn zeta.
  destruct (String.eqb _ (normalized_NFD E file)) eqn:Hurl; [|done].
  destruct (IsMediaFileBlocking E file) eqn:Hmedia; [|done].
  intros s [Hs| ->%list_elem_of_singleton]%elem_of_app; [by apply Hsongs|].
  apply String.eqb_eq in Hurl. done.
Qed.

(** [ScanNewFile]: every song it returns has the source of the watcher and
    the fingerprint given.  A file with a cue sheet gives the sections of
    the sheet that point to the file, their path and the path of the file
    being compared in normalization form D, and only if the file is a
    media file; the sheet is marked as processed if it gave any; a sheet
    already processed gives nothing.  A file without a cue sheet gives at
    most one song and leaves the processed sheets as they are. *)
Theorem ScanNewFile_songs (E : Env) (w : CollectionWatcher)
    (file path fingerprint matching_cue : string) (cues_processed : gset string) :
  let songs := (ScanNewFile E w file path fingerprint matching_cue cues_processed).1 in
  let cues := (ScanNewFile E w file path fingerprint matching_cue cues_processed).2 in
  (∀ s, s ∈ songs → Song.source s = source_ w ∧ Song.fingerprint s = fingerprint)
  ∧ (cues = cues_processed ∨ (cues = {[matching_cue]} ∪ cues_processed ∧ songs ≠ []))
  ∧ (GetMtimeForCue E matching_cue ≠ 0 →
     (matching_cue ∈ cues_processed → songs = [])
     ∧ (songs ≠ [] → matching_cue ∈ cues)
     ∧ ∀ s, s ∈ songs →
            normalized_NFD E (Song.url s) = normalized_NFD E file
            ∧ IsMediaFileBlocking E file = true)
  ∧ (GetMtimeForCue E matching_cue = 0 →
     cues = cues_processed
     ∧ songs = (let song := ReadFileBlocking E file (Song.init (source_ w)) in
                if Song.is_valid song
                then [Song.set_fingerprint fingerprint
                        (Song.set_source (source_ w) song)]
                else [])).
Proof.
  cbn zeta. unfold ScanNewFile. cbn zeta.
  destruct (GetMtimeForCue E matching_cue =? 0) eqn:Hcue; cbn [negb].
  - apply Z.eqb_eq in Hcue.
    destruct (Song.is_valid (ReadFileBlocking E file (Song.init (source_ w))));
      cbn [fst snd].
    + split; [by intros s ->%list_elem_of_singleton|].
      split; [by left|]. split; [done|]. done.
    + split; [by intros s ?%elem_of_nil|]. split; [by left|]. split; [done|]. done.
  - apply Z.eqb_neq in Hcue.
    destruct (bool_decide (matching_cue ∈ cues_processed)) eqn:Hseen; cbn [fst snd].
    { split; [by intros s ?%elem_of_nil|]. split; [by left|].
      split; [|done]. intros _. split; [done|]. split; [done|].
      by intros s ?%elem_of_nil. }
    apply bool_decide_eq_false in Hseen.
    destruct (negb (fs_exists E matching_cue) || negb (fs_open E matching_cue));
      cbn [fst snd].
    { split; [by intros s ?%elem_of_nil|]. split; [by left|].
      split; [|done]. intros _. split; [done|]. split; [done|].
      by intros s ?%elem_of_nil. }
    pose proof (cue_sections_of_file E w file fingerprint (cue_Load E matching_cue path) [])
      as Hsongs.
    cbn zeta in Hsongs.
    set (songs := fold_left _ (cue_Load E matching_cue path) []) in *.
    specialize (Hsongs (λ s Hs, False_ind _ (proj1 (elem_of_nil s) Hs))).
    destruct (nonempty songs) eqn:Hne; cbn [fst snd].
    + split; [intros s Hs; by destruct (Hsongs s Hs) as (? & ? & _)|].
      split; [right; split; [done|]; by destruct songs|].
      split; [|done]. intros _. split; [done|].
      split; [intros _; apply elem_of_union; left; by apply elem_of_singleton|].
      intros s Hs. by destruct (Hsongs s Hs) as (_ & _ & ? & ?).
    + destruct songs; [|done].
      split; [by intros s ?%elem_of_nil|]. split; [by left|].
      split; [|done]. intros _. split; [done|]. split; [done|].
      by intros s ?%elem_of_nil.
Qed.

(** ** The transaction's snapshot of the database *)

(** A transaction reads each list of its root from the backend at most
    once.  After a first query, made in the world [E1], a later query
    answers from the list read then, whatever the backend of the later
    world [E2] holds, and leaves the transaction as it is: the songs of a
    subdirectory, the songs without a fingerprint, and the known
    subdirectories. *)
Theorem ScanTransaction_reads_backend_once (E1 E2 : Env) (path1 path2 : string)
    (t : ScanTransaction) :
  (let t1 := (FindSongsInSubdirectory E1 path1 t).2 in
   FindSongsInSubdirectory E2 path2 t1
   = (List.filter (in_directory path2) (songs_of E1 t), t1))
  ∧ (let t1 := (HasSongsWithMissingFingerprint E1 path1 t).2 in
     HasSongsWithMissingFingerprint E2 path2 t1
     = (existsb (in_directory path2) (missing_of E1 t), t1))
  ∧ (let t1 := (HasSeenSubdir E1 path1 t).2 in
     GetAllSubdirs E2 t1 = (subdirs_of E1 t, t1)
     ∧ (GetImmediateSubdirs E2 path2 t1).2 = t1
     ∧ (HasSeenSubdir E2 path2 t1).2 = t1).
Proof.
  cbn zeta. split; [|split].
  - unfold FindSongsInSubdirectory, songs_of. cbn zeta. cbn [snd].
    destruct (cached_songs_dirty_ t) eqn:Hdirty; record_simpl; [done|].
    by rewrite Hdirty.
  - unfold HasSongsWithMissingFingerprint, missing_of. cbn zeta. cbn [snd].
    destruct (cached_songs_missing_fingerprint_dirty_ t) eqn:Hdirty; record_simpl;
      [done|].
    by rewrite Hdirty.
  - unfold HasSeenSubdir, GetAllSubdirs, GetImmediateSubdirs, subdirs_of,
      populate_known_subdirs, SetKnownSubdirs.
    cbn zeta. cbn [snd].
    destruct (known_subdirs_dirty_ t) eqn:Hdirty; record_simpl; [done|].
    by rewrite Hdirty.
Qed.

(** ** Progress estimates *)

Lemma u64_range z : 0 ≤ u64 z < 2 ^ 64.
Proof. unfold u64. apply Z.mod_pos_bound. lia. Qed.

Lemma u64_add_l a b : u64 (u64 a + b) = u64 (a + b).
Proof. unfold u64. by rewrite Zplus_mod_idemp_l. Qed.

Lemma u64_small z : 0 ≤ z < 2 ^ 64 → u64 z = z.
Proof. intros Hz. unfold u64. by rewrite Z.mod_small. Qed.

Lemma count_children_range (E : Env) rec stop children : ∀ i t n t',
  0 ≤ i < 2 ^ 64 →
  count_children E rec stop children i t = Some (n, t') →
  0 ≤ n < 2 ^ 64.
Proof.
  induction children as [|child rest IH]; intros i t n t' Hi H;
    cbn [count_children] in H.
  { by injection H as <- _. }
  destruct stop; [by injection H as <- _|].
  destruct (fs_isDir E child); [|by eapply IH; [apply u64_range|]].
  destruct (fs_exists E kNoMediaFile || fs_exists E kNoMusicFile); [by eapply IH|].
  destruct (HasSeenSubdir E child t) as [seen t1].
  destruct (negb seen && negb (fs_isHidden E child)).
  - destruct (rec child t1) as [[n1 t2]|]; [|discriminate].
    by eapply IH; [apply u64_range|].
  - by eapply IH; [apply u64_range|].
Qed.

Lemma count_children_files (E : Env) rec children : ∀ i t,
  (∀ child, child ∈ children → fs_isDir E child = false) →
  count_children E rec false children i t
  = Some (if children is [] then i else u64 (i + Z.of_nat (length children)), t).
Proof.
  induction children as [|child rest IH]; intros i t Hfiles; cbn [count_children];
    [done|].
  rewrite (Hfiles child) by apply list_elem_of_here.
  rewrite IH by (intros c Hc; by apply Hfiles, list_elem_of_further).
  do 2 f_equal. destruct rest as [|c rest].
  - done.
  - rewrite u64_add_l. f_equal. cbn [length]. lia.
Qed.

(** [FilesCountForPath] returns for every tree no deeper than the fuel,
    with a count that is a [quint64], and adds no delta to the
    transaction.  Under a stop request the count is 0 and the directory
    is opened but not read further; of a directory that holds no
    directory the count is the number of its entries. *)
Theorem FilesCountForPath_counts (E : Env) (fuel : nat) (w : CollectionWatcher)
    (path : string) (t : ScanTransaction) :
  fs_height_le E fuel path →
  ∃ n t',
    FilesCountForPath E fuel w path t = Some (n, t')
    ∧ 0 ≤ n < 2 ^ 64
    ∧ deltas t' = deltas t
    ∧ (stop_requested_ w = true →
       n = 0 ∧ t' = probe [Enumerate path] t)
    ∧ (stop_requested_ w = false →
       (∀ child, child ∈ fs_entries E path → fs_isDir E child = false) →
       n = u64 (Z.of_nat (length (fs_entries E path)))
       ∧ t' = probe [Enumerate path] t).
Proof.
  intros Hheight.
  destruct (FilesCountForPath_quiet E fuel w path t Hheight) as (n & t' & Hcount & Hq).
  exists n, t'. split; [done|].
  destruct fuel as [|fuel]; [done|]. cbn [FilesCountForPath] in Hcount.
  split; [by eapply count_children_range; [|exact Hcount]|].
  split; [apply (qs_deltas _ _ _ Hq)|]. split.
  - intros Hstop. rewrite Hstop in Hcount.
    destruct (fs_entries E path); cbn [count_children] in Hcount;
      by injection Hcount as <- <-.
  - intros Hstop Hfiles. rewrite Hstop, count_children_files in Hcount by done.
    injection Hcount as <- <-. split; [|done].
    by destruct (fs_entries E path).
Qed.

Lemma FilesCountForPath_counts_witness :
  let E := disk_env one_track_disk one_track_db in
  ∃ n t',
    FilesCountForPath E 2 music_watcher "/music" music_transaction = Some (n, t')
    ∧ 0 ≤ n < 2 ^ 64
    ∧ deltas t' = deltas music_transaction
    ∧ (stop_requested_ music_watcher = true →
       n = 0 ∧ t' = probe [Enumerate "/music"] music_transaction)
    ∧ (stop_requested_ music_watcher = false →
       (∀ child, child ∈ fs_entries E "/music" → fs_isDir E child = false) →
       n = u64 (Z.of_nat (length (fs_entries E "/music")))
       ∧ t' = probe [Enumerate "/music"] music_transaction).
Proof.
  intros E.
  apply (FilesCountForPath_counts E 2 music_watcher "/music" music_transaction).
  intros child Hchild. apply list_elem_of_In in Hchild.
  destruct Hchild as [<-|[]]. intros c Hc. by apply elem_of_nil in Hc.
Defined.

Section ProgressOfAPass.

Context (E : Env).

Lemma progress_kept_refl t : progress_kept t t.
Proof. done. Qed.

Lemma progress_kept_trans t1 t2 t3 :
  progress_kept t1 t2 → progress_kept t2 t3 → progress_kept t1 t3.
Proof. intros [] []. split; congruence. Qed.

Lemma populate_known_subdirs_progress t :
  progress_kept t (populate_known_subdirs E t).
Proof.
  unfold populate_known_subdirs, SetKnownSubdirs.
  by destruct (known_subdirs_dirty_ t).
Qed.

Lemma count_children_progress rec stop children :
  (∀ p t n t', rec p t = Some (n, t') → progress_kept t t') →
  ∀ i t n t', count_children E rec stop children i t = Some (n, t') →
              progress_kept t t'.
Proof.
  intros Hrec. induction children as [|child rest IH]; intros i t n t' H;
    cbn [count_children] in H.
  { by injection H as _ <-. }
  destruct stop; [by injection H as _ <-|].
  destruct (fs_isDir E child); [|by eapply IH].
  destruct (fs_exists E kNoMediaFile || fs_exists E kNoMusicFile); [by eapply IH|].
  pose proof (populate_known_subdirs_progress t) as Hseen.
  unfold HasSeenSubdir in H. cbn zeta in H.
  destruct (negb (existsb _ _) && negb (fs_isHidden E child)).
  - destruct (rec child _) as [[n1 t2]|] eqn:H1; [|discriminate].
    eapply progress_kept_trans; [exact Hseen|].
    eapply progress_kept_trans; [by eapply Hrec|by eapply IH].
  - eapply progress_kept_trans; [exact Hseen|by eapply IH].
Qed.

Lemma FilesCountForPath_progress fuel : ∀ w path t n t',
  FilesCountForPath E fuel w path t = Some (n, t') → progress_kept t t'.
Proof.
  induction fuel as [|fuel IH]; intros w path t n t' H; [discriminate|].
  cbn [FilesCountForPath] in H.
  apply count_children_progress in H; [|intros p t0 n0 t0'; apply IH].
  done.
Qed.

(** The loop of [FilesCountForSubdirs]: the total is the sum of the
    counts it keeps, one for every subdirectory. *)
Lemma FilesCountForSubdirs_loop_sum fuel w subdirs : ∀ i counts t n counts' t',
  stop_requested_ w = false →
  NoDup (Subdirectory.path <$> subdirs) →
  0 ≤ i < 2 ^ 64 →
  FilesCountForSubdirs_loop E fuel w subdirs i counts t = Some (n, counts', t') →
  n = u64 (i + counted counts' subdirs)
  ∧ (∀ sd, sd ∈ subdirs → is_Some (counts' !! Subdirectory.path sd))
  ∧ (∀ p, p ∉ Subdirectory.path <$> subdirs → counts' !! p = counts !! p)
  ∧ progress_kept t t'.
Proof.
  induction subdirs as [|sd rest IH];
    intros i counts t n counts' t' Hstop Hnodup Hi H;
    cbn [FilesCountForSubdirs_loop] in H.
  { injection H as <- <- <-. cbn [counted fold_right].
    rewrite Z.add_0_r, u64_small by done. split; [done|].
    split; [by intros sd ?%elem_of_nil|]. done. }
  rewrite Hstop in H. cbn [fmap list_fmap] in Hnodup.
  apply NoDup_cons in Hnodup as [Hfresh Hnodup].
  destruct (FilesCountForPath E fuel w _ t) as [[c t1]|] eqn:H1; [|discriminate].
  destruct (IH _ _ _ _ _ _ Hstop Hnodup (u64_range _) H) as (Hn & Hsome & Hother & Hp).
  assert (counts' !! Subdirectory.path sd = Some c) as Hsd.
  { rewrite (Hother _ Hfresh). apply lookup_insert_eq. }
  split.
  { rewrite Hn, u64_add_l. cbn [counted fold_right]. rewrite Hsd. cbn.
    fold (counted counts' rest). f_equal. lia. }
  split.
  { intros sd' [->|Hin]%elem_of_cons; [by eexists|by apply Hsome]. }
  split.
  { intros p Hp'. cbn [fmap list_fmap] in Hp'.
    apply not_elem_of_cons in Hp' as [Hne Hp'].
    rewrite (Hother p Hp'). by rewrite lookup_insert_ne. }
  eapply progress_kept_trans; [by eapply FilesCountForPath_progress|done].
Qed.

Lemma HasSongsWithMissingFingerprint_progress path t :
  progress_kept t (HasSongsWithMissingFingerprint E path t).2.
Proof.
  unfold HasSongsWithMissingFingerprint. cbn zeta. cbn [snd].
  by destruct (cached_songs_missing_fingerprint_dirty_ t).
Qed.

(** The shortcut credits the estimate of the directory to the progress. *)
Lemma ScanSubdirectory_unchanged_credit fuel w sd files_count t :
  incremental_ t = true →
  ignores_mtime_ t = false →
  directory_unchanged E w t sd →
  ∃ t', ScanSubdirectory E (S fuel) w (Subdirectory.path sd) sd files_count t false
        = Some t'
        ∧ quiet_step E t t'
        ∧ progress_ t' = u64 (progress_ t + files_count)
        ∧ progress_max_ t' = progress_max_ t.
Proof.
  intros Hinc Hign (Hsym & Hmark & Hmtime & Hfp). cbn [ScanSubdirectory].
  rewrite Hsym, Hmark. unfold songs_missing_fingerprint.
  destruct (HAVE_MUSICBRAINZ E && song_tracking_ w) eqn:Htrack.
  - destruct (HasSongsWithMissingFingerprint_quiet E (Subdirectory.path sd) t)
      as [Hq Hval].
    destruct (HasSongsWithMissingFingerprint_progress (Subdirectory.path sd) t)
      as [Hp Hpm].
    destruct (HasSongsWithMissingFingerprint E (Subdirectory.path sd) t)
      as [missing t1]. cbn [fst snd] in *.
    rewrite (Hfp eq_refl) in Hval. subst missing.
    unfold unchanged_since_last_time.
    rewrite (qs_incremental _ _ _ Hq), (qs_ignores_mtime _ _ _ Hq), Hinc, Hign,
      Hmtime, Z.eqb_refl.
    cbn [negb andb]. eexists. split; [done|]. split.
    { eapply quiet_step_trans; [exact Hq|apply AddToProgress_quiet]. }
    unfold AddToProgress. record_simpl. by rewrite Hp, Hpm.
  - unfold unchanged_since_last_time. rewrite Hinc, Hign, Hmtime, Z.eqb_refl.
    cbn [negb andb]. eexists. split; [done|].
    split; [apply AddToProgress_quiet|]. done.
Qed.

Lemma directory_unchanged_quiet w t t' sd :
  quiet_step E t t' → directory_unchanged E w t sd → directory_unchanged E w t' sd.
Proof.
  intros Hq (? & ? & ? & Hfp). repeat (split; [done|]).
  by rewrite (qs_missing _ _ _ Hq).
Qed.

Lemma scan_subdirs_unchanged_credit fuel w counts subdirs : ∀ t,
  stop_requested_ w = false →
  incremental_ t = true →
  ignores_mtime_ t = false →
  0 ≤ progress_ t < 2 ^ 64 →
  (∀ sd, sd ∈ subdirs → directory_unchanged E w t sd) →
  ∃ t', scan_subdirs E (S fuel) w counts subdirs t = Some t'
        ∧ quiet_step E t t'
        ∧ progress_ t' = u64 (progress_ t + counted counts subdirs)
        ∧ progress_max_ t' = progress_max_ t.
Proof.
  induction subdirs as [|sd rest IH]; intros t Hstop Hinc Hign Hrange Hall;
    cbn [scan_subdirs].
  { exists t. split; [done|]. split; [apply quiet_step_refl|].
    cbn [counted fold_right]. by rewrite Z.add_0_r, u64_small. }
  rewrite Hstop.
  destruct (ScanSubdirectory_unchanged_credit fuel w sd
              (default 0 (counts !! Subdirectory.path sd)) t Hinc Hign)
    as (t1 & H1 & Hq & Hp & Hpm); [apply Hall, list_elem_of_here|].
  cbn [ScanSubdirectory] in H1 |- *. rewrite H1.
  destruct (IH t1 Hstop) as (t' & -> & Hq' & Hp' & Hpm').
  - by rewrite (qs_incremental _ _ _ Hq).
  - by rewrite (qs_ignores_mtime _ _ _ Hq).
  - rewrite Hp. apply u64_range.
  - intros sd' Hin. eapply directory_unchanged_quiet; [exact Hq|].
    by apply Hall, list_elem_of_further.
  - exists t'. split; [done|]. split; [by eapply quiet_step_trans|].
    split; [|congruence].
    rewrite Hp', Hp, u64_add_l. cbn [counted fold_right].
    fold (counted counts rest). f_equal. lia.
Qed.

(** An incremental pass over subdirectories that are all unchanged ends
    with the progress at the progress maximum: [FilesCountForSubdirs]
    adds up the estimates it keeps per subdirectory, [AddToProgressMax]
    raises the maximum by the total, and the shortcut of
    [ScanSubdirectory] credits each estimate in turn.  No delta is
    added. *)
Theorem unchanged_pass_reaches_progress_max (fuel : nat) (w : CollectionWatcher)
    (subdirs : list Subdirectory.t) (t : ScanTransaction) :
  stop_requested_ w = false →
  incremental_ t = true →
  ignores_mtime_ t = false →
  0 ≤ progress_ t < 2 ^ 64 →
  NoDup (Subdirectory.path <$> subdirs) →
  (∀ sd, sd ∈ subdirs → fs_height_le E fuel (Subdirectory.path sd)) →
  (∀ sd, sd ∈ subdirs → directory_unchanged E w t sd) →
  ∃ files_count subdir_files_count t1 t',
    FilesCountForSubdirs E fuel w subdirs ∅ t
    = Some (files_count, subdir_files_count, t1)
    ∧ scan_subdirs E fuel w subdir_files_count subdirs
        (AddToProgressMax files_count t1) = Some t'
    ∧ progress_ t' = u64 (progress_ t + files_count)
    ∧ progress_max_ t' = u64 (progress_max_ t + files_count)
    ∧ deltas t' = deltas t.
Proof.
  intros Hstop Hinc Hign Hrange Hnodup Hheight Hall.
  destruct (FilesCountForSubdirs_quiet E fuel w subdirs Hheight 0 ∅ t)
    as (n & counts & t1 & Hcount & Hq1).
  exists n, counts, t1. unfold FilesCountForSubdirs. rewrite Hcount.
  assert (0 ≤ 0 < 2 ^ 64) as Hzero by lia.
  destruct (FilesCountForSubdirs_loop_sum fuel w subdirs 0 ∅ t n counts t1
              Hstop Hnodup Hzero Hcount) as (Hn & _ & _ & Hp1 & Hpm1).
  rewrite Z.add_0_l in Hn.
  destruct subdirs as [|sd rest].
  { exists (AddToProgressMax n t1). cbn [scan_subdirs].
    cbn [counted fold_right] in Hn. subst n.
    unfold AddToProgressMax. record_simpl. rewrite Hp1, Hpm1.
    split; [done|]. split; [done|].
    split; [by rewrite Z.add_0_r, u64_small|]. split; [done|].
    apply (qs_deltas _ _ _ Hq1). }
  destruct fuel as [|fuel]; [destruct (Hheight sd (list_elem_of_here _ _))|].
  pose proof (AddToProgressMax_quiet E n t1) as Hq2.
  destruct (scan_subdirs_unchanged_credit fuel w counts (sd :: rest)
              (AddToProgressMax n t1) Hstop) as (t' & Hscan & Hq3 & Hp & Hpm).
  - by rewrite (qs_incremental _ _ _ Hq2), (qs_incremental _ _ _ Hq1).
  - by rewrite (qs_ignores_mtime _ _ _ Hq2), (qs_ignores_mtime _ _ _ Hq1).
  - unfold AddToProgressMax. record_simpl. by rewrite Hp1.
  - intros sd' Hin. eapply directory_unchanged_quiet; [exact Hq2|].
    eapply directory_unchanged_quiet; [exact Hq1|]. by apply Hall.
  - exists t'. split; [done|]. split; [done|]. split.
    + rewrite Hp. unfold AddToProgressMax. record_simpl.
      rewrite Hp1, Hn. unfold u64. by rewrite Zplus_mod_idemp_r.
    + split.
      * rewrite Hpm. unfold AddToProgressMax. record_simpl. by rewrite Hpm1.
      * rewrite (qs_deltas _ _ _ Hq3), (qs_deltas _ _ _ Hq2).
        apply (qs_deltas _ _ _ Hq1).
Qed.

End ProgressOfAPass.

Lemma unchanged_pass_reaches_progress_max_witness :
  let E := disk_env one_track_disk one_track_db in
  let subdirs := [Subdirectory.mk 1 "/music" 100] in
  let t := music_transaction in
  ∃ files_count subdir_files_count t1 t',
    FilesCountForSubdirs E 2 music_watcher subdirs ∅ t
    = Some (files_count, subdir_files_count, t1)
    ∧ scan_subdirs E 2 music_watcher subdir_files_count subdirs
        (AddToProgressMax files_count t1) = Some t'
    ∧ progress_ t' = u64 (progress_ t + files_count)
    ∧ progress_max_ t' = u64 (progress_max_ t + files_count)
    ∧ deltas t' = deltas t.
Proof.
  intros E subdirs t.
  apply (unchanged_pass_reaches_progress_max E 2 music_watcher subdirs t).
  - reflexivity.
  - reflexivity.
  - reflexivity.
  - change (0 ≤ 0 < 2 ^ 64). lia.
  - apply NoDup_singleton.
  - intros sd ->%list_elem_of_singleton child Hchild.
    apply list_elem_of_In in Hchild. destruct Hchild as [<-|[]].
    intros c Hc. by apply elem_of_nil in Hc.
  - intros sd ->%list_elem_of_singleton.
    split; [reflexivity|]. split; [reflexivity|]. split; [reflexivity|].
    intros Htrack. discriminate Htrack.
Defined.

(** ** The walk: what it keeps of the transaction *)

Ltac kept_frame :=
  constructor; record_simpl; first [reflexivity | by apply prefix_app_r].

Section ConfigKept.

Context (E : Env).

Lemma config_kept_refl t : config_kept t t.
Proof. by constructor. Qed.

Lemma config_kept_trans t1 t2 t3 :
  config_kept t1 t2 → config_kept t2 t3 → config_kept t1 t3.
Proof. intros [] []. constructor; try congruence. by etrans. Qed.

Ltac then_kept lem := eapply config_kept_trans; [|apply lem].

Lemma AddToProgress_kept n t : config_kept t (AddToProgress n t).
Proof. unfold AddToProgress. kept_frame. Qed.

Lemma probe_kept p t : config_kept t (probe p t).
Proof. kept_frame. Qed.

Lemma set_new_songs_kept l t : config_kept t (set_new_songs l t).
Proof. kept_frame. Qed.

Lemma set_touched_songs_kept l t : config_kept t (set_touched_songs l t).
Proof. kept_frame. Qed.

Lemma set_deleted_songs_kept l t : config_kept t (set_deleted_songs l t).
Proof. kept_frame. Qed.

Lemma set_readded_songs_kept l t : config_kept t (set_readded_songs l t).
Proof. kept_frame. Qed.

Lemma set_files_changed_path_kept l t : config_kept t (set_files_changed_path_ l t).
Proof. kept_frame. Qed.

Lemma FindSongsInSubdirectory_kept path t :
  config_kept t (FindSongsInSubdirectory E path t).2.
Proof.
  unfold FindSongsInSubdirectory. cbn zeta. cbn [snd].
  destruct (cached_songs_dirty_ t); kept_frame.
Qed.

Lemma HasSongsWithMissingFingerprint_kept path t :
  config_kept t (HasSongsWithMissingFingerprint E path t).2.
Proof.
  unfold HasSongsWithMissingFingerprint. cbn zeta. cbn [snd].
  destruct (cached_songs_missing_fingerprint_dirty_ t); kept_frame.
Qed.

Lemma populate_known_subdirs_kept t : config_kept t (populate_known_subdirs E t).
Proof.
  unfold populate_known_subdirs, SetKnownSubdirs.
  destruct (known_subdirs_dirty_ t); kept_frame.
Qed.

Lemma UpdateSong_kept matching out t : config_kept t (UpdateSong matching out t).
Proof.
  rewrite UpdateSong_decision. destruct (only_mtime_differs matching out); kept_frame.
Qed.

Lemma drop_sections_kept (keep : Song.t → bool) (old : list Song.t) : ∀ t0 t,
  config_kept t0 t →
  config_kept t0
    (fold_left (λ t song,
         if negb (keep song)
         then set_deleted_songs (deleted_songs t ++ [song]) t
         else t) old t).
Proof.
  induction old as [|song old IH]; intros t0 t Ht; [done|].
  cbn [fold_left]. apply IH. destruct (negb (keep song)); [|done].
  then_kept set_deleted_songs_kept. done.
Qed.

Lemma update_cue_section_kept w fingerprint image sections_map st cue_song :
  config_kept st.1
    (update_cue_section w fingerprint image sections_map st cue_song).1.
Proof.
  destruct st as [t used]. unfold update_cue_section. cbn zeta. cbn [fst].
  destruct (negb (Song.is_valid _)); cbn [fst].
  - apply set_new_songs_kept.
  - apply UpdateSong_kept.
Qed.

Lemma UpdateCueAssociatedSongs_kept w file path fingerprint matching_cue image t :
  config_kept t
    (UpdateCueAssociatedSongs E w file path fingerprint matching_cue image t).
Proof.
  unfold UpdateCueAssociatedSongs.
  destruct (negb (fs_exists E matching_cue) || negb (fs_open E matching_cue));
    [apply config_kept_refl|].
  cbn zeta.
  set (sections_map := fold_left _ (GetSongsByUrl (backend E) file) ∅).
  assert (∀ l st, config_kept t st.1 →
            config_kept t
              (fold_left (update_cue_section w fingerprint image sections_map)
                         l st).1) as Hloop.
  { induction l as [|cue_song l IH]; intros st Hst; [done|].
    cbn [fold_left]. apply IH. then_kept update_cue_section_kept. done. }
  specialize (Hloop (cue_Load E matching_cue path) (t, ∅) (config_kept_refl t)).
  destruct (fold_left (update_cue_section w fingerprint image sections_map) _ _)
    as [t1 used_ids]. cbn [fst] in Hloop.
  by apply (drop_sections_kept (λ m, bool_decide (Song.id m ∈ used_ids))).
Qed.

Lemma UpdateNonCueAssociatedSong_kept w file fingerprint matching_song image
    cue_deleted t :
  config_kept t
    (UpdateNonCueAssociatedSong E w file fingerprint matching_song image
       cue_deleted t).
Proof.
  unfold UpdateNonCueAssociatedSong. cbn zeta.
  set (t1 := if cue_deleted then _ else t).
  assert (config_kept t t1) as Ht1.
  { subst t1. destruct cue_deleted; [|apply config_kept_refl].
    apply (drop_sections_kept (λ s, Song.IsMetadataAndMoreEqual s matching_song)),
      config_kept_refl. }
  destruct (Song.is_valid _); [|done].
  then_kept UpdateSong_kept. done.
Qed.

Lemma update_matched_kept w file path fingerprint matching_cue image
    matching_song cue_deleted cue_added t :
  config_kept t
    (update_matched E w file path fingerprint matching_cue image matching_song
       cue_deleted cue_added t).
Proof.
  unfold update_matched. destruct (negb cue_deleted && _).
  - apply UpdateCueAssociatedSongs_kept.
  - apply UpdateNonCueAssociatedSong_kept.
Qed.

Lemma add_new_songs_kept (f : ScanTransaction → Song.t → Song.t) songs : ∀ t0 t,
  config_kept t0 t →
  config_kept t0
    (fold_left (λ t song, set_new_songs (new_songs t ++ [f t song]) t) songs t).
Proof.
  induction songs as [|song songs IH]; intros t0 t Ht; [done|].
  cbn [fold_left]. apply IH. then_kept set_new_songs_kept. done.
Qed.

Lemma scan_file_kept w path songs_in_db file t files_on_disk album_art cues :
  config_kept t
    (scan_file E w path songs_in_db file (t, files_on_disk, album_art, cues)).1.1.1.
Proof.
  unfold scan_file.
  destruct (FindSongByPath songs_in_db file) as [matching_song|].
  - destruct (fs_exists E file); cbn [negb]; [|cbn; apply AddToProgress_kept].
    cbn zeta.
    destruct (ImageForSong E w file album_art) as [[image album_art'] probes].
    cbn [fst]. then_kept AddToProgress_kept.
    set (t1 := if _ || _ || _ then _ else probe probes t).
    assert (config_kept t t1) as Ht1.
    { subst t1. destruct (_ || _ || _); [|apply probe_kept].
      then_kept update_matched_kept. apply probe_kept. }
    destruct (Song.is_unavailable matching_song); [|done].
    then_kept set_readded_songs_kept. done.
  - cbn zeta.
    destruct (if song_tracking_ w && _ && _ then _ else None) as [matching_song|].
    + set (t1 := set_files_changed_path_ _ t).
      set (t2 := if Song.list_contains _ matching_song then _ else t1).
      assert (config_kept t t2) as Ht2.
      { subst t2. destruct (Song.list_contains _ _).
        - then_kept set_deleted_songs_kept. apply set_files_changed_path_kept.
        - apply set_files_changed_path_kept. }
      destruct (fs_exists E file); cbn [negb].
      2: { cbn [fst]. then_kept AddToProgress_kept. done. }
      cbn zeta.
      destruct (ImageForSong E w file album_art) as [[image album_art'] probes].
      cbn [fst]. then_kept AddToProgress_kept.
      match goal with
      | |- context [update_matched E w ?f ?p ?fp ?mc ?im ?ms ?cd ?ca ?tt] =>
          assert (config_kept t (update_matched E w f p fp mc im ms cd ca tt))
            as Ht3
      end.
      { then_kept update_matched_kept. then_kept probe_kept. done. }
      destruct (Song.is_unavailable _); [|exact Ht3].
      then_kept set_readded_songs_kept. exact Ht3.
    + destruct (ScanNewFile E w file path (file_fingerprint E w file) _ cues)
        as [songs cues'].
      destruct (negb (nonempty songs)); [cbn; apply AddToProgress_kept|].
      destruct (ImageForSong E w file album_art) as [[image album_art'] probes].
      cbn [fst]. then_kept AddToProgress_kept.
      apply (add_new_songs_kept
               (λ t song,
                  let song := Song.set_directory_id (dir_ t) song in
                  if QString.isEmpty (Song.art_automatic song)
                  then Song.set_art_automatic image song else song)).
      apply probe_kept.
Qed.

Lemma scan_files_kept w path songs_in_db files : ∀ t files_on_disk album_art cues,
  config_kept t
    (flow_txn (scan_files E w path songs_in_db files
                 (t, files_on_disk, album_art, cues))).
Proof.
  induction files as [|file rest IH]; intros t files_on_disk album_art cues;
    [apply config_kept_refl|].
  cbn [scan_files]. destruct (stop_requested_ w); [apply config_kept_refl|].
  pose proof (scan_file_kept w path songs_in_db file t files_on_disk album_art cues)
    as Hstep.
  destruct (scan_file E w path songs_in_db file (t, files_on_disk, album_art, cues))
    as [[[t1 fod1] aa1] cues1]. cbn [fst] in Hstep.
  eapply config_kept_trans; [exact Hstep|apply IH].
Qed.

Lemma enumerate_children_kept w children : ∀ t album_art files_on_disk subdirs,
  config_kept t
    (flow_txn (enumerate_children E w children
                 (t, album_art, files_on_disk, subdirs))).
Proof.
  induction children as [|child rest IH]; intros t album_art files_on_disk subdirs;
    [apply config_kept_refl|].
  cbn [enumerate_children].
  destruct (stop_requested_ w); [apply config_kept_refl|].
  destruct (fs_isDir E child).
  - destruct (negb (fs_isHidden E child)).
    + pose proof (populate_known_subdirs_kept t) as Hseen.
      unfold HasSeenSubdir. cbn zeta.
      destruct (negb (existsb _ _));
        (eapply config_kept_trans; [|apply IH]);
        (eapply config_kept_trans; [exact Hseen|apply AddToProgress_kept]).
    + eapply config_kept_trans; [|apply IH]. apply AddToProgress_kept.
  - destruct (QString.list_contains _ _);
      [eapply config_kept_trans; [|apply IH]; apply AddToProgress_kept|].
    destruct (IsMediaFileBlocking E child); [apply IH|].
    eapply config_kept_trans; [|apply IH]. apply AddToProgress_kept.
Qed.

Lemma look_for_deleted_kept songs_in_db files_on_disk : ∀ t0 t,
  config_kept t0 t →
  config_kept t0 (look_for_deleted songs_in_db files_on_disk t).
Proof.
  unfold look_for_deleted.
  induction songs_in_db as [|song rest IH]; intros t0 t Ht; [done|].
  cbn [fold_left]. apply IH. destruct (_ && _ && _); [|done].
  then_kept set_deleted_songs_kept. done.
Qed.

Lemma add_subdir_record_kept path subdir t :
  config_kept t (add_subdir_record E path subdir t).
Proof.
  unfold add_subdir_record. cbn zeta.
  destruct (Subdirectory.directory_id subdir =? -1);
    destruct (Subdirectory.mtime _ =? 0); kept_frame.
Qed.

Lemma songs_missing_fingerprint_kept w path t :
  config_kept t (songs_missing_fingerprint E w path t).2.
Proof.
  unfold songs_missing_fingerprint. destruct (_ && _).
  - apply HasSongsWithMissingFingerprint_kept.
  - apply config_kept_refl.
Qed.

Lemma rescan_removed_kept rec path previous_subdirs :
  (∀ p s t t', rec p s t = Some t' → config_kept t t') →
  ∀ t t', rescan_removed E rec path previous_subdirs t = Some t' →
          config_kept t t'.
Proof.
  intros Hrec. induction previous_subdirs as [|prev rest IH]; intros t t' H;
    cbn [rescan_removed] in H.
  { injection H as <-. apply config_kept_refl. }
  destruct (_ && _); [|by apply IH].
  destruct (rec _ prev t) as [t1|] eqn:H1; [|discriminate].
  eapply config_kept_trans; [by eapply Hrec|by apply IH].
Qed.

Lemma scan_new_subdirs_kept rec stop my_new_subdirs :
  (∀ p s t t', rec p s t = Some t' → config_kept t t') →
  ∀ t t', scan_new_subdirs rec stop my_new_subdirs t = Some t' →
          config_kept t t'.
Proof.
  intros Hrec. induction my_new_subdirs as [|sd rest IH]; intros t t' H;
    cbn [scan_new_subdirs] in H.
  { injection H as <-. apply config_kept_refl. }
  destruct stop; [injection H as <-; apply config_kept_refl|].
  destruct (rec _ sd t) as [t1|] eqn:H1; [|discriminate].
  eapply config_kept_trans; [by eapply Hrec|by apply IH].
Qed.

(** Every call of [ScanSubdirectory] that returns keeps the
    configuration of the transaction and only appends to its probes. *)
Lemma ScanSubdirectory_kept fuel : ∀ w path subdir files_count t force t',
  ScanSubdirectory E fuel w path subdir files_count t force = Some t' →
  config_kept t t'.
Proof.
  induction fuel as [|fuel IH]; intros w path subdir files_count t force t' H;
    [discriminate|].
  cbn [ScanSubdirectory] in H.
  destruct (symlink_into_collection E w path);
    [injection H as <-; apply config_kept_refl|].
  destruct (has_nomedia_marker E path);
    [injection H as <-; apply config_kept_refl|].
  pose proof (songs_missing_fingerprint_kept w path t) as H1.
  destruct (songs_missing_fingerprint E w path t) as [missing t1]. cbn [snd] in H1.
  destruct (unchanged_since_last_time E path subdir t1 force missing).
  { injection H as <-. eapply config_kept_trans; [exact H1|apply AddToProgress_kept]. }
  pose proof (populate_known_subdirs_kept t1) as H2.
  unfold GetImmediateSubdirs in H. cbn zeta in H.
  destruct (rescan_removed E _ path _ _) as [t3|] eqn:H3; [|discriminate].
  apply rescan_removed_kept in H3; [|intros p s t0 t0'; apply IH].
  pose proof (enumerate_children_kept w (fs_entries E path)
                (probe [Enumerate path] t3) ∅ [] []) as H4.
  assert (config_kept t t3) as H03.
  { eapply config_kept_trans; [exact H1|]. eapply config_kept_trans; [exact H2|done]. }
  destruct (enumerate_children E w (fs_entries E path) _)
    as [[[[t4 album_art] files_on_disk] my_new_subdirs]|t4]; cbn [flow_txn fst] in H4.
  2: { injection H as <-. eapply config_kept_trans; [exact H03|].
       eapply config_kept_trans; [apply probe_kept|exact H4]. }
  assert (config_kept t t4) as H04.
  { eapply config_kept_trans; [exact H03|].
    eapply config_kept_trans; [apply probe_kept|exact H4]. }
  destruct (stop_requested_ w); [by injection H as <-|].
  pose proof (FindSongsInSubdirectory_kept path t4) as H5.
  destruct (FindSongsInSubdirectory E path t4) as [songs_in_db t5].
  cbn [fst snd] in H5.
  pose proof (scan_files_kept w path songs_in_db files_on_disk t5 files_on_disk
                album_art ∅) as H6.
  destruct (scan_files E w path songs_in_db files_on_disk _)
    as [[[[t6 files_on_disk'] album_art'] cues]|t6]; cbn [flow_txn fst] in H6.
  2: { injection H as <-. eapply config_kept_trans; [exact H04|].
       eapply config_kept_trans; [exact H5|exact H6]. }
  apply scan_new_subdirs_kept in H; [|intros p s t0 t0'; apply IH].
  eapply config_kept_trans; [exact H04|].
  eapply config_kept_trans; [exact H5|].
  eapply config_kept_trans; [exact H6|].
  eapply config_kept_trans; [|exact H].
  eapply config_kept_trans; [|apply add_subdir_record_kept].
  apply look_for_deleted_kept, config_kept_refl.
Qed.

End ConfigKept.

Section ReadsDirectory.

Context (E : Env).

Lemma trace_elem_kept t t' p : config_kept t t' → p ∈ trace t → p ∈ trace t'.
Proof. intros [_ _ _ _ _ _ _ [k ->]] Hp. apply elem_of_app. by left. Qed.

(** A call that takes none of the early returns opens the directory. *)
Lemma ScanSubdirectory_walk_enumerates fuel w path subdir files_count t force t' :
  symlink_into_collection E w path = false →
  has_nomedia_marker E path = false →
  unchanged_since_last_time E path subdir (songs_missing_fingerprint E w path t).2
    force (songs_missing_fingerprint E w path t).1 = false →
  ScanSubdirectory E (S fuel) w path subdir files_count t force = Some t' →
  Enumerate path ∈ trace t'.
Proof.
  intros Hsym Hmark Hwalk H. cbn [ScanSubdirectory] in H.
  rewrite Hsym, Hmark in H.
  destruct (songs_missing_fingerprint E w path t) as [missing t1].
  cbn [fst snd] in Hwalk. rewrite Hwalk in H.
  unfold GetImmediateSubdirs in H. cbn zeta in H.
  destruct (rescan_removed E _ path _ _) as [t3|] eqn:H3; [|discriminate].
  pose proof (enumerate_children_kept E w (fs_entries E path)
                (probe [Enumerate path] t3) ∅ [] []) as H4.
  assert (Enumerate path ∈ trace (probe [Enumerate path] t3)) as Hin.
  { record_simpl. apply elem_of_app. right. apply list_elem_of_here. }
  destruct (enumerate_children E w (fs_entries E path) _)
    as [[[[t4 album_art] files_on_disk] my_new_subdirs]|t4]; cbn [flow_txn fst] in H4.
  2: { injection H as <-. by eapply trace_elem_kept. }
  apply (trace_elem_kept _ _ _ H4) in Hin.
  destruct (stop_requested_ w); [by injection H as <-|].
  pose proof (FindSongsInSubdirectory_kept E path t4) as H5.
  destruct (FindSongsInSubdirectory E path t4) as [songs_in_db t5].
  cbn [fst snd] in H5.
  pose proof (scan_files_kept E w path songs_in_db files_on_disk t5 files_on_disk
                album_art ∅) as H6.
  destruct (scan_files E w path songs_in_db files_on_disk _)
    as [[[[t6 files_on_disk'] album_art'] cues]|t6]; cbn [flow_txn fst] in H6.
  2: { injection H as <-. eapply trace_elem_kept; [exact H6|].
       by eapply trace_elem_kept. }
  apply scan_new_subdirs_kept in H;
    [|intros p s t0 t0'; apply ScanSubdirectory_kept].
  eapply trace_elem_kept; [exact H|].
  eapply trace_elem_kept; [apply add_subdir_record_kept|].
  eapply trace_elem_kept;
    [apply look_for_deleted_kept, config_kept_refl|].
  eapply trace_elem_kept; [exact H6|]. by eapply trace_elem_kept.
Qed.

(** [ScanSubdirectory] keeps the task, the root, the mode and the
    progress maximum of the transaction and only appends to its probes.
    A directory that is not skipped outright is opened and read whenever
    the shortcut for unchanged directories does not apply: in a full
    scan that ignores mtimes, in a transaction that is not incremental,
    in a forced call, when the mtime differs from the recorded one, and
    when song tracking is on and a song of the directory has no
    fingerprint. *)
Theorem ScanSubdirectory_reads_unless_unchanged (fuel : nat)
    (w : CollectionWatcher) (path : string) (subdir : Subdirectory.t)
    (files_count : Z) (t : ScanTransaction) (force : bool) :
  walk_height_le E (subdirs_of E t) fuel path →
  ∃ t',
    ScanSubdirectory E fuel w path subdir files_count t force = Some t'
    ∧ config_kept t t'
    ∧ (symlink_into_collection E w path = false →
       has_nomedia_marker E path = false →
       ignores_mtime_ t = true ∨ incremental_ t = false ∨ force = true
       ∨ Subdirectory.mtime subdir ≠ fs_lastModified E path
       ∨ (HAVE_MUSICBRAINZ E && song_tracking_ w = true
          ∧ existsb (in_directory path) (missing_of E t) = true) →
       Enumerate path ∈ trace t').
Proof.
  intros Hheight.
  destruct (ScanSubdirectory_total E fuel w path subdir files_count t force Hheight)
    as [t' H].
  exists t'. split; [done|]. split; [by eapply ScanSubdirectory_kept|].
  intros Hsym Hmark Hwhy. destruct fuel as [|fuel]; [discriminate|].
  eapply ScanSubdirectory_walk_enumerates; [done..| |exact H].
  pose proof (songs_missing_fingerprint_kept E w path t) as Hk.
  unfold unchanged_since_last_time.
  rewrite (ck_ignores_mtime _ _ Hk), (ck_incremental _ _ Hk).
  destruct Hwhy as [->|[->|[->|[Hne|[Htrack Hmissing]]]]].
  - done.
  - by rewrite !andb_false_r.
  - by rewrite !andb_false_r.
  - apply Z.eqb_neq in Hne. rewrite Hne. by rewrite !andb_false_r.
  - unfold songs_missing_fingerprint. rewrite Htrack.
    destruct (HasSongsWithMissingFingerprint_quiet E path t) as [_ ->].
    rewrite Hmissing. by rewrite !andb_false_r.
Qed.

End ReadsDirectory.

Lemma ScanSubdirectory_reads_unless_unchanged_witness :
  let E := disk_env one_track_disk one_track_db in
  let t := (ScanTransaction_new music_watcher 1 false true true).2 in
  ∃ t',
    ScanSubdirectory E 2 music_watcher "/music" (Subdirectory.mk 1 "/music" 100) 1 t false
    = Some t'
    ∧ config_kept t t'
    ∧ (symlink_into_collection E music_watcher "/music" = false →
       has_nomedia_marker E "/music" = false →
       ignores_mtime_ t = true ∨ incremental_ t = false ∨ false = true
       ∨ 100 ≠ fs_lastModified E "/music"
       ∨ (HAVE_MUSICBRAINZ E && song_tracking_ music_watcher = true
          ∧ existsb (in_directory "/music") (missing_of E t) = true) →
       Enumerate "/music" ∈ trace t').
Proof.
  intros E t.
  apply (ScanSubdirectory_reads_unless_unchanged E 2 music_watcher "/music"
           (Subdirectory.mk 1 "/music" 100) 1 t false).
  split.
  - intros child Hchild. apply list_elem_of_In in Hchild.
    destruct Hchild as [<-|[]]. split.
    + intros c Hc. by apply elem_of_nil in Hc.
    + intros sd Hsd. apply list_elem_of_In in Hsd. destruct Hsd as [<-|[]].
      discriminate.
  - intros sd Hsd. apply list_elem_of_In in Hsd. destruct Hsd as [<-|[]].
    discriminate.
Defined.

(** ** The rounds of a scan: one transaction, one task *)

Section Rounds.

Context (E : Env).

Lemma watcher_kept_refl w : watcher_kept w w.
Proof. by constructor. Qed.

Lemma watcher_kept_trans w1 w2 w3 :
  watcher_kept w1 w2 → watcher_kept w2 w3 → watcher_kept w1 w3.
Proof. intros [] []. constructor; congruence. Qed.

Lemma emit_kept sig w : watcher_kept w (emit sig w).
Proof. by constructor. Qed.

Lemma AddWatch_kept dir path w : watcher_kept w (AddWatch E dir path w).
Proof. unfold AddWatch. by destruct (negb (fs_exists E path)). Qed.

Lemma RemoveWatch_kept dir subdir w : watcher_kept w (RemoveWatch dir subdir w).
Proof. unfold RemoveWatch. by destruct (QString.list_contains _ _). Qed.

Lemma AddWatch_times dir path w :
  next_task_ (AddWatch E dir path w) = next_task_ w
  ∧ last_scan_time_ (AddWatch E dir path w) = last_scan_time_ w.
Proof. unfold AddWatch. by destruct (negb (fs_exists E path)). Qed.

Lemma RemoveWatch_times dir subdir w :
  next_task_ (RemoveWatch dir subdir w) = next_task_ w
  ∧ last_scan_time_ (RemoveWatch dir subdir w) = last_scan_time_ w.
Proof. unfold RemoveWatch. by destruct (QString.list_contains _ _). Qed.

Lemma watch_fold_kept {A}
    (step : CollectionWatcher → A → CollectionWatcher) (l : list A) :
  (∀ w a, watcher_kept w (step w a)
          ∧ next_task_ (step w a) = next_task_ w
          ∧ last_scan_time_ (step w a) = last_scan_time_ w) →
  ∀ w, watcher_kept w (fold_left step l w)
       ∧ next_task_ (fold_left step l w) = next_task_ w
       ∧ last_scan_time_ (fold_left step l w) = last_scan_time_ w.
Proof.
  intros Hstep. induction l as [|a l IH]; intros w; cbn [fold_left].
  { split; [apply watcher_kept_refl|done]. }
  destruct (IH (step w a)) as (Hk & -> & ->).
  destruct (Hstep w a) as (Hk' & -> & ->).
  split; [by eapply watcher_kept_trans|done].
Qed.

(** Destroying a transaction changes nothing of the watcher but the
    watch set and the signals sent. *)
Lemma ScanTransaction_destroy_kept w t :
  watcher_kept w (ScanTransaction_destroy E w t)
  ∧ next_task_ (ScanTransaction_destroy E w t) = next_task_ w
  ∧ last_scan_time_ (ScanTransaction_destroy E w t) = last_scan_time_ w.
Proof.
  unfold ScanTransaction_destroy.
  destruct (negb (stop_requested_ w)); [|by split].
  unfold CommitNewOrUpdatedSongs. cbn zeta. cbn [fst].
  set (w6 := emit_unless_empty SubdirsMTimeUpdated _ _).
  assert (watcher_kept w w6 ∧ next_task_ w6 = next_task_ w
          ∧ last_scan_time_ w6 = last_scan_time_ w) as (H1 & H2 & H3).
  { subst w6. unfold emit_unless_empty.
    repeat match goal with
           | |- context [if ?b then _ else _] => destruct b
           end; by split. }
  set (w7 := fold_left _ (deleted_subdirs t) w6).
  assert (watcher_kept w6 w7 ∧ next_task_ w7 = next_task_ w6
          ∧ last_scan_time_ w7 = last_scan_time_ w6) as (H4 & H5 & H6).
  { apply watch_fold_kept. intros w0 a.
    destruct (watched_dirs_ w0 !! dir_ t);
      [|split; [apply watcher_kept_refl|done]].
    split; [apply RemoveWatch_kept|apply RemoveWatch_times]. }
  set (w8 := if monitor_ w7 then _ else w7).
  assert (watcher_kept w7 w8 ∧ next_task_ w8 = next_task_ w7
          ∧ last_scan_time_ w8 = last_scan_time_ w7) as (H7 & H8 & H9).
  { subst w8. destruct (monitor_ w7); [|split; [apply watcher_kept_refl|done]].
    apply watch_fold_kept. intros w0 a.
    destruct (watched_dirs_ w0 !! dir_ t);
      [|split; [apply watcher_kept_refl|done]].
    split; [apply AddWatch_kept|apply AddWatch_times]. }
  split.
  { eapply watcher_kept_trans; [exact H1|].
    eapply watcher_kept_trans; [exact H4|].
    eapply watcher_kept_trans; [exact H7|].
    eapply watcher_kept_trans; apply emit_kept. }
  watcher_simpl. by rewrite H8, H9, H5, H6, H2, H3.
Qed.

Lemma tasks_started_app l1 l2 :
  tasks_started (l1 ++ l2) = tasks_started l1 ++ tasks_started l2.
Proof. apply flat_map_app. Qed.

Lemma tasks_finished_app l1 l2 :
  tasks_finished (l1 ++ l2) = tasks_finished l1 ++ tasks_finished l2.
Proof. apply flat_map_app. Qed.

Lemma tasks_of_batch {A} (sig : list A → Signal) l :
  (∀ l task, sig l ≠ StartTask task ∧ sig l ≠ SetTaskFinished task) →
  tasks_started (batch sig l) = [] ∧ tasks_finished (batch sig l) = [].
Proof.
  intros Hsig. unfold batch. destruct (nonempty l); [|done].
  cbn. rewrite !app_nil_r.
  destruct (sig l) eqn:Heq; try done; by destruct (Hsig l task).
Qed.

Lemma tasks_of_delta_signals t :
  tasks_started (delta_signals t) = [] ∧ tasks_finished (delta_signals t) = [].
Proof.
  unfold delta_signals. rewrite !tasks_started_app, !tasks_finished_app.
  assert (∀ {A} (sig : list A → Signal) l,
            (∀ l task, sig l ≠ StartTask task ∧ sig l ≠ SetTaskFinished task) →
            tasks_started (batch sig l) = [] ∧ tasks_finished (batch sig l) = [])
    as Hbatch by (intros; by apply tasks_of_batch).
  destruct (Hbatch _ (if mark_songs_unavailable_ t
                      then SongsUnavailable else SongsDeleted) (deleted_songs t))
    as [-> ->]; [by destruct (mark_songs_unavailable_ t)|].
  destruct (Hbatch _ NewOrUpdatedSongs (new_songs t)) as [-> ->]; [done|].
  destruct (Hbatch _ SongsMTimeUpdated (touched_songs t)) as [-> ->]; [done|].
  destruct (Hbatch _ SongsReadded (readded_songs t)) as [-> ->]; [done|].
  destruct (Hbatch _ SubdirsDiscovered (new_subdirs t)) as [-> ->]; [done|].
  destruct (Hbatch _ SubdirsMTimeUpdated (touched_subdirs t)) as [-> ->]; [done|].
  done.
Qed.

Lemma tasks_of_watch_calls calls :
  forallb is_watch_call calls = true →
  tasks_started calls = [] ∧ tasks_finished calls = [].
Proof.
  induction calls as [|c calls IH]; [done|]. cbn [forallb].
  intros [Hc Hcalls]%andb_prop. destruct (IH Hcalls) as [IH1 IH2].
  unfold tasks_started, tasks_finished in *. cbn [flat_map].
  rewrite IH1, IH2. by destruct c.
Qed.

(** The destructor finishes the task of the transaction, and no other. *)
Lemma ScanTransaction_destroy_tasks w t :
  tasks_started (emitted (ScanTransaction_destroy E w t)) = tasks_started (emitted w)
  ∧ tasks_finished (emitted (ScanTransaction_destroy E w t))
    = tasks_finished (emitted w) ++ [task_id_ t].
Proof.
  destruct (stop_requested_ w) eqn:Hstop.
  - unfold ScanTransaction_destroy. rewrite Hstop. cbn [negb]. watcher_simpl.
    rewrite tasks_started_app, tasks_finished_app. cbn. by rewrite app_nil_r.
  - destruct (ScanTransaction_destroy_emitted E w t Hstop) as (calls & Hcalls & ->).
    rewrite !tasks_started_app, !tasks_finished_app.
    destruct (tasks_of_delta_signals t) as [-> ->].
    destruct (tasks_of_watch_calls calls Hcalls) as [-> ->].
    cbn. by rewrite app_nil_r.
Qed.

End Rounds.

(** ** The scan of all roots *)

Section ScanOfRoots.

Context (E : Env).

Lemma scan_subdirs_returns fuel w counts subdirs : ∀ t,
  (∀ sd, sd ∈ subdirs →
         walk_height_le E (subdirs_of E t) fuel (Subdirectory.path sd)) →
  ∃ t', scan_subdirs E fuel w counts subdirs t = Some t'
        ∧ config_kept t t'
        ∧ walk_step E t t'.
Proof.
  induction subdirs as [|sd rest IH]; intros t Hheight; cbn [scan_subdirs].
  { exists t. split; [done|]. split; [apply config_kept_refl|apply walk_step_refl]. }
  destruct (stop_requested_ w).
  { exists t. split; [done|]. split; [apply config_kept_refl|apply walk_step_refl]. }
  destruct (ScanSubdirectory_total E fuel w (Subdirectory.path sd) sd
              (default 0 (counts !! Subdirectory.path sd)) t false)
    as [t1 H1]; [apply Hheight, list_elem_of_here|].
  rewrite H1.
  pose proof (ScanSubdirectory_step E _ _ _ _ _ _ _ _ H1) as Hstep.
  pose proof (ScanSubdirectory_kept E _ _ _ _ _ _ _ _ H1) as Hkept.
  destruct (IH t1) as (t' & -> & Hkept' & Hstep').
  { intros sd' Hin. rewrite (ws_subdirs _ _ _ Hstep).
    by apply Hheight, list_elem_of_further. }
  exists t'. split; [done|].
  split; [by eapply config_kept_trans|by eapply walk_step_trans].
Qed.

Lemma ScanTransaction_new_round w dir incremental ignores_mtime mark :
  let w1 := (ScanTransaction_new w dir incremental ignores_mtime mark).1 in
  let t0 := (ScanTransaction_new w dir incremental ignores_mtime mark).2 in
  watcher_kept w w1
  ∧ last_scan_time_ w1 = last_scan_time_ w
  ∧ next_task_ w1 = next_task_ w + 1
  ∧ subdir_mapping_ w1 = subdir_mapping_ w
  ∧ emitted w1 = emitted w ++ [StartTask (next_task_ w); ScanStarted (next_task_ w)]
  ∧ task_id_ t0 = next_task_ w
  ∧ dir_ t0 = dir
  ∧ incremental_ t0 = incremental
  ∧ ignores_mtime_ t0 = ignores_mtime
  ∧ deltas t0 = ([], [], [], [], [], [], [])
  ∧ progress_ t0 = 0 ∧ progress_max_ t0 = 0
  ∧ known_subdirs_dirty_ t0 = true.
Proof.
  cbn zeta. unfold ScanTransaction_new. cbn zeta. cbn [fst snd]. watcher_simpl.
  split; [by constructor|]. by rewrite <- app_assoc.
Qed.

(** One round of [PerformScan]: it returns, starts one task and
    finishes it, and keeps the watcher's settings. *)
Lemma scan_root_round fuel incremental ignore_mtimes w dir :
  (∀ sd, sd ∈ ledger_of_root E dir →
         fs_height_le E fuel (Subdirectory.path sd)
         ∧ walk_height_le E (SubdirsInDirectory (backend E) (Directory.id dir))
             fuel (Subdirectory.path sd)) →
  ∃ w', scan_root E fuel incremental ignore_mtimes w dir = Some w'
        ∧ watcher_kept w w'
        ∧ last_scan_time_ w' = last_scan_time_ w
        ∧ next_task_ w' = next_task_ w + 1
        ∧ tasks_started (emitted w') = tasks_started (emitted w) ++ [next_task_ w]
        ∧ tasks_finished (emitted w') = tasks_finished (emitted w) ++ [next_task_ w].
Proof.
  intros Hheight. unfold scan_root.
  pose proof (ScanTransaction_new_round w (Directory.id dir) incremental
                ignore_mtimes (w_mark_songs_unavailable_ w)) as Hnew.
  cbn zeta in Hnew.
  destruct (ScanTransaction_new w _ _ _ _) as [w1 t0]. cbn [fst snd] in Hnew.
  destruct Hnew as (Hk1 & Htime1 & Hnext1 & _ & Hemit1 & Htask0 & Hdir0 & _ & _ & _
                    & _ & _ & Hdirty).
  pose proof (populate_known_subdirs_kept E t0) as Hka.
  pose proof (GetAllSubdirs_step E t0) as Hsa.
  assert ((GetAllSubdirs E t0).1 = SubdirsInDirectory (backend E) (Directory.id dir))
    as Hledger.
  { unfold GetAllSubdirs, populate_known_subdirs, SetKnownSubdirs. cbn zeta.
    cbn [fst]. rewrite Hdirty. record_simpl. by rewrite Hdir0. }
  assert (subdirs_of E (GetAllSubdirs E t0).2
          = SubdirsInDirectory (backend E) (Directory.id dir)) as Hsubdirs.
  { rewrite (ws_subdirs _ _ _ Hsa). unfold subdirs_of. by rewrite Hdirty, Hdir0. }
  unfold GetAllSubdirs in *. cbn zeta in *. cbn [fst snd] in *.
  set (ta := populate_known_subdirs E t0) in *. rewrite Hledger.
  fold (ledger_of_root E dir).
  destruct (FilesCountForSubdirs_quiet E fuel w1 (ledger_of_root E dir)
              (λ sd Hsd, proj1 (Hheight sd Hsd)) 0 ∅ ta)
    as (n & counts & tb & Hcount & Hqb).
  unfold FilesCountForSubdirs. rewrite Hcount.
  pose proof (FilesCountForSubdirs_step E _ _ _ _ _ _ _ _ _ Hcount) as Hsb.
  destruct (scan_subdirs_returns fuel w1 counts (ledger_of_root E dir)
              (AddToProgressMax n tb)) as (t & -> & Hkc & _).
  { intros sd Hsd.
    rewrite (ws_subdirs _ _ _ (AddToProgressMax_step E n tb)),
      (ws_subdirs _ _ _ Hsb), Hsubdirs.
    by apply Hheight. }
  eexists. split; [done|].
  destruct (ScanTransaction_destroy_kept E w1 t) as (Hk2 & -> & ->).
  destruct (ScanTransaction_destroy_tasks E w1 t) as [-> ->].
  split; [by eapply watcher_kept_trans|]. split; [done|]. split; [done|].
  rewrite Hemit1, tasks_started_app, tasks_finished_app. cbn.
  rewrite !app_nil_r. split; [done|].
  rewrite (ck_task _ _ Hkc).
  change (task_id_ (AddToProgressMax n tb)) with (task_id_ tb).
  by rewrite (qs_task _ _ _ Hqb), (ck_task _ _ Hka), Htask0.
Qed.

Lemma scan_roots_rounds fuel incremental ignore_mtimes dirs : ∀ w,
  stop_requested_ w = false →
  (∀ dir sd, dir ∈ dirs → sd ∈ ledger_of_root E dir →
             fs_height_le E fuel (Subdirectory.path sd)
             ∧ walk_height_le E (SubdirsInDirectory (backend E) (Directory.id dir))
                 fuel (Subdirectory.path sd)) →
  ∃ w' tasks,
    scan_roots E fuel incremental ignore_mtimes dirs w = Some w'
    ∧ watcher_kept w w'
    ∧ last_scan_time_ w' = last_scan_time_ w
    ∧ tasks_started (emitted w') = tasks_started (emitted w) ++ tasks
    ∧ tasks_finished (emitted w') = tasks_finished (emitted w) ++ tasks
    ∧ length tasks = length dirs.
Proof.
  induction dirs as [|dir rest IH]; intros w Hstop Hheight; cbn [scan_roots].
  { exists w, []. rewrite !app_nil_r. split; [done|].
    split; [apply watcher_kept_refl|done]. }
  rewrite Hstop.
  destruct (scan_root_round fuel incremental ignore_mtimes w dir)
    as (w1 & -> & Hk1 & Htime1 & _ & Hs1 & Hf1).
  { intros sd Hsd. apply (Hheight dir sd); [apply list_elem_of_here|done]. }
  destruct (IH w1) as (w' & tasks & -> & Hk & Htime & Hs & Hf & Hlen).
  { by rewrite (wk_stop _ _ Hk1). }
  { intros d sd Hd. apply Hheight. by apply list_elem_of_further. }
  exists w', (next_task_ w :: tasks). split; [done|].
  split; [by eapply watcher_kept_trans|]. split; [congruence|].
  rewrite Hs, Hf, Hs1, Hf1, <- !app_assoc. cbn [length]. by rewrite Hlen.
Qed.

(** [PerformScan] over trees and ledgers no deeper than the fuel: it
    returns; it clears the stop request and sets the time of the last
    scan; it keeps the settings, the watched roots and the rescan queue;
    it starts one task per watched root and finishes each task it
    starts, in the same order; its last signal is
    [CompilationsNeedUpdating]; and a periodic check less than a day
    later does nothing. *)
Theorem PerformScan_one_task_per_root (fuel : nat) (incremental ignore_mtimes : bool)
    (w : CollectionWatcher) :
  (∀ dir sd, dir ∈ QMap_values (watched_dirs_ w) → sd ∈ ledger_of_root E dir →
             fs_height_le E fuel (Subdirectory.path sd)
             ∧ walk_height_le E (SubdirsInDirectory (backend E) (Directory.id dir))
                 fuel (Subdirectory.path sd)) →
  ∃ w' tasks,
    PerformScan E fuel incremental ignore_mtimes w = Some w'
    ∧ watcher_kept (set_stop_requested_ false w) w'
    ∧ last_scan_time_ w' = now E
    ∧ last (emitted w') = Some CompilationsNeedUpdating
    ∧ tasks_started (emitted w') = tasks_started (emitted w) ++ tasks
    ∧ tasks_finished (emitted w') = tasks_finished (emitted w) ++ tasks
    ∧ length tasks = length (QMap_values (watched_dirs_ w))
    ∧ ∀ E' fuel', 0 ≤ now E' - now E < 86400 →
                  IncrementalScanCheck E' fuel' w' = Some w'.
Proof.
  intros Hheight. unfold PerformScan. cbn zeta.
  destruct (scan_roots_rounds fuel incremental ignore_mtimes
              (QMap_values (watched_dirs_ (set_stop_requested_ false w)))
              (set_stop_requested_ false w) eq_refl Hheight)
    as (w1 & tasks & -> & Hk & _ & Hs & Hf & Hlen).
  eexists _, tasks. split; [done|]. watcher_simpl.
  split; [by destruct Hk|]. split; [done|].
  split; [apply last_snoc|].
  rewrite tasks_started_app, tasks_finished_app, Hs, Hf. cbn.
  rewrite !app_nil_r. split; [done|]. split; [done|]. split; [done|].
  intros E' fuel' Hnow. unfold IncrementalScanCheck. cbn zeta. watcher_simpl.
  rewrite int64_small by lia.
  destruct (86400 <=? now E' - now E) eqn:Hle; [|done].
  apply Z.leb_le in Hle. lia.
Qed.

End ScanOfRoots.

Lemma music_heights :
  let E := disk_env one_track_disk one_track_db in
  ∀ dir sd, dir ∈ QMap_values (watched_dirs_ music_watcher) →
            sd ∈ ledger_of_root E dir →
            fs_height_le E 2 (Subdirectory.path sd)
            ∧ walk_height_le E (SubdirsInDirectory (backend E) (Directory.id dir))
                2 (Subdirectory.path sd).
Proof.
  intros E dir sd Hdir Hsd.
  apply list_elem_of_In in Hdir. vm_compute in Hdir. destruct Hdir as [<-|[]].
  apply list_elem_of_In in Hsd. vm_compute in Hsd. destruct Hsd as [<-|[]].
  split.
  - intros child Hchild. apply list_elem_of_In in Hchild.
    destruct Hchild as [<-|[]]. intros c Hc. by apply elem_of_nil in Hc.
  - split.
    + intros child Hchild. apply list_elem_of_In in Hchild.
      destruct Hchild as [<-|[]]. split.
      * intros c Hc. by apply elem_of_nil in Hc.
      * intros sd Hsd. apply list_elem_of_In in Hsd. destruct Hsd as [<-|[]].
        discriminate.
    + intros sd Hsd. apply list_elem_of_In in Hsd. destruct Hsd as [<-|[]].
      discriminate.
Defined.

Lemma PerformScan_one_task_per_root_witness :
  let E := disk_env one_track_disk one_track_db in
  ∃ w' tasks,
    PerformScan E 2 false true music_watcher = Some w'
    ∧ watcher_kept (set_stop_requested_ false music_watcher) w'
    ∧ last_scan_time_ w' = now E
    ∧ last (emitted w') = Some CompilationsNeedUpdating
    ∧ tasks_started (emitted w') = tasks_started (emitted music_watcher) ++ tasks
    ∧ tasks_finished (emitted w') = tasks_finished (emitted music_watcher) ++ tasks
    ∧ length tasks = length (QMap_values (watched_dirs_ music_watcher))
    ∧ ∀ E' fuel', 0 ≤ now E' - now E < 86400 →
                  IncrementalScanCheck E' fuel' w' = Some w'.
Proof.
  intros E.
  apply (PerformScan_one_task_per_root E 2 false true music_watcher).
  apply music_heights.
Defined.

(** ** Queued rescans *)

Lemma QMap_keys_elem {A} (m : gmap Z A) k : k ∈ QMap_keys m ↔ is_Some (m !! k).
Proof.
  unfold QMap_keys. rewrite list_elem_of_fmap. split.
  - intros ([k' v] & -> & Hin). rewrite merge_sort_Permutation in Hin.
    apply elem_of_map_to_list in Hin. by exists v.
  - intros [v Hv]. exists (k, v). split; [done|].
    rewrite merge_sort_Permutation. by apply elem_of_map_to_list.
Qed.

Section QueuedRescans.

Context (E : Env).

(** A call that walks its directory files the record of the directory,
    with the root of the transaction and the mtime of the directory. *)
Lemma ScanSubdirectory_files_record fuel w path subdir files_count t force t' :
  stop_requested_ w = false →
  symlink_into_collection E w path = false →
  has_nomedia_marker E path = false →
  unchanged_since_last_time E path subdir (songs_missing_fingerprint E w path t).2
    force (songs_missing_fingerprint E w path t).1 = false →
  ScanSubdirectory E fuel w path subdir files_count t force = Some t' →
  Subdirectory.mk (dir_ t) path (current_mtime E path)
  ∈ (if Subdirectory.directory_id subdir =? -1
     then new_subdirs t' else touched_subdirs t').
Proof.
  intros Hstop Hsym Hmark Hwalk H. destruct fuel as [|fuel]; [discriminate|].
  destruct (ScanSubdirectory_walked E fuel w path subdir files_count t force t'
              Hstop Hsym Hmark Hwalk H)
    as (songs_in_db & files_on_disk & t6 & H06 & _ & _ & Htail).
  set (t7 := look_for_deleted songs_in_db files_on_disk t6) in *.
  assert (dir_ t7 = dir_ t) as Hdir.
  { subst t7.
    rewrite (ws_dir _ _ _ (look_for_deleted_step E songs_in_db files_on_disk _ _
                             (walk_step_refl E t6))).
    apply (ws_dir _ _ _ H06). }
  assert (Subdirectory.mk (dir_ t) path (current_mtime E path)
          ∈ (if Subdirectory.directory_id subdir =? -1
             then new_subdirs (add_subdir_record E path subdir t7)
             else touched_subdirs (add_subdir_record E path subdir t7))) as Hin.
  { unfold add_subdir_record, current_mtime. cbn zeta. rewrite Hdir.
    destruct (Subdirectory.directory_id subdir =? -1);
      destruct (Subdirectory.mtime _ =? 0); record_simpl;
      apply elem_of_app; right; apply list_elem_of_here. }
  destruct (Subdirectory.directory_id subdir =? -1).
  - by apply (ws_new_subdirs _ _ _ Htail).
  - by apply (ws_touched_subdirs _ _ _ Htail).
Qed.

Lemma not_incremental_walks w path subdir t force :
  incremental_ t = false →
  unchanged_since_last_time E path subdir (songs_missing_fingerprint E w path t).2
    force (songs_missing_fingerprint E w path t).1 = false.
Proof.
  intros Hinc. unfold unchanged_since_last_time.
  rewrite (ck_incremental _ _ (songs_missing_fingerprint_kept E w path t)), Hinc.
  by rewrite !andb_false_r.
Qed.

Lemma count_queued_returns fuel w paths : ∀ counts t,
  (∀ p, p ∈ paths → fs_height_le E fuel p) →
  ∃ counts' t', count_queued E fuel w paths counts t = Some (counts', t')
                ∧ quiet_step E t t'
                ∧ walk_step E t t'.
Proof.
  induction paths as [|path rest IH]; intros counts t Hheight; cbn [count_queued].
  { exists counts, t. split; [done|].
    split; [apply quiet_step_refl|apply walk_step_refl]. }
  destruct (FilesCountForPath_quiet E fuel w path t) as (n & t1 & H1 & Hq1);
    [apply Hheight, list_elem_of_here|].
  rewrite H1. apply FilesCountForPath_step in H1.
  destruct (IH (<[path := n]> counts) (AddToProgressMax n t1))
    as (counts' & t' & -> & Hq & Hs);
    [intros p Hp; by apply Hheight, list_elem_of_further|].
  exists counts', t'. split; [done|]. split.
  - eapply quiet_step_trans; [exact Hq1|].
    eapply quiet_step_trans; [apply AddToProgressMax_quiet|done].
  - eapply walk_step_trans; [exact H1|].
    eapply walk_step_trans; [apply AddToProgressMax_step|done].
Qed.

Lemma rescan_queued_records fuel w dir counts paths : ∀ t,
  incremental_ t = false →
  dir_ t = dir →
  (∀ p, p ∈ paths → walk_height_le E (subdirs_of E t) fuel p) →
  ∃ t', rescan_queued E fuel w dir counts paths t = Some t'
        ∧ config_kept t t'
        ∧ walk_step E t t'
        ∧ (stop_requested_ w = false →
           ∀ p, p ∈ paths →
                symlink_into_collection E w p = false →
                has_nomedia_marker E p = false →
                Subdirectory.mk dir p (current_mtime E p)
                ∈ new_subdirs t' ++ touched_subdirs t').
Proof.
  induction paths as [|path rest IH]; intros t Hinc Hdir Hheight;
    cbn [rescan_queued].
  { exists t. split; [done|]. split; [apply config_kept_refl|].
    split; [apply walk_step_refl|]. by intros _ p ?%elem_of_nil. }
  destruct (stop_requested_ w) eqn:Hstop.
  { exists t. split; [done|]. split; [apply config_kept_refl|].
    split; [apply walk_step_refl|]. done. }
  destruct (ScanSubdirectory_total E fuel w path (Subdirectory.mk dir path 0)
              (default 0 (counts !! path)) t false) as [t1 H1];
    [apply Hheight, list_elem_of_here|].
  rewrite H1.
  pose proof (ScanSubdirectory_step E _ _ _ _ _ _ _ _ H1) as Hstep.
  pose proof (ScanSubdirectory_kept E _ _ _ _ _ _ _ _ H1) as Hkept.
  destruct (IH t1) as (t' & -> & Hkept' & Hstep' & Hrecords).
  { by rewrite (ck_incremental _ _ Hkept). }
  { by rewrite (ck_dir _ _ Hkept). }
  { intros p Hp. rewrite (ws_subdirs _ _ _ Hstep).
    by apply Hheight, list_elem_of_further. }
  exists t'. split; [done|]. split; [by eapply config_kept_trans|].
  split; [by eapply walk_step_trans|].
  intros _ p [->|Hp]%elem_of_cons Hsym Hmark; [|by apply Hrecords].
  pose proof (ScanSubdirectory_files_record _ _ _ _ _ _ _ _ Hstop Hsym Hmark
                (not_incremental_walks w path _ t false Hinc) H1) as Hin.
  rewrite Hdir in Hin. cbn [Subdirectory.directory_id] in Hin.
  apply elem_of_app. destruct (dir =? -1).
  - left. by apply (ws_new_subdirs _ _ _ Hstep').
  - right. by apply (ws_touched_subdirs _ _ _ Hstep').
Qed.

Lemma symlink_into_collection_kept w w' path :
  watcher_kept w w' →
  symlink_into_collection E w' path = symlink_into_collection E w path.
Proof. intros Hk. unfold symlink_into_collection. by rewrite (wk_watched_dirs _ _ Hk). Qed.

(** One round of [RescanPathsNow]. *)
Lemma rescan_dir_round fuel w dir :
  (∀ paths p, rescan_queue_ w !! dir = Some paths → p ∈ paths →
              fs_height_le E fuel p
              ∧ walk_height_le E (SubdirsInDirectory (backend E) dir) fuel p) →
  ∃ w' records,
    rescan_dir E fuel w dir = Some w'
    ∧ watcher_kept w w'
    ∧ last_scan_time_ w' = last_scan_time_ w
    ∧ tasks_started (emitted w') = tasks_started (emitted w) ++ [next_task_ w]
    ∧ tasks_finished (emitted w') = tasks_finished (emitted w) ++ [next_task_ w]
    ∧ (stop_requested_ w = false →
       upserts_of (emitted w') = upserts_of (emitted w) ++ records
       ∧ ∀ paths p, rescan_queue_ w !! dir = Some paths → p ∈ paths →
                    symlink_into_collection E w p = false →
                    has_nomedia_marker E p = false →
                    Subdirectory.mk dir p (current_mtime E p) ∈ records).
Proof.
  intros Hheight. unfold rescan_dir.
  pose proof (ScanTransaction_new_round w dir false false
                (w_mark_songs_unavailable_ w)) as Hnew.
  cbn zeta in Hnew.
  destruct (ScanTransaction_new w _ _ _ _) as [w1 t0]. cbn [fst snd] in Hnew.
  destruct Hnew as (Hk1 & Htime1 & Hnext1 & _ & Hemit1 & Htask0 & Hdir0 & Hinc0 & _
                    & _ & _ & _ & Hdirty).
  cbn zeta. rewrite (wk_rescan_queue _ _ Hk1).
  set (paths := default [] (rescan_queue_ w !! dir)).
  assert (∀ p, p ∈ paths →
               fs_height_le E fuel p
               ∧ walk_height_le E (SubdirsInDirectory (backend E) dir) fuel p)
    as Hpaths.
  { subst paths. intros p Hp.
    destruct (rescan_queue_ w !! dir) as [l|] eqn:Hl; [by eapply Hheight|].
    by apply elem_of_nil in Hp. }
  assert (subdirs_of E t0 = SubdirsInDirectory (backend E) dir) as Hsubdirs.
  { unfold subdirs_of. by rewrite Hdirty, Hdir0. }
  destruct (count_queued_returns fuel w1 paths ∅ t0 (λ p Hp, proj1 (Hpaths p Hp)))
    as (counts & t1 & -> & Hq1 & Hs1).
  destruct (rescan_queued_records fuel w1 dir counts paths t1)
    as (t & -> & Hkept & Hstep & Hrecords).
  { by rewrite (qs_incremental _ _ _ Hq1). }
  { by rewrite (qs_dir _ _ _ Hq1). }
  { intros p Hp. rewrite (ws_subdirs _ _ _ Hs1), Hsubdirs. by apply Hpaths. }
  exists (ScanTransaction_destroy E w1 t), (new_subdirs t ++ touched_subdirs t).
  split; [done|].
  destruct (ScanTransaction_destroy_kept E w1 t) as (Hk2 & _ & ->).
  destruct (ScanTransaction_destroy_tasks E w1 t) as [-> ->].
  split; [by eapply watcher_kept_trans|]. split; [done|].
  rewrite Hemit1, tasks_started_app, tasks_finished_app.
  change (tasks_started [StartTask (next_task_ w); ScanStarted (next_task_ w)])
    with [next_task_ w].
  change (tasks_finished [StartTask (next_task_ w); ScanStarted (next_task_ w)])
    with (@nil Z).
  rewrite !app_nil_r. split; [done|]. split.
  { by rewrite (ck_task _ _ Hkept), (qs_task _ _ _ Hq1), Htask0. }
  intros Hstop.
  assert (stop_requested_ w1 = false) as Hstop1 by (by rewrite (wk_stop _ _ Hk1)).
  destruct (ScanTransaction_destroy_emitted E w1 t Hstop1) as (calls & Hcalls & ->).
  split.
  { rewrite !upserts_of_app, upserts_of_delta_signals,
      (upserts_of_watch_calls calls Hcalls), Hemit1, upserts_of_app.
    cbn. by rewrite !app_nil_r. }
  intros l p Hl Hp Hsym Hmark. apply (Hrecords Hstop1).
  - subst paths. by rewrite Hl.
  - by rewrite (symlink_into_collection_kept w w1).
  - done.
Qed.

Lemma rescan_dirs_rounds fuel dirs : ∀ w,
  NoDup dirs →
  (∀ dir paths p, rescan_queue_ w !! dir = Some paths → p ∈ paths →
                  fs_height_le E fuel p
                  ∧ walk_height_le E (SubdirsInDirectory (backend E) dir) fuel p) →
  ∃ w' tasks records,
    rescan_dirs E fuel dirs w = Some w'
    ∧ watcher_kept w w'
    ∧ last_scan_time_ w' = last_scan_time_ w
    ∧ tasks_started (emitted w') = tasks_started (emitted w) ++ tasks
    ∧ tasks_finished (emitted w') = tasks_finished (emitted w) ++ tasks
    ∧ (stop_requested_ w = true → w' = w)
    ∧ (stop_requested_ w = false →
       length tasks = length dirs
       ∧ upserts_of (emitted w') = upserts_of (emitted w) ++ records
       ∧ ∀ dir paths p, dir ∈ dirs → rescan_queue_ w !! dir = Some paths →
                        p ∈ paths →
                        symlink_into_collection E w p = false →
                        has_nomedia_marker E p = false →
                        Subdirectory.mk dir p (current_mtime E p) ∈ records).
Proof.
  induction dirs as [|dir rest IH]; intros w Hnodup Hheight; cbn [rescan_dirs].
  { exists w, [], []. rewrite !app_nil_r. split; [done|].
    split; [apply watcher_kept_refl|]. repeat (split; [done|]).
    intros d l p Hd. by apply elem_of_nil in Hd. }
  destruct (stop_requested_ w) eqn:Hstop.
  { exists w, [], []. rewrite !app_nil_r. split; [done|].
    split; [apply watcher_kept_refl|]. repeat (split; [done|]). done. }
  destruct (rescan_dir_round fuel w dir (Hheight dir))
    as (w1 & r1 & -> & Hk1 & Htime1 & Hs1 & Hf1 & Hrec1).
  destruct (Hrec1 Hstop) as [Hu1 Hin1].
  apply NoDup_cons in Hnodup as [Hfresh Hnodup].
  destruct (IH w1 Hnodup)
    as (w' & tasks & r2 & -> & Hk & Htime & Hs & Hf & _ & Hrec).
  { intros d l p. rewrite (wk_rescan_queue _ _ Hk1). apply Hheight. }
  destruct Hrec as (Hlen & Hu & Hin); [by rewrite (wk_stop _ _ Hk1)|].
  exists w', (next_task_ w :: tasks), (r1 ++ r2). split; [done|].
  split; [by eapply watcher_kept_trans|]. split; [congruence|].
  rewrite Hs, Hf, Hs1, Hf1, <- !app_assoc.
  split; [done|]. split; [done|]. split; [done|]. intros _.
  split; [cbn [length]; by rewrite Hlen|].
  split; [by rewrite Hu, Hu1, <- app_assoc|].
  intros d l p [->|Hd]%elem_of_cons Hl Hp Hsym Hmark; apply elem_of_app.
  - left. by eapply Hin1.
  - right. apply (Hin d l p Hd); [by rewrite (wk_rescan_queue _ _ Hk1)|done| |done].
    by rewrite (symlink_into_collection_kept w w1).
Qed.

(** The rounds of [RescanPathsNow]. *)
Lemma RescanPathsNow_rounds (fuel : nat) (w : CollectionWatcher) :
  (∀ dir paths p, rescan_queue_ w !! dir = Some paths → p ∈ paths →
                  fs_height_le E fuel p
                  ∧ walk_height_le E (SubdirsInDirectory (backend E) dir) fuel p) →
  ∃ w' tasks records,
    RescanPathsNow E fuel w = Some w'
    ∧ watcher_kept (set_rescan_queue_ ∅ w) w'
    ∧ last_scan_time_ w' = last_scan_time_ w
    ∧ last (emitted w') = Some CompilationsNeedUpdating
    ∧ tasks_started (emitted w') = tasks_started (emitted w) ++ tasks
    ∧ tasks_finished (emitted w') = tasks_finished (emitted w) ++ tasks
    ∧ (stop_requested_ w = true →
       w' = emit CompilationsNeedUpdating (set_rescan_queue_ ∅ w))
    ∧ (stop_requested_ w = false →
       length tasks = length (QMap_keys (rescan_queue_ w))
       ∧ upserts_of (emitted w') = upserts_of (emitted w) ++ records
       ∧ ∀ dir paths p, rescan_queue_ w !! dir = Some paths → p ∈ paths →
                        symlink_into_collection E w p = false →
                        has_nomedia_marker E p = false →
                        Subdirectory.mk dir p (current_mtime E p) ∈ records).
Proof.
  intros Hheight. unfold RescanPathsNow.
  destruct (rescan_dirs_rounds fuel (QMap_keys (rescan_queue_ w)) w)
    as (w1 & tasks & records & -> & Hk & Htime & Hs & Hf & Hstopped & Hran);
    [|done|].
  { unfold QMap_keys. rewrite merge_sort_Permutation. apply NoDup_fst_map_to_list. }
  exists (emit CompilationsNeedUpdating (set_rescan_queue_ ∅ w1)), tasks, records.
  split; [done|]. watcher_simpl.
  split; [by destruct Hk|]. split; [done|]. split; [apply last_snoc|].
  rewrite tasks_started_app, tasks_finished_app, Hs, Hf. cbn. rewrite !app_nil_r.
  split; [done|]. split; [done|]. split.
  - intros Hstop. by rewrite (Hstopped Hstop).
  - intros Hstop. destruct (Hran Hstop) as (Hlen & Hu & Hin).
    split; [done|]. split.
    + rewrite upserts_of_app, Hu. cbn. by rewrite app_nil_r.
    + intros dir paths p Hl. apply (Hin dir paths p); [|done].
      apply QMap_keys_elem. by eexists.
Qed.


(** [RescanPathsNow] over trees and ledgers no deeper than the fuel: it
    returns with the rescan queue empty and [CompilationsNeedUpdating]
    as its last signal; it keeps the settings, the watched roots and the
    time of the last scan; every task it starts it finishes.  Under a
    stop request it starts no task: the queued paths are dropped
    unscanned.  Otherwise it runs one transaction per queued root, and
    for every queued path that is not skipped outright it announces the
    record of the directory with the mtime the directory has now. *)
Theorem RescanPathsNow_drains_queue (fuel : nat) (w : CollectionWatcher) :
  (∀ dir paths p, rescan_queue_ w !! dir = Some paths → p ∈ paths →
                  fs_height_le E fuel p
                  ∧ walk_height_le E (SubdirsInDirectory (backend E) dir) fuel p) →
  ∃ w' tasks records,
    RescanPathsNow E fuel w = Some w'
    ∧ watcher_kept (set_rescan_queue_ ∅ w) w'
    ∧ last_scan_time_ w' = last_scan_time_ w
    ∧ last (emitted w') = Some CompilationsNeedUpdating
    ∧ tasks_started (emitted w') = tasks_started (emitted w) ++ tasks
    ∧ tasks_finished (emitted w') = tasks_finished (emitted w) ++ tasks
    ∧ (stop_requested_ w = true →
       w' = emit CompilationsNeedUpdating (set_rescan_queue_ ∅ w))
    ∧ (stop_requested_ w = false →
       length tasks = length (QMap_keys (rescan_queue_ w))
       ∧ upserts_of (emitted w') = upserts_of (emitted w) ++ records
       ∧ ∀ dir paths p, rescan_queue_ w !! dir = Some paths → p ∈ paths →
                        symlink_into_collection E w p = false →
                        has_nomedia_marker E p = false →
                        Subdirectory.mk dir p (current_mtime E p) ∈ records).
Proof. apply RescanPathsNow_rounds. Qed.

End QueuedRescans.

Lemma queued_heights :
  let E := disk_env one_track_disk one_track_db in
  ∀ dir paths p, rescan_queue_ queued_watcher !! dir = Some paths → p ∈ paths →
                 fs_height_le E 2 p
                 ∧ walk_height_le E (SubdirsInDirectory (backend E) dir) 2 p.
Proof.
  intros E dir paths p Hq Hp.
  change (rescan_queue_ queued_watcher) with ({[ 1 := ["/music"] ]} : gmap Z (list string))
    in Hq.
  apply lookup_singleton_Some in Hq as [<- <-].
  apply list_elem_of_singleton in Hp as ->.
  apply (music_heights music_root (Subdirectory.mk 1 "/music" 100)).
  - apply list_elem_of_In. vm_compute. by left.
  - apply list_elem_of_In. vm_compute. by left.
Defined.

Lemma RescanPathsNow_drains_queue_witness :
  let E := disk_env one_track_disk one_track_db in
  let w := queued_watcher in
  ∃ w' tasks records,
    RescanPathsNow E 2 w = Some w'
    ∧ watcher_kept (set_rescan_queue_ ∅ w) w'
    ∧ last_scan_time_ w' = last_scan_time_ w
    ∧ last (emitted w') = Some CompilationsNeedUpdating
    ∧ tasks_started (emitted w') = tasks_started (emitted w) ++ tasks
    ∧ tasks_finished (emitted w') = tasks_finished (emitted w) ++ tasks
    ∧ (stop_requested_ w = true →
       w' = emit CompilationsNeedUpdating (set_rescan_queue_ ∅ w))
    ∧ (stop_requested_ w = false →
       length tasks = length (QMap_keys (rescan_queue_ w))
       ∧ upserts_of (emitted w') = upserts_of (emitted w) ++ records
       ∧ ∀ dir paths p, rescan_queue_ w !! dir = Some paths → p ∈ paths →
                        symlink_into_collection E w p = false →
                        has_nomedia_marker E p = false →
                        Subdirectory.mk dir p (current_mtime E p) ∈ records).
Proof.
  intros E w.
  apply (RescanPathsNow_drains_queue E 2 w).
  apply queued_heights.
Defined.

(** ** Pausing the rescans *)

Lemma DirectoryChanged_while_paused subdir w :
  rescan_paused_ w = true →
  rescan_paused_ (DirectoryChanged subdir w) = true
  ∧ emitted (DirectoryChanged subdir w) = emitted w
  ∧ watched_dirs_ (DirectoryChanged subdir w) = watched_dirs_ w
  ∧ stop_requested_ (DirectoryChanged subdir w) = stop_requested_ w.
Proof.
  intros Hpaused. unfold DirectoryChanged.
  destruct (subdir_mapping_ w !! subdir); [|done].
  cbn zeta. watcher_simpl. by rewrite Hpaused.
Qed.

Lemma notifications_while_paused notifications : ∀ w,
  rescan_paused_ w = true →
  let w' := fold_left (λ w subdir, DirectoryChanged subdir w) notifications w in
  rescan_paused_ w' = true
  ∧ emitted w' = emitted w
  ∧ watched_dirs_ w' = watched_dirs_ w
  ∧ stop_requested_ w' = stop_requested_ w.
Proof.
  induction notifications as [|p ps IH]; intros w Hpaused; cbn zeta; [done|].
  cbn [fold_left].
  destruct (DirectoryChanged_while_paused p w Hpaused) as (Hp & He & Hd & Hs).
  destruct (IH _ Hp) as (? & ? & ? & ?). cbn zeta in *. split; [done|].
  split; [congruence|]. split; congruence.
Qed.

(** Pausing defers the rescans.  [SetRescanPaused(true)] only sets the
    flag.  While the flag is set, change notifications are queued without
    starting the rescan timer and without any signal.  [SetRescanPaused
    (false)] then rescans what is queued at once: it returns with the
    flag cleared and the queue empty, having finished every task it
    started. *)
Theorem SetRescanPaused_defers_rescans (E : Env) (fuel : nat)
    (w : CollectionWatcher) (notifications : list string) :
  let paused := set_rescan_paused_ true w in
  let queued := fold_left (λ w subdir, DirectoryChanged subdir w) notifications paused in
  (∀ dir paths p, rescan_queue_ queued !! dir = Some paths → p ∈ paths →
                  fs_height_le E fuel p
                  ∧ walk_height_le E (SubdirsInDirectory (backend E) dir) fuel p) →
  SetRescanPaused E fuel true w = Some paused
  ∧ emitted queued = emitted w
  ∧ rescan_paused_ queued = true
  ∧ ∃ w' tasks,
      SetRescanPaused E fuel false queued = Some w'
      ∧ rescan_paused_ w' = false
      ∧ rescan_queue_ w' = ∅
      ∧ watched_dirs_ w' = watched_dirs_ w
      ∧ tasks_started (emitted w') = tasks_started (emitted w) ++ tasks
      ∧ tasks_finished (emitted w') = tasks_finished (emitted w) ++ tasks
      ∧ (stop_requested_ w = false →
         length tasks = length (QMap_keys (rescan_queue_ queued))).
Proof.
  intros paused queued Hheight.
  destruct (notifications_while_paused notifications paused eq_refl)
    as (Hpaused & Hemitted & Hdirs & Hstop).
  cbn zeta in *. fold queued in Hpaused, Hemitted, Hdirs, Hstop.
  split; [done|]. split; [done|]. split; [done|].
  unfold SetRescanPaused. cbn zeta.
  change (rescan_paused_ (set_rescan_paused_ false queued)) with false.
  change (rescan_queue_ (set_rescan_paused_ false queued)) with (rescan_queue_ queued).
  cbn [negb andb].
  destruct (map_to_list (rescan_queue_ queued)) as [|kv l] eqn:Hlist; cbn [nonempty].
  - apply map_to_list_empty_iff in Hlist.
    exists (set_rescan_paused_ false queued), []. rewrite !app_nil_r.
    watcher_simpl. rewrite Hemitted, Hdirs. repeat (split; [done|]).
    intros _. unfold QMap_keys. by rewrite Hlist, map_to_list_empty.
  - destruct (RescanPathsNow_rounds E fuel (set_rescan_paused_ false queued) Hheight)
      as (w' & tasks & records & -> & Hk & _ & _ & Hs & Hf & _ & Hran).
    exists w', tasks. split; [done|].
    rewrite (wk_paused _ _ Hk), (wk_rescan_queue _ _ Hk), (wk_watched_dirs _ _ Hk).
    watcher_simpl. rewrite Hs, Hf, Hemitted, Hdirs. repeat (split; [done|]).
    intros Hw.
    assert (stop_requested_ (set_rescan_paused_ false queued) = false) as Hq.
    { change (stop_requested_ queued = false). rewrite Hstop. exact Hw. }
    by destruct (Hran Hq).
Qed.

Lemma SetRescanPaused_defers_rescans_witness :
  let E := disk_env one_track_disk one_track_db in
  let w := set_subdir_mapping_ {[ "/music" := music_root ]} music_watcher in
  let paused := set_rescan_paused_ true w in
  let queued := fold_left (λ w subdir, DirectoryChanged subdir w)
                  ["/music"; "/music"] paused in
  SetRescanPaused E 2 true w = Some paused
  ∧ emitted queued = emitted w
  ∧ rescan_paused_ queued = true
  ∧ ∃ w' tasks,
      SetRescanPaused E 2 false queued = Some w'
      ∧ rescan_paused_ w' = false
      ∧ rescan_queue_ w' = ∅
      ∧ watched_dirs_ w' = watched_dirs_ w
      ∧ tasks_started (emitted w') = tasks_started (emitted w) ++ tasks
      ∧ tasks_finished (emitted w') = tasks_finished (emitted w) ++ tasks
      ∧ (stop_requested_ w = false →
         length tasks = length (QMap_keys (rescan_queue_ queued))).
Proof.
  intros E w paused queued.
  apply (SetRescanPaused_defers_rescans E 2 w ["/music"; "/music"]).
  intros dir paths p Hq Hp.
  apply (queued_heights dir paths p); [|done].
  exact Hq.
Defined.

(** ** Adding a root *)

Section AddingARoot.

Context (E : Env).

Lemma is_delta_app l1 l2 :
  List.filter is_delta (l1 ++ l2) = List.filter is_delta l1 ++ List.filter is_delta l2.
Proof. apply List.filter_app. Qed.

(** The loop of [AddDirectory] when the startup scan is off: the
    transaction is left alone and the subdirectories that exist are
    watched, if monitoring is on. *)
Lemma add_directory_subdirs_watch fuel dir counts subdirs : ∀ w t,
  scan_on_startup_ w = false →
  stop_requested_ w = false →
  ∃ w', add_directory_subdirs E fuel dir counts subdirs (w, t) = Some (w', t)
        ∧ watcher_kept w w'
        ∧ next_task_ w' = next_task_ w
        ∧ last_scan_time_ w' = last_scan_time_ w
        ∧ List.filter is_delta (emitted w') = List.filter is_delta (emitted w)
        ∧ tasks_started (emitted w') = tasks_started (emitted w)
        ∧ tasks_finished (emitted w') = tasks_finished (emitted w)
        ∧ ∀ p, subdir_mapping_ w' !! p
               = if monitor_ w && bool_decide (p ∈ Subdirectory.path <$> subdirs)
                    && fs_exists E p
                 then Some dir else subdir_mapping_ w !! p.
Proof.
  induction subdirs as [|sd rest IH]; intros w t Hscan Hstop;
    cbn [add_directory_subdirs].
  { exists w. split; [done|]. split; [apply watcher_kept_refl|].
    repeat (split; [done|]). intros p. cbn [fmap list_fmap].
    rewrite bool_decide_eq_false_2 by apply not_elem_of_nil.
    by rewrite andb_false_r. }
  rewrite Hstop, Hscan.
  set (w1 := if monitor_ w then AddWatch E dir (Subdirectory.path sd) w else w).
  assert (watcher_kept w w1) as Hk1.
  { subst w1. destruct (monitor_ w); [apply AddWatch_kept|apply watcher_kept_refl]. }
  assert (next_task_ w1 = next_task_ w ∧ last_scan_time_ w1 = last_scan_time_ w)
    as [Hn1 Ht1].
  { subst w1. destruct (monitor_ w); [apply AddWatch_times|done]. }
  assert (∃ calls, emitted w1 = emitted w ++ calls
                   ∧ forallb is_watch_call calls = true) as (calls & He1 & Hcalls).
  { subst w1. destruct (monitor_ w); [apply AddWatch_emitted|].
    exists []. by rewrite app_nil_r. }
  assert (∀ p, subdir_mapping_ w1 !! p
               = if monitor_ w && bool_decide (p = Subdirectory.path sd)
                    && fs_exists E p
                 then Some dir else subdir_mapping_ w !! p) as Hm1.
  { intros p. subst w1. destruct (monitor_ w); [|done]. cbn [andb].
    unfold AddWatch.
    destruct (decide (p = Subdirectory.path sd)) as [->|Hne].
    - rewrite bool_decide_eq_true_2 by done. cbn [andb].
      destruct (fs_exists E (Subdirectory.path sd)); cbn [negb]; [|done].
      watcher_simpl. apply lookup_insert_eq.
    - rewrite bool_decide_eq_false_2 by done. cbn [andb].
      destruct (fs_exists E (Subdirectory.path sd)); cbn [negb]; [|done].
      watcher_simpl. by rewrite lookup_insert_ne. }
  destruct (IH w1 t) as (w' & -> & Hk & Hn & Ht & Hd & Hs & Hf & Hm).
  { by rewrite (wk_scan_on_startup _ _ Hk1). }
  { by rewrite (wk_stop _ _ Hk1). }
  exists w'. split; [done|]. split; [by eapply watcher_kept_trans|].
  split; [congruence|]. split; [congruence|].
  destruct (tasks_of_watch_calls calls Hcalls) as [Hsc Hfc].
  split.
  { rewrite Hd, He1, is_delta_app.
    assert (List.filter is_delta calls = []) as ->; [|by rewrite app_nil_r].
    clear -Hcalls. induction calls as [|c calls IH]; [done|].
    cbn [forallb] in Hcalls. apply andb_prop in Hcalls as [Hc Hcalls].
    cbn [List.filter]. rewrite (IH Hcalls). by destruct c. }
  split; [by rewrite Hs, He1, tasks_started_app, Hsc, app_nil_r|].
  split; [by rewrite Hf, He1, tasks_finished_app, Hfc, app_nil_r|].
  intros p. rewrite Hm, Hm1, (wk_monitor _ _ Hk1). cbn [fmap list_fmap].
  destruct (monitor_ w); [|done]. cbn [andb].
  destruct (decide (p = Subdirectory.path sd)) as [->|Hne].
  - rewrite (bool_decide_eq_true_2 (_ = _)) by done.
    rewrite (bool_decide_eq_true_2 (_ ∈ _ :: _)) by apply list_elem_of_here.
    cbn [andb]. destruct (bool_decide _); cbn [andb]; [|done].
    by destruct (fs_exists E _).
  - rewrite (bool_decide_eq_false_2 (_ = _)) by done. cbn [andb].
    destruct (bool_decide (p ∈ Subdirectory.path <$> rest)) eqn:Hin.
    + apply bool_decide_eq_true in Hin.
      by rewrite bool_decide_eq_true_2 by by apply list_elem_of_further.
    + apply bool_decide_eq_false in Hin.
      rewrite bool_decide_eq_false_2; [done|].
      by intros [?|?]%elem_of_cons.
Qed.

(** A root that is added with its known subdirectories while the
    startup scan is off: [AddDirectory] returns, registers the root and
    sets the time of the last scan; it announces no delta; and with
    monitoring on it watches exactly the known subdirectories that exist
    on disk, besides what was watched before. *)
Theorem AddDirectory_without_startup_scan (fuel : nat) (dir : Directory.t)
    (subdirs : list Subdirectory.t) (w : CollectionWatcher) :
  subdirs ≠ [] →
  scan_on_startup_ w = false →
  stop_requested_ w = false →
  (∀ sd, sd ∈ subdirs → fs_height_le E fuel (Subdirectory.path sd)) →
  ∃ w',
    AddDirectory E fuel dir subdirs w = Some w'
    ∧ watched_dirs_ w' = <[Directory.id dir := dir]> (watched_dirs_ w)
    ∧ last_scan_time_ w' = now E
    ∧ List.filter is_delta (emitted w') = List.filter is_delta (emitted w)
    ∧ last (emitted w') = Some CompilationsNeedUpdating
    ∧ tasks_started (emitted w') = tasks_started (emitted w) ++ [next_task_ w]
    ∧ tasks_finished (emitted w') = tasks_finished (emitted w) ++ [next_task_ w]
    ∧ ∀ p, subdir_mapping_ w' !! p
           = if monitor_ w && bool_decide (p ∈ Subdirectory.path <$> subdirs)
                && fs_exists E p
             then Some dir else subdir_mapping_ w !! p.
Proof.
  intros Hsubdirs Hscan Hstop Hheight. unfold AddDirectory. cbn zeta.
  destruct subdirs as [|sd0 rest0] eqn:Heq; [done|]. cbn [nonempty negb].
  rewrite <- Heq in *. clear Heq Hsubdirs.
  set (w0 := set_watched_dirs_ _ w).
  pose proof (ScanTransaction_new_round w0 (Directory.id dir) true false
                (w_mark_songs_unavailable_ w0)) as Hnew.
  cbn zeta in Hnew.
  destruct (ScanTransaction_new w0 _ _ _ _) as [w1 t0]. cbn [fst snd] in Hnew.
  destruct Hnew as (Hk1 & Htime1 & Hnext1 & Hmap1 & Hemit1 & Htask0 & Hdir0 & _ & _
                    & Hdeltas0 & _ & _ & _).
  destruct (FilesCountForSubdirs_quiet E fuel w1 subdirs Hheight 0 ∅ t0)
    as (n & counts & t1 & Hcount & Hq1).
  unfold FilesCountForSubdirs. rewrite Hcount.
  set (t2 := AddToProgressMax n (SetKnownSubdirs subdirs t1)).
  assert (quiet_step E t0 t2) as Hq2.
  { eapply quiet_step_trans; [exact Hq1|].
    subst t2. unfold AddToProgressMax, SetKnownSubdirs. constructor; reflexivity. }
  destruct (add_directory_subdirs_watch fuel dir counts subdirs w1 t2)
    as (w2 & -> & Hk2 & Hnext2 & Htime2 & Hd2 & Hs2 & Hf2 & Hm2).
  { by rewrite (wk_scan_on_startup _ _ Hk1). }
  { by rewrite (wk_stop _ _ Hk1). }
  rewrite ScanTransaction_destroy_nothing.
  2: { watcher_simpl. by rewrite (wk_stop _ _ Hk2), (wk_stop _ _ Hk1). }
  2: { by rewrite (qs_deltas _ _ _ Hq2). }
  eexists. split; [done|]. watcher_simpl.
  rewrite (wk_watched_dirs _ _ Hk2), (wk_watched_dirs _ _ Hk1).
  split; [done|]. split; [done|].
  rewrite !is_delta_app, !tasks_started_app, !tasks_finished_app, Hd2, Hs2, Hf2,
    Hemit1, is_delta_app, tasks_started_app, tasks_finished_app.
  cbn [List.filter is_delta tasks_started tasks_finished flat_map app].
  rewrite !app_nil_r.
  split; [done|]. split; [apply last_snoc|].
  rewrite (qs_task _ _ _ Hq2), Htask0.
  split; [done|]. split; [done|].
  intros p. rewrite Hm2, (wk_monitor _ _ Hk1), Hmap1. done.
Qed.

End AddingARoot.

Lemma AddDirectory_without_startup_scan_witness :
  let E := disk_env one_track_disk one_track_db in
  let subdirs := [Subdirectory.mk 1 "/music" 100; Subdirectory.mk 1 "/music/gone" 90] in
  let w := no_startup_scan_watcher in
  ∃ w',
    AddDirectory E 2 music_root subdirs w = Some w'
    ∧ watched_dirs_ w' = <[Directory.id music_root := music_root]> (watched_dirs_ w)
    ∧ last_scan_time_ w' = now E
    ∧ List.filter is_delta (emitted w') = List.filter is_delta (emitted w)
    ∧ last (emitted w') = Some CompilationsNeedUpdating
    ∧ tasks_started (emitted w') = tasks_started (emitted w) ++ [next_task_ w]
    ∧ tasks_finished (emitted w') = tasks_finished (emitted w) ++ [next_task_ w]
    ∧ ∀ p, subdir_mapping_ w' !! p
           = if monitor_ w && bool_decide (p ∈ Subdirectory.path <$> subdirs)
                && fs_exists E p
             then Some music_root else subdir_mapping_ w !! p.
Proof.
  intros E subdirs w.
  apply (AddDirectory_without_startup_scan E 2 music_root subdirs w).
  - discriminate.
  - reflexivity.
  - reflexivity.
  - intros sd Hsd child Hchild.
    apply list_elem_of_In in Hsd. destruct Hsd as [<-|[<-|[]]].
    + apply list_elem_of_In in Hchild. destruct Hchild as [<-|[]].
      intros c Hc. by apply elem_of_nil in Hc.
    + by apply elem_of_nil in Hchild.
Defined.

Section AddingANewRoot.

Context (E : Env).

Lemma subdirs_discovered_app l1 l2 :
  subdirs_discovered (l1 ++ l2) = subdirs_discovered l1 ++ subdirs_discovered l2.
Proof. apply flat_map_app. Qed.

Lemma subdirs_discovered_delta_signals t u :
  u ∈ new_subdirs t → u ∈ subdirs_discovered (delta_signals t).
Proof.
  intros Hu. unfold delta_signals. rewrite !subdirs_discovered_app, !elem_of_app.
  do 4 right. left. unfold batch.
  destruct (new_subdirs t) as [|u0 l]; [by apply elem_of_nil in Hu|].
  cbn. by rewrite app_nil_r.
Qed.

(** The loop of the commit that watches the new subdirectories. *)
Lemma watch_new_subdirs_fold root dir (l : list Subdirectory.t) u : ∀ w,
  watched_dirs_ w !! root = Some dir →
  fs_exists E (Subdirectory.path u) = true →
  u ∈ l ∨ subdir_mapping_ w !! Subdirectory.path u = Some dir →
  subdir_mapping_
    (fold_left (λ w subdir,
         match watched_dirs_ w !! root with
         | Some dir => AddWatch E dir (Subdirectory.path subdir) w
         | None => w
         end) l w) !! Subdirectory.path u = Some dir.
Proof.
  intros w Hroot Hexists. revert w Hroot.
  induction l as [|a l IH]; intros w Hroot Hu; cbn [fold_left].
  { destruct Hu as [Hu|Hu]; [by apply elem_of_nil in Hu|done]. }
  rewrite Hroot. apply IH.
  { by rewrite (wk_watched_dirs _ _ (AddWatch_kept E dir (Subdirectory.path a) w)). }
  assert (u = a ∨ u ∈ l ∨ subdir_mapping_ w !! Subdirectory.path u = Some dir)
    as [->|[Hin|Hm]].
  { destruct Hu as [[->|Hu]%elem_of_cons|Hu]; auto. }
  - right. unfold AddWatch. rewrite Hexists. cbn [negb]. watcher_simpl.
    apply lookup_insert_eq.
  - by left.
  - right. unfold AddWatch.
    destruct (fs_exists E (Subdirectory.path a)); cbn [negb]; [|done].
    watcher_simpl.
    destruct (decide (Subdirectory.path a = Subdirectory.path u)) as [->|Hne].
    + apply lookup_insert_eq.
    + by rewrite lookup_insert_ne.
Qed.

(** With monitoring on, the destructor leaves every new subdirectory
    that exists on disk watched for the root of the transaction. *)
Lemma ScanTransaction_destroy_watches w t dir u :
  stop_requested_ w = false →
  monitor_ w = true →
  watched_dirs_ w !! dir_ t = Some dir →
  u ∈ new_subdirs t →
  fs_exists E (Subdirectory.path u) = true →
  subdir_mapping_ (ScanTransaction_destroy E w t) !! Subdirectory.path u = Some dir.
Proof.
  intros Hstop Hmonitor Hroot Hu Hexists.
  unfold ScanTransaction_destroy. rewrite Hstop. cbn [negb].
  unfold CommitNewOrUpdatedSongs. cbn zeta. cbn [fst]. watcher_simpl.
  set (w6 := emit_unless_empty SubdirsMTimeUpdated _ _).
  assert (watcher_kept w w6) as H6.
  { subst w6. unfold emit_unless_empty.
    repeat match goal with
           | |- context [if ?b then _ else _] => destruct b
           end; by constructor. }
  set (w7 := fold_left _ (deleted_subdirs t) w6).
  assert (watcher_kept w6 w7) as H7.
  { apply (watch_fold_kept
             (λ w0 subdir, match watched_dirs_ w0 !! dir_ t with
                           | Some dir0 => RemoveWatch dir0 subdir w0
                           | None => w0
                           end)).
    intros w0 a.
    destruct (watched_dirs_ w0 !! dir_ t);
      [|split; [apply watcher_kept_refl|done]].
    split; [apply RemoveWatch_kept|apply RemoveWatch_times]. }
  rewrite (wk_monitor _ _ H7), (wk_monitor _ _ H6), Hmonitor.
  apply watch_new_subdirs_fold; [|done|by left].
  by rewrite (wk_watched_dirs _ _ H7), (wk_watched_dirs _ _ H6).
Qed.

(** A root added without known subdirectories is scanned in full:
    [AddDirectory] returns, registers the root, sets the time of the last
    scan and starts and finishes one task.  Unless a stop is requested or
    the root directory is skipped outright, the root directory is walked
    and announced as a discovered subdirectory, with the id of the root
    and the mtime it has now; and with monitoring on it is watched from
    then on, if it exists. *)
Theorem AddDirectory_new_root_scanned_in_full (fuel : nat) (dir : Directory.t)
    (w : CollectionWatcher) :
  let registered :=
    set_watched_dirs_ (<[Directory.id dir := dir]> (watched_dirs_ w)) w in
  fs_height_le E fuel (Directory.path dir) →
  walk_height_le E [] fuel (Directory.path dir) →
  ∃ w',
    AddDirectory E fuel dir [] w = Some w'
    ∧ watched_dirs_ w' = <[Directory.id dir := dir]> (watched_dirs_ w)
    ∧ last_scan_time_ w' = now E
    ∧ last (emitted w') = Some CompilationsNeedUpdating
    ∧ tasks_started (emitted w') = tasks_started (emitted w) ++ [next_task_ w]
    ∧ tasks_finished (emitted w') = tasks_finished (emitted w) ++ [next_task_ w]
    ∧ (stop_requested_ w = false →
       symlink_into_collection E registered (Directory.path dir) = false →
       has_nomedia_marker E (Directory.path dir) = false →
       Subdirectory.mk (Directory.id dir) (Directory.path dir)
         (current_mtime E (Directory.path dir))
       ∈ subdirs_discovered (emitted w')
       ∧ (monitor_ w = true → fs_exists E (Directory.path dir) = true →
          subdir_mapping_ w' !! Directory.path dir = Some dir)).
Proof.
  intros w0 Hfs Hwalk. unfold AddDirectory. cbn zeta. cbn [nonempty negb].
  fold w0.
  pose proof (ScanTransaction_new_round w0 (Directory.id dir) false false
                (w_mark_songs_unavailable_ w0)) as Hnew.
  cbn zeta in Hnew.
  destruct (ScanTransaction_new w0 _ _ _ _) as [w1 t0]. cbn [fst snd] in Hnew.
  destruct Hnew as (Hk1 & Htime1 & Hnext1 & Hmap1 & Hemit1 & Htask0 & Hdir0 & Hinc0
                    & _ & _ & _ & _ & _).
  destruct (FilesCountForPath_quiet E fuel w1 (Directory.path dir) t0 Hfs)
    as (n & t1 & -> & Hq1).
  set (t2 := AddToProgressMax n (SetKnownSubdirs [] t1)).
  assert (quiet_step E t0 t2) as Hq2.
  { eapply quiet_step_trans; [exact Hq1|].
    subst t2. unfold AddToProgressMax, SetKnownSubdirs. constructor; reflexivity. }
  destruct (ScanSubdirectory_total E fuel w1 (Directory.path dir) Subdirectory.init
              n t2 false Hwalk) as [t3 Hscan].
  rewrite Hscan.
  pose proof (ScanSubdirectory_kept E _ _ _ _ _ _ _ _ Hscan) as Hk3.
  set (w2 := set_last_scan_time_ (now E) w1).
  assert (watcher_kept w0 w2) as Hk2 by (by destruct Hk1).
  destruct (ScanTransaction_destroy_kept E w2 t3) as (Hk4 & _ & Htime4).
  destruct (ScanTransaction_destroy_tasks E w2 t3) as [Hs4 Hf4].
  eexists. split; [done|]. watcher_simpl.
  rewrite (wk_watched_dirs _ _ Hk4), (wk_watched_dirs _ _ Hk2), Htime4.
  split; [done|]. split; [done|]. split; [apply last_snoc|].
  rewrite tasks_started_app, tasks_finished_app, Hs4, Hf4.
  change (emitted w2) with (emitted w1).
  rewrite Hemit1, tasks_started_app, tasks_finished_app.
  change (tasks_started [StartTask (next_task_ w0); ScanStarted (next_task_ w0)])
    with [next_task_ w].
  change (tasks_finished [StartTask (next_task_ w0); ScanStarted (next_task_ w0)])
    with (@nil Z).
  change (tasks_started [CompilationsNeedUpdating]) with (@nil Z).
  change (tasks_finished [CompilationsNeedUpdating]) with (@nil Z).
  change (emitted w0) with (emitted w). rewrite !app_nil_r.
  split; [done|]. split.
  { rewrite (ck_task _ _ Hk3), (qs_task _ _ _ Hq2), Htask0. done. }
  intros Hstop Hsym Hmark.
  assert (stop_requested_ w1 = false) as Hstop1 by (by rewrite (wk_stop _ _ Hk1)).
  assert (Subdirectory.mk (Directory.id dir) (Directory.path dir)
            (current_mtime E (Directory.path dir)) ∈ new_subdirs t3) as Hrecord.
  { pose proof (ScanSubdirectory_files_record E fuel w1 (Directory.path dir)
                  Subdirectory.init n t2 false t3 Hstop1) as Hin.
    rewrite (qs_dir _ _ _ Hq2), Hdir0 in Hin. apply Hin; [|done| |done].
    - by rewrite (symlink_into_collection_kept E w0 w1).
    - apply not_incremental_walks. by rewrite (qs_incremental _ _ _ Hq2). }
  split.
  - destruct (ScanTransaction_destroy_emitted E w2 t3 Hstop1)
      as (calls & Hcalls & ->).
    rewrite !subdirs_discovered_app, !elem_of_app. left. right. left.
    by apply subdirs_discovered_delta_signals.
  - intros Hmonitor Hexists.
    apply (ScanTransaction_destroy_watches w2 t3 dir
             (Subdirectory.mk (Directory.id dir) (Directory.path dir)
                (current_mtime E (Directory.path dir)))); try done.
    + by rewrite (wk_monitor _ _ Hk2).
    + rewrite (wk_watched_dirs _ _ Hk2), (ck_dir _ _ Hk3), (qs_dir _ _ _ Hq2), Hdir0.
      apply lookup_insert_eq.
Qed.

End AddingANewRoot.

Lemma AddDirectory_new_root_scanned_in_full_witness :
  let E := disk_env one_track_disk fresh_db in
  let w := new_watcher in
  let registered :=
    set_watched_dirs_ (<[Directory.id music_root := music_root]> (watched_dirs_ w)) w in
  ∃ w',
    AddDirectory E 2 music_root [] w = Some w'
    ∧ watched_dirs_ w' = <[Directory.id music_root := music_root]> (watched_dirs_ w)
    ∧ last_scan_time_ w' = now E
    ∧ last (emitted w') = Some CompilationsNeedUpdating
    ∧ tasks_started (emitted w') = tasks_started (emitted w) ++ [next_task_ w]
    ∧ tasks_finished (emitted w') = tasks_finished (emitted w) ++ [next_task_ w]
    ∧ (stop_requested_ w = false →
       symlink_into_collection E registered (Directory.path music_root) = false →
       has_nomedia_marker E (Directory.path music_root) = false →
       Subdirectory.mk (Directory.id music_root) (Directory.path music_root)
         (current_mtime E (Directory.path music_root))
       ∈ subdirs_discovered (emitted w')
       ∧ (monitor_ w = true → fs_exists E (Directory.path music_root) = true →
          subdir_mapping_ w' !! Directory.path music_root = Some music_root)).
Proof.
  intros E w registered.
  apply (AddDirectory_new_root_scanned_in_full E 2 music_root w).
  - intros child Hchild. apply list_elem_of_In in Hchild.
    destruct Hchild as [<-|[]]. intros c Hc. by apply elem_of_nil in Hc.
  - split.
    + intros child Hchild. apply list_elem_of_In in Hchild.
      destruct Hchild as [<-|[]]. split.
      * intros c Hc. by apply elem_of_nil in Hc.
      * intros sd Hsd. by apply elem_of_nil in Hsd.
    + intros sd Hsd. by apply elem_of_nil in Hsd.
Defined.

(** ** Rescanning tracks *)

Section TrackRescans.

Context (E : Env).

(** One round of [RescanTracksNow]: the directory of the track is
    scanned in a transaction of its own. *)
Lemma rescan_track_round fuel w song :
  stop_requested_ w = false →
  fs_height_le E fuel (track_directory song) →
  walk_height_le E (SubdirsInDirectory (backend E) (Song.directory_id song)) fuel
    (track_directory song) →
  ∃ n t1 t,
    FilesCountForPath E fuel
      (ScanTransaction_new w (Song.directory_id song) false false
         (w_mark_songs_unavailable_ w)).1
      (track_directory song)
      (ScanTransaction_new w (Song.directory_id song) false false
         (w_mark_songs_unavailable_ w)).2 = Some (n, t1)
    ∧ ScanSubdirectory E fuel
        (ScanTransaction_new w (Song.directory_id song) false false
           (w_mark_songs_unavailable_ w)).1
        (track_directory song) Subdirectory.init n t1 false = Some t
    ∧ ∃ w' more,
        w' = ScanTransaction_destroy E
               (emit CompilationsNeedUpdating
                  (ScanTransaction_new w (Song.directory_id song) false false
                     (w_mark_songs_unavailable_ w)).1) t
        ∧ watcher_kept w w'
        ∧ tasks_started (emitted w') = tasks_started (emitted w) ++ [next_task_ w]
        ∧ tasks_finished (emitted w') = tasks_finished (emitted w) ++ [next_task_ w]
        ∧ subdirs_discovered (emitted w') = subdirs_discovered (emitted w) ++ more
        ∧ (symlink_into_collection E w (track_directory song) = false →
           has_nomedia_marker E (track_directory song) = false →
           Subdirectory.mk (Song.directory_id song) (track_directory song)
             (current_mtime E (track_directory song)) ∈ more).
Proof.
  intros Hstop Hfs Hwalk.
  pose proof (ScanTransaction_new_round w (Song.directory_id song) false false
                (w_mark_songs_unavailable_ w)) as Hnew.
  cbn zeta in Hnew.
  destruct (ScanTransaction_new w _ _ _ _) as [w1 t0]. cbn [fst snd] in *.
  destruct Hnew as (Hk1 & _ & _ & _ & Hemit1 & Htask0 & Hdir0 & Hinc0
                    & _ & _ & _ & _ & Hdirty).
  destruct (FilesCountForPath_quiet E fuel w1 (track_directory song) t0 Hfs)
    as (n & t1 & Hcount & Hq1).
  pose proof (FilesCountForPath_step E _ _ _ _ _ _ Hcount) as Hs1.
  destruct (ScanSubdirectory_total E fuel w1 (track_directory song)
              Subdirectory.init n t1 false) as [t Hscan].
  { rewrite (ws_subdirs _ _ _ Hs1). unfold subdirs_of. by rewrite Hdirty, Hdir0. }
  exists n, t1, t. split; [done|]. split; [done|].
  pose proof (ScanSubdirectory_kept E _ _ _ _ _ _ _ _ Hscan) as Hk.
  set (w2 := emit CompilationsNeedUpdating w1).
  assert (watcher_kept w w2) as Hk2 by (by destruct Hk1).
  assert (stop_requested_ w2 = false) as Hstop2 by (by rewrite (wk_stop _ _ Hk2)).
  destruct (ScanTransaction_destroy_kept E w2 t) as (Hk3 & _ & _).
  destruct (ScanTransaction_destroy_emitted E w2 t Hstop2) as (calls & Hcalls & Hemit).
  exists (ScanTransaction_destroy E w2 t),
    (subdirs_discovered (delta_signals t ++ calls
       ++ [UpdateLastSeen (dir_ t) (expire_unavailable_songs_days_ t);
           SetTaskFinished (task_id_ t)])).
  split; [done|].
  destruct (ScanTransaction_destroy_tasks E w2 t) as [-> ->].
  split; [by eapply watcher_kept_trans|].
  change (emitted w2) with (emitted w1 ++ [CompilationsNeedUpdating]).
  rewrite Hemit1, !tasks_started_app, !tasks_finished_app.
  change (tasks_started [StartTask (next_task_ w); ScanStarted (next_task_ w)])
    with [next_task_ w].
  change (tasks_finished [StartTask (next_task_ w); ScanStarted (next_task_ w)])
    with (@nil Z).
  change (tasks_started [CompilationsNeedUpdating]) with (@nil Z).
  change (tasks_finished [CompilationsNeedUpdating]) with (@nil Z).
  rewrite !app_nil_r. split; [done|]. split.
  { by rewrite (ck_task _ _ Hk), (qs_task _ _ _ Hq1), Htask0. }
  split.
  { rewrite Hemit.
    change (emitted w2) with (emitted w1 ++ [CompilationsNeedUpdating]).
    rewrite Hemit1, !subdirs_discovered_app.
    change (subdirs_discovered [StartTask (next_task_ w); ScanStarted (next_task_ w)])
      with (@nil Subdirectory.t).
    change (subdirs_discovered [CompilationsNeedUpdating]) with (@nil Subdirectory.t).
    by rewrite !app_nil_r. }
  intros Hsym Hmark. rewrite subdirs_discovered_app. apply elem_of_app. left.
  apply subdirs_discovered_delta_signals.
  pose proof (ScanSubdirectory_files_record E fuel w1 (track_directory song)
                Subdirectory.init n t1 false t) as Hin.
  rewrite (qs_dir _ _ _ Hq1), Hdir0 in Hin. apply Hin; [|  |done| |done].
  - by rewrite (wk_stop _ _ Hk1).
  - by rewrite (symlink_into_collection_kept E w w1).
  - apply not_incremental_walks. by rewrite (qs_incremental _ _ _ Hq1).
Qed.

Lemma rescan_tracks_rounds fuel queue : ∀ scanned_dirs w,
  stop_requested_ w = false →
  (∀ song, song ∈ queue →
           fs_height_le E fuel (track_directory song)
           ∧ walk_height_le E (SubdirsInDirectory (backend E) (Song.directory_id song))
               fuel (track_directory song)) →
  ∃ w' tasks scanned more,
    rescan_tracks E fuel queue scanned_dirs w = Some ([], w')
    ∧ watcher_kept w w'
    ∧ tasks_started (emitted w') = tasks_started (emitted w) ++ tasks
    ∧ tasks_finished (emitted w') = tasks_finished (emitted w) ++ tasks
    ∧ length tasks = length scanned
    ∧ NoDup scanned
    ∧ (∀ d, d ∈ scanned ↔
            (d ∉ scanned_dirs) ∧ ∃ song, song ∈ queue ∧ track_directory song = d)
    ∧ subdirs_discovered (emitted w') = subdirs_discovered (emitted w) ++ more
    ∧ (∀ d, d ∈ scanned →
            symlink_into_collection E w d = false →
            has_nomedia_marker E d = false →
            ∃ u, u ∈ more ∧ Subdirectory.path u = d
                 ∧ Subdirectory.mtime u = current_mtime E d).
Proof.
  induction queue as [|song rest IH]; intros scanned_dirs w Hstop Hheight;
    cbn [rescan_tracks].
  { exists w, [], [], []. rewrite !app_nil_r. split; [done|].
    split; [apply watcher_kept_refl|]. repeat (split; [done|]).
    split; [apply NoDup_nil_2|]. split.
    - intros d. split; [by intros ?%elem_of_nil|].
      by intros [_ (s & ?%elem_of_nil & _)].
    - split; [done|]. by intros d ?%elem_of_nil. }
  rewrite Hstop. cbn zeta. fold (track_directory song).
  destruct (QString.list_contains scanned_dirs (track_directory song)) eqn:Hseen;
    cbn [negb].
  - apply list_contains_elem in Hseen.
    destruct (IH scanned_dirs w Hstop)
      as (w' & tasks & scanned & more & -> & Hk & Hs & Hf & Hlen & Hnodup & Hin
          & Hd & Hrec).
    { intros s Hin'. by apply Hheight, list_elem_of_further. }
    exists w', tasks, scanned, more. repeat (split; [done|]).
    split; [|done].
    intros d. rewrite Hin. split.
    + intros [Hnot (s & Hsong & Hdir)]. split; [done|].
      exists s. split; [by apply list_elem_of_further|done].
    + intros [Hnot (s & [->|Hsong]%elem_of_cons & Hdir)]; [by subst d|].
      split; [done|]. by exists s.
  - apply list_contains_not_elem in Hseen.
    destruct (Hheight song (list_elem_of_here _ _)) as [Hfs Hwalk].
    destruct (rescan_track_round fuel w song Hstop Hfs Hwalk)
      as (n & t1 & t & Hcount & Hscan & Hround).
    destruct (ScanTransaction_new w _ _ _ _) as [w1 t0]. cbn [fst snd] in *.
    rewrite Hcount, Hscan.
    destruct Hround as (w2 & more1 & Hw2 & Hk1 & Hs1 & Hf1 & Hd1 & Hrec1).
    rewrite <- Hw2.
    destruct (IH (scanned_dirs ++ [track_directory song]) w2)
      as (w' & tasks & scanned & more & -> & Hk & Hs & Hf & Hlen & Hnodup & Hin
          & Hd & Hrec).
    { by rewrite (wk_stop _ _ Hk1). }
    { intros s Hin'. by apply Hheight, list_elem_of_further. }
    exists w', (next_task_ w :: tasks), (track_directory song :: scanned),
      (more1 ++ more).
    split; [done|]. split; [by eapply watcher_kept_trans|].
    rewrite Hs, Hf, Hs1, Hf1, Hd, Hd1, <- !app_assoc.
    split; [done|]. split; [done|]. split; [cbn [length]; by rewrite Hlen|].
    split.
    { apply NoDup_cons. split; [|done]. rewrite Hin. intros [Hnot _].
      apply Hnot, elem_of_app. right. apply list_elem_of_here. }
    split.
    { intros d. rewrite elem_of_cons, Hin, elem_of_app, list_elem_of_singleton.
      split.
      - intros [->|[Hnot (s & Hsong & Hdir)]].
        + split; [done|]. exists song. split; [apply list_elem_of_here|done].
        + split; [tauto|]. exists s. split; [by apply list_elem_of_further|done].
      - intros [Hnot (s & [->|Hsong]%elem_of_cons & Hdir)]; [by left|].
        destruct (decide (d = track_directory song)) as [->|Hne]; [by left|].
        right. split; [tauto|]. by exists s. }
    split; [done|].
    intros d [->|Hd']%elem_of_cons Hsym Hmark.
    + eexists. split; [apply elem_of_app; left; by apply Hrec1|done].
    + destruct (Hrec d Hd') as (u & Hu & Hpath & Hmtime); [|done|].
      { by rewrite (symlink_into_collection_kept E w w2). }
      exists u. split; [|done]. apply elem_of_app. by right.
Qed.

(** [RescanTracksNow] over trees and ledgers no deeper than the fuel: it
    clears the stop request and returns with the queue of tracks empty;
    it scans the directory of every queued track, each directory once
    however many of its tracks are queued, in a transaction and a task of
    its own; every task it starts it finishes; and every directory it
    scans that is not skipped outright is announced as a discovered
    subdirectory with the mtime it has now. *)
Theorem RescanTracksNow_scans_each_directory_once (fuel : nat)
    (song_rescan_queue_ : list Song.t) (w : CollectionWatcher) :
  (∀ song, song ∈ song_rescan_queue_ →
           fs_height_le E fuel (track_directory song)
           ∧ walk_height_le E (SubdirsInDirectory (backend E) (Song.directory_id song))
               fuel (track_directory song)) →
  ∃ w' tasks scanned more,
    RescanTracksNow E fuel song_rescan_queue_ w = Some ([], w')
    ∧ watcher_kept (set_stop_requested_ false w) w'
    ∧ tasks_started (emitted w') = tasks_started (emitted w) ++ tasks
    ∧ tasks_finished (emitted w') = tasks_finished (emitted w) ++ tasks
    ∧ length tasks = length scanned
    ∧ NoDup scanned
    ∧ (∀ d, d ∈ scanned ↔
            ∃ song, song ∈ song_rescan_queue_ ∧ track_directory song = d)
    ∧ subdirs_discovered (emitted w') = subdirs_discovered (emitted w) ++ more
    ∧ (∀ d, d ∈ scanned →
            symlink_into_collection E w d = false →
            has_nomedia_marker E d = false →
            ∃ u, u ∈ more ∧ Subdirectory.path u = d
                 ∧ Subdirectory.mtime u = current_mtime E d).
Proof.
  intros Hheight. unfold RescanTracksNow.
  destruct (rescan_tracks_rounds fuel song_rescan_queue_ []
              (set_stop_requested_ false w) eq_refl Hheight)
    as (w' & tasks & scanned & more & -> & Hk & Hs & Hf & Hlen & Hnodup & Hin
        & Hd & Hrec).
  exists w', tasks, scanned, more. repeat (split; [done|]).
  split; [|by split].
  intros d. rewrite Hin. split; [by intros [_ ?]|].
  intros H. split; [apply not_elem_of_nil|done].
Qed.

End TrackRescans.

Lemma RescanTracksNow_scans_each_directory_once_witness :
  let E := disk_env one_track_disk one_track_db in
  let queue := [stored_song 1 "/music/a.mp3" 50 "fp:a.mp3" false;
                stored_song 2 "/music/b.mp3" 50 EmptyString false] in
  let w := music_watcher in
  ∃ w' tasks scanned more,
    RescanTracksNow E 2 queue w = Some ([], w')
    ∧ watcher_kept (set_stop_requested_ false w) w'
    ∧ tasks_started (emitted w') = tasks_started (emitted w) ++ tasks
    ∧ tasks_finished (emitted w') = tasks_finished (emitted w) ++ tasks
    ∧ length tasks = length scanned
    ∧ NoDup scanned
    ∧ (∀ d, d ∈ scanned ↔ ∃ song, song ∈ queue ∧ track_directory song = d)
    ∧ subdirs_discovered (emitted w') = subdirs_discovered (emitted w) ++ more
    ∧ (∀ d, d ∈ scanned →
            symlink_into_collection E w d = false →
            has_nomedia_marker E d = false →
            ∃ u, u ∈ more ∧ Subdirectory.path u = d
                 ∧ Subdirectory.mtime u = current_mtime E d).
Proof.
  intros E queue w.
  apply (RescanTracksNow_scans_each_directory_once E 2 queue w).
  intros song Hsong.
  apply list_elem_of_In in Hsong.
  destruct Hsong as [<-|[<-|[]]];
    apply (music_heights music_root (Subdirectory.mk 1 "/music" 100));
    apply list_elem_of_In; vm_compute; by left.
Defined.

(** ** The commit clears what it announces *)

(** [CommitNewOrUpdatedSongs] clears every delta list, so nothing is
    announced twice: a second commit of the same transaction announces no
    delta, touches no watch and only updates the last-seen time of the
    root again. *)
Theorem CommitNewOrUpdatedSongs_announces_once (E : Env) (w : CollectionWatcher)
    (t : ScanTransaction) :
  let w1 := (CommitNewOrUpdatedSongs E w t).1 in
  let t1 := (CommitNewOrUpdatedSongs E w t).2 in
  deltas t1 = ([], [], [], [], [], [], [])
  ∧ config_kept t t1
  ∧ CommitNewOrUpdatedSongs E w1 t1
    = (emit (UpdateLastSeen (dir_ t) (expire_unavailable_songs_days_ t)) w1, t1).
Proof.
  cbn zeta. unfold CommitNewOrUpdatedSongs. cbn zeta. cbn [fst snd].
  split; [done|]. split; [unfold clear_deltas; kept_frame|].
  unfold clear_deltas. record_simpl.
  cbn [nonempty emit_unless_empty fold_left].
  match goal with |- context [if monitor_ ?w0 then _ else _] => destruct (monitor_ w0) end;
    reflexivity.
Qed.

(** ** The full scan *)

Section FullScan.

Context (E : Env).

Lemma ignores_mtime_walks w path subdir t force :
  ignores_mtime_ t = true →
  unchanged_since_last_time E path subdir (songs_missing_fingerprint E w path t).2
    force (songs_missing_fingerprint E w path t).1 = false.
Proof.
  intros Hign. unfold unchanged_since_last_time.
  by rewrite (ck_ignores_mtime _ _ (songs_missing_fingerprint_kept E w path t)), Hign.
Qed.

Lemma scan_subdirs_full fuel w counts subdirs : ∀ t,
  ignores_mtime_ t = true →
  (∀ sd, sd ∈ subdirs →
         walk_height_le E (subdirs_of E t) fuel (Subdirectory.path sd)) →
  ∃ t', scan_subdirs E fuel w counts subdirs t = Some t'
        ∧ config_kept t t'
        ∧ walk_step E t t'
        ∧ (stop_requested_ w = false →
           ∀ sd, sd ∈ subdirs →
                 symlink_into_collection E w (Subdirectory.path sd) = false →
                 has_nomedia_marker E (Subdirectory.path sd) = false →
                 Subdirectory.mk (dir_ t) (Subdirectory.path sd)
                   (current_mtime E (Subdirectory.path sd))
                 ∈ new_subdirs t' ++ touched_subdirs t').
Proof.
  induction subdirs as [|sd rest IH]; intros t Hign Hheight; cbn [scan_subdirs].
  { exists t. split; [done|]. split; [apply config_kept_refl|].
    split; [apply walk_step_refl|]. by intros _ sd ?%elem_of_nil. }
  destruct (stop_requested_ w) eqn:Hstop.
  { exists t. split; [done|]. split; [apply config_kept_refl|].
    split; [apply walk_step_refl|]. done. }
  destruct (ScanSubdirectory_total E fuel w (Subdirectory.path sd) sd
              (default 0 (counts !! Subdirectory.path sd)) t false) as [t1 H1];
    [apply Hheight, list_elem_of_here|].
  rewrite H1.
  pose proof (ScanSubdirectory_step E _ _ _ _ _ _ _ _ H1) as Hstep.
  pose proof (ScanSubdirectory_kept E _ _ _ _ _ _ _ _ H1) as Hkept.
  destruct (IH t1) as (t' & -> & Hkept' & Hstep' & Hrecords).
  { by rewrite (ck_ignores_mtime _ _ Hkept). }
  { intros sd' Hin. rewrite (ws_subdirs _ _ _ Hstep).
    by apply Hheight, list_elem_of_further. }
  exists t'. split; [done|]. split; [by eapply config_kept_trans|].
  split; [by eapply walk_step_trans|].
  intros _ sd' [->|Hin]%elem_of_cons Hsym Hmark.
  2: { rewrite <- (ck_dir _ _ Hkept). by apply Hrecords. }
  pose proof (ScanSubdirectory_files_record E _ _ _ _ _ _ _ _ Hstop Hsym Hmark
                (ignores_mtime_walks w _ sd t false Hign) H1) as Hin.
  apply elem_of_app. destruct (Subdirectory.directory_id sd =? -1).
  - left. by apply (ws_new_subdirs _ _ _ Hstep').
  - right. by apply (ws_touched_subdirs _ _ _ Hstep').
Qed.

Lemma scan_root_full fuel incremental w dir :
  stop_requested_ w = false →
  (∀ sd, sd ∈ ledger_of_root E dir →
         fs_height_le E fuel (Subdirectory.path sd)
         ∧ walk_height_le E (SubdirsInDirectory (backend E) (Directory.id dir))
             fuel (Subdirectory.path sd)) →
  ∃ w' records,
    scan_root E fuel incremental true w dir = Some w'
    ∧ watcher_kept w w'
    ∧ upserts_of (emitted w') = upserts_of (emitted w) ++ records
    ∧ ∀ sd, sd ∈ ledger_of_root E dir →
            symlink_into_collection E w (Subdirectory.path sd) = false →
            has_nomedia_marker E (Subdirectory.path sd) = false →
            Subdirectory.mk (Directory.id dir) (Subdirectory.path sd)
              (current_mtime E (Subdirectory.path sd)) ∈ records.
Proof.
  intros Hstop Hheight. unfold scan_root.
  pose proof (ScanTransaction_new_round w (Directory.id dir) incremental
                true (w_mark_songs_unavailable_ w)) as Hnew.
  cbn zeta in Hnew.
  destruct (ScanTransaction_new w _ _ _ _) as [w1 t0]. cbn [fst snd] in Hnew.
  destruct Hnew as (Hk1 & _ & _ & _ & Hemit1 & _ & Hdir0 & _ & Hign0 & _
                    & _ & _ & Hdirty).
  pose proof (populate_known_subdirs_kept E t0) as Hka.
  pose proof (GetAllSubdirs_step E t0) as Hsa.
  assert ((GetAllSubdirs E t0).1 = SubdirsInDirectory (backend E) (Directory.id dir))
    as Hledger.
  { unfold GetAllSubdirs, populate_known_subdirs, SetKnownSubdirs. cbn zeta.
    cbn [fst]. rewrite Hdirty. record_simpl. by rewrite Hdir0. }
  assert (subdirs_of E (GetAllSubdirs E t0).2
          = SubdirsInDirectory (backend E) (Directory.id dir)) as Hsubdirs.
  { rewrite (ws_subdirs _ _ _ Hsa). unfold subdirs_of. by rewrite Hdirty, Hdir0. }
  unfold GetAllSubdirs in *. cbn zeta in *. cbn [fst snd] in *.
  set (ta := populate_known_subdirs E t0) in *. rewrite Hledger.
  fold (ledger_of_root E dir).
  destruct (FilesCountForSubdirs_quiet E fuel w1 (ledger_of_root E dir)
              (λ sd Hsd, proj1 (Hheight sd Hsd)) 0 ∅ ta)
    as (n & counts & tb & Hcount & Hqb).
  unfold FilesCountForSubdirs. rewrite Hcount.
  pose proof (FilesCountForSubdirs_step E _ _ _ _ _ _ _ _ _ Hcount) as Hsb.
  destruct (scan_subdirs_full fuel w1 counts (ledger_of_root E dir)
              (AddToProgressMax n tb)) as (t & -> & Hkc & _ & Hrecords).
  { change (ignores_mtime_ (AddToProgressMax n tb)) with (ignores_mtime_ tb).
    by rewrite (qs_ignores_mtime _ _ _ Hqb), (ck_ignores_mtime _ _ Hka). }
  { intros sd Hsd.
    rewrite (ws_subdirs _ _ _ (AddToProgressMax_step E n tb)),
      (ws_subdirs _ _ _ Hsb), Hsubdirs.
    by apply Hheight. }
  assert (stop_requested_ w1 = false) as Hstop1 by (by rewrite (wk_stop _ _ Hk1)).
  exists (ScanTransaction_destroy E w1 t), (new_subdirs t ++ touched_subdirs t).
  split; [done|].
  destruct (ScanTransaction_destroy_kept E w1 t) as (Hk2 & _ & _).
  split; [by eapply watcher_kept_trans|].
  destruct (ScanTransaction_destroy_emitted E w1 t Hstop1) as (calls & Hcalls & ->).
  split.
  { rewrite !upserts_of_app, upserts_of_delta_signals,
      (upserts_of_watch_calls calls Hcalls), Hemit1, upserts_of_app.
    cbn. by rewrite !app_nil_r. }
  intros sd Hsd Hsym Hmark.
  pose proof (Hrecords Hstop1 sd Hsd) as Hin.
  change (dir_ (AddToProgressMax n tb)) with (dir_ tb) in Hin.
  rewrite (qs_dir _ _ _ Hqb), (ck_dir _ _ Hka), Hdir0 in Hin.
  apply Hin; [|done]. by rewrite (symlink_into_collection_kept E w w1).
Qed.

Lemma scan_roots_full fuel incremental dirs : ∀ w,
  stop_requested_ w = false →
  (∀ dir sd, dir ∈ dirs → sd ∈ ledger_of_root E dir →
             fs_height_le E fuel (Subdirectory.path sd)
             ∧ walk_height_le E (SubdirsInDirectory (backend E) (Directory.id dir))
                 fuel (Subdirectory.path sd)) →
  ∃ w' records,
    scan_roots E fuel incremental true dirs w = Some w'
    ∧ watcher_kept w w'
    ∧ upserts_of (emitted w') = upserts_of (emitted w) ++ records
    ∧ ∀ dir sd, dir ∈ dirs → sd ∈ ledger_of_root E dir →
                symlink_into_collection E w (Subdirectory.path sd) = false →
                has_nomedia_marker E (Subdirectory.path sd) = false →
                Subdirectory.mk (Directory.id dir) (Subdirectory.path sd)
                  (current_mtime E (Subdirectory.path sd)) ∈ records.
Proof.
  induction dirs as [|dir rest IH]; intros w Hstop Hheight; cbn [scan_roots].
  { exists w, []. rewrite app_nil_r. split; [done|].
    split; [apply watcher_kept_refl|]. split; [done|].
    intros d sd Hd. by apply elem_of_nil in Hd. }
  rewrite Hstop.
  destruct (scan_root_full fuel incremental w dir Hstop)
    as (w1 & r1 & -> & Hk1 & Hu1 & Hin1).
  { intros sd Hsd. apply (Hheight dir sd); [apply list_elem_of_here|done]. }
  destruct (IH w1) as (w' & r2 & -> & Hk & Hu & Hin).
  { by rewrite (wk_stop _ _ Hk1). }
  { intros d sd Hd. apply Hheight. by apply list_elem_of_further. }
  exists w', (r1 ++ r2). split; [done|].
  split; [by eapply watcher_kept_trans|].
  split; [by rewrite Hu, Hu1, <- app_assoc|].
  intros d sd [->|Hd]%elem_of_cons Hsd Hsym Hmark; apply elem_of_app.
  - left. by apply Hin1.
  - right. apply (Hin d sd Hd Hsd); [|done].
    by rewrite (symlink_into_collection_kept E w w1).
Qed.

(** A full scan refreshes the whole ledger: [FullScanNow] returns, and
    for every entry of the subdirectory ledger of every watched root
    that is not skipped outright it announces the record of the
    directory, with the id of the root and the mtime the directory has
    now, whether or not the directory has changed. *)
Theorem FullScanNow_refreshes_every_ledger_entry (fuel : nat)
    (w : CollectionWatcher) :
  (∀ dir sd, dir ∈ QMap_values (watched_dirs_ w) → sd ∈ ledger_of_root E dir →
             fs_height_le E fuel (Subdirectory.path sd)
             ∧ walk_height_le E (SubdirsInDirectory (backend E) (Directory.id dir))
                 fuel (Subdirectory.path sd)) →
  ∃ w' records,
    FullScanNow E fuel w = Some w'
    ∧ upserts_of (emitted w') = upserts_of (emitted w) ++ records
    ∧ ∀ dir sd, dir ∈ QMap_values (watched_dirs_ w) → sd ∈ ledger_of_root E dir →
                symlink_into_collection E w (Subdirectory.path sd) = false →
                has_nomedia_marker E (Subdirectory.path sd) = false →
                Subdirectory.mk (Directory.id dir) (Subdirectory.path sd)
                  (current_mtime E (Subdirectory.path sd)) ∈ records.
Proof.
  intros Hheight. unfold FullScanNow, PerformScan. cbn zeta.
  destruct (scan_roots_full fuel false
              (QMap_values (watched_dirs_ (set_stop_requested_ false w)))
              (set_stop_requested_ false w) eq_refl Hheight)
    as (w1 & records & -> & _ & Hu & Hin).
  eexists _, records. split; [done|]. watcher_simpl.
  rewrite upserts_of_app, Hu. cbn. rewrite app_nil_r. split; [done|].
  intros dir sd Hdir Hsd Hsym Hmark. by apply Hin.
Qed.

End FullScan.

Lemma FullScanNow_refreshes_every_ledger_entry_witness :
  let E := disk_env one_track_disk one_track_db in
  let w := music_watcher in
  ∃ w' records,
    FullScanNow E 2 w = Some w'
    ∧ upserts_of (emitted w') = upserts_of (emitted w) ++ records
    ∧ ∀ dir sd, dir ∈ QMap_values (watched_dirs_ w) → sd ∈ ledger_of_root E dir →
                symlink_into_collection E w (Subdirectory.path sd) = false →
                has_nomedia_marker E (Subdirectory.path sd) = false →
                Subdirectory.mk (Directory.id dir) (Subdirectory.path sd)
                  (current_mtime E (Subdirectory.path sd)) ∈ records.
Proof.
  intros E w.
  apply (FullScanNow_refreshes_every_ledger_entry E 2 w).
  apply music_heights.
Defined.

(** ** The listing of a directory *)

Section Listing.

Context (E : Env).

Lemma HasSeenSubdir_seen path t :
  HasSeenSubdir E path t
  = (seen_in (subdirs_of E t) path, populate_known_subdirs E t).
Proof.
  unfold HasSeenSubdir, seen_in, subdirs_of, populate_known_subdirs,
    SetKnownSubdirs.
  cbn zeta. by destruct (known_subdirs_dirty_ t).
Qed.

Lemma enumerate_children_lists w children :
  stop_requested_ w = false →
  ∀ t album_art files_on_disk subdirs,
    ∃ t' album_art',
      enumerate_children E w children (t, album_art, files_on_disk, subdirs)
      = Next (t', album_art',
              files_on_disk ++ List.filter (is_media_file E) children,
              subdirs ++ map (new_subdir_record E)
                           (List.filter (is_new_subdir E (subdirs_of E t)) children))
      ∧ (∀ dir, default [] (album_art' !! dir)
                = default [] (album_art !! dir)
                  ++ List.filter (λ child, is_image_file E child
                                           && String.eqb (DirectoryPart E child) dir)
                       children)
      ∧ u64 (progress_ t')
        = u64 (progress_ t
               + Z.of_nat (length (List.filter (λ child, negb (is_media_file E child))
                                       children)))
      ∧ (0 ≤ progress_ t < 2 ^ 64 → 0 ≤ progress_ t' < 2 ^ 64)
      ∧ deltas t' = deltas t.
Proof.
  intros Hstop. induction children as [|child rest IH];
    intros t album_art files_on_disk subdirs.
  { exists t, album_art. cbn [enumerate_children List.filter map length].
    rewrite !app_nil_r. split; [done|].
    split; [intros dir; by rewrite app_nil_r|].
    split; [|done]. change (Z.of_nat 0) with 0. by rewrite Z.add_0_r. }
  assert (∀ t1, subdirs_of E t1 = subdirs_of E t →
                progress_ t1 = progress_ t →
                deltas t1 = deltas t →
                subdirs_of E (AddToProgress 1 t1) = subdirs_of E t
                ∧ 0 ≤ progress_ (AddToProgress 1 t1) < 2 ^ 64
                ∧ (∀ n : nat, u64 (progress_ (AddToProgress 1 t1) + Z.of_nat n)
                              = u64 (progress_ t + Z.of_nat (S n)))
                ∧ deltas (AddToProgress 1 t1) = deltas t) as Hcredit.
  { intros t1 Hsub Hprog Hdel.
    split; [by rewrite (ws_subdirs _ _ _ (AddToProgress_step E 1 t1))|].
    split; [apply u64_range|].
    split; [|by rewrite (qs_deltas _ _ _ (AddToProgress_quiet E 1 t1))].
    intros n. unfold AddToProgress. record_simpl. rewrite u64_add_l, Hprog.
    f_equal. lia. }
  cbn [enumerate_children List.filter]. rewrite Hstop.
  destruct (fs_isDir E child) eqn:Hdir.
  - (* a directory *)
    assert (∀ dir, is_image_file E child && String.eqb (DirectoryPart E child) dir
                   = false) as Himage.
    { intros dir. unfold is_image_file. by rewrite Hdir. }
    assert (is_media_file E child = false) as ->
      by (unfold is_media_file; by rewrite Hdir).
    cbn [negb length].
    destruct (fs_isHidden E child) eqn:Hhidden; cbn [negb].
    + assert (is_new_subdir E (subdirs_of E t) child = false) as ->
        by (unfold is_new_subdir; by rewrite Hdir, Hhidden).
      destruct (Hcredit t eq_refl eq_refl eq_refl) as (Hsub & Hr & Hprog & Hdel).
      destruct (IH (AddToProgress 1 t) album_art files_on_disk subdirs)
        as (t' & aa' & -> & Hart & Hp & Hr' & Hd).
      exists t', aa'. rewrite Hsub. split; [done|].
      split; [intros dir; by rewrite Himage|].
      split; [by rewrite Hp, Hprog|]. split; [intros _; by apply Hr'|by rewrite Hd].
    + assert (is_new_subdir E (subdirs_of E t) child
              = negb (seen_in (subdirs_of E t) child)) as ->
        by (unfold is_new_subdir; by rewrite Hdir, Hhidden).
      rewrite HasSeenSubdir_seen.
      pose proof (populate_known_subdirs_step E t) as Hstep.
      pose proof (populate_known_subdirs_progress E t) as [Hpp _].
      pose proof (populate_known_subdirs_quiet E t) as Hq.
      destruct (Hcredit (populate_known_subdirs E t) (ws_subdirs _ _ _ Hstep) Hpp
                  (qs_deltas _ _ _ Hq)) as (Hsub & Hr & Hprog & Hdel).
      destruct (seen_in (subdirs_of E t) child); cbn [negb].
      * destruct (IH (AddToProgress 1 (populate_known_subdirs E t)) album_art
                    files_on_disk subdirs) as (t' & aa' & -> & Hart & Hp & Hr' & Hd).
        exists t', aa'. rewrite Hsub. split; [done|].
        split; [intros dir; by rewrite Himage|].
        split; [by rewrite Hp, Hprog|]. split; [intros _; by apply Hr'|by rewrite Hd].
      * destruct (IH (AddToProgress 1 (populate_known_subdirs E t)) album_art
                    files_on_disk
                    (subdirs ++ [Subdirectory.mk (-1) child (fs_lastModified E child)]))
          as (t' & aa' & -> & Hart & Hp & Hr' & Hd).
        exists t', aa'. rewrite Hsub. cbn [map]. rewrite <- app_assoc.
        split; [done|].
        split; [intros dir; by rewrite Himage|].
        split; [by rewrite Hp, Hprog|]. split; [intros _; by apply Hr'|by rewrite Hd].
  - (* a file *)
    assert (is_new_subdir E (subdirs_of E t) child = false) as ->
      by (unfold is_new_subdir; by rewrite Hdir).
    destruct (QString.list_contains (sValidImages E) (ExtensionPart E child))
      eqn:Hext.
    + assert (is_media_file E child = false) as ->
        by (unfold is_media_file; by rewrite Hdir, Hext).
      cbn [negb length].
      destruct (Hcredit t eq_refl eq_refl eq_refl) as (Hsub & Hr & Hprog & Hdel).
      destruct (IH (AddToProgress 1 t)
                  (<[DirectoryPart E child :=
                       default [] (album_art !! DirectoryPart E child) ++ [child]]>
                     album_art)
                  files_on_disk subdirs) as (t' & aa' & -> & Hart & Hp & Hr' & Hd).
      exists t', aa'. rewrite Hsub. split; [done|].
      split; [|split; [by rewrite Hp, Hprog|];
               split; [intros _; by apply Hr'|by rewrite Hd]].
      intros dir. rewrite Hart. unfold is_image_file at 2. rewrite Hdir, Hext.
      cbn [negb andb].
      destruct (String.eqb_spec (DirectoryPart E child) dir) as [->|Hne].
      * rewrite lookup_insert_eq. cbn [default from_option id]. by rewrite <- app_assoc.
      * by rewrite lookup_insert_ne.
    + assert (∀ dir, is_image_file E child
                     && String.eqb (DirectoryPart E child) dir = false) as Himage.
      { intros dir. unfold is_image_file. by rewrite Hdir, Hext. }
      destruct (IsMediaFileBlocking E child) eqn:Hmedia.
      * assert (is_media_file E child = true) as ->
          by (unfold is_media_file; by rewrite Hdir, Hext, Hmedia).
        cbn [negb].
        destruct (IH t album_art (files_on_disk ++ [child]) subdirs)
          as (t' & aa' & -> & Hart & Hp & Hr' & Hd).
        exists t', aa'. rewrite <- app_assoc. split; [done|].
        split; [intros dir; by rewrite Himage|done].
      * assert (is_media_file E child = false) as ->
          by (unfold is_media_file; by rewrite Hdir, Hext, Hmedia).
        cbn [negb length].
        destruct (Hcredit t eq_refl eq_refl eq_refl) as (Hsub & Hr & Hprog & Hdel).
        destruct (IH (AddToProgress 1 t) album_art files_on_disk subdirs)
          as (t' & aa' & -> & Hart & Hp & Hr' & Hd).
        exists t', aa'. rewrite Hsub. split; [done|].
        split; [intros dir; by rewrite Himage|].
        split; [by rewrite Hp, Hprog|]. split; [intros _; by apply Hr'|by rewrite Hd].
Qed.

(** The listing of a directory sorts its children: the media files go to
    [files_on_disk], the images to [album_art] under their directory
    part, and the directories that are not hidden and that the ledger
    does not have with an mtime become new subdirectory records with id
    -1 and their present mtime, each kind in listing order.  Every child
    that is not a media file is credited to the progress at once, and no
    delta is filed. *)
Theorem enumerate_children_sorts_listing (w : CollectionWatcher)
    (children : list string) (t : ScanTransaction) :
  stop_requested_ w = false →
  0 ≤ progress_ t < 2 ^ 64 →
  ∃ t' album_art,
    enumerate_children E w children (t, ∅, [], [])
    = Next (t', album_art,
            List.filter (is_media_file E) children,
            map (new_subdir_record E)
              (List.filter (is_new_subdir E (subdirs_of E t)) children))
    ∧ (∀ dir, default [] (album_art !! dir)
              = List.filter (λ child, is_image_file E child
                                      && String.eqb (DirectoryPart E child) dir)
                  children)
    ∧ progress_ t'
      = u64 (progress_ t
             + Z.of_nat (length (List.filter (λ child, negb (is_media_file E child))
                                       children)))
    ∧ deltas t' = deltas t.
Proof.
  intros Hstop Hrange.
  destruct (enumerate_children_lists w children Hstop t ∅ [] [])
    as (t' & aa' & H & Hart & Hp & Hr & Hd).
  exists t', aa'. split; [exact H|].
  split; [intros dir; by rewrite Hart, lookup_empty|].
  split; [|done]. rewrite <- Hp. symmetry. by apply u64_small, Hr.
Qed.

End Listing.

Lemma enumerate_children_sorts_listing_witness :
  let E := disk_env mixed_disk one_track_db in
  let w := music_watcher in
  let t := music_transaction in
  let children := fs_entries E "/music" in
  ∃ t' album_art,
    enumerate_children E w children (t, ∅, [], [])
    = Next (t', album_art,
            List.filter (is_media_file E) children,
            map (new_subdir_record E)
              (List.filter (is_new_subdir E (subdirs_of E t)) children))
    ∧ (∀ dir, default [] (album_art !! dir)
              = List.filter (λ child, is_image_file E child
                                      && String.eqb (DirectoryPart E child) dir)
                  children)
    ∧ progress_ t'
      = u64 (progress_ t
             + Z.of_nat (length (List.filter (λ child, negb (is_media_file E child))
                                         children)))
    ∧ deltas t' = deltas t.
Proof.
  intros E w t children.
  apply (enumerate_children_sorts_listing E w children t); [reflexivity|].
  cbn. lia.
Defined.

(** ** The import of a tree the database does not know *)

Section TreeImport.

Context (E : Env).

Lemma elem_of_List_filter {A} (f : A → bool) (l : list A) (x : A) :
  x ∈ List.filter f l ↔ x ∈ l ∧ f x = true.
Proof. by rewrite !list_elem_of_In, filter_In. Qed.

Lemma filter_images_nil filters : filter_images E filters [] [] = [].
Proof. induction filters as [|term rest IH]; [done|]. cbn. exact IH. Qed.

Lemma PickBestImage_nil w : (PickBestImage E w []).1 = EmptyString.
Proof.
  unfold PickBestImage, image_candidates. rewrite filter_images_nil.
  cbn. reflexivity.
Qed.

(** The image of a query is the image of the directory, and the cache
    keeps the image of every directory. *)
Lemma ImageForSong_directory_image w file album_art :
  (ImageForSong E w file album_art).1.1
  = directory_image E w (default [] (album_art !! DirectoryPart E file))
  ∧ ∀ dir, directory_image E w
             (default [] ((ImageForSong E w file album_art).1.2 !! dir))
           = directory_image E w (default [] (album_art !! dir)).
Proof.
  unfold ImageForSong.
  destruct (album_art !! DirectoryPart E file) as [images|] eqn:Hl; [|done].
  assert (∀ best, best = directory_image E w images →
                  ∀ dir, directory_image E w
                           (default [] (<[DirectoryPart E file := [best]]> album_art
                                        !! dir))
                         = directory_image E w (default [] (album_art !! dir)))
    as Hcollapse.
  { intros best -> dir.
    destruct (String.eqb_spec (DirectoryPart E file) dir) as [<-|Hne].
    - by rewrite lookup_insert_eq, Hl.
    - by rewrite lookup_insert_ne. }
  destruct images as [|a [|b rest]].
  - cbn [length Nat.eqb default from_option id].
    pose proof (PickBestImage_nil w) as Hnil.
    destruct (PickBestImage E w []) as [best probes]. cbn [fst snd] in *.
    subst best. split; [done|]. by apply Hcollapse.
  - cbn [length Nat.eqb default from_option id hd fst snd]. done.
  - cbn [length Nat.eqb default from_option id].
    destruct (PickBestImage E w (a :: b :: rest)) as [best probes] eqn:Hbest.
    cbn [fst snd].
    assert (best = directory_image E w (a :: b :: rest)) as Hb.
    { cbn [directory_image]. by rewrite Hbest. }
    split; [done|]. by apply Hcollapse.
Qed.

(** One file without a record and without a cue sheet. *)
Lemma scan_file_imports w path file t files_on_disk album_art cues :
  (∀ fingerprint, GetSongsByFingerprint (backend E) fingerprint = []) →
  GetMtimeForCue E (NoExtensionPart E file +:+ ".cue") = 0 →
  ∃ t' album_art',
    scan_file E w path [] file (t, files_on_disk, album_art, cues)
    = (t', files_on_disk, album_art', cues)
    ∧ new_songs t'
      = new_songs t
        ++ imported_song E w (dir_ t)
             (directory_image E w (default [] (album_art !! DirectoryPart E file)))
             file
    ∧ deleted_songs t' = deleted_songs t
    ∧ touched_songs t' = touched_songs t
    ∧ readded_songs t' = readded_songs t
    ∧ dir_ t' = dir_ t
    ∧ ∀ dir, directory_image E w (default [] (album_art' !! dir))
             = directory_image E w (default [] (album_art !! dir)).
Proof.
  intros Hfp Hcue. unfold scan_file. cbn [FindSongByPath find].
  assert ((if song_tracking_ w
              && negb (QString.isEmpty (file_fingerprint E w file))
              && negb (String.eqb (file_fingerprint E w file) "NONE")
           then FindSongByFingerprint E file (file_fingerprint E w file)
           else None) = None) as ->.
  { destruct (_ && _ && _); [|done].
    unfold FindSongByFingerprint. by rewrite Hfp. }
  unfold ScanNewFile, imported_song. cbn zeta. rewrite Hcue.
  cbn [Z.eqb negb].
  destruct (Song.is_valid (ReadFileBlocking E file (Song.init (source_ w)))).
  2: { cbn [nonempty negb]. exists (AddToProgress 1 t), album_art.
       rewrite app_nil_r. done. }
  cbn [nonempty negb].
  pose proof (ImageForSong_directory_image w file album_art) as [Himage Hcache].
  destruct (ImageForSong E w file album_art) as [[image album_art'] probes].
  cbn [fst snd] in Himage, Hcache. subst image.
  cbn [fold_left]. eexists _, album_art'. split; [reflexivity|].
  record_simpl. done.
Qed.

Lemma scan_files_imports w path files :
  stop_requested_ w = false →
  (∀ fingerprint, GetSongsByFingerprint (backend E) fingerprint = []) →
  ∀ t files_on_disk album_art cues,
    (∀ file, file ∈ files →
             GetMtimeForCue E (NoExtensionPart E file +:+ ".cue") = 0) →
    ∃ t' album_art',
      scan_files E w path [] files (t, files_on_disk, album_art, cues)
      = Next (t', files_on_disk, album_art', cues)
      ∧ new_songs t'
        = new_songs t
          ++ flat_map (λ file,
                 imported_song E w (dir_ t)
                   (directory_image E w
                      (default [] (album_art !! DirectoryPart E file))) file)
               files
      ∧ deleted_songs t' = deleted_songs t
      ∧ touched_songs t' = touched_songs t
      ∧ readded_songs t' = readded_songs t.
Proof.
  intros Hstop Hfp. induction files as [|file rest IH];
    intros t files_on_disk album_art cues Hcue.
  { exists t, album_art. cbn [scan_files flat_map]. by rewrite app_nil_r. }
  cbn [scan_files flat_map]. rewrite Hstop.
  destruct (scan_file_imports w path file t files_on_disk album_art cues Hfp)
    as (t1 & aa1 & -> & Hnew & Hdel & Htouched & Hreadded & Hdir & Hcache).
  { apply Hcue, list_elem_of_here. }
  destruct (IH t1 files_on_disk aa1 cues)
    as (t' & aa' & -> & Hnew' & Hdel' & Htouched' & Hreadded').
  { intros f Hf. by apply Hcue, list_elem_of_further. }
  exists t', aa'. split; [done|].
  rewrite Hnew', Hnew, Hdel', Hdel, Htouched', Htouched, Hreadded', Hreadded, Hdir.
  rewrite <- app_assoc. split; [|done]. do 2 f_equal.
  apply flat_map_ext. intros f. by rewrite Hcache.
Qed.

Lemma known_subdirs_populated t :
  known_subdirs_ (populate_known_subdirs E t) = subdirs_of E t.
Proof.
  unfold populate_known_subdirs, SetKnownSubdirs, subdirs_of.
  by destruct (known_subdirs_dirty_ t).
Qed.

Lemma FindSongsInSubdirectory_snapshot path t :
  (FindSongsInSubdirectory E path t).1
  = List.filter (in_directory path) (songs_of E t)
  ∧ deltas (FindSongsInSubdirectory E path t).2 = deltas t.
Proof.
  unfold FindSongsInSubdirectory, songs_of. cbn zeta. cbn [fst snd].
  by destruct (cached_songs_dirty_ t).
Qed.

Lemma songs_missing_fingerprint_quiet w path t :
  quiet_step E t (songs_missing_fingerprint E w path t).2.
Proof.
  unfold songs_missing_fingerprint. destruct (_ && _).
  - apply HasSongsWithMissingFingerprint_quiet.
  - apply quiet_step_refl.
Qed.

Lemma forced_walks path subdir t missing :
  unchanged_since_last_time E path subdir t true missing = false.
Proof.
  unfold unchanged_since_last_time. by destruct (negb (ignores_mtime_ t)).
Qed.

Lemma song_deltas_of t t' :
  deltas t' = deltas t →
  new_songs t' = new_songs t ∧ deleted_songs t' = deleted_songs t
  ∧ touched_songs t' = touched_songs t ∧ readded_songs t' = readded_songs t.
Proof. unfold deltas. by intros [= -> -> -> -> _ _ _]. Qed.

Lemma add_subdir_record_songs path subdir t :
  new_songs (add_subdir_record E path subdir t) = new_songs t
  ∧ deleted_songs (add_subdir_record E path subdir t) = deleted_songs t
  ∧ touched_songs (add_subdir_record E path subdir t) = touched_songs t
  ∧ readded_songs (add_subdir_record E path subdir t) = readded_songs t.
Proof.
  unfold add_subdir_record. cbn zeta.
  by destruct (Subdirectory.directory_id subdir =? -1);
    destruct (Subdirectory.mtime _ =? 0).
Qed.

Lemma ScanSubdirectory_imports fuel :
  ∀ w path subdir files_count t force,
    stop_requested_ w = false →
    songs_of E t = [] →
    subdirs_of E t = [] →
    (∀ fingerprint, GetSongsByFingerprint (backend E) fingerprint = []) →
    plain_tree E fuel path →
    unchanged_since_last_time E path subdir
      (songs_missing_fingerprint E w path t).2 force
      (songs_missing_fingerprint E w path t).1 = false →
    ∃ t', ScanSubdirectory E fuel w path subdir files_count t force = Some t'
          ∧ new_songs t' = new_songs t ++ imported_tree E w (dir_ t) fuel path
          ∧ deleted_songs t' = deleted_songs t
          ∧ touched_songs t' = touched_songs t
          ∧ readded_songs t' = readded_songs t.
Proof.
  induction fuel as [|fuel IH];
    intros w path subdir files_count t force Hstop Hsongs Hsubdirs Hfp Hplain Hwalk;
    [destruct Hplain|].
  cbn [ScanSubdirectory imported_tree].
  destruct (symlink_into_collection E w path);
    [exists t; by rewrite app_nil_r|].
  destruct (has_nomedia_marker E path);
    [exists t; by rewrite app_nil_r|].
  cbn [orb].
  (* the fingerprint check *)
  pose proof (songs_missing_fingerprint_step E w path t) as Hs0.
  pose proof (songs_missing_fingerprint_quiet w path t) as Hq0.
  destruct (songs_missing_fingerprint E w path t) as [missing t0].
  cbn [fst snd] in Hwalk, Hs0, Hq0. rewrite Hwalk.
  (* the ledger has nothing below the directory *)
  unfold GetImmediateSubdirs. cbn zeta.
  rewrite known_subdirs_populated, (ws_subdirs _ _ _ Hs0), Hsubdirs.
  cbn [List.filter rescan_removed].
  pose proof (populate_known_subdirs_step E t0) as Hs1.
  pose proof (populate_known_subdirs_quiet E t0) as Hq1.
  set (t1 := populate_known_subdirs E t0) in *.
  (* the listing *)
  destruct (enumerate_children_lists E w (fs_entries E path) Hstop
              (probe [Enumerate path] t1) ∅ [] [])
    as (t2 & album_art & Hlist & Hart & _ & _ & Hd2).
  pose proof (enumerate_children_step E w (fs_entries E path)
                (probe [Enumerate path] t1) ∅ [] []) as Hs2.
  rewrite Hlist in Hs2. cbn [flow_txn fst] in Hs2. rewrite Hlist.
  cbn [app]. rewrite Hstop.
  assert (walk_step E t t2) as H02.
  { eapply walk_step_trans; [exact Hs0|].
    eapply walk_step_trans; [exact Hs1|].
    eapply walk_step_trans; [apply probe_step|exact Hs2]. }
  assert (deltas t2 = deltas t) as Hdeltas2.
  { rewrite Hd2. change (deltas (probe [Enumerate path] t1)) with (deltas t1).
    by rewrite (qs_deltas _ _ _ Hq1), (qs_deltas _ _ _ Hq0). }
  assert (subdirs_of E (probe [Enumerate path] t1) = []) as Hledger.
  { by rewrite (ws_subdirs _ _ _ (probe_step E _ t1)), (ws_subdirs _ _ _ Hs1),
      (ws_subdirs _ _ _ Hs0). }
  rewrite Hledger.
  (* the songs of the directory in the database: none *)
  pose proof (FindSongsInSubdirectory_snapshot path t2) as [Hdb Hd3].
  pose proof (FindSongsInSubdirectory_step E path t2) as Hs3.
  destruct (FindSongsInSubdirectory E path t2) as [songs_in_db t3].
  cbn [fst snd] in Hdb, Hd3, Hs3.
  rewrite (ws_songs _ _ _ H02), Hsongs in Hdb. cbn [List.filter] in Hdb.
  subst songs_in_db.
  (* the files *)
  pose proof (scan_files_step E w path []
                (List.filter (is_media_file E) (fs_entries E path)) t3
                (List.filter (is_media_file E) (fs_entries E path)) album_art ∅)
    as Hs4.
  destruct (scan_files_imports w path
              (List.filter (is_media_file E) (fs_entries E path)) Hstop Hfp
              t3 (List.filter (is_media_file E) (fs_entries E path)) album_art ∅)
    as (t4 & album_art' & Hfiles & Hnew4 & Hdel4 & Htouched4 & Hreadded4).
  { intros file [Hin Hmedia]%elem_of_List_filter.
    by apply (Hplain file Hin). }
  rewrite Hfiles in Hs4. cbn [flow_txn fst] in Hs4. rewrite Hfiles.
  specialize (Hs4 ltac:(by intros s ?%elem_of_nil)).
  unfold look_for_deleted. cbn [fold_left].
  (* the record of the directory *)
  pose proof (add_subdir_record_songs path subdir t4)
    as (Hnew5 & Hdel5 & Htouched5 & Hreadded5).
  pose proof (add_subdir_record_step E path subdir t4) as Hs5.
  set (t5 := add_subdir_record E path subdir t4) in *.
  destruct (song_deltas_of t t2 Hdeltas2) as (Hnew2 & Hdel2 & Htouched2 & Hreadded2).
  destruct (song_deltas_of t2 t3 Hd3) as (Hnew3 & Hdel3 & Htouched3 & Hreadded3).
  (* the new subdirectories *)
  assert (∀ dirs t6,
            (∀ child, child ∈ dirs → plain_tree E fuel child) →
            songs_of E t6 = [] → subdirs_of E t6 = [] →
            ∃ t', scan_new_subdirs
                    (λ p s t, ScanSubdirectory E fuel w p s 0 t true) false
                    (map (new_subdir_record E) dirs) t6 = Some t'
                  ∧ new_songs t'
                    = new_songs t6 ++ flat_map (imported_tree E w (dir_ t6) fuel) dirs
                  ∧ deleted_songs t' = deleted_songs t6
                  ∧ touched_songs t' = touched_songs t6
                  ∧ readded_songs t' = readded_songs t6) as Hsubtrees.
  { induction dirs as [|child rest IHdirs]; intros t6 Hsub Hsongs6 Hsubdirs6.
    { exists t6. cbn [map scan_new_subdirs flat_map]. by rewrite app_nil_r. }
    cbn [map scan_new_subdirs flat_map new_subdir_record Subdirectory.path].
    destruct (IH w child (new_subdir_record E child) 0
                t6 true Hstop Hsongs6 Hsubdirs6 Hfp)
      as (t7 & H7 & Hnew7 & Hdel7 & Htouched7 & Hreadded7).
    { apply Hsub, list_elem_of_here. }
    { apply forced_walks. }
    rewrite H7. pose proof (ScanSubdirectory_step E _ _ _ _ _ _ _ _ H7) as Hs7.
    destruct (IHdirs t7) as (t' & -> & Hnew' & Hdel' & Htouched' & Hreadded').
    { intros c Hc. by apply Hsub, list_elem_of_further. }
    { by rewrite (ws_songs _ _ _ Hs7). }
    { by rewrite (ws_subdirs _ _ _ Hs7). }
    exists t'. split; [done|].
    rewrite Hnew', Hnew7, Hdel', Hdel7, Htouched', Htouched7, Hreadded', Hreadded7,
      (ws_dir _ _ _ Hs7).
    by rewrite <- app_assoc. }
  assert (walk_step E t t5) as H05.
  { eapply walk_step_trans; [exact H02|].
    eapply walk_step_trans; [exact Hs3|].
    eapply walk_step_trans; [exact Hs4|exact Hs5]. }
  destruct (Hsubtrees (List.filter (is_new_subdir E []) (fs_entries E path)) t5)
    as (t' & -> & Hnew' & Hdel' & Htouched' & Hreadded').
  { intros child [Hin Hnew]%elem_of_List_filter.
    by apply (Hplain child Hin). }
  { by rewrite (ws_songs _ _ _ H05). }
  { by rewrite (ws_subdirs _ _ _ H05). }
  exists t'. split; [done|].
  rewrite Hnew', Hnew5, Hnew4, Hnew3, Hnew2, Hdel', Hdel5, Hdel4, Hdel3, Hdel2,
    Htouched', Htouched5, Htouched4, Htouched3, Htouched2,
    Hreadded', Hreadded5, Hreadded4, Hreadded3, Hreadded2.
  rewrite (ws_dir _ _ _ H05), (ws_dir _ _ _ Hs3), (ws_dir _ _ _ H02).
  rewrite <- app_assoc. split; [|done]. do 2 f_equal.
  apply flat_map_ext. intros file. unfold listed_images. by rewrite Hart, lookup_empty.
Qed.

(** The import of a tree the database knows nothing of: when the root has
    no stored song and no ledger entry, no record matches by fingerprint
    and no media file of the tree has a cue sheet, a walk from [path]
    returns and files as new songs exactly the songs the tag reader
    reads as valid from the media files of the tree, depth first and in
    listing order, each with the source of the watcher, the root of the
    transaction, the fingerprint of the file and, when its tags give no
    cover, the image of its directory; it files no song as deleted,
    touched or readded. *)
Theorem ScanSubdirectory_imports_new_tree (fuel : nat) (w : CollectionWatcher)
    (path : string) (subdir : Subdirectory.t) (files_count : Z)
    (t : ScanTransaction) (force_noincremental : bool) :
  stop_requested_ w = false →
  songs_of E t = [] →
  subdirs_of E t = [] →
  (∀ fingerprint, GetSongsByFingerprint (backend E) fingerprint = []) →
  plain_tree E fuel path →
  unchanged_since_last_time E path subdir
    (songs_missing_fingerprint E w path t).2 force_noincremental
    (songs_missing_fingerprint E w path t).1 = false →
  ∃ t', ScanSubdirectory E fuel w path subdir files_count t force_noincremental
        = Some t'
        ∧ new_songs t' = new_songs t ++ imported_tree E w (dir_ t) fuel path
        ∧ deleted_songs t' = deleted_songs t
        ∧ touched_songs t' = touched_songs t
        ∧ readded_songs t' = readded_songs t.
Proof. apply ScanSubdirectory_imports. Qed.

End TreeImport.

Lemma mixed_disk_plain :
  plain_tree (disk_env mixed_disk empty_db) 2 "/music".
Proof.
  intros child Hin.
  change (child ∈ ["/music/a.mp3"; "/music/cover.jpg"; "/music/notes.txt";
                   "/music/live"]) in Hin.
  repeat (apply elem_of_cons in Hin as [->|Hin]); [..|by apply elem_of_nil in Hin].
  - split; [intros _; reflexivity|intros [=]].
  - split; intros [=].
  - split; intros [=].
  - split; [intros [=]|]. intros _ child Hin. by apply elem_of_nil in Hin.
Defined.

Lemma ScanSubdirectory_imports_new_tree_witness :
  let E := disk_env mixed_disk empty_db in
  let w := music_watcher in
  let t := music_transaction in
  ∃ t', ScanSubdirectory E 2 w "/music" (Subdirectory.mk 1 "/music" 0) 0 t false
        = Some t'
        ∧ new_songs t' = new_songs t ++ imported_tree E w (dir_ t) 2 "/music"
        ∧ deleted_songs t' = deleted_songs t
        ∧ touched_songs t' = touched_songs t
        ∧ readded_songs t' = readded_songs t.
Proof.
  intros E w t.
  apply (ScanSubdirectory_imports_new_tree E 2 w "/music"
           (Subdirectory.mk 1 "/music" 0) 0 t false);
    [reflexivity|reflexivity|reflexivity|by intros fingerprint
    |apply mixed_disk_plain|reflexivity].
Defined.

(** ** A file that has moved *)

Section Relocation.

Context (E : Env).

Lemma Song_eqb_refl s : Song.eqb s s = true.
Proof. unfold Song.eqb. by rewrite !Z.eqb_refl, String.eqb_refl. Qed.

Lemma Song_eqb_sym a b : Song.eqb a b = Song.eqb b a.
Proof.
  unfold Song.eqb.
  by rewrite (Z.eqb_sym (Song.source a)), (String.eqb_sym (Song.url a)),
    (Z.eqb_sym (Song.beginning_nanosec a)).
Qed.

Lemma removeAll_absent record l :
  Song.list_contains l record = false → Song.removeAll record l = l.
Proof.
  unfold Song.list_contains, Song.removeAll.
  induction l as [|x l IH]; [done|]. cbn [existsb List.filter].
  intros [Hx Hl]%orb_false_elim. rewrite Song_eqb_sym, Hx. cbn [negb].
  by rewrite IH.
Qed.

Lemma removeAll_not_elem record l : record ∉ Song.removeAll record l.
Proof.
  unfold Song.removeAll. intros [_ H]%elem_of_List_filter.
  by rewrite Song_eqb_refl in H.
Qed.

(** What the loop over the stored songs files as deleted was deleted
    before, or has a path that no file has taken over. *)
Lemma look_for_deleted_deleted songs_in_db files_on_disk : ∀ t s,
  s ∈ deleted_songs (look_for_deleted songs_in_db files_on_disk t) →
  s ∈ deleted_songs t ∨ Song.url s ∉ files_changed_path_ t.
Proof.
  unfold look_for_deleted.
  induction songs_in_db as [|song rest IH]; intros t s Hs; [by left|].
  cbn [fold_left] in Hs. apply IH in Hs.
  destruct (negb (Song.is_unavailable song)
            && negb (QString.list_contains files_on_disk (Song.url song))
            && negb (QString.list_contains (files_changed_path_ t) (Song.url song)))
    eqn:Hcond; [|done].
  record_simpl. destruct Hs as [[Hs| ->%list_elem_of_singleton]%elem_of_app|Hs];
    [by left| |by right].
  right. apply andb_prop in Hcond as [_ Hcond].
  apply negb_true_iff in Hcond. by apply list_contains_not_elem.
Qed.

(** A file that has no record under its path but whose fingerprint is
    the one of a stored record with a vacated path is the moved file of
    that record: the old path is noted as changed, the record is taken
    out of the songs to delete, and the song read from the file is filed
    once, with the id and the user data of the record, as touched when
    nothing but the mtime can differ and as new or updated otherwise.
    Whatever the search for deleted songs is run on afterwards, it does
    not file the record as deleted. *)
Theorem scan_file_relocates_record (w : CollectionWatcher) (path : string)
    (songs_in_db : list Song.t) (file : string) (record : Song.t)
    (t : ScanTransaction) (files_on_disk : list string)
    (album_art : gmap string (list string)) (cues_processed : gset string) :
  FindSongByPath songs_in_db file = None →
  song_tracking_ w = true →
  QString.isEmpty (file_fingerprint E w file) = false →
  String.eqb (file_fingerprint E w file) "NONE" = false →
  FindSongByFingerprint E file (file_fingerprint E w file) = Some record →
  fs_exists E file = true →
  Song.has_cue record = false →
  GetMtimeForCue E (NoExtensionPart E file +:+ ".cue") = 0 →
  Song.is_valid (ReadFileBlocking E file
                   (Song.set_directory_id (dir_ t) (Song.init (source_ w)))) = true →
  ∃ t' album_art' out,
    scan_file E w path songs_in_db file (t, files_on_disk, album_art, cues_processed)
    = (t', files_on_disk, album_art', cues_processed)
    ∧ files_changed_path_ t' = files_changed_path_ t ++ [Song.url record]
    ∧ deleted_songs t' = Song.removeAll record (deleted_songs t)
    ∧ readded_songs t'
      = readded_songs t
        ++ (if Song.is_unavailable record then [Song.set_url file record] else [])
    ∧ Song.id out = Song.id record
    ∧ Song.user_data out = Song.user_data record
    ∧ Song.source out = source_ w
    ∧ Song.fingerprint out = file_fingerprint E w file
    ∧ (if only_mtime_differs (Song.set_url file record) out
       then new_songs t' = new_songs t ∧ touched_songs t' = touched_songs t ++ [out]
       else new_songs t' = new_songs t ++ [out] ∧ touched_songs t' = touched_songs t)
    ∧ ∀ songs files,
        record ∉ deleted_songs (look_for_deleted songs files t').
Proof.
  intros Hpath Htracking Hempty Hnone Hmatch Hexists Hcue Hsheet Hvalid.
  unfold scan_file. rewrite Hpath. cbn zeta.
  rewrite Htracking, Hempty, Hnone, Hmatch. cbn [negb andb].
  rewrite Hexists. cbn [negb].
  assert (Song.has_cue (Song.set_url file record) = false) as Hcue' by exact Hcue.
  rewrite Hcue', Hsheet, andb_false_r. cbn [Z.eqb negb andb orb].
  destruct (ImageForSong E w file album_art) as [[image album_art'] probes].
  unfold update_matched. rewrite Hcue'. cbn [negb andb orb].
  set (t1 := if Song.list_contains _ record then _ else _).
  assert (deleted_songs t1 = Song.removeAll record (deleted_songs t)
          ∧ files_changed_path_ t1 = files_changed_path_ t ++ [Song.url record]
          ∧ new_songs t1 = new_songs t ∧ touched_songs t1 = touched_songs t
          ∧ readded_songs t1 = readded_songs t ∧ dir_ t1 = dir_ t)
    as (Hdel1 & Hfcp1 & Hnew1 & Htouched1 & Hreadded1 & Hdir1).
  { subst t1. record_simpl.
    destruct (Song.list_contains (deleted_songs t) record) eqn:Hin; record_simpl;
      [done|]. by rewrite removeAll_absent. }
  pose proof (UpdateNonCueAssociatedSong_refiles E w file (file_fingerprint E w file)
                (Song.set_url file record) image false (probe probes t1)) as Hfiled.
  cbn zeta in Hfiled.
  pose proof (UpdateNonCueAssociatedSong_changed_path E w file
                (file_fingerprint E w file) (Song.set_url file record) image false
                (probe probes t1)) as Hfcp2.
  set (t2 := UpdateNonCueAssociatedSong E w file _ _ image false _) in *.
  change (dir_ (probe probes t1)) with (dir_ t1) in Hfiled.
  rewrite Hdir1 in Hfiled.
  destruct Hfiled as (Hdel2 & Hreadded2 & _ & Hout).
  destruct (Hout Hvalid) as (out & Hid & Huser & Hsource & Hfp & _ & Hfile).
  record_simpl. rewrite app_nil_r in Hdel2.
  set (t3 := if Song.is_unavailable (Song.set_url file record) then _ else t2).
  assert (deleted_songs t3 = deleted_songs t2
          ∧ files_changed_path_ t3 = files_changed_path_ t2
          ∧ new_songs t3 = new_songs t2 ∧ touched_songs t3 = touched_songs t2
          ∧ readded_songs t3
            = readded_songs t2
              ++ (if Song.is_unavailable record then [Song.set_url file record]
                  else []))
    as (Hdel3 & Hfcp3 & Hnew3 & Htouched3 & Hreadded3).
  { subst t3. change (Song.is_unavailable (Song.set_url file record))
      with (Song.is_unavailable record).
    destruct (Song.is_unavailable record); record_simpl; [done|].
    by rewrite app_nil_r. }
  exists (AddToProgress 1 t3), album_art', out. split; [done|].
  change (files_changed_path_ (AddToProgress 1 t3)) with (files_changed_path_ t3).
  change (deleted_songs (AddToProgress 1 t3)) with (deleted_songs t3).
  change (readded_songs (AddToProgress 1 t3)) with (readded_songs t3).
  change (new_songs (AddToProgress 1 t3)) with (new_songs t3).
  change (touched_songs (AddToProgress 1 t3)) with (touched_songs t3).
  rewrite Hfcp3, Hfcp2, Hdel3, Hdel2, Hreadded3, Hreadded2, Hnew3, Htouched3.
  record_simpl. rewrite Hfcp1, Hdel1, Hreadded1.
  repeat (split; [done|]).
  split.
  { destruct (only_mtime_differs (Song.set_url file record) out);
      by rewrite <- Hnew1, <- Htouched1. }
  intros songs files Hin.
  apply look_for_deleted_deleted in Hin as [Hin|Hin].
  - change (deleted_songs (AddToProgress 1 t3)) with (deleted_songs t3) in Hin.
    rewrite Hdel3, Hdel2 in Hin. record_simpl. rewrite Hdel1 in Hin.
    by apply removeAll_not_elem in Hin.
  - apply Hin.
    change (files_changed_path_ (AddToProgress 1 t3)) with (files_changed_path_ t3).
    rewrite Hfcp3, Hfcp2. record_simpl. rewrite Hfcp1.
    apply elem_of_app. right. apply list_elem_of_here.
Qed.

End Relocation.

Lemma scan_file_relocates_record_witness :
  let E := renamed_track_env in
  let w := tracking_watcher in
  let file := "/music/c.mp3" in
  let record := Song.mk 1 true 2 "/music/a.mp3" 1 50 "fp:x" false EmptyString
                  EmptyString EmptyString false 0 "title" 0 in
  let t := music_transaction in
  ∃ t' album_art' out,
    scan_file E w "/music" (db_songs fingerprinted_db) file (t, [file], ∅, ∅)
    = (t', [file], album_art', ∅)
    ∧ files_changed_path_ t' = files_changed_path_ t ++ [Song.url record]
    ∧ deleted_songs t' = Song.removeAll record (deleted_songs t)
    ∧ readded_songs t'
      = readded_songs t
        ++ (if Song.is_unavailable record then [Song.set_url file record] else [])
    ∧ Song.id out = Song.id record
    ∧ Song.user_data out = Song.user_data record
    ∧ Song.source out = source_ w
    ∧ Song.fingerprint out = file_fingerprint E w file
    ∧ (if only_mtime_differs (Song.set_url file record) out
       then new_songs t' = new_songs t ∧ touched_songs t' = touched_songs t ++ [out]
       else new_songs t' = new_songs t ++ [out] ∧ touched_songs t' = touched_songs t)
    ∧ ∀ songs files,
        record ∉ deleted_songs (look_for_deleted songs files t').
Proof.
  intros E w file record t.
  apply (scan_file_relocates_record E w "/music" (db_songs fingerprinted_db) file
           record t [file] ∅ ∅); reflexivity.
Defined.

(** ** The progress of a walk *)

Section Credits.

Context (E : Env).

Lemma UpdateSong_progress matching out t :
  progress_ (UpdateSong matching out t) = progress_ t.
Proof.
  rewrite UpdateSong_decision. by destruct (only_mtime_differs matching out).
Qed.

Lemma drop_sections_progress (keep : Song.t → bool) (old : list Song.t) : ∀ t,
  progress_ (fold_left (λ t song,
                 if negb (keep song)
                 then set_deleted_songs (deleted_songs t ++ [song]) t
                 else t) old t)
  = progress_ t.
Proof.
  induction old as [|song old IH]; intros t; [done|].
  cbn [fold_left]. rewrite IH. by destruct (negb (keep song)).
Qed.

Lemma update_cue_section_progress w fingerprint image sections_map st cue_song :
  progress_ (update_cue_section w fingerprint image sections_map st cue_song).1
  = progress_ st.1.
Proof.
  destruct st as [t used]. unfold update_cue_section. cbn zeta. cbn [fst].
  destruct (negb (Song.is_valid _)); cbn [fst]; [done|].
  apply UpdateSong_progress.
Qed.

Lemma UpdateCueAssociatedSongs_progress w file path fingerprint matching_cue image t :
  progress_ (UpdateCueAssociatedSongs E w file path fingerprint matching_cue image t)
  = progress_ t.
Proof.
  unfold UpdateCueAssociatedSongs.
  destruct (negb (fs_exists E matching_cue) || negb (fs_open E matching_cue));
    [done|].
  cbn zeta.
  set (sections_map := fold_left _ (GetSongsByUrl (backend E) file) ∅).
  assert (∀ l st,
            progress_ (fold_left (update_cue_section w fingerprint image sections_map)
                         l st).1 = progress_ st.1) as Hloop.
  { induction l as [|cue_song l IH]; intros st; [done|].
    cbn [fold_left]. rewrite IH. apply update_cue_section_progress. }
  specialize (Hloop (cue_Load E matching_cue path) (t, ∅)).
  destruct (fold_left (update_cue_section w fingerprint image sections_map) _ _)
    as [t1 used_ids]. cbn [fst] in Hloop.
  by rewrite (drop_sections_progress (λ m, bool_decide (Song.id m ∈ used_ids))).
Qed.

Lemma UpdateNonCueAssociatedSong_progress w file fingerprint matching_song image
    cue_deleted t :
  progress_ (UpdateNonCueAssociatedSong E w file fingerprint matching_song image
               cue_deleted t)
  = progress_ t.
Proof.
  unfold UpdateNonCueAssociatedSong. cbn zeta.
  set (t1 := if cue_deleted then _ else t).
  assert (progress_ t1 = progress_ t) as Ht1.
  { subst t1. destruct cue_deleted; [|done].
    apply (drop_sections_progress
             (λ s, Song.IsMetadataAndMoreEqual s matching_song)). }
  destruct (Song.is_valid _); [|done].
  by rewrite UpdateSong_progress.
Qed.

Lemma update_matched_progress w file path fingerprint matching_cue image
    matching_song cue_deleted cue_added t :
  progress_ (update_matched E w file path fingerprint matching_cue image
               matching_song cue_deleted cue_added t)
  = progress_ t.
Proof.
  unfold update_matched. destruct (negb cue_deleted && _).
  - apply UpdateCueAssociatedSongs_progress.
  - apply UpdateNonCueAssociatedSong_progress.
Qed.

Lemma add_new_songs_progress (f : ScanTransaction → Song.t → Song.t) songs : ∀ t,
  progress_ (fold_left (λ t song, set_new_songs (new_songs t ++ [f t song]) t)
               songs t)
  = progress_ t.
Proof.
  induction songs as [|song songs IH]; intros t; [done|].
  cbn [fold_left]. by rewrite IH.
Qed.

(** Every file of the file loop credits one unit. *)
Lemma scan_file_credits w path songs_in_db file t files_on_disk album_art cues :
  progress_ (scan_file E w path songs_in_db file
               (t, files_on_disk, album_art, cues)).1.1.1
  = u64 (progress_ t + 1).
Proof.
  unfold scan_file.
  destruct (FindSongByPath songs_in_db file) as [matching_song|].
  - destruct (fs_exists E file); cbn [negb]; [|done].
    cbn zeta.
    destruct (ImageForSong E w file album_art) as [[image album_art'] probes].
    cbn [fst]. unfold AddToProgress. record_simpl. do 2 f_equal.
    set (t1 := if _ || _ || _ then _ else probe probes t).
    assert (progress_ t1 = progress_ t) as Ht1.
    { subst t1. destruct (_ || _ || _); [|done].
      by rewrite update_matched_progress. }
    by destruct (Song.is_unavailable matching_song).
  - cbn zeta.
    destruct (if song_tracking_ w && _ && _ then _ else None) as [matching_song|].
    + set (t1 := set_files_changed_path_ _ t).
      set (t2 := if Song.list_contains _ matching_song then _ else t1).
      assert (progress_ t2 = progress_ t) as Ht2.
      { subst t2. by destruct (Song.list_contains _ _). }
      destruct (fs_exists E file); cbn [negb].
      2: { cbn [fst]. unfold AddToProgress. record_simpl. by rewrite Ht2. }
      cbn zeta.
      destruct (ImageForSong E w file album_art) as [[image album_art'] probes].
      cbn [fst]. unfold AddToProgress. record_simpl. do 2 f_equal.
      match goal with
      | |- context [update_matched E w ?f ?p ?fp ?mc ?im ?ms ?cd ?ca ?tt] =>
          assert (progress_ (update_matched E w f p fp mc im ms cd ca tt)
                  = progress_ t) as Ht3
      end.
      { by rewrite update_matched_progress. }
      by destruct (Song.is_unavailable _).
    + destruct (ScanNewFile E w file path (file_fingerprint E w file) _ cues)
        as [songs cues'].
      destruct (negb (nonempty songs)); [done|].
      destruct (ImageForSong E w file album_art) as [[image album_art'] probes].
      cbn [fst]. unfold AddToProgress. record_simpl. do 2 f_equal.
      by rewrite (add_new_songs_progress
                    (λ t song,
                       let song := Song.set_directory_id (dir_ t) song in
                       if QString.isEmpty (Song.art_automatic song)
                       then Song.set_art_automatic image song else song)).
Qed.

Lemma scan_files_credits w path songs_in_db files :
  stop_requested_ w = false →
  ∀ t files_on_disk album_art cues,
    0 ≤ progress_ t < 2 ^ 64 →
    ∃ t' files_on_disk' album_art' cues',
      scan_files E w path songs_in_db files (t, files_on_disk, album_art, cues)
      = Next (t', files_on_disk', album_art', cues')
      ∧ progress_ t' = u64 (progress_ t + Z.of_nat (length files)).
Proof.
  intros Hstop. induction files as [|file rest IH];
    intros t files_on_disk album_art cues Hrange.
  { exists t, files_on_disk, album_art, cues. split; [done|].
    cbn [length]. change (Z.of_nat 0) with 0. rewrite Z.add_0_r.
    symmetry. by apply u64_small. }
  cbn [scan_files]. rewrite Hstop.
  pose proof (scan_file_credits w path songs_in_db file t files_on_disk album_art
                cues) as Hcredit.
  destruct (scan_file E w path songs_in_db file (t, files_on_disk, album_art, cues))
    as [[[t1 fod1] aa1] cues1]. cbn [fst] in Hcredit.
  destruct (IH t1 fod1 aa1 cues1) as (t' & fod' & aa' & cues' & -> & Hp).
  { rewrite Hcredit. apply u64_range. }
  exists t', fod', aa', cues'. split; [done|].
  rewrite Hp, Hcredit, u64_add_l. f_equal. cbn [length]. lia.
Qed.

Lemma look_for_deleted_progress songs_in_db files_on_disk : ∀ t,
  progress_ (look_for_deleted songs_in_db files_on_disk t) = progress_ t.
Proof.
  unfold look_for_deleted.
  induction songs_in_db as [|song rest IH]; intros t; [done|].
  cbn [fold_left]. rewrite IH. by destruct (_ && _ && _).
Qed.

Lemma add_subdir_record_progress path subdir t :
  progress_ (add_subdir_record E path subdir t) = progress_ t.
Proof.
  unfold add_subdir_record. cbn zeta.
  by destruct (Subdirectory.directory_id subdir =? -1);
    destruct (Subdirectory.mtime _ =? 0).
Qed.

Lemma songs_missing_fingerprint_progress w path t :
  progress_ (songs_missing_fingerprint E w path t).2 = progress_ t.
Proof.
  unfold songs_missing_fingerprint. destruct (_ && _); [|done].
  apply HasSongsWithMissingFingerprint_progress.
Qed.

Lemma FindSongsInSubdirectory_progress path t :
  progress_ (FindSongsInSubdirectory E path t).2 = progress_ t.
Proof.
  unfold FindSongsInSubdirectory. cbn zeta. cbn [snd].
  by destruct (cached_songs_dirty_ t).
Qed.

(** No known child to rescan when each is on disk. *)
Lemma rescan_removed_nothing rec path previous_subdirs t :
  (∀ sd, sd ∈ previous_subdirs →
         fs_exists E (Subdirectory.path sd) = true ∨ Subdirectory.path sd = path) →
  rescan_removed E rec path previous_subdirs t = Some t.
Proof.
  induction previous_subdirs as [|prev rest IH]; intros Hall; [done|].
  cbn [rescan_removed].
  destruct (Hall prev (list_elem_of_here _ _)) as [-> | ->]; cbn [negb andb].
  - apply IH. intros sd Hin. by apply Hall, list_elem_of_further.
  - rewrite String.eqb_refl, andb_false_r.
    apply IH. intros sd Hin. by apply Hall, list_elem_of_further.
Qed.

Lemma List_filter_none {A} (f : A → bool) (l : list A) :
  (∀ x, x ∈ l → f x = false) → List.filter f l = [].
Proof.
  induction l as [|x l IH]; intros Hall; [done|]. cbn [List.filter].
  rewrite (Hall x) by apply list_elem_of_here.
  apply IH. intros y Hy. by apply Hall, list_elem_of_further.
Qed.

Lemma List_filter_split {A} (f : A → bool) (l : list A) :
  (length (List.filter (λ x, negb (f x)) l) + length (List.filter f l))%nat
  = length l.
Proof.
  induction l as [|x l IH]; [done|]. cbn [List.filter].
  destruct (f x); cbn [negb length]; lia.
Qed.

(** A walk credits one unit of progress for every entry of the directory
    it reads, whatever the estimate was that the shortcut would have
    credited: when it has no subdirectory to go into (none of the
    entries is a new subdirectory, and every ledger entry right below
    the directory is on disk), a walk of a directory returns with the
    progress raised by the number of entries; the progress maximum is as
    before. *)
Theorem ScanSubdirectory_credits_each_entry (fuel : nat) (w : CollectionWatcher)
    (path : string) (subdir : Subdirectory.t) (files_count : Z)
    (t : ScanTransaction) (force_noincremental : bool) :
  stop_requested_ w = false →
  symlink_into_collection E w path = false →
  has_nomedia_marker E path = false →
  unchanged_since_last_time E path subdir
    (songs_missing_fingerprint E w path t).2 force_noincremental
    (songs_missing_fingerprint E w path t).1 = false →
  0 ≤ progress_ t < 2 ^ 64 →
  (∀ sd, sd ∈ subdirs_of E t →
         QString.left_lastIndexOf "/" (Subdirectory.path sd) = path →
         fs_exists E (Subdirectory.path sd) = true ∨ Subdirectory.path sd = path) →
  (∀ child, child ∈ fs_entries E path →
            is_new_subdir E (subdirs_of E t) child = false) →
  ∃ t', ScanSubdirectory E (S fuel) w path subdir files_count t force_noincremental
        = Some t'
        ∧ progress_ t' = u64 (progress_ t + Z.of_nat (length (fs_entries E path)))
        ∧ progress_max_ t' = progress_max_ t.
Proof.
  intros Hstop Hsym Hmark Hwalk Hrange Hledger Hnew.
  assert (∃ t', ScanSubdirectory E (S fuel) w path subdir files_count t
                  force_noincremental = Some t'
                ∧ progress_ t'
                  = u64 (progress_ t + Z.of_nat (length (fs_entries E path))))
    as (t' & Hscan & Hp).
  2: { exists t'. split; [done|]. split; [done|].
       apply (ck_progress_max _ _ (ScanSubdirectory_kept E _ _ _ _ _ _ _ _ Hscan)). }
  cbn [ScanSubdirectory]. rewrite Hsym, Hmark.
  pose proof (songs_missing_fingerprint_step E w path t) as Hs0.
  pose proof (songs_missing_fingerprint_progress w path t) as Hp0.
  destruct (songs_missing_fingerprint E w path t) as [missing t0].
  cbn [fst snd] in Hwalk, Hs0, Hp0. rewrite Hwalk.
  (* no known child is gone *)
  pose proof (GetImmediateSubdirs_elem E path t0) as Hprev.
  pose proof (GetImmediateSubdirs_step E path t0) as Hs1.
  assert (progress_ (GetImmediateSubdirs E path t0).2 = progress_ t0) as Hp1
    by apply populate_known_subdirs_progress.
  destruct (GetImmediateSubdirs E path t0) as [previous_subdirs t1].
  cbn [fst snd] in Hprev, Hs1, Hp1.
  rewrite rescan_removed_nothing.
  2: { intros sd [Hin Hparent]%Hprev. apply Hledger; [|done].
       by rewrite <- (ws_subdirs _ _ _ Hs0). }
  (* the listing *)
  destruct (enumerate_children_lists E w (fs_entries E path) Hstop
              (probe [Enumerate path] t1) ∅ [] [])
    as (t2 & album_art & -> & _ & Hp2 & Hr2 & _).
  rewrite (ws_subdirs _ _ _ (probe_step E _ t1)), (ws_subdirs _ _ _ Hs1),
    (ws_subdirs _ _ _ Hs0), (List_filter_none _ _ Hnew).
  cbn [app map]. rewrite Hstop.
  change (progress_ (probe [Enumerate path] t1)) with (progress_ t1) in Hp2, Hr2.
  rewrite Hp1, Hp0 in Hp2, Hr2. specialize (Hr2 Hrange).
  rewrite (u64_small _ Hr2) in Hp2.
  (* the files *)
  pose proof (FindSongsInSubdirectory_progress path t2) as Hp3.
  destruct (FindSongsInSubdirectory E path t2) as [songs_in_db t3].
  cbn [snd] in Hp3.
  destruct (scan_files_credits w path songs_in_db
              (List.filter (is_media_file E) (fs_entries E path)) Hstop
              t3 (List.filter (is_media_file E) (fs_entries E path)) album_art ∅)
    as (t4 & files_on_disk & album_art' & cues & -> & Hp4).
  { by rewrite Hp3. }
  cbn [scan_new_subdirs]. eexists. split; [reflexivity|].
  rewrite add_subdir_record_progress, look_for_deleted_progress, Hp4, Hp3, Hp2,
    u64_add_l.
  f_equal. rewrite <- (List_filter_split (is_media_file E) (fs_entries E path)).
  lia.
Qed.

End Credits.

Lemma ScanSubdirectory_credits_each_entry_witness :
  let E := disk_env mixed_disk
             {| db_songs := []; db_subdirs := [Subdirectory.mk 1 "/music" 100;
                                               Subdirectory.mk 1 "/music/live" 110];
                db_next_id := 1 |} in
  let w := music_watcher in
  let t := music_transaction in
  ∃ t', ScanSubdirectory E 1 w "/music" (Subdirectory.mk 1 "/music" 100) 0 t false
        = Some t'
        ∧ progress_ t' = u64 (progress_ t + Z.of_nat (length (fs_entries E "/music")))
        ∧ progress_max_ t' = progress_max_ t.
Proof.
  intros E w t.
  apply (ScanSubdirectory_credits_each_entry E 0 w "/music"
           (Subdirectory.mk 1 "/music" 100) 0 t false);
    [reflexivity|reflexivity|reflexivity|reflexivity|cbn; lia| |].
  - intros sd Hin Hparent.
    change (sd ∈ [Subdirectory.mk 1 "/music" 100;
                  Subdirectory.mk 1 "/music/live" 110]) in Hin.
    repeat (apply elem_of_cons in Hin as [->|Hin]); [..|by apply elem_of_nil in Hin].
    + by right.
    + by left.
  - intros child Hin.
    change (child ∈ ["/music/a.mp3"; "/music/cover.jpg"; "/music/notes.txt";
                     "/music/live"]) in Hin.
    repeat (apply elem_of_cons in Hin as [->|Hin]); [..|by apply elem_of_nil in Hin];
      reflexivity.
Defined.

(** ** The commit of a transaction: deltas and watch set *)

Section CommitWatches.

Context (E : Env).

Lemma watched_for_spec dir (entry : option Directory.t) :
  watched_for dir entry = true ↔ entry = Some dir.
Proof.
  unfold watched_for. destruct entry as [d|]; [|done].
  rewrite Directory_eqb_eq. split; [by intros ->|by intros [= ->]].
Qed.

Lemma RemoveWatch_unfold dir subdir w :
  RemoveWatch dir subdir w
  = if watched_for dir (subdir_mapping_ w !! Subdirectory.path subdir)
    then set_subdir_mapping_
           (delete (Subdirectory.path subdir) (subdir_mapping_ w))
           (emit (WatcherRemovePath (Subdirectory.path subdir)) w)
    else w.
Proof.
  unfold RemoveWatch.
  destruct (QString.list_contains _ _) eqn:Hin.
  - apply list_contains_elem, QHash_keys_elem in Hin as (d & Hd & ->%Directory_eqb_eq).
    by rewrite (proj2 (watched_for_spec _ _) Hd).
  - destruct (watched_for dir _) eqn:Hd; [|done].
    apply watched_for_spec in Hd.
    assert (QString.list_contains (QHash_keys (subdir_mapping_ w) dir)
              (Subdirectory.path subdir) = true) as Hyes; [|congruence].
    apply list_contains_elem, QHash_keys_elem. exists dir. split; [done|].
    by apply Directory_eqb_eq.
Qed.

(** The loop over the deleted subdirectories: each path watched for the
    root is removed, once. *)
Lemma remove_watches_fold dir (subdirs : list Subdirectory.t) : ∀ w,
  ∃ removed,
    emitted (fold_left (λ w subdir, RemoveWatch dir subdir w) subdirs w)
    = emitted w ++ (WatcherRemovePath <$> removed)
    ∧ NoDup removed
    ∧ (∀ p, p ∈ removed ↔
            p ∈ Subdirectory.path <$> subdirs ∧ subdir_mapping_ w !! p = Some dir)
    ∧ (∀ p, subdir_mapping_
              (fold_left (λ w subdir, RemoveWatch dir subdir w) subdirs w) !! p
            = if bool_decide (p ∈ removed) then None else subdir_mapping_ w !! p)
    ∧ watcher_kept w (fold_left (λ w subdir, RemoveWatch dir subdir w) subdirs w).
Proof.
  induction subdirs as [|sd rest IH]; intros w; cbn [fold_left].
  { exists []. rewrite app_nil_r. split; [done|]. split; [constructor|].
    split; [|split; [done|apply watcher_kept_refl]].
    intros p. split; [by intros ?%elem_of_nil|]. by intros [?%elem_of_nil _]. }
  destruct (IH (RemoveWatch dir sd w)) as (removed & Hemit & Hnodup & Hin & Hmap & Hkept).
  pose proof (RemoveWatch_kept dir sd w) as Hk1.
  rewrite RemoveWatch_unfold in Hemit, Hin, Hmap, Hk1, Hkept |- *.
  destruct (watched_for dir (subdir_mapping_ w !! Subdirectory.path sd))
    eqn:Hwatched.
  - apply watched_for_spec in Hwatched. record_simpl.
    assert (Subdirectory.path sd ∉ removed) as Hfresh.
    { intros [_ H]%Hin. by rewrite lookup_delete_eq in H. }
    exists (Subdirectory.path sd :: removed).
    split; [by rewrite Hemit, <- app_assoc|].
    split; [by constructor|]. split; [|split].
    + intros p. rewrite elem_of_cons, Hin, fmap_cons, elem_of_cons. split.
      * intros [->|[Hp Hd]]; [auto|].
        destruct (decide (p = Subdirectory.path sd)) as [->|Hne];
          [by rewrite lookup_delete_eq in Hd|].
        rewrite lookup_delete_ne in Hd by done. auto.
      * intros [[->|Hp] Hd]; [by left|].
        destruct (decide (p = Subdirectory.path sd)) as [->|Hne]; [by left|].
        right. split; [done|]. by rewrite lookup_delete_ne.
    + intros p. rewrite Hmap.
      destruct (decide (p = Subdirectory.path sd)) as [->|Hne].
      * rewrite (bool_decide_eq_true_2 (_ ∈ _ :: _)) by apply list_elem_of_here.
        rewrite lookup_delete_eq. by destruct (bool_decide _).
      * rewrite lookup_delete_ne by done.
        destruct (bool_decide (p ∈ removed)) eqn:Hp.
        -- apply bool_decide_eq_true in Hp.
           by rewrite bool_decide_eq_true_2 by (by apply list_elem_of_further).
        -- apply bool_decide_eq_false in Hp.
           rewrite bool_decide_eq_false_2; [done|].
           by intros [?|?]%elem_of_cons.
    + eapply watcher_kept_trans; [exact Hk1|exact Hkept].
  - assert (subdir_mapping_ w !! Subdirectory.path sd ≠ Some dir) as Hnot.
    { intros Hd%watched_for_spec. congruence. }
    exists removed. split; [done|]. split; [done|]. split; [|done].
    intros p. rewrite Hin, fmap_cons, elem_of_cons. split; [intros []; auto|].
    intros [[->|Hp] Hd]; [done|auto].
Qed.

(** The loop over the new subdirectories: each path that exists is added
    to the file-system watcher and watched for the root. *)
Lemma add_watches_fold dir (subdirs : list Subdirectory.t) : ∀ w,
  let added := List.filter (fs_exists E) (Subdirectory.path <$> subdirs) in
  let w' := fold_left (λ w subdir, AddWatch E dir (Subdirectory.path subdir) w)
              subdirs w in
  emitted w' = emitted w ++ (WatcherAddPath <$> added)
  ∧ (∀ p, subdir_mapping_ w' !! p
          = if bool_decide (p ∈ added) then Some dir else subdir_mapping_ w !! p)
  ∧ watcher_kept w w'.
Proof.
  induction subdirs as [|sd rest IH]; intros w; cbn zeta;
    cbn [fold_left fmap list_fmap List.filter].
  { rewrite app_nil_r. split; [done|]. split; [done|apply watcher_kept_refl]. }
  destruct (IH (AddWatch E dir (Subdirectory.path sd) w)) as (Hemit & Hmap & Hkept).
  pose proof (AddWatch_kept E dir (Subdirectory.path sd) w) as Hk1.
  split; [|split; [|by eapply watcher_kept_trans]].
  - rewrite Hemit. unfold AddWatch.
    destruct (fs_exists E (Subdirectory.path sd)); cbn [negb]; record_simpl;
      [|done].
    by rewrite fmap_cons, <- app_assoc.
  - intros p. rewrite Hmap. unfold AddWatch.
    destruct (fs_exists E (Subdirectory.path sd)) eqn:Hex; cbn [negb];
      record_simpl; [|done].
    destruct (decide (p = Subdirectory.path sd)) as [->|Hne].
    + rewrite lookup_insert_eq.
      rewrite (bool_decide_eq_true_2 (_ ∈ _ :: _)) by apply list_elem_of_here.
      by destruct (bool_decide _).
    + rewrite lookup_insert_ne by done.
      destruct (bool_decide (p ∈ List.filter (fs_exists E)
                               (Subdirectory.path <$> rest))) eqn:Hp.
      * apply bool_decide_eq_true in Hp.
        by rewrite bool_decide_eq_true_2 by (by apply list_elem_of_further).
      * apply bool_decide_eq_false in Hp.
        rewrite bool_decide_eq_false_2; [done|].
        by intros [?|?]%elem_of_cons.
Qed.

(** A loop of watch calls for the root of the transaction: the root is
    looked up in every round and found, or not, as before the loop. *)
Lemma fold_for_root {A} (root : Z)
    (step : Directory.t → CollectionWatcher → A → CollectionWatcher)
    (l : list A) :
  (∀ dir w a, watched_dirs_ (step dir w a) = watched_dirs_ w) →
  ∀ w, fold_left (λ w a, match watched_dirs_ w !! root with
                         | Some dir => step dir w a
                         | None => w
                         end) l w
       = match watched_dirs_ w !! root with
         | Some dir => fold_left (step dir) l w
         | None => w
         end.
Proof.
  intros Hstep. induction l as [|a l IH]; intros w; cbn [fold_left].
  { by destruct (watched_dirs_ w !! root). }
  rewrite IH. destruct (watched_dirs_ w !! root) as [dir|] eqn:Hroot;
    [|by rewrite Hroot].
  by rewrite Hstep, Hroot.
Qed.

(** C1: destroying a transaction while a stop is requested only reports
    the task as finished: none of its deltas is announced and the
    watcher is otherwise as before.  Without a stop request the
    destruction commits every delta set: each list of songs and of new
    and touched subdirectories that is not empty is announced whole, in
    one signal; then the deleted subdirectories are committed to the
    watch set, each of their paths that is watched for the root being
    removed from it and from the file-system watcher, once; then, with
    monitoring on, every new subdirectory that exists is added to both;
    then the last-seen time of the root is updated and the task
    reported finished.  Nothing else of the watcher changes. *)
Theorem ScanTransaction_destroy_commits_unless_stopped
    (w : CollectionWatcher) (t : ScanTransaction) :
  (stop_requested_ w = true →
     ScanTransaction_destroy E w t = emit (SetTaskFinished (task_id_ t)) w)
  ∧ (stop_requested_ w = false →
     ∃ removed added,
       emitted (ScanTransaction_destroy E w t)
       = emitted w ++ delta_signals t
           ++ (WatcherRemovePath <$> removed) ++ (WatcherAddPath <$> added)
           ++ [UpdateLastSeen (dir_ t) (expire_unavailable_songs_days_ t);
               SetTaskFinished (task_id_ t)]
       ∧ NoDup removed
       ∧ (∀ p, p ∈ removed ↔
               p ∈ Subdirectory.path <$> deleted_subdirs t
               ∧ ∃ dir, watched_dirs_ w !! dir_ t = Some dir
                        ∧ subdir_mapping_ w !! p = Some dir)
       ∧ added = (if monitor_ w && bool_decide (is_Some (watched_dirs_ w !! dir_ t))
                  then List.filter (fs_exists E)
                         (Subdirectory.path <$> new_subdirs t)
                  else [])
       ∧ (∀ p, subdir_mapping_ (ScanTransaction_destroy E w t) !! p
               = if bool_decide (p ∈ added) then watched_dirs_ w !! dir_ t
                 else if bool_decide (p ∈ removed) then None
                 else subdir_mapping_ w !! p)
       ∧ watcher_kept w (ScanTransaction_destroy E w t)
       ∧ next_task_ (ScanTransaction_destroy E w t) = next_task_ w
       ∧ last_scan_time_ (ScanTransaction_destroy E w t) = last_scan_time_ w).
Proof.
  split; [unfold ScanTransaction_destroy; by intros ->|].
  intros Hstop. unfold ScanTransaction_destroy. rewrite Hstop. cbn [negb].
  unfold CommitNewOrUpdatedSongs. cbn zeta. cbn [fst].
  set (w1 := if nonempty (deleted_songs t) then _ else w).
  assert (emitted w1 = emitted w
            ++ batch (if mark_songs_unavailable_ t
                      then SongsUnavailable else SongsDeleted) (deleted_songs t)
          ∧ subdir_mapping_ w1 = subdir_mapping_ w ∧ watcher_kept w w1
          ∧ next_task_ w1 = next_task_ w ∧ last_scan_time_ w1 = last_scan_time_ w)
    as (H1 & Hm1 & Hk1 & Hn1 & Hl1).
  { subst w1. unfold batch. destruct (nonempty (deleted_songs t));
      [|by rewrite app_nil_r].
    by destruct (mark_songs_unavailable_ t). }
  set (w6 := emit_unless_empty SubdirsMTimeUpdated _ _).
  assert (emitted w6 = emitted w ++ delta_signals t
          ∧ subdir_mapping_ w6 = subdir_mapping_ w ∧ watcher_kept w w6
          ∧ next_task_ w6 = next_task_ w ∧ last_scan_time_ w6 = last_scan_time_ w)
    as (H6 & Hm6 & Hk6 & Hn6 & Hl6).
  { subst w6. rewrite !emit_unless_empty_emitted, H1. unfold delta_signals.
    rewrite <- !app_assoc. split; [done|].
    unfold emit_unless_empty.
    destruct (nonempty (new_songs t)), (nonempty (touched_songs t)),
      (nonempty (readded_songs t)), (nonempty (new_subdirs t)),
      (nonempty (touched_subdirs t)); record_simpl;
      (split; [done|]; split; [|done]; destruct Hk1; by constructor). }
  rewrite (fold_for_root (dir_ t) (λ dir w subdir, RemoveWatch dir subdir w))
    by (intros; apply (wk_watched_dirs _ _ (RemoveWatch_kept _ _ _))).
  rewrite (wk_watched_dirs _ _ Hk6).
  destruct (watched_dirs_ w !! dir_ t) as [dir|] eqn:Hroot.
  - destruct (remove_watches_fold dir (deleted_subdirs t) w6)
      as (removed & H7 & Hnodup & Hin & Hm7 & Hk7).
    set (w7 := fold_left _ (deleted_subdirs t) w6) in *.
    rewrite (wk_monitor _ _ Hk7), (wk_monitor _ _ Hk6).
    rewrite (fold_for_root (dir_ t)
               (λ dir w subdir, AddWatch E dir (Subdirectory.path subdir) w))
      by (intros; apply (wk_watched_dirs _ _ (AddWatch_kept E _ _ _))).
    rewrite (wk_watched_dirs _ _ Hk7), (wk_watched_dirs _ _ Hk6), Hroot.
    rewrite (bool_decide_eq_true_2 (is_Some (Some dir))) by eauto.
    rewrite andb_true_r.
    exists removed.
    destruct (add_watches_fold dir (new_subdirs t) w7) as (H8 & Hm8 & Hk8).
    cbn zeta in H8, Hm8, Hk8.
    assert (next_task_ w7 = next_task_ w ∧ last_scan_time_ w7 = last_scan_time_ w)
      as [Hn7 Hl7].
    { rewrite <- Hn6, <- Hl6. subst w7.
      apply (watch_fold_kept (λ w subdir, RemoveWatch dir subdir w)).
      intros w0 a. split; [apply RemoveWatch_kept|apply RemoveWatch_times]. }
    destruct (monitor_ w).
    + eexists. record_simpl. rewrite H8, H7, H6, <- !app_assoc.
      split; [done|]. split; [done|].
      split; [intros p; rewrite Hin, Hm6; split;
              [intros [? ?]; eauto|intros [? (d & [= <-] & ?)]; auto]|].
      split; [done|].
      split; [intros p; by rewrite Hm8, Hm7, Hm6|].
      split; [eapply watcher_kept_trans; [exact Hk6|];
              eapply watcher_kept_trans; [exact Hk7|];
              eapply watcher_kept_trans; [exact Hk8|by constructor]|].
      set (w8 := fold_left _ (new_subdirs t) w7).
      assert (next_task_ w8 = next_task_ w7
              ∧ last_scan_time_ w8 = last_scan_time_ w7) as [Hn8 Hl8].
      { subst w8.
        apply (watch_fold_kept
                 (λ w subdir, AddWatch E dir (Subdirectory.path subdir) w)).
        intros w0 a. split; [apply AddWatch_kept|apply AddWatch_times]. }
      by rewrite Hn8, Hl8.
    + exists []. record_simpl. rewrite H7, H6, <- !app_assoc.
      split; [done|]. split; [done|].
      split; [intros p; rewrite Hin, Hm6; split;
              [intros [? ?]; eauto|intros [? (d & [= <-] & ?)]; auto]|].
      split; [done|].
      split; [intros p; by rewrite Hm7, Hm6|].
      split; [|done].
      eapply watcher_kept_trans; [exact Hk6|].
      eapply watcher_kept_trans; [exact Hk7|by constructor].
  - rewrite (fold_for_root (dir_ t)
               (λ dir w subdir, AddWatch E dir (Subdirectory.path subdir) w))
      by (intros; apply (wk_watched_dirs _ _ (AddWatch_kept E _ _ _))).
    rewrite (wk_watched_dirs _ _ Hk6), Hroot.
    rewrite (bool_decide_eq_false_2 (is_Some None)) by (by intros [? [=]]).
    rewrite andb_false_r.
    exists [], []. record_simpl.
    assert ((if monitor_ w6 then w6 else w6) = w6) as -> by (by destruct (monitor_ w6)).
    rewrite H6, <- !app_assoc.
    split; [done|]. split; [constructor|].
    split; [intros p; split; [by intros ?%elem_of_nil|by intros [_ (? & [=] & _)]]|].
    split; [done|]. split; [intros p; by rewrite Hm6|].
    split; [|done]. eapply watcher_kept_trans; [exact Hk6|by constructor].
Qed.

End CommitWatches.

Lemma ScanTransaction_destroy_commits_unless_stopped_witness :
  let E := disk_env moved_dir_disk one_track_db in
  let w := moved_dir_watcher in
  let t := pending_transaction in
  ScanTransaction_destroy E (set_stop_requested_ true w) t
  = emit (SetTaskFinished 0) (set_stop_requested_ true w)
  ∧ ∃ removed added,
      emitted (ScanTransaction_destroy E w t)
      = emitted w ++ delta_signals t
          ++ (WatcherRemovePath <$> removed) ++ (WatcherAddPath <$> added)
          ++ [UpdateLastSeen 1 60; SetTaskFinished 0]
      ∧ "/music/old" ∈ removed
      ∧ added = ["/music/new"]
      ∧ subdir_mapping_ (ScanTransaction_destroy E w t) !! "/music/old" = None
      ∧ subdir_mapping_ (ScanTransaction_destroy E w t) !! "/music/new"
        = Some music_root.
Proof.
  intros E w t.
  destruct (ScanTransaction_destroy_commits_unless_stopped E
              (set_stop_requested_ true w) t) as [Hstopped _].
  destruct (ScanTransaction_destroy_commits_unless_stopped E w t)
    as [_ Hcommitted].
  split; [exact (Hstopped eq_refl)|].
  destruct (Hcommitted eq_refl)
    as (removed & added & Hemit & _ & Hin & Hadded & Hmap & _).
  assert ("/music/old" ∈ removed) as Hold.
  { apply Hin. split; [apply list_elem_of_here|].
    exists music_root. split; vm_compute; reflexivity. }
  assert (added = ["/music/new"]) as Hnew.
  { rewrite Hadded. vm_compute. reflexivity. }
  exists removed, added. split; [exact Hemit|]. split; [exact Hold|].
  split; [exact Hnew|]. rewrite !Hmap, Hnew. split.
  - rewrite bool_decide_eq_false_2.
    + by rewrite bool_decide_eq_true_2.
    + intros H. apply list_elem_of_singleton in H. discriminate H.
  - rewrite bool_decide_eq_true_2 by apply list_elem_of_here.
    vm_compute. reflexivity.
Defined.

(** ** The artwork of the songs of a walk *)

Section ArtworkOfAWalk.

Context (E : Env).

Lemma files_songs_refl P t : files_songs P t t.
Proof.
  split; [done|]. exists [], []. rewrite !app_nil_r.
  split; [done|]. split; [done|]. by intros x ?%elem_of_nil.
Qed.

Lemma files_songs_trans P t1 t2 t3 :
  files_songs P t1 t2 → files_songs P t2 t3 → files_songs P t1 t3.
Proof.
  intros (Ht1 & n1 & c1 & Hn1 & Hc1 & HP1) (Ht2 & n2 & c2 & Hn2 & Hc2 & HP2).
  split; [congruence|]. exists (n1 ++ n2), (c1 ++ c2).
  split; [by rewrite Hn2, Hn1, <- app_assoc|].
  split; [by rewrite Hc2, Hc1, <- app_assoc|].
  intros x [[Hx|Hx]%elem_of_app|[Hx|Hx]%elem_of_app]%elem_of_app;
    [apply HP1|apply HP2|apply HP1|apply HP2]; apply elem_of_app; auto.
Qed.

Lemma files_songs_mono (P Q : Song.t → Prop) t t' :
  (∀ x, P x → Q x) → files_songs P t t' → files_songs Q t t'.
Proof.
  intros HPQ (Ht & n & c & Hn & Hc & HP). split; [done|].
  exists n, c. split; [done|]. split; [done|]. intros x Hx. by apply HPQ, HP.
Qed.

Lemma files_songs_none P t t' :
  trace t' = trace t → new_songs t' = new_songs t →
  touched_songs t' = touched_songs t → files_songs P t t'.
Proof.
  intros Ht Hn Hc. split; [done|]. exists [], []. rewrite !app_nil_r.
  split; [done|]. split; [done|]. by intros x ?%elem_of_nil.
Qed.

Lemma files_new_song P x t :
  P x → files_songs P t (set_new_songs (new_songs t ++ [x]) t).
Proof.
  intros Hx. split; [done|]. exists [x], []. split; [done|].
  split; [by rewrite app_nil_r|]. rewrite app_nil_r.
  by intros y ->%list_elem_of_singleton.
Qed.

Lemma UpdateSong_files P matching out t :
  P out → files_songs P t (UpdateSong matching out t).
Proof.
  intros Hout. rewrite UpdateSong_decision.
  destruct (only_mtime_differs matching out); [|by apply files_new_song].
  split; [done|]. exists [], [out]. split; [by rewrite app_nil_r|].
  split; [done|]. by intros y ->%list_elem_of_singleton.
Qed.

Lemma drop_sections_files P (keep : Song.t → bool) (old : list Song.t) : ∀ t0 t,
  files_songs P t0 t →
  files_songs P t0
    (fold_left (λ t song,
         if negb (keep song)
         then set_deleted_songs (deleted_songs t ++ [song]) t
         else t) old t).
Proof.
  induction old as [|song old IH]; intros t0 t Ht; [done|].
  cbn [fold_left]. apply IH. destruct (negb (keep song)); [|done].
  eapply files_songs_trans; [exact Ht|]. by apply files_songs_none.
Qed.

Lemma PreserveUserSetData_art matching image out :
  Song.art_automatic (PreserveUserSetData matching image out)
  = if Song.has_embedded_cover out then Song.art_automatic out else image.
Proof.
  unfold PreserveUserSetData, Song.MergeUserSetData, Song.has_embedded_cover.
  cbn zeta. cbn [Song.embedded_cover Song.set_id].
  by destruct (Song.embedded_cover out).
Qed.

Lemma update_cue_section_files w fingerprint image sections_map st cue_song :
  files_songs (λ x, (Song.art_automatic x = image
                     ∧ Song.has_embedded_cover cue_song = false)
                    ∨ Song.art_automatic x = Song.art_automatic cue_song)
    st.1 (update_cue_section w fingerprint image sections_map st cue_song).1.
Proof.
  destruct st as [t used]. unfold update_cue_section. cbn zeta. cbn [fst].
  destruct (negb (Song.is_valid _)); cbn [fst].
  - apply files_new_song. by right.
  - apply UpdateSong_files. rewrite PreserveUserSetData_art.
    change (Song.has_embedded_cover
              (Song.set_fingerprint fingerprint
                 (Song.set_directory_id (dir_ t)
                    (Song.set_source (source_ w) cue_song))))
      with (Song.has_embedded_cover cue_song).
    destruct (Song.has_embedded_cover cue_song); [by right|by left].
Qed.

Lemma UpdateCueAssociatedSongs_files w file path fingerprint matching_cue image t :
  files_songs (λ x, ∃ r, r ∈ cue_Load E matching_cue path
                         ∧ ((Song.art_automatic x = image
                             ∧ Song.has_embedded_cover r = false)
                            ∨ Song.art_automatic x = Song.art_automatic r))
    t (UpdateCueAssociatedSongs E w file path fingerprint matching_cue image t).
Proof.
  set (P := λ x, ∃ r, r ∈ cue_Load E matching_cue path
                      ∧ ((Song.art_automatic x = image
                          ∧ Song.has_embedded_cover r = false)
                         ∨ Song.art_automatic x = Song.art_automatic r)).
  unfold UpdateCueAssociatedSongs.
  destruct (negb (fs_exists E matching_cue) || negb (fs_open E matching_cue));
    [apply files_songs_refl|].
  cbn zeta.
  set (sections_map := fold_left _ (GetSongsByUrl (backend E) file) ∅).
  assert (∀ l st, (∀ r, r ∈ l → r ∈ cue_Load E matching_cue path) →
            files_songs P t st.1 →
            files_songs P t
              (fold_left (update_cue_section w fingerprint image sections_map)
                         l st).1) as Hloop.
  { induction l as [|cue_song l IH]; intros st Hl Hst; [done|].
    cbn [fold_left]. apply IH.
    - intros r Hr. by apply Hl, list_elem_of_further.
    - eapply files_songs_trans; [exact Hst|].
      eapply files_songs_mono; [|apply update_cue_section_files].
      intros x Hx. exists cue_song.
      split; [apply Hl, list_elem_of_here|exact Hx]. }
  specialize (Hloop (cue_Load E matching_cue path) (t, ∅) (λ r Hr, Hr)
                (files_songs_refl P t)).
  destruct (fold_left (update_cue_section w fingerprint image sections_map) _ _)
    as [t1 used_ids]. cbn [fst] in Hloop.
  by apply (drop_sections_files P (λ m, bool_decide (Song.id m ∈ used_ids))).
Qed.

Lemma UpdateNonCueAssociatedSong_files w file fingerprint matching_song image
    cue_deleted t :
  files_songs (λ x, ∃ seed,
                 (Song.art_automatic x = image
                  ∧ Song.has_embedded_cover (ReadFileBlocking E file seed) = false)
                 ∨ (Song.art_automatic x
                    = Song.art_automatic (ReadFileBlocking E file seed)
                    ∧ Song.has_embedded_cover (ReadFileBlocking E file seed)
                      = true))
    t (UpdateNonCueAssociatedSong E w file fingerprint matching_song image
         cue_deleted t).
Proof.
  set (P := λ x, ∃ seed, _).
  unfold UpdateNonCueAssociatedSong. cbn zeta.
  set (t1 := if cue_deleted then _ else t).
  assert (files_songs P t t1) as Ht1.
  { subst t1. destruct cue_deleted; [|apply files_songs_refl].
    apply (drop_sections_files P
             (λ s, Song.IsMetadataAndMoreEqual s matching_song)),
      files_songs_refl. }
  set (r := ReadFileBlocking E file _).
  destruct (Song.is_valid r); [|done].
  eapply files_songs_trans; [exact Ht1|]. apply UpdateSong_files.
  subst P. cbn beta. rewrite PreserveUserSetData_art.
  exists (Song.set_directory_id (dir_ t1) (Song.init (source_ w))). fold r.
  change (Song.has_embedded_cover
            (Song.set_fingerprint fingerprint (Song.set_source (source_ w) r)))
    with (Song.has_embedded_cover r).
  destruct (Song.has_embedded_cover r); [by right|by left].
Qed.

Lemma update_matched_files w file path fingerprint image matching_song
    cue_deleted cue_added t :
  files_songs (art_from E path file image) t
    (update_matched E w file path fingerprint (NoExtensionPart E file +:+ ".cue")
       image matching_song cue_deleted cue_added t).
Proof.
  unfold update_matched. destruct (negb cue_deleted && _).
  - eapply files_songs_mono; [|apply UpdateCueAssociatedSongs_files].
    intros x (r & Hr & [[Hx Hcover]|Hx]); exists r; (split; [by right|]).
    + left. split; [done|by left].
    + right. split; [done|]. by right; right.
  - eapply files_songs_mono; [|apply UpdateNonCueAssociatedSong_files].
    intros x (seed & [[Hx Hcover]|[Hx Hcover]]);
      exists (ReadFileBlocking E file seed); (split; [left; by exists seed|]).
    + left. split; [done|by left].
    + right. split; [done|by left].
Qed.

(** The songs [ScanNewFile] returns have the artwork the reader gave. *)
Lemma ScanNewFile_reader w file path fingerprint cues s :
  s ∈ (ScanNewFile E w file path fingerprint (NoExtensionPart E file +:+ ".cue")
         cues).1 →
  ∃ r, reader_gave E path file r ∧ Song.art_automatic s = Song.art_automatic r.
Proof.
  unfold ScanNewFile. cbn zeta.
  set (matching_cue := (NoExtensionPart E file +:+ ".cue")%string).
  destruct (negb (GetMtimeForCue E matching_cue =? 0)).
  - destruct (bool_decide (matching_cue ∈ cues)); [by intros ?%elem_of_nil|].
    destruct (negb (fs_exists E matching_cue) || negb (fs_open E matching_cue));
      [by intros ?%elem_of_nil|].
    assert (∀ sections songs,
              (∀ c, c ∈ sections → c ∈ cue_Load E matching_cue path) →
              (∀ x, x ∈ songs →
                    ∃ r, reader_gave E path file r
                         ∧ Song.art_automatic x = Song.art_automatic r) →
              ∀ x, x ∈ fold_left (λ songs cue_song,
                         if String.eqb
                              (normalized_NFD E
                                 (Song.url (Song.set_fingerprint fingerprint
                                              (Song.set_source (source_ w) cue_song))))
                              (normalized_NFD E file)
                         then if IsMediaFileBlocking E file
                              then songs ++ [Song.set_fingerprint fingerprint
                                               (Song.set_source (source_ w) cue_song)]
                              else songs
                         else songs) sections songs →
                   ∃ r, reader_gave E path file r
                        ∧ Song.art_automatic x = Song.art_automatic r) as Hloop.
    { induction sections as [|c sections IH]; intros songs Hsec Hsongs;
        cbn [fold_left]; [done|].
      apply IH; [intros c' Hc'; by apply Hsec, list_elem_of_further|].
      destruct (String.eqb _ _); [|done].
      destruct (IsMediaFileBlocking E file); [|done].
      intros x [Hx| ->%list_elem_of_singleton]%elem_of_app; [by apply Hsongs|].
      exists c. split; [right; apply Hsec, list_elem_of_here|done]. }
    specialize (Hloop (cue_Load E matching_cue path) [] (λ c Hc, Hc)
                  (λ x Hx, False_ind _ (proj1 (elem_of_nil x) Hx))).
    cbn zeta in Hloop.
    destruct (nonempty _); cbn [fst]; apply Hloop.
  - destruct (Song.is_valid _); cbn [fst]; [|by intros ?%elem_of_nil].
    intros ->%list_elem_of_singleton. eexists.
    split; [left; eexists; reflexivity|done].
Qed.

Lemma add_new_songs_files P (f : ScanTransaction → Song.t → Song.t) songs :
  (∀ t s, s ∈ songs → P (f t s)) →
  ∀ t0 t, files_songs P t0 t →
          files_songs P t0
            (fold_left (λ t song, set_new_songs (new_songs t ++ [f t song]) t)
                       songs t).
Proof.
  induction songs as [|song songs IH]; intros Hf t0 t Ht; [done|].
  cbn [fold_left]. apply IH.
  - intros t1 s Hs. by apply Hf, list_elem_of_further.
  - eapply files_songs_trans; [exact Ht|].
    apply files_new_song, Hf, list_elem_of_here.
Qed.

(** One artwork query: its image is the image of the directory; it runs
    the selection only over a list of other than one candidate, and
    then leaves the image chosen as the only candidate. *)
Lemma ImageForSong_pick w file album_art :
  ∃ picked : bool,
    (ImageForSong E w file album_art).1.1
    = directory_image E w (default [] (album_art !! DirectoryPart E file))
    ∧ filter is_PickBest (ImageForSong E w file album_art).2
      = (if picked
         then [PickBest (default [] (album_art !! DirectoryPart E file))]
         else [])
    ∧ (if picked
       then (∃ images, album_art !! DirectoryPart E file = Some images
                       ∧ length images ≠ 1%nat)
            ∧ (ImageForSong E w file album_art).1.2
              = <[DirectoryPart E file :=
                    [directory_image E w
                       (default [] (album_art !! DirectoryPart E file))]]>
                  album_art
       else (ImageForSong E w file album_art).1.2 = album_art).
Proof.
  unfold ImageForSong.
  destruct (album_art !! DirectoryPart E file) as [images|] eqn:Hl;
    [|by exists false].
  destruct (length images =? 1)%nat eqn:Hlen.
  - exists false. destruct images as [|a [|]]; try discriminate. done.
  - exists true. apply Nat.eqb_neq in Hlen.
    assert ((PickBestImage E w images).1 = directory_image E w images) as Hbest.
    { destruct images as [|a [|b rest]]; [apply PickBestImage_nil|done|done]. }
    assert (filter is_PickBest (PickBestImage E w images).2 = []) as Hprobes.
    { unfold PickBestImage. by rewrite pick_biggest_decodes. }
    destruct (PickBestImage E w images) as [best probes].
    cbn [fst snd default from_option id] in *. subst best.
    split; [done|]. split; [by rewrite filter_cons_True, Hprobes by done|].
    split; [by exists images|done].
Qed.

(** One file of the file loop. *)
Lemma scan_file_artwork w path songs_in_db file t files_on_disk album_art cues :
  ∃ (picked : bool) added,
    trace (scan_file E w path songs_in_db file
             (t, files_on_disk, album_art, cues)).1.1.1 = trace t ++ added
    ∧ filter is_PickBest added
      = (if picked
         then [PickBest (default [] (album_art !! DirectoryPart E file))]
         else [])
    ∧ (if picked
       then (∃ images, album_art !! DirectoryPart E file = Some images
                       ∧ length images ≠ 1%nat)
            ∧ (scan_file E w path songs_in_db file
                 (t, files_on_disk, album_art, cues)).1.2
              = <[DirectoryPart E file :=
                    [directory_image E w
                       (default [] (album_art !! DirectoryPart E file))]]>
                  album_art
       else (scan_file E w path songs_in_db file
               (t, files_on_disk, album_art, cues)).1.2 = album_art)
    ∧ ∃ added_new added_touched,
        new_songs (scan_file E w path songs_in_db file
                     (t, files_on_disk, album_art, cues)).1.1.1
        = new_songs t ++ added_new
        ∧ touched_songs (scan_file E w path songs_in_db file
                           (t, files_on_disk, album_art, cues)).1.1.1
          = touched_songs t ++ added_touched
        ∧ ∀ x, x ∈ added_new ++ added_touched →
               art_from E path file
                 (directory_image E w
                    (default [] (album_art !! DirectoryPart E file))) x.
Proof.
  set (image0 := directory_image E w
                   (default [] (album_art !! DirectoryPart E file))).
  (* a file that is only credited *)
  assert (∀ t0 : ScanTransaction,
            trace t0 = trace t → new_songs t0 = new_songs t →
            touched_songs t0 = touched_songs t →
            ∃ (picked : bool) added,
              trace (AddToProgress 1 t0) = trace t ++ added
              ∧ filter is_PickBest added
                = (if picked
                   then [PickBest (default [] (album_art !! DirectoryPart E file))]
                   else [])
              ∧ (if picked
                 then (∃ images, album_art !! DirectoryPart E file = Some images
                                 ∧ length images ≠ 1%nat)
                      ∧ album_art = <[DirectoryPart E file := [image0]]> album_art
                 else album_art = album_art)
              ∧ ∃ added_new added_touched,
                  new_songs (AddToProgress 1 t0) = new_songs t ++ added_new
                  ∧ touched_songs (AddToProgress 1 t0)
                    = touched_songs t ++ added_touched
                  ∧ ∀ x, x ∈ added_new ++ added_touched →
                         art_from E path file image0 x) as Hplain.
  { intros t0 Ht Hn Hc. exists false. eexists.
    unfold AddToProgress. record_simpl. rewrite Ht, Hn, Hc.
    split; [reflexivity|]. split; [done|]. split; [done|].
    exists [], []. rewrite !app_nil_r. split; [done|]. split; [done|].
    by intros x ?%elem_of_nil. }
  (* a file that asks for its image and files songs *)
  assert (∀ t0 : ScanTransaction,
            files_songs (art_from E path file image0)
              (probe (ImageForSong E w file album_art).2 t) t0 →
            ∃ (picked : bool) added,
              trace (AddToProgress 1 t0) = trace t ++ added
              ∧ filter is_PickBest added
                = (if picked
                   then [PickBest (default [] (album_art !! DirectoryPart E file))]
                   else [])
              ∧ (if picked
                 then (∃ images, album_art !! DirectoryPart E file = Some images
                                 ∧ length images ≠ 1%nat)
                      ∧ (ImageForSong E w file album_art).1.2
                        = <[DirectoryPart E file := [image0]]> album_art
                 else (ImageForSong E w file album_art).1.2 = album_art)
              ∧ ∃ added_new added_touched,
                  new_songs (AddToProgress 1 t0) = new_songs t ++ added_new
                  ∧ touched_songs (AddToProgress 1 t0)
                    = touched_songs t ++ added_touched
                  ∧ ∀ x, x ∈ added_new ++ added_touched →
                         art_from E path file image0 x) as Hasked.
  { intros t0 (Ht & an & ac & Hn & Hc & HP).
    destruct (ImageForSong_pick w file album_art) as (picked & _ & Hpick & Haa).
    exists picked. eexists.
    unfold AddToProgress. record_simpl. rewrite Ht.
    split; [by rewrite <- app_assoc|].
    split; [by rewrite filter_app, Hpick, app_nil_r|].
    split; [exact Haa|]. by exists an, ac. }
  unfold scan_file.
  destruct (FindSongByPath songs_in_db file) as [matching_song|].
  - destruct (fs_exists E file); cbn [negb]; [|cbn [fst snd]; by apply Hplain].
    cbn zeta.
    pose proof (ImageForSong_pick w file album_art) as (_ & Himage & _).
    destruct (ImageForSong E w file album_art) as [[image album_art'] probes].
    cbn [fst snd] in Himage, Hasked |- *. fold image0 in Himage. subst image.
    apply Hasked.
    set (t1 := if _ || _ || _ then _ else probe probes t).
    assert (files_songs (art_from E path file image0) (probe probes t) t1) as Ht1.
    { subst t1. destruct (_ || _ || _); [|apply files_songs_refl].
      apply update_matched_files. }
    destruct (Song.is_unavailable matching_song); [|done].
    eapply files_songs_trans; [exact Ht1|]. by apply files_songs_none.
  - cbn zeta.
    destruct (if song_tracking_ w && _ && _ then _ else None) as [matching_song|].
    + set (t1 := set_files_changed_path_ _ t).
      set (t2 := if Song.list_contains _ matching_song then _ else t1).
      assert (trace t2 = trace t ∧ new_songs t2 = new_songs t
              ∧ touched_songs t2 = touched_songs t) as (Ht2 & Hn2 & Hc2).
      { subst t2. by destruct (Song.list_contains _ _). }
      destruct (fs_exists E file); cbn [negb]; [|cbn [fst snd]; by apply Hplain].
      cbn zeta.
      pose proof (ImageForSong_pick w file album_art) as (_ & Himage & _).
      destruct (ImageForSong E w file album_art) as [[image album_art'] probes].
      cbn [fst snd] in Himage, Hasked |- *. fold image0 in Himage. subst image.
      apply Hasked.
      match goal with
      | |- files_songs _ _ (if _ then set_readded_songs _ ?u else _) =>
          assert (files_songs (art_from E path file image0) (probe probes t) u)
            as Ht3
      end.
      { eapply files_songs_trans; [|apply update_matched_files].
        apply files_songs_none; record_simpl; by rewrite ?Ht2, ?Hn2, ?Hc2. }
      destruct (Song.is_unavailable _); [|exact Ht3].
      eapply files_songs_trans; [exact Ht3|]. by apply files_songs_none.
    + pose proof (ScanNewFile_reader w file path (file_fingerprint E w file) cues)
        as Hread.
      destruct (ScanNewFile E w file path (file_fingerprint E w file) _ cues)
        as [songs cues']. cbn [fst] in Hread.
      destruct (negb (nonempty songs)); [cbn [fst snd]; by apply Hplain|].
      pose proof (ImageForSong_pick w file album_art) as (_ & Himage & _).
      destruct (ImageForSong E w file album_art) as [[image album_art'] probes].
      cbn [fst snd] in Himage, Hasked |- *. fold image0 in Himage. subst image.
      apply Hasked.
      apply (add_new_songs_files (art_from E path file image0)
               (λ t song,
                  let song := Song.set_directory_id (dir_ t) song in
                  if QString.isEmpty (Song.art_automatic song)
                  then Song.set_art_automatic image0 song else song));
        [|apply files_songs_refl].
      intros t0 s Hs. cbn zeta.
      destruct (Hread s Hs) as (r & Hr & Hart). exists r. split; [done|].
      change (Song.art_automatic (Song.set_directory_id (dir_ t0) s))
        with (Song.art_automatic s).
      destruct (QString.isEmpty (Song.art_automatic s)) eqn:Hempty.
      * left. split; [done|]. right. by rewrite <- Hart.
      * right. split; [done|]. right; left. by rewrite <- Hart.
Qed.

Lemma fmap_ext_elem {A B} (f g : A → B) (l : list A) :
  (∀ x, x ∈ l → f x = g x) → f <$> l = g <$> l.
Proof.
  induction l as [|a l IH]; intros Hfg; [done|]. rewrite !fmap_cons.
  rewrite (Hfg a) by apply list_elem_of_here.
  rewrite IH; [done|]. intros x Hx. by apply Hfg, list_elem_of_further.
Qed.

(** C9, as the code has it.  Over the candidate images of one walk of a
    directory, the file loop gives every song it files, as new or as
    touched, the image of the directory of its file as automatic
    artwork, and then the song was read without an embedded cover or
    without artwork; or it leaves the song the artwork the tag reader or
    the cue parser gave, and then the song was read with an embedded
    cover or with artwork, or is a section of the cue sheet of the file.
    The image of a directory is the same for all its files.  The
    selection among several candidates runs at most once for a
    directory, over the candidates the loop started with, and only for a
    directory of a file of the loop with other than one candidate; it
    leaves the image chosen as the only candidate of the directory, and
    the candidates of the other directories as they were. *)
Theorem scan_files_shares_directory_image (w : CollectionWatcher)
    (path : string) (songs_in_db : list Song.t) (files : list string) :
  stop_requested_ w = false →
  ∀ (t : ScanTransaction) (files_on_disk : list string)
    (album_art : gmap string (list string)) (cues_processed : gset string),
  ∃ t' files_on_disk' album_art' cues' added_new added_touched added picks,
    scan_files E w path songs_in_db files
      (t, files_on_disk, album_art, cues_processed)
    = Next (t', files_on_disk', album_art', cues')
    ∧ new_songs t' = new_songs t ++ added_new
    ∧ touched_songs t' = touched_songs t ++ added_touched
    ∧ (∀ x, x ∈ added_new ++ added_touched →
            ∃ file, file ∈ files
                    ∧ art_from E path file
                        (directory_image E w
                           (default [] (album_art !! DirectoryPart E file))) x)
    ∧ trace t' = trace t ++ added
    ∧ filter is_PickBest added
      = (λ dir, PickBest (default [] (album_art !! dir))) <$> picks
    ∧ NoDup picks
    ∧ (∀ dir, dir ∈ picks →
              (∃ file, file ∈ files ∧ DirectoryPart E file = dir)
              ∧ (∃ images, album_art !! dir = Some images ∧ length images ≠ 1%nat)
              ∧ album_art' !! dir
                = Some [directory_image E w (default [] (album_art !! dir))])
    ∧ (∀ dir, dir ∉ picks → album_art' !! dir = album_art !! dir).
Proof.
  intros Hstop. induction files as [|file rest IH];
    intros t files_on_disk album_art cues_processed.
  { exists t, files_on_disk, album_art, cues_processed, [], [], [], [].
    rewrite !app_nil_r. split; [done|]. split; [done|]. split; [done|].
    split; [by intros x ?%elem_of_nil|]. split; [done|]. split; [done|].
    split; [constructor|]. split; [by intros d ?%elem_of_nil|done]. }
  cbn [scan_files]. rewrite Hstop.
  destruct (scan_file_artwork w path songs_in_db file t files_on_disk album_art
              cues_processed)
    as (picked & added1 & Htrace1 & Hpick1 & Haa1 & an1 & ac1 & Hn1 & Hc1 & HP1).
  destruct (scan_file E w path songs_in_db file
              (t, files_on_disk, album_art, cues_processed))
    as [[[t1 fod1] aa1] cues1]. cbn [fst snd] in *.
  destruct (IH t1 fod1 aa1 cues1)
    as (t' & fod' & aa' & cues' & an2 & ac2 & added2 & picks2 & -> & Hn2 & Hc2
        & HP2 & Htrace2 & Hpick2 & Hnodup2 & Hin2 & Hout2).
  set (d := DirectoryPart E file) in *.
  (* what the first file leaves of the candidates *)
  assert (∀ dir, directory_image E w (default [] (aa1 !! dir))
                 = directory_image E w (default [] (album_art !! dir))) as Himg.
  { intros dir. destruct picked; [|by rewrite Haa1].
    destruct Haa1 as [_ ->].
    destruct (String.eqb_spec d dir) as [<-|Hne].
    - by rewrite lookup_insert_eq.
    - by rewrite lookup_insert_ne. }
  assert (∀ dir, dir ∈ picks2 →
                 (picked = true → dir ≠ d) ∧ aa1 !! dir = album_art !! dir)
    as Hother.
  { intros dir Hdir. destruct (Hin2 dir Hdir) as (_ & (images & Himages & Hlen) & _).
    destruct picked; [|by rewrite Haa1].
    destruct Haa1 as [_ ->].
    destruct (String.eqb_spec d dir) as [<-|Hne].
    - rewrite lookup_insert_eq in Himages. by injection Himages as <-.
    - split; [by intros _ ->|by rewrite lookup_insert_ne]. }
  exists t', fod', aa', cues', (an1 ++ an2), (ac1 ++ ac2), (added1 ++ added2),
    ((if picked then [d] else []) ++ picks2).
  split; [done|].
  split; [by rewrite Hn2, Hn1, <- app_assoc|].
  split; [by rewrite Hc2, Hc1, <- app_assoc|].
  split.
  { intros x Hx. rewrite !elem_of_app in Hx.
    assert (x ∈ an1 ++ ac1 ∨ x ∈ an2 ++ ac2) as [H1|H2]
      by (rewrite !elem_of_app; tauto).
    - exists file. split; [apply list_elem_of_here|by apply HP1].
    - destruct (HP2 x H2) as (f & Hf & Hart). exists f.
      split; [by apply list_elem_of_further|]. by rewrite <- Himg. }
  split; [by rewrite Htrace2, Htrace1, <- app_assoc|].
  split.
  { rewrite filter_app, Hpick1, Hpick2, fmap_app. f_equal; [by destruct picked|].
    apply fmap_ext_elem. intros dir Hdir.
    by rewrite (proj2 (Hother dir Hdir)). }
  split.
  { destruct picked; [|done]. cbn [app]. constructor; [|done].
    intros Hd. by destruct (proj1 (Hother d Hd) eq_refl). }
  split.
  - intros dir [Hdir|Hdir]%elem_of_app.
    + destruct picked; [|by apply elem_of_nil in Hdir].
      apply list_elem_of_singleton in Hdir as ->.
      destruct Haa1 as [Himages Haa1].
      split; [exists file; split; [apply list_elem_of_here|done]|].
      split; [done|].
      rewrite Hout2.
      * rewrite Haa1. apply lookup_insert_eq.
      * intros Hd. by destruct (proj1 (Hother d Hd) eq_refl).
    + destruct (Hin2 dir Hdir) as ((f & Hf & Hfd) & (images & Himages & Hlen) & Haa').
      destruct (Hother dir Hdir) as [_ Hsame].
      split; [exists f; split; [by apply list_elem_of_further|done]|].
      split; [exists images; by rewrite <- Hsame|].
      by rewrite Haa', Hsame.
  - intros dir Hdir. rewrite elem_of_app in Hdir.
    rewrite Hout2 by tauto.
    destruct picked; [|by rewrite Haa1].
    destruct Haa1 as [_ ->]. rewrite lookup_insert_ne; [done|].
    intros ->. apply Hdir. left. apply list_elem_of_here.
Qed.

End ArtworkOfAWalk.

Lemma scan_files_shares_directory_image_witness :
  let E := embedded_cover_env in
  let w := music_watcher in
  let files := ["/music/a.mp3"; "/music/b.mp3"] in
  let album_art : gmap string (list string) :=
    {[ "/music" := ["/music/cover_small.jpg"; "/music/front_big.jpg"] ]} in
  let t := music_transaction in
  ∃ t' files_on_disk' album_art' cues' added_new added_touched added picks,
    scan_files E w "/music" [] files (t, files, album_art, ∅)
    = Next (t', files_on_disk', album_art', cues')
    ∧ new_songs t' = new_songs t ++ added_new
    ∧ touched_songs t' = touched_songs t ++ added_touched
    ∧ (∀ x, x ∈ added_new ++ added_touched →
            ∃ file, file ∈ files
                    ∧ art_from E "/music" file
                        (directory_image E w
                           (default [] (album_art !! DirectoryPart E file))) x)
    ∧ trace t' = trace t ++ added
    ∧ filter is_PickBest added
      = (λ dir, PickBest (default [] (album_art !! dir))) <$> picks
    ∧ NoDup picks
    ∧ (∀ dir, dir ∈ picks →
              (∃ file, file ∈ files ∧ DirectoryPart E file = dir)
              ∧ (∃ images, album_art !! dir = Some images ∧ length images ≠ 1%nat)
              ∧ album_art' !! dir
                = Some [directory_image E w (default [] (album_art !! dir))])
    ∧ (∀ dir, dir ∉ picks → album_art' !! dir = album_art !! dir).
Proof.
  intros E w files album_art t.
  apply (scan_files_shares_directory_image E w "/music" [] files).
  reflexivity.
Defined.

(** C9 as stated fails: the songs of one directory need not get the same
    automatic artwork.  One walk of "/music", which holds two tracks and
    two images, files a.mp3 with the image chosen for the directory and
    b.mp3, whose tags carry a cover, with the artwork the tag reader
    gave. *)
Lemma songs_of_one_directory_differ_in_artwork :
  let E := embedded_cover_env in
  ∃ t', ScanSubdirectory E 1 music_watcher "/music" (Subdirectory.mk 1 "/music" 0)
          0 music_transaction false = Some t'
        ∧ map (λ song, (Song.url song, Song.art_automatic song)) (new_songs t')
          = [("/music/a.mp3", "/music/front_big.jpg");
             ("/music/b.mp3", "(embedded)")]
        ∧ DirectoryPart E "/music/a.mp3" = DirectoryPart E "/music/b.mp3".
Proof.
  cbn zeta. eexists. split; [vm_compute; reflexivity|].
  split; vm_compute; reflexivity.
Qed.
